(* ===== verification/_CoqProject ===== *)
-Q . S2P
Prelude.v
GoStrings.v
Router.v
GoNet.v
Protocol.v
Config.v
GoFloat.v
Metrics.v
Exporter.v
Health.v
Prog.v
Handler.v
Server.v
Reload.v
Discovery.v
Main.v
EndToEnd.v
System.v
Scheduler.v
Process.v
Liveness.v
