(* ===== verification/Prelude.v ===== *)
(** * ZeroSock: a SOCKS5 router with health-checked backends

    ZeroSock accepts SOCKS5 clients, maps the host they ask for to a pool of
    backends, connects to one of the live backends of the pool, and copies bytes
    both ways.  A health checker moves backends in and out of the rotation; the
    configuration can be reloaded, and unknown hosts can be discovered and
    written into it while the process runs.  This library translates that
    program into Rocq definitions and proves what makes it correct.  File and
    function names below are those of the repository's Go sources.

    ** The parts and how they interact

    - [Prelude] (this file): machine integers ([wrap64], [swrap64]), bytes,
      Go errors ([goerror], with [errors_Is] for [errors.Is]), the outcome of a
      Go call ([result]: a value, an error, or a run-time panic), the iteration
      order of a Go map ([range_order]), and the shared automation.
    - [GoStrings], [GoFloat], [GoNet]: what the program uses of the Go standard
      library: [strings], [strconv], the verbs [%q], [%d] and [%g], the text of
      durations, [net.IP], [net.ParseIP], [net.JoinHostPort], and a stream connection with
      [io.ReadFull] and [Write].
    - [Router] (internal/router/pool.go): [New], [Pick], [SetBackendAlive],
      [HostForBackendAddr], [Snapshot], [normalizeHost].  A [*Router] is a record of
      pools and of the reverse index; the atomic counter and flags are single
      updates in the sequential operations, and separate steps in the
      step relation [istep].
    - [Protocol] (internal/socks/protocol.go): [handleHandshake], [readRequest],
      [writeFailureReply], [writeSuccessReply], over the connection of [GoNet].
    - [Config] (internal/config/config.go): the YAML-shaped [Config],
      [normalizeAndValidate] into [RuntimeConfig], [AddAutoDiscoveredRoute],
      [Load], [LoadRaw], [Save].
    - [Metrics] (internal/metrics/collector.go): every counter of the collector
      and [RenderPrometheusText].
    - [Exporter] (internal/metrics/exporter.go): the handler of [/metrics], and
      the goroutines of [StartHTTP] with the error channel between them and the
      main loop ([exporter_step], [receive]).
    - [Health] (internal/health/checker.go): [Start], the worker loop and
      [probe], which writes into a router and a collector.
    - [Prog]: trees of atomic effects.  One definition of the handler is run
      alone ([exec]), against arbitrary answers ([runs]), and interleaved with
      other handlers; [conforms] and [preserves] are the proof rules.
    - [Handler] (internal/socks/handler.go): [handleConnection], [DialRoute],
      [relay], [copyHalf] and [serveClient] (of server.go) as such trees.  The
      two goroutines of [relay] are also given as interleaved steps
      ([half_step]).
    - [Server] (internal/socks/server.go): the state the connection goroutines
      share (the installed routers, the two semaphores, the wait group, the
      collector, the log), what each effect does to it ([respond]), and the
      relation [step]: any interleaving of accepted connections, their
      effects, health results, router updates and [Shutdown].
    - [Reload] (cmd/zerosock/reload.go): [buildReloadTarget],
      [applyReloadPolicy], [reload], and the health checkers started so far.
    - [Discovery] (cmd/zerosock/discovery.go): [Discover] as a function of the
      file and the runtime state, and as the atomic steps that concurrent calls
      interleave ([calls_step]).
    - [Main] (cmd/zerosock/main.go): [validateConfig], [run] (start-up, the
      select loop, the shutdown, for any sequence of events) and [main].
    - [EndToEnd]: the handler over the protocol, the router and the shared
      state, from the client's bytes to the bytes it receives.
    - [System]: all goroutines together, as one step relation.  A connection
      goroutine that meets an unknown host goes through the stages of
      [Discovery], sends a reload request over a channel of capacity four and
      waits; the main goroutine receives signals, the ends of the listener and
      of the metrics endpoint, and reload requests ([delivers]); health workers
      and the endpoint move in between, and anybody may edit the file.  A panic
      in any goroutine, the one of [time.NewTicker] in a health worker included,
      is the step [Crash], which ends the process.  [view] is the process as
      [Server] sees it, and [step_view] the simulation.
    - [Scheduler]: an executable scheduler of [System] ([play]), sound for its
      steps, and the sample runs the witnesses use.
    - [Process]: the invariants of the whole process and its safety.
    - [Liveness]: the work each goroutine has left, the queue of reload
      requests, and that sessions finish.

    The handler calls the router, the discoverer and the metrics through
    effects, so that its theorems hold for every answer; [Server.respond] gives
    the answers of the router, the protocol, the semaphores and the metrics,
    and leaves those of the discoverer and the network to the environment; the
    discoverer itself is [Discovery.Discover].  A reload installs a new router beside
    the old ones, because a connection may still hold an old one: a handler's
    router is an index into that list.

    ** What the theorems show

    - The whole process: [Process.process_safe] (only addresses that the
      configuration file listed are dialed, no panic), [process_refines_server]
      (what each step does to the server: one effect of a goroutine, the router
      of a reload, a shutdown; and what holds of all reachable states of the
      server holds of the process), [never_crashes] (no goroutine panics, as
      long as the resolver is consistent and no file asks for an interval of
      more than 9223372036854 ms), [exit_status] (status zero means that a
      termination signal came first), [backends_watched];
      [Liveness.sessions_finish] (between two outside events the process comes
      to rest, and at rest in its loop every session has ended),
      [requests_served], and what goes wrong after the loop,
      [stranded_discovery].
    - The running server: [Server.server_safe] and [Server.server_counters]
      in every reachable state (the slots, the gauge and the wait group count
      the goroutines that hold them, where a goroutine is being read off what
      it does next; so the limits hold for clients and for dials in progress),
      [Server.server_metrics] (the counters keep their machine type),
      [Server.serveClient_terminates] (and it gets there: it leaves the routing
      loop, and releases everything); [Handler.handleConnection_session] (a
      run follows the session protocol and ends),
      [Handler.handleConnection_accounted] (its metrics),
      [Handler.relay_interleavings].
    - The session as the client sees it: [EndToEnd.session_end_to_end].
    - Routing: [Router.Pick_selects], [picks_round], [Pick_safe],
      [interleaved_picks], [SetBackendAlive_spec], [SetBackendAlive_removes],
      [New_correct] (pools and reverse index, and what of them depends on the
      order of the map iteration), [New_succeeds_iff], [HostForBackendAddr_exact],
      [router_wf_preserved], and the limit of the 64-bit ticket counter,
      [Pick_wrap_misses_backend].
    - The wire format: [Protocol.readRequest_exact] (the parser accepts exactly
      the RFC 1928 encodings it supports), [readRequest_replies] (its reply on
      every branch), [handleHandshake_greeting], [handleHandshake_accepts],
      [writeSuccessReply_bytes].
    - Configuration: [Config.validated_config], [routes_match_groups],
      [validation_no_panic], [durationFromMS_bounds],
      [AddAutoDiscoveredRoute_spec].
    - Health: [Health.health_covers_router] (every routed backend is probed),
      [probe_updates], [workers_do_not_panic].
    - Reload, discovery and the process: [Reload.reload_spec],
      [applyReloadPolicy_spec], [Discovery.discover_routes],
      [discover_exclusive], [discover_alone] (what a call leaves behind on every
      branch), [Main.run_lifecycle],
      [Main.validateConfig_agrees], [Main.main_outcome].
    - Metrics: [Exporter.errCh_protocol] (what a reader of the endpoint's
      channel gets), [Metrics.writeLabelCounters_lines], [request_labels_roundtrip],
      and the families without that protection, [metrics_line_injection].

    Some theorems record behaviour that is probably not intended:
    [Router.duplicate_backend_survives], [Config.discovery_overwrites_group],
    [Health.zero_interval_panics], [Metrics.metrics_duplicate_series],
    [Handler.dial_reason_from_host], [Discovery.discoveries_lose_update],
    [Process.shutdown_before_listen].

    ** Fuel and bounds

    The routing loop of [handleConnection] has fuel [loop_fuel] = 2: only the
    attempt numbered 0 can continue it, and [handleConnection_session] shows
    that the fuel is never used up.  [serveClient] does not cover up for the
    fuel: out of it, it stops with [None] and releases nothing, and
    [serveClient_terminates] excludes that.  A [Discover] call takes at most six atomic
    steps ([discover_alone]).  A connection goroutine performs at most
    [session_bound] = 73 effects; [Liveness] gives each goroutine ten times its
    effects left plus the stages left of its call as a weight, which every one
    of its steps decreases, as does serving a request.  The scans of the router recurse on the number of
    backends.  Counters, tickets and durations wrap at their width.

    ** Parameters and what is not modelled

    The Unicode tables above ASCII ([UnicodeTables]) and the YAML codec
    ([Yaml]) are classes; the only law used of the codec is [yaml_roundtrip],
    and witnesses instantiate it.  The resolver, the order of map iterations,
    the clock, and the results of dials, copies, probes and writes are
    arguments or are chosen freely by the step relations.  A read of the file
    during a write is not modelled: reading and writing a file are atomic.
    An effect of a goroutine, a copy of one direction included, is one step that
    is answered: how long the network takes is not modelled, so termination is
    in the number of steps.  [ListenAndServe] of [net/http] is used through its
    documentation: it returns an error always, and [ErrServerClosed] only after
    [Shutdown].
    Not modelled: socket options without an observable effect, the routing of
    HTTP requests by [net/http], the parsing of flags, the registration of
    signals and the destination of the log in [main], and the load tests and
    scripts. *)
From stdpp Require Export gmap strings list fin_maps sorting pretty relations.
From Stdlib Require Export ZArith Lia.
From Stdlib Require Export Strings.Byte.

(** ** Machine integers

    Go's [uint64] and [int64] are [Z] values; every operation that can leave
    the range is followed by one of these two reductions. *)
Definition wrap64 (z : Z) : Z := (z mod 2 ^ 64)%Z.
Definition swrap64 (z : Z) : Z := ((z + 2 ^ 63) mod 2 ^ 64 - 2 ^ 63)%Z.
Definition wrap16 (z : Z) : Z := (z mod 2 ^ 16)%Z.

Definition in_u64 (z : Z) : Prop := (0 ≤ z < 2 ^ 64)%Z.
Definition in_i64 (z : Z) : Prop := (- 2 ^ 63 ≤ z < 2 ^ 63)%Z.

Lemma wrap64_range z : in_u64 (wrap64 z).
Proof. apply Z.mod_pos_bound. lia. Qed.

Lemma swrap64_range z : in_i64 (swrap64 z).
Proof.
  unfold in_i64, swrap64.
  pose proof (Z.mod_pos_bound (z + 2 ^ 63) (2 ^ 64) ltac:(lia)). lia.
Qed.

Lemma wrap64_id z : in_u64 z → wrap64 z = z.
Proof. intros H. unfold wrap64. by apply Z.mod_small. Qed.

Lemma swrap64_id z : in_i64 z → swrap64 z = z.
Proof.
  unfold in_i64, swrap64. intros H. rewrite Z.mod_small by lia. lia.
Qed.

Lemma wrap64_add_l a b : wrap64 (wrap64 a + b) = wrap64 (a + b).
Proof. unfold wrap64. by rewrite Z.add_mod_idemp_l by lia. Qed.

(** ** Bytes *)

Abbreviation bytes := (list byte).

#[export] Instance byte_eq_dec : EqDecision byte := Byte.byte_eq_dec.

(** The value of a byte as Go's [uint8]. *)
Definition bval (b : byte) : Z := Z.of_N (Byte.to_N b).

(** [byte(z)]: conversion of an integer to [uint8] keeps the low 8 bits. *)
Definition to_byte (z : Z) : byte :=
  default Byte.x00 (Byte.of_N (Z.to_N (z mod 256)%Z)).

Lemma bval_range b : (0 ≤ bval b < 256)%Z.
Proof. unfold bval. pose proof (Byte.to_N_bounded b). lia. Qed.

Lemma bval_inj b1 b2 : bval b1 = bval b2 → b1 = b2.
Proof.
  unfold bval. intros H%N2Z.inj.
  pose proof (Byte.of_to_N b1) as E1. pose proof (Byte.of_to_N b2) as E2. congruence.
Qed.

Lemma bval_to_byte z : bval (to_byte z) = (z mod 256)%Z.
Proof.
  unfold bval, to_byte.
  pose proof (Z.mod_pos_bound z 256 ltac:(lia)) as Hz.
  destruct (Byte.of_N (Z.to_N (z mod 256))) as [b|] eqn:E; simpl.
  - apply Byte.to_of_N in E. rewrite E. lia.
  - apply Byte.of_N_None_iff in E. lia.
Qed.

Lemma to_byte_bval b : to_byte (bval b) = b.
Proof.
  apply bval_inj. rewrite bval_to_byte. apply Z.mod_small, bval_range.
Qed.

(** ** Strings and their bytes

    A Go string is an immutable byte sequence.  Values are Rocq [string]s (so
    that literals read like the source); byte-level code works on [bytes]. *)
Definition s2b (s : string) : bytes := String.list_byte_of_string s.
Definition b2s (l : bytes) : string := String.string_of_list_byte l.

Lemma b2s_s2b s : b2s (s2b s) = s.
Proof. apply String.string_of_list_byte_of_string. Qed.

Lemma s2b_b2s l : s2b (b2s l) = l.
Proof. apply String.list_byte_of_string_of_list_byte. Qed.

#[export] Instance s2b_inj : Inj (=) (=) s2b.
Proof. intros s t H. by rewrite <-(b2s_s2b s), <-(b2s_s2b t), H. Qed.

#[export] Instance b2s_inj : Inj (=) (=) b2s.
Proof. intros s t H. by rewrite <-(s2b_b2s s), <-(s2b_b2s t), H. Qed.

Lemma s2b_app s t : s2b (s +:+ t) = s2b s ++ s2b t.
Proof.
  induction s as [|c s IH]; [done|].
  change (s2b (String c s +:+ t)) with (Ascii.byte_of_ascii c :: s2b (s +:+ t)).
  by rewrite IH.
Qed.

Lemma b2s_app l k : b2s (l ++ k) = b2s l +:+ b2s k.
Proof. apply (inj s2b). by rewrite s2b_app, !s2b_b2s. Qed.

Lemma string_app_assoc (s t u : string) : (s +:+ t) +:+ u = s +:+ (t +:+ u).
Proof. apply (inj s2b). by rewrite !s2b_app, app_assoc. Qed.

Lemma string_app_nil_r (s : string) : s +:+ "" = s.
Proof. apply (inj s2b). rewrite s2b_app. apply app_nil_r. Qed.

(** ** Go error values

    [ErrSentinel] are the package-level error values compared by identity,
    [ErrMsg] is any other leaf error (from [errors.New], [fmt.Errorf] without
    [%w], or the operating system), [ErrWrap] is [fmt.Errorf] with [%w]: the
    complete message and the wrapped error. *)
Inductive sentinel : Set :=
  | SEOF | SUnexpectedEOF | SNetClosed | SOsClosed | SServerClosed | SRouteNotFound | SNoAliveBackends.

#[export] Instance sentinel_eq_dec : EqDecision sentinel.
Proof. solve_decision. Defined.

Inductive goerror : Set :=
  | ErrSentinel (e : sentinel)
  | ErrMsg (msg : string)
  | ErrWrap (msg : string) (inner : goerror).

#[export] Instance goerror_eq_dec : EqDecision goerror.
Proof. solve_decision. Defined.

Definition sentinel_text (e : sentinel) : string :=
  match e with
  | SEOF => "EOF"
  | SUnexpectedEOF => "unexpected EOF"
  | SNetClosed => "use of closed network connection"
  | SOsClosed => "file already closed"
  | SServerClosed => "http: Server closed"
  | SRouteNotFound => "route not found"
  | SNoAliveBackends => "no alive backends"
  end.

(** [err.Error()] *)
Definition err_text (e : goerror) : string :=
  match e with
  | ErrSentinel s => sentinel_text s
  | ErrMsg m => m
  | ErrWrap m _ => m
  end.

(** [errors.Is(err, target)] for a sentinel target: walk the [%w] chain. *)
Fixpoint errors_Is (e : goerror) (target : sentinel) : bool :=
  match e with
  | ErrSentinel s => bool_decide (s = target)
  | ErrMsg _ => false
  | ErrWrap _ inner => errors_Is inner target
  end.

(** [fmt.Errorf(prefix + ": %w", err)] *)
Definition wrap_err (prefix : string) (e : goerror) : goerror :=
  ErrWrap (prefix +:+ ": " +:+ err_text e) e.

(** ** Results of a Go function: values, an error, or a run-time panic *)
Inductive result (A : Type) : Type :=
  | Ok (a : A)
  | Err (e : goerror)
  | Panic (why : string).
Arguments Ok {A} a.
Arguments Err {A} e.
Arguments Panic {A} why.

Definition rbind {A B} (m : result A) (f : A → result B) : result B :=
  match m with Ok a => f a | Err e => Err e | Panic w => Panic w end.

Declare Scope go_scope.
Delimit Scope go_scope with go.
Notation "'let!' x ':=' m 'in' k" := (rbind m (λ x, k))
  (at level 10, x name, m at level 100, k at level 200,
   format "'[v' 'let!'  x  ':='  m  'in' '/' k ']'") : go_scope.
#[global] Open Scope go_scope.

Lemma rbind_Ok {A B} (m : result A) (f : A → result B) b :
  rbind m f = Ok b ↔ ∃ a, m = Ok a ∧ f a = Ok b.
Proof. destruct m; cbn; split; [eauto|intros (? & [= ->] & ?); done|done|intros (? & ? & ?); done|done|intros (? & ? & ?); done]. Qed.

(** ** Go's map iteration

    [for k, v := range m] visits the entries of [m] once each, in an order the
    language leaves open.  A function of the source that ranges over a map
    takes the order of that run as an argument [ord]. *)
Definition range_order {V} (m : gmap string V) (ord : list (string * V)) : Prop :=
  ord ≡ₚ map_to_list m.

Lemma range_order_self {V} (m : gmap string V) : range_order m (map_to_list m).
Proof. unfold range_order. done. Qed.

Lemma range_order_elem {V} (m : gmap string V) ord k v :
  range_order m ord → (k, v) ∈ ord ↔ m !! k = Some v.
Proof. unfold range_order. intros ->. apply elem_of_map_to_list. Qed.

Lemma range_order_NoDup {V} (m : gmap string V) ord :
  range_order m ord → NoDup ord.*1.
Proof. unfold range_order. intros ->. apply NoDup_fst_map_to_list. Qed.

Lemma range_order_length {V} (m : gmap string V) ord :
  range_order m ord → length ord = size m.
Proof. unfold range_order. intros ->. apply length_map_to_list. Qed.

Lemma range_order_nil {V} (m : gmap string V) ord :
  range_order m ord → ord = [] ↔ m = ∅.
Proof.
  intros H. pose proof (range_order_length m ord H) as Hl. split.
  - intros ->. apply map_size_empty_inv. by rewrite <-Hl.
  - intros ->. rewrite map_size_empty in Hl. by apply length_zero_iff_nil.
Qed.

(** Keys of a map in the order [sort.Strings] gives them. *)
Definition sorted_keys {V} (ord : list (string * V)) : list string :=
  merge_sort String.le ord.*1.

(** Sorting the keys makes the iteration order of the map irrelevant. *)
Lemma sorted_keys_order {V} (m : gmap string V) ord1 ord2 :
  range_order m ord1 → range_order m ord2 → sorted_keys ord1 = sorted_keys ord2.
Proof.
  unfold range_order, sorted_keys. intros H1 H2.
  apply (StronglySorted_unique String.le).
  - apply StronglySorted_merge_sort; apply _.
  - apply StronglySorted_merge_sort; apply _.
  - rewrite !merge_sort_Permutation. by rewrite H1, H2.
Qed.

(** ** Reachability *)

(** An invariant of the steps holds in every reachable state. *)
Lemma rtc_preserve {A} (R : A → A → Prop) (I : A → Prop) x y :
  (∀ a b, R a b → I a → I b) → rtc R x y → I x → I y.
Proof. intros Hstep Hrun. induction Hrun; eauto. Qed.

(** ** Proof automation shared by the development *)

Create HintDb gosock discriminated.
Create Rewrite HintDb gostr.
#[export] Hint Resolve wrap64_range swrap64_range bval_range range_order_self : gosock.
#[export] Hint Rewrite @s2b_app @b2s_app s2b_b2s b2s_s2b : gostr.

(** Split every [match] and [if] of the goal or the hypotheses, discharging
    the branches that are contradictory. *)
Ltac break :=
  repeat first
    [ progress simplify_eq/=
    | case_decide
    | match goal with
      | H : context [match ?x with _ => _ end] |- _ =>
          lazymatch x with context [match _ with _ => _ end] => fail | _ => idtac end;
          let E := fresh "E" in destruct x eqn:E; try discriminate H
      | |- context [match ?x with _ => _ end] =>
          lazymatch x with context [match _ with _ => _ end] => fail | _ => idtac end;
          let E := fresh "E" in destruct x eqn:E
      end ].

(** Turn boolean tests into propositions. *)
Ltac bools :=
  repeat match goal with
    | H : _ && _ = true |- _ => apply andb_prop in H as [? ?]
    | H : _ || _ = false |- _ => apply orb_false_elim in H as [? ?]
    | H : negb _ = true |- _ => apply negb_true_iff in H
    | H : negb _ = false |- _ => apply negb_false_iff in H
    | H : bool_decide _ = true |- _ => apply bool_decide_eq_true in H
    | H : bool_decide _ = false |- _ => apply bool_decide_eq_false in H
    | H : (_ =? _)%Z = true |- _ => apply Z.eqb_eq in H
    | H : (_ =? _)%Z = false |- _ => apply Z.eqb_neq in H
    | H : (_ <=? _)%Z = true |- _ => apply Z.leb_le in H
    | H : (_ <=? _)%Z = false |- _ => apply Z.leb_gt in H
    | H : (_ <? _)%Z = true |- _ => apply Z.ltb_lt in H
    | H : (_ <? _)%Z = false |- _ => apply Z.ltb_ge in H
    | H : (_ =? _)%N = true |- _ => apply N.eqb_eq in H
    | H : (_ =? _)%N = false |- _ => apply N.eqb_neq in H
    | H : (_ <=? _)%N = true |- _ => apply N.leb_le in H
    | H : (_ <=? _)%N = false |- _ => apply N.leb_gt in H
    | H : (_ <? _)%N = true |- _ => apply N.ltb_lt in H
    | H : (_ <? _)%N = false |- _ => apply N.ltb_ge in H
    end.

(** Decide a closed proposition by evaluating its [Decision] instance. *)
Ltac decided :=
  match goal with |- ?P => apply (bool_decide_unpack P); vm_compute; exact I end.
