(* ===== verification/GoStrings.v ===== *)
(** * The parts of Go's [strings], [utf8], [unicode], [strconv] and [fmt] the
    program uses

    Byte-level definitions of [strings.ToLower], [TrimSpace], [TrimSuffix],
    [HasPrefix], [Contains], [ReplaceAll], [Split], [SplitN], [Join],
    [strconv.Quote] (the [%q] verb), [%d] and [time.Duration.String], with their
    lemmas.  The contents of the Unicode database above U+007F (lower-case
    mapping) and U+00FF (printability) are the only parameter: class
    [UnicodeTables]. *)
From S2P Require Import Prelude.

Class UnicodeTables := {
  table_lower : N → N;
  table_print : N → bool;
}.

(** A table pair with no entry above ASCII; used to evaluate examples. *)
Definition ascii_tables : UnicodeTables :=
  {| table_lower := λ r, r; table_print := λ _, true |}.

Local Open Scope N_scope.

(** ** UTF-8 *)

Definition RuneError : N := 65533.

Definition between (lo hi x : N) : bool := (lo <=? x) && (x <=? hi).

(** [utf8.DecodeRune]: the rune at the front and its width; an invalid
    sequence is [(RuneError, 1)]. *)
Definition decode_rune (l : bytes) : N * nat :=
  match l with
  | [] => (RuneError, 0%nat)
  | b0 :: r =>
      let c := Byte.to_N b0 in
      if c <? 0x80 then (c, 1%nat)
      else if between 0xC2 0xDF c then
        match r with
        | b1 :: _ =>
            let x := Byte.to_N b1 in
            if between 0x80 0xBF x then ((c - 0xC0) * 64 + (x - 0x80), 2%nat)
            else (RuneError, 1%nat)
        | _ => (RuneError, 1%nat)
        end
      else if between 0xE0 0xEF c then
        match r with
        | b1 :: b2 :: _ =>
            let x := Byte.to_N b1 in let y := Byte.to_N b2 in
            if between (if c =? 0xE0 then 0xA0 else 0x80)
                       (if c =? 0xED then 0x9F else 0xBF) x
               && between 0x80 0xBF y
            then ((c - 0xE0) * 4096 + (x - 0x80) * 64 + (y - 0x80), 3%nat)
            else (RuneError, 1%nat)
        | _ => (RuneError, 1%nat)
        end
      else if between 0xF0 0xF4 c then
        match r with
        | b1 :: b2 :: b3 :: _ =>
            let x := Byte.to_N b1 in let y := Byte.to_N b2 in let z := Byte.to_N b3 in
            if between (if c =? 0xF0 then 0x90 else 0x80)
                       (if c =? 0xF4 then 0x8F else 0xBF) x
               && between 0x80 0xBF y && between 0x80 0xBF z
            then ((c - 0xF0) * 262144 + (x - 0x80) * 4096 + (y - 0x80) * 64 + (z - 0x80), 4%nat)
            else (RuneError, 1%nat)
        | _ => (RuneError, 1%nat)
        end
      else (RuneError, 1%nat)
  end.

Definition nbyte (n : N) : byte := default Byte.x00 (Byte.of_N (n mod 256)).

(** [utf8.ValidRune] *)
Definition valid_rune (r : N) : bool :=
  (r <? 0xD800) || between 0xE000 0x10FFFF r.

(** [utf8.AppendRune]: an invalid rune is written as [RuneError]. *)
Definition encode_rune (r : N) : bytes :=
  let r := if valid_rune r then r else RuneError in
  if r <? 0x80 then [nbyte r]
  else if r <? 0x800 then [nbyte (0xC0 + r / 64); nbyte (0x80 + r mod 64)]
  else if r <? 0x10000 then
    [nbyte (0xE0 + r / 4096); nbyte (0x80 + (r / 64) mod 64); nbyte (0x80 + r mod 64)]
  else
    [nbyte (0xF0 + r / 262144); nbyte (0x80 + (r / 4096) mod 64);
     nbyte (0x80 + (r / 64) mod 64); nbyte (0x80 + r mod 64)].

(** [for _, c := range s]: the runes of a string with the bytes of each. *)
Fixpoint runes_go (fuel : nat) (l : bytes) : list (N * bytes) :=
  match fuel, l with
  | S fuel, _ :: _ =>
      let '(r, w) := decode_rune l in (r, take w l) :: runes_go fuel (drop w l)
  | _, _ => []
  end.
Definition runes (l : bytes) : list (N * bytes) := runes_go (length l) l.

Lemma decode_rune_width l : l ≠ [] → (1 ≤ (decode_rune l).2 ≤ length l)%nat.
Proof.
  intros Hl. destruct l as [|b0 r]; [done|]. unfold decode_rune.
  repeat case_match; simpl; lia.
Qed.

(** The chunks of [runes] are exactly the string: the fuel is enough. *)
Lemma runes_concat l : concat (runes l).*2 = l.
Proof.
  unfold runes. assert (length l ≤ length l)%nat as Hle by lia. revert Hle.
  generalize (length l) at 2 3 as n. intros n. revert l.
  induction n as [|n IH]; intros [|b l] Hle; try done; [simpl in Hle; lia|].
  pose proof (decode_rune_width (b :: l) ltac:(done)) as Hw.
  unfold runes_go; fold runes_go.
  destruct (decode_rune (b :: l)) as [r w]. cbn [fmap list_fmap fst snd concat] in *.
  rewrite IH; [apply take_drop|]. rewrite length_drop. simpl in *. lia.
Qed.

(** ** Case folding *)

Definition is_ascii (l : bytes) : bool := forallb (λ b, Byte.to_N b <? 0x80) l.

Definition lower_N (c : N) : N := if between 65 90 c then c + 32 else c.

Definition lower_byte (b : byte) : byte := nbyte (lower_N (Byte.to_N b)).

Section unicode.
Context `{UnicodeTables}.

(** [unicode.ToLower] *)
Definition unicode_ToLower (r : N) : N := if r <? 0x80 then lower_N r else table_lower r.

(** [strings.ToLower]: byte-wise on ASCII, otherwise [strings.Map]. *)
Definition to_lower (l : bytes) : bytes :=
  if is_ascii l then lower_byte <$> l
  else concat ((λ c, encode_rune (unicode_ToLower c.1)) <$> runes l).

(** [strconv.IsPrint] *)
Definition is_print (r : N) : bool :=
  if r <=? 0xFF then between 0x20 0x7E r || (between 0xA1 0xFF r && negb (r =? 0xAD))
  else table_print r.

Definition hex_digit (n : N) : byte :=
  let n := n mod 16 in nbyte (if n <? 10 then 48 + n else 87 + n).

Definition backslash : byte := Byte.x5c.

(** [appendEscapedRune], for the double quote and with both flags off *)
Definition escape_rune (r : N) : bytes :=
  if (r =? 34) || (r =? 92) then [backslash; nbyte r]
  else if is_print r then encode_rune r
  else if r =? 7 then [backslash; Byte.x61]
  else if r =? 8 then [backslash; Byte.x62]
  else if r =? 12 then [backslash; Byte.x66]
  else if r =? 10 then [backslash; Byte.x6e]
  else if r =? 13 then [backslash; Byte.x72]
  else if r =? 9 then [backslash; Byte.x74]
  else if r =? 11 then [backslash; Byte.x76]
  else if (r <? 32) || (r =? 127) then
    [backslash; Byte.x78; hex_digit (r / 16); hex_digit r]
  else
    let r := if valid_rune r then r else RuneError in
    if r <? 0x10000 then
      [backslash; Byte.x75; hex_digit (r / 4096); hex_digit (r / 256);
       hex_digit (r / 16); hex_digit r]
    else
      [backslash; Byte.x55; hex_digit (r / 268435456); hex_digit (r / 16777216);
       hex_digit (r / 1048576); hex_digit (r / 65536); hex_digit (r / 4096);
       hex_digit (r / 256); hex_digit (r / 16); hex_digit r].

Definition quote_chunk (c : N * bytes) : bytes :=
  match c with
  | (r, [b]) =>
      if (r =? RuneError) then
        [backslash; Byte.x78; hex_digit (Byte.to_N b / 16); hex_digit (Byte.to_N b)]
      else escape_rune r
  | (r, _) => escape_rune r
  end.

(** [strconv.Quote], the [%q] verb on a string *)
Definition quote (l : bytes) : bytes :=
  [Byte.x22] ++ concat (quote_chunk <$> runes l) ++ [Byte.x22].

Definition ToLower (s : string) : string := b2s (to_lower (s2b s)).
Definition Quote (s : string) : string := b2s (quote (s2b s)).

End unicode.

(** ** White space *)

(** The UTF-8 encodings of the code points [unicode.IsSpace] accepts. *)
Definition space_encodings : list bytes :=
  ((λ b, [b]) <$> [Byte.x09; Byte.x0a; Byte.x0b; Byte.x0c; Byte.x0d; Byte.x20]) ++
  [[Byte.xc2; Byte.x85]; [Byte.xc2; Byte.xa0]; [Byte.xe1; Byte.x9a; Byte.x80]] ++
  ((λ b, [Byte.xe2; Byte.x80; b]) <$>
     [Byte.x80; Byte.x81; Byte.x82; Byte.x83; Byte.x84; Byte.x85; Byte.x86; Byte.x87;
      Byte.x88; Byte.x89; Byte.x8a; Byte.xa8; Byte.xa9; Byte.xaf]) ++
  [[Byte.xe2; Byte.x81; Byte.x9f]; [Byte.xe3; Byte.x80; Byte.x80]].

Fixpoint strip_prefix (p l : bytes) : option bytes :=
  match p, l with
  | [], _ => Some l
  | b :: p, c :: l => if decide (b = c) then strip_prefix p l else None
  | _ :: _, [] => None
  end.

Fixpoint strip_any (ps : list bytes) (l : bytes) : option bytes :=
  match ps with
  | [] => None
  | p :: ps => match strip_prefix p l with Some r => Some r | None => strip_any ps l end
  end.

Fixpoint trim_front (ps : list bytes) (fuel : nat) (l : bytes) : bytes :=
  match fuel with
  | O => l
  | S fuel => match strip_any ps l with Some r => trim_front ps fuel r | None => l end
  end.

Definition trim_left (l : bytes) : bytes := trim_front space_encodings (length l) l.
Definition trim_right (l : bytes) : bytes :=
  rev (trim_front ((λ p, rev p) <$> space_encodings) (length l) (rev l)).

(** [strings.TrimSpace] *)
Definition trim_space (l : bytes) : bytes := trim_right (trim_left l).
Definition TrimSpace (s : string) : string := b2s (trim_space (s2b s)).

(** ** Substrings *)

(** [strings.HasPrefix] *)
Definition has_prefix (p l : bytes) : bool := bool_decide (is_Some (strip_prefix p l)).
Definition HasPrefix (s p : string) : bool := has_prefix (s2b p) (s2b s).

(** [strings.TrimSuffix] *)
Definition trim_suffix (suf l : bytes) : bytes :=
  match strip_prefix (rev suf) (rev l) with Some r => rev r | None => l end.
Definition TrimSuffix (s suf : string) : string := b2s (trim_suffix (s2b suf) (s2b s)).

(** [strings.Contains] *)
Fixpoint contains (sub l : bytes) : bool :=
  has_prefix sub l || match l with [] => false | _ :: l => contains sub l end.
Definition Contains (s sub : string) : bool := contains (s2b sub) (s2b s).

(** [strings.ReplaceAll] for a one-byte pattern and replacement *)
Definition replace_byte (old new : byte) (l : bytes) : bytes :=
  (λ b, if decide (b = old) then new else b) <$> l.
Definition ReplaceByte (s : string) (old new : byte) : string :=
  b2s (replace_byte old new (s2b s)).

(** [strings.Split] on a one-byte separator *)
Fixpoint split_byte (sep : byte) (l : bytes) : list bytes :=
  match l with
  | [] => [[]]
  | b :: l =>
      if decide (b = sep) then [] :: split_byte sep l
      else match split_byte sep l with
           | p :: ps => (b :: p) :: ps
           | [] => [[b]]
           end
  end.

(** [strings.SplitN(s, sep, 2)] on a one-byte separator *)
Fixpoint cut_byte (sep : byte) (l : bytes) : option (bytes * bytes) :=
  match l with
  | [] => None
  | b :: l =>
      if decide (b = sep) then Some ([], l)
      else match cut_byte sep l with Some (x, y) => Some (b :: x, y) | None => None end
  end.

(** [strings.Join] *)
Fixpoint Join (l : list string) (sep : string) : string :=
  match l with
  | [] => ""
  | [s] => s
  | s :: l => s +:+ sep +:+ Join l sep
  end.

(** [fmt.Sprintf("%d", n)] *)
Definition itoa (n : Z) : string := pretty n.

(** [fmt.Sprintf("%t", b)] *)
Definition btoa (b : bool) : string := if b then "true" else "false".

(** ** Lemmas on bytes and ASCII *)

Lemma nbyte_val n : Byte.to_N (nbyte n) = n mod 256.
Proof.
  unfold nbyte. destruct (Byte.of_N (n mod 256)) as [b|] eqn:E; simpl.
  - by apply Byte.to_of_N.
  - apply Byte.of_N_None_iff in E. pose proof (N.mod_lt n 256 ltac:(done)). lia.
Qed.

Lemma nbyte_to_N b : nbyte (Byte.to_N b) = b.
Proof. by destruct b. Qed.

(** Decide a closed-form property of one byte by trying the 256 of them. *)
Ltac byte_cases b := destruct b; first [discriminate | reflexivity | vm_compute; tauto].

(** Byte classes used by the lemmas on host names: graphic ASCII that is not
    an upper-case letter. *)
Definition plain_byte (b : byte) : bool :=
  between 33 126 (Byte.to_N b) && negb (between 65 90 (Byte.to_N b)).

Definition plain (s : string) : bool := forallb plain_byte (s2b s).

Lemma plain_byte_lower b : plain_byte b = true → lower_byte b = b.
Proof. byte_cases b. Qed.

Lemma plain_byte_ascii b : plain_byte b = true → (Byte.to_N b <? 0x80) = true.
Proof. byte_cases b. Qed.

Lemma lower_byte_idemp b : lower_byte (lower_byte b) = lower_byte b.
Proof. byte_cases b. Qed.

Lemma lower_byte_ascii b :
  (Byte.to_N b <? 0x80) = true → (Byte.to_N (lower_byte b) <? 0x80) = true.
Proof. byte_cases b. Qed.

Lemma is_ascii_cons b l : is_ascii (b :: l) = (Byte.to_N b <? 0x80) && is_ascii l.
Proof. done. Qed.

Lemma is_ascii_app l k : is_ascii (l ++ k) = is_ascii l && is_ascii k.
Proof. apply forallb_app. Qed.

Lemma is_ascii_lower l : is_ascii l = true → is_ascii (lower_byte <$> l) = true.
Proof.
  unfold is_ascii. rewrite !forallb_forall. intros H x (y & -> & Hy%list_elem_of_In)%list_elem_of_In%list_elem_of_fmap.
  apply lower_byte_ascii. by apply H.
Qed.

Lemma plain_ascii l : forallb plain_byte l = true → is_ascii l = true.
Proof. unfold is_ascii. rewrite !forallb_forall. eauto using plain_byte_ascii. Qed.

(** ** Lemmas on prefixes, trimming, splitting and substrings *)

Lemma strip_prefix_Some p l r : strip_prefix p l = Some r ↔ l = p ++ r.
Proof.
  revert l. induction p as [|b p IH]; intros [|c l]; simpl.
  - split; congruence.
  - split; congruence.
  - split; discriminate.
  - case_decide as Hb; [rewrite IH; split; congruence|]. split; [done|congruence].
Qed.

Lemma strip_prefix_app p l : strip_prefix p (p ++ l) = Some l.
Proof. by apply strip_prefix_Some. Qed.

Lemma has_prefix_true p l : has_prefix p l = true ↔ ∃ r, l = p ++ r.
Proof.
  unfold has_prefix. rewrite bool_decide_eq_true. unfold is_Some.
  setoid_rewrite strip_prefix_Some. done.
Qed.

Lemma contains_true sub l : contains sub l = true ↔ ∃ x y, l = x ++ sub ++ y.
Proof.
  induction l as [|b l IH]; cbn [contains]; rewrite orb_true_iff, has_prefix_true.
  - split.
    + intros [[r Hr]|[=]]. exists [], r. done.
    + intros (x & y & H). left. exists []. symmetry in H.
      apply app_nil in H as [_ [-> ->]%app_nil]. done.
  - rewrite IH. split.
    + intros [[r ->]|(x & y & ->)]; [by exists [], r|by exists (b :: x), y].
    + intros ([|b' x] & y & H); simpl in H; [left; by exists y|].
      right. exists x, y. congruence.
Qed.

Lemma Contains_true s sub : Contains s sub = true ↔ ∃ x y, s = x +:+ sub +:+ y.
Proof.
  unfold Contains. rewrite contains_true. split.
  - intros (x & y & H). exists (b2s x), (b2s y). apply (inj s2b).
    rewrite H. by autorewrite with gostr.
  - intros (x & y & ->). exists (s2b x), (s2b y). by autorewrite with gostr.
Qed.

Lemma contains_byte b l : contains [b] l = bool_decide (b ∈ l).
Proof.
  apply eq_true_iff_eq. rewrite contains_true, bool_decide_eq_true, list_elem_of_In.
  split.
  - intros (x & y & ->). apply in_app_iff. right. by left.
  - intros (x & y & ->)%in_split. by exists x, y.
Qed.

Lemma trim_suffix_app l suf : trim_suffix suf (l ++ suf) = l.
Proof.
  unfold trim_suffix. rewrite rev_app_distr, strip_prefix_app. apply rev_involutive.
Qed.

Lemma trim_suffix_none l suf :
  (∀ k, l ≠ k ++ suf) → trim_suffix suf l = l.
Proof.
  intros H. unfold trim_suffix. destruct (strip_prefix _ _) as [r|] eqn:E; [|done].
  apply strip_prefix_Some in E. destruct (H (rev r)).
  by rewrite <-(rev_involutive l), E, rev_app_distr, rev_involutive.
Qed.

(** No space encoding starts with a graphic ASCII byte, or ends with one. *)
Lemma strip_any_graphic ps b l :
  forallb (λ p, match p with c :: _ => negb (between 33 126 (Byte.to_N c)) | [] => false end) ps = true →
  between 33 126 (Byte.to_N b) = true → strip_any ps (b :: l) = None.
Proof.
  intros Hps Hb. induction ps as [|p ps IH]; [done|]. cbn in *.
  apply andb_prop in Hps as [Hp Hps]. destruct p as [|c p]; [done|]. cbn.
  case_decide as Hc; [|by apply IH]. subst c. by rewrite Hb in Hp.
Qed.

Lemma trim_front_id ps n l : strip_any ps l = None → trim_front ps n l = l.
Proof. intros H. destruct n; simpl; [done|]. by rewrite H. Qed.

(** A string whose first and last bytes are graphic ASCII has nothing to trim. *)
Lemma trim_space_graphic b1 l b2 l' :
  b1 :: l = l' ++ [b2] →
  between 33 126 (Byte.to_N b1) = true → between 33 126 (Byte.to_N b2) = true →
  trim_space (b1 :: l) = b1 :: l.
Proof.
  intros E H1 H2. unfold trim_space, trim_left, trim_right.
  rewrite (trim_front_id _ _ (b1 :: l)) by (by apply strip_any_graphic).
  rewrite E, rev_app_distr. cbn [rev app].
  rewrite trim_front_id by (by apply strip_any_graphic).
  cbn [rev]. by rewrite rev_involutive.
Qed.

Lemma trim_space_all_graphic l :
  forallb (λ b, between 33 126 (Byte.to_N b)) l = true → trim_space l = l.
Proof.
  intros Hg. destruct l as [|b1 l]; [done|].
  assert (∃ l' b2, b1 :: l = l' ++ [b2]) as (l' & b2 & E).
  { destruct l as [|c l _] using rev_ind; [by exists [], b1|by exists (b1 :: l), c]. }
  rewrite forallb_forall in Hg. apply (trim_space_graphic _ _ b2 l'); [done| |]; apply Hg.
  - by left.
  - rewrite E. apply in_app_iff. right. by left.
Qed.

Lemma TrimSpace_plain s : plain s = true → TrimSpace s = s.
Proof.
  unfold plain, TrimSpace. intros Hp. rewrite trim_space_all_graphic; [apply b2s_s2b|].
  revert Hp. rewrite !forallb_forall. intros Hp b [? _]%Hp%andb_prop. done.
Qed.

Lemma plain_append s t : plain (s +:+ t) = plain s && plain t.
Proof. unfold plain. rewrite s2b_app. apply forallb_app. Qed.

(** Trimming removes a prefix, leaves nothing to trim, and is idempotent. *)
Lemma strip_any_Some ps l r : strip_any ps l = Some r → ∃ p, p ∈ ps ∧ l = p ++ r.
Proof.
  induction ps as [|p ps IH]; [done|]. cbn. destruct (strip_prefix p l) as [r'|] eqn:E.
  - intros [= ->]. exists p. split; [apply elem_of_cons; by left|by apply strip_prefix_Some].
  - intros (p' & ? & ?)%IH. exists p'. split; [apply elem_of_cons; by right|done].
Qed.

Lemma strip_any_None ps l : strip_any ps l = None ↔ ∀ p r, p ∈ ps → l ≠ p ++ r.
Proof.
  induction ps as [|p ps IH]; cbn.
  - split; [intros _ p r []%not_elem_of_nil|done].
  - destruct (strip_prefix p l) as [r|] eqn:E.
    + split; [done|]. apply strip_prefix_Some in E. intros Hn.
      by destruct (Hn p r ltac:(apply elem_of_cons; by left)).
    + rewrite IH. split; [|intros Hn p' r Hp'; apply Hn, elem_of_cons; by right].
      intros Hn p' r [->|Hp']%elem_of_cons; [|by apply Hn].
      intros ->. by rewrite strip_prefix_app in E.
Qed.

Lemma trim_front_None ps n l :
  Forall (λ p, p ≠ []) ps → (length l ≤ n)%nat → strip_any ps (trim_front ps n l) = None.
Proof.
  intros Hps. rewrite Forall_forall in Hps. revert l. induction n as [|n IH]; intros l Hl; cbn.
  - destruct l; [|cbn in Hl; lia]. apply strip_any_None. intros p r Hp E.
    symmetry in E. apply app_nil in E as [-> _]. by apply (Hps []).
  - destruct (strip_any ps l) as [r|] eqn:E; [|done]. apply IH.
    apply strip_any_Some in E as (p & Hp & ->). rewrite length_app in Hl.
    destruct p; [by destruct (Hps [] Hp)|cbn in Hl; lia].
Qed.

Lemma trim_front_suffix ps n l : ∃ k, l = k ++ trim_front ps n l.
Proof.
  revert l. induction n as [|n IH]; intros l; cbn; [by exists []|].
  destruct (strip_any ps l) as [r|] eqn:E; [|by exists []].
  apply strip_any_Some in E as (p & _ & ->). destruct (IH r) as [k Hk].
  exists (p ++ k). rewrite <-app_assoc. by rewrite <-Hk.
Qed.

Lemma trim_space_None l :
  strip_any space_encodings (trim_space l) = None ∧
  strip_any ((λ p, rev p) <$> space_encodings) (rev (trim_space l)) = None.
Proof.
  unfold trim_space, trim_right, trim_left. set (m := trim_front _ (length l) l).
  assert (strip_any space_encodings m = None) as Hm.
  { apply trim_front_None; [|done]. repeat constructor; done. }
  rewrite rev_involutive. split.
  - destruct (trim_front_suffix ((λ p, rev p) <$> space_encodings) (length m) (rev m)) as [k Hk].
    apply (f_equal (λ x, rev x)) in Hk. rewrite rev_involutive, rev_app_distr in Hk.
    rewrite strip_any_None in Hm |- *. intros p r Hp E. apply (Hm p (r ++ rev k) Hp).
    by rewrite Hk, E, app_assoc.
  - apply trim_front_None; [repeat constructor; done|by rewrite length_rev].
Qed.

Lemma trim_space_idemp l : trim_space (trim_space l) = trim_space l.
Proof.
  destruct (trim_space_None l) as [H1 H2]. generalize dependent (trim_space l).
  intros q H1 H2. unfold trim_space, trim_right, trim_left.
  rewrite (trim_front_id space_encodings) by done. rewrite trim_front_id by done.
  apply rev_involutive.
Qed.

Lemma TrimSpace_idemp s : TrimSpace (TrimSpace s) = TrimSpace s.
Proof. unfold TrimSpace. by rewrite s2b_b2s, trim_space_idemp. Qed.

Lemma split_byte_none sep l : sep ∉ l → split_byte sep l = [l].
Proof.
  induction l as [|b l IH]; [done|]. intros [Hb Hl]%not_elem_of_cons. simpl.
  rewrite decide_False by done. by rewrite IH.
Qed.

Lemma split_byte_app sep x l :
  sep ∉ x → split_byte sep (x ++ sep :: l) = x :: split_byte sep l.
Proof.
  induction x as [|b x IH]; simpl.
  - intros _. by rewrite decide_True.
  - intros [Hb Hx]%not_elem_of_cons. rewrite decide_False by done. by rewrite IH.
Qed.

Lemma cut_byte_app sep x y : sep ∉ x → cut_byte sep (x ++ sep :: y) = Some (x, y).
Proof.
  induction x as [|b x IH]; simpl.
  - intros _. by rewrite decide_True.
  - intros [Hb Hx]%not_elem_of_cons. rewrite decide_False by done. by rewrite IH.
Qed.

Section unicode_lemmas.
Context `{UnicodeTables}.

Lemma to_lower_ascii l : is_ascii l = true → to_lower l = lower_byte <$> l.
Proof. intros Hl. unfold to_lower. by rewrite Hl. Qed.

Lemma to_lower_plain l : forallb plain_byte l = true → to_lower l = l.
Proof.
  intros Hl. rewrite to_lower_ascii by (by apply plain_ascii).
  rewrite forallb_forall in Hl. rewrite <-(list_fmap_id l) at 2.
  apply list_fmap_ext. intros i b Hb. apply plain_byte_lower, Hl, list_elem_of_In.
  by eapply list_elem_of_lookup_2.
Qed.

(** Two ASCII spellings that differ in case only have one lower-case form. *)
Lemma to_lower_case l k :
  is_ascii l = true → is_ascii k = true → lower_byte <$> l = lower_byte <$> k →
  to_lower l = to_lower k.
Proof. intros Hl Hk E. by rewrite !to_lower_ascii, E. Qed.

(** ** Decimal text *)

Definition decimal_byte (b : byte) : bool :=
  between 48 57 (Byte.to_N b) || bool_decide (b = Byte.x2d).

Lemma pretty_N_go_digits n s :
  forallb decimal_byte (s2b s) = true → forallb decimal_byte (s2b (pretty_N_go n s)) = true.
Proof.
  revert s. induction (N.lt_wf_0 n) as [n _ IH]. intros s Hs.
  destruct (decide (n = 0)) as [->|Hn]; [by rewrite pretty_N_go_0|].
  rewrite pretty_N_go_step by lia. apply IH; [apply N.div_lt; lia|].
  change (s2b (String (pretty_N_char (n mod 10)) s))
    with (Ascii.byte_of_ascii (pretty_N_char (n mod 10)) :: s2b s).
  cbn [forallb]. rewrite Hs, andb_true_r. unfold pretty_N_char. by repeat case_match.
Qed.

Lemma itoa_decimal z : forallb decimal_byte (s2b (itoa z)) = true.
Proof.
  assert (∀ n : N, forallb decimal_byte (s2b (pretty n)) = true) as HN.
  { intros n. unfold pretty, pretty_N. case_decide; [done|]. by apply pretty_N_go_digits. }
  unfold itoa, pretty, pretty_Z. destruct z as [|p|p];
    [done|exact (HN (N.pos p))|exact (HN (N.pos p))].
Qed.

Lemma plain_itoa z : plain (itoa z) = true.
Proof.
  unfold plain. pose proof (itoa_decimal z) as Hd. revert Hd. rewrite !forallb_forall.
  intros Hd b Hb%Hd. revert Hb. unfold decimal_byte, plain_byte. by byte_cases b.
Qed.

Lemma plain_ReplaceByte s old new :
  plain_byte new = true → plain s = true → plain (ReplaceByte s old new) = true.
Proof.
  unfold plain, ReplaceByte, replace_byte. intros Hn. rewrite s2b_b2s, !forallb_forall.
  intros Hs b. rewrite <-list_elem_of_In, list_elem_of_fmap. intros (c & -> & Hc%list_elem_of_In).
  case_decide; [done|by apply Hs].
Qed.

(** ** Durations

    [time.Duration.String]: the fraction without its trailing zeros, then the
    unit that makes the leading digit non-zero. *)
Fixpoint fmtFrac (prec : nat) (v : Z) (printed : bool) (acc : string) : string * Z :=
  match prec with
  | O => (if printed then "." +:+ acc else acc, v)
  | S prec =>
      let digit := (v mod 10)%Z in
      let printed := printed || bool_decide (digit ≠ 0)%Z in
      fmtFrac prec (v / 10)%Z printed (if printed then itoa digit +:+ acc else acc)
  end.

Definition with_unit (prec : nat) (u : Z) (unit : string) : string :=
  let '(frac, u) := fmtFrac prec u false "" in itoa u +:+ frac +:+ unit.

Definition Duration_String (d : Z) : string :=
  let u := Z.abs d in
  let text :=
    if (u =? 0)%Z then "0s"
    else if (u <? 1000)%Z then with_unit 0 u "ns"
    else if (u <? 1000000)%Z then with_unit 3 u (b2s [Byte.xc2; Byte.xb5] +:+ "s")
    else if (u <? 1000000000)%Z then with_unit 6 u "ms"
    else
      let '(frac, secs) := fmtFrac 9 u false "" in
      let seconds := itoa (secs mod 60) +:+ frac +:+ "s" in
      let minutes := (secs / 60)%Z in
      if (minutes =? 0)%Z then seconds
      else
        let text := itoa (minutes mod 60) +:+ "m" +:+ seconds in
        let hours := (minutes / 60)%Z in
        if (hours =? 0)%Z then text else itoa hours +:+ "h" +:+ text in
  if (d <? 0)%Z then "-" +:+ text else text.

Example duration_texts :
  Duration_String <$> [0; 999; 1500; 2000000; 10000000000; 300000000000; 3661500000000; -1100000000]%Z =
  ["0s"; "999ns"; "1.5" +:+ b2s [Byte.xc2; Byte.xb5] +:+ "s"; "2ms"; "10s"; "5m0s"; "1h1m1.5s"; "-1.1s"].
Proof. by vm_compute. Qed.

(** ** Quoted text has no control bytes *)

(** Neither an ASCII control byte nor DEL. *)
Definition visible (b : byte) : bool := (32 <=? Byte.to_N b) && negb (Byte.to_N b =? 127).

Lemma nbyte_visible n : 32 <= n mod 256 → n mod 256 ≠ 127 → visible (nbyte n) = true.
Proof.
  intros H1 H2. unfold visible. rewrite nbyte_val. apply andb_true_intro.
  split; [by apply N.leb_le|by apply negb_true_iff, N.eqb_neq].
Qed.

(** Every byte of an explicit encoding is visible, by arithmetic. *)
Ltac split_bytes := cbn [forallb]; rewrite ?andb_true_iff; repeat split;
  apply nbyte_visible; zify; Z.to_euclidean_division_equations; lia.

Lemma encode_rune_visible r :
  128 <= r → forallb visible (encode_rune r) = true.
Proof.
  intros Hr. unfold encode_rune.
  set (r' := if valid_rune r then r else RuneError).
  assert (128 <= r' <= 0x10FFFF) as Hr'.
  { subst r'. unfold valid_rune, between. destruct (_ || _) eqn:E; [|unfold RuneError; lia].
    apply orb_prop in E as [E|E]; bools; lia. }
  clearbody r'. clear Hr.
  destruct (N.ltb_spec r' 0x80); [lia|].
  destruct (N.ltb_spec r' 0x800); [split_bytes|].
  destruct (N.ltb_spec r' 0x10000); split_bytes.
Qed.

Lemma hex_digit_visible n : visible (hex_digit n) = true.
Proof.
  unfold hex_digit. pose proof (N.mod_lt n 16 ltac:(done)).
  generalize dependent (n mod 16). intros m Hm.
  destruct (m <? 10) eqn:E; bools; apply nbyte_visible; rewrite N.mod_small by lia; lia.
Qed.

Lemma escape_rune_visible r : forallb visible (escape_rune r) = true.
Proof.
  unfold escape_rune.
  destruct ((r =? 34) || (r =? 92)) eqn:E1.
  { apply orb_prop in E1 as [->%N.eqb_eq| ->%N.eqb_eq]; reflexivity. }
  destruct (is_print r) eqn:E2.
  { destruct (N.le_gt_cases 128 r); [by apply encode_rune_visible|].
    unfold is_print in E2. rewrite (proj2 (N.leb_le r 255)) in E2 by lia.
    assert (32 <= r <= 126) as Hp.
    { unfold between in E2. apply orb_prop in E2 as [E2|E2]; bools; lia. }
    unfold encode_rune, valid_rune.
    rewrite (proj2 (N.ltb_lt r 0xD800)) by lia. rewrite orb_true_l, (proj2 (N.ltb_lt r 0x80)) by lia.
    cbn [forallb]. rewrite nbyte_visible; [done|rewrite N.mod_small..]; lia. }
  repeat case_match; cbn [forallb]; rewrite ?hex_digit_visible; reflexivity.
Qed.

Lemma quote_visible l : forallb visible (quote l) = true.
Proof.
  unfold quote. rewrite !forallb_app. cbn [forallb].
  rewrite !andb_true_r. change (visible Byte.x22) with true. rewrite andb_true_l.
  generalize (runes l). intros cs. induction cs as [|[r raw] cs IH]; [done|].
  cbn [fmap list_fmap concat]. rewrite forallb_app, IH, andb_true_r.
  unfold quote_chunk. repeat case_match; try apply escape_rune_visible.
  cbn [forallb]. by rewrite !hex_digit_visible.
Qed.

End unicode_lemmas.
