(* ===== verification/Router.v ===== *)
(** * The router: [src/internal/router/pool.go]

    Backend pools keyed by normalised host, round-robin selection over the
    backends that are alive, health updates, and the reverse index from a
    backend address to its route.  [New] takes the iteration order of
    [range routes] as an argument; the atomics are single state updates here
    and separate steps in [Section interleaving]. *)
From S2P Require Import Prelude GoStrings.

Record backend := mkBackend { address : string; alive : Z }.

Record pool := mkPool { backends : list backend; rr : Z }.

Record Router := mkRouter {
  pools : gmap string pool;
  backendToHost : gmap string string;
}.

Record BackendState := mkBackendState { Host : string; Address : string; Alive : bool }.

#[export] Instance backend_eq_dec : EqDecision backend.
Proof. solve_decision. Defined.

#[export] Instance pool_eq_dec : EqDecision pool.
Proof. solve_decision. Defined.

(** [atomic.LoadUint32(&b.alive) == 1] *)
Definition is_alive (b : backend) : bool := (alive b =? 1)%Z.

Section router.
Context `{UnicodeTables}.

Definition normalizeHost (host : string) : string :=
  let host := TrimSpace (ToLower host) in
  let host := TrimSuffix host "." in
  host.

(** The inner loop of [New]: one backend per address, first writer wins in the
    reverse index. *)
Fixpoint New_addrs (hostKey : string) (addresses : list string)
    (bks : list backend) (b2h : gmap string string) : list backend * gmap string string :=
  match addresses with
  | [] => (bks, b2h)
  | addr :: rest =>
      let b := mkBackend addr 1 in
      let b2h :=
        match b2h !! addr with
        | Some _ => b2h
        | None => <[addr := hostKey]> b2h
        end in
      New_addrs hostKey rest (bks ++ [b]) b2h
  end.

(** The outer loop of [New], over [range routes] in the order [ord]. *)
Fixpoint New_routes (ord : list (string * list string))
    (ps : gmap string pool) (b2h : gmap string string) : result Router :=
  match ord with
  | [] => Ok (mkRouter ps b2h)
  | (host, addresses) :: rest =>
      let hostKey := normalizeHost host in
      if bool_decide (hostKey = "") then Err (ErrMsg "empty route host")
      else if bool_decide (length addresses = 0) then
        Err (ErrMsg ("route " +:+ Quote host +:+ " has no backends"))
      else
        let '(bks, b2h) := New_addrs hostKey addresses [] b2h in
        New_routes rest (<[hostKey := mkPool bks 0]> ps) b2h
  end.

Definition New (routes : gmap string (list string)) (ord : list (string * list string))
    : result Router :=
  if bool_decide (size routes = 0) then Err (ErrMsg "empty routes")
  else New_routes ord ∅ ∅.

Definition HostForBackendAddr (r : Router) (addr : string) : option string :=
  backendToHost r !! addr.

(** The scan of [Pick]: [k] iterations left, the current one is [i]. *)
Fixpoint Pick_scan (bs : list backend) (start i : Z) (k : nat) : result string :=
  match k with
  | O => Err (ErrSentinel SNoAliveBackends)
  | S k =>
      let idx := (wrap64 (start + i) mod Z.of_nat (length bs))%Z in
      match bs !! Z.to_nat idx with
      | None => Panic "index out of range"
      | Some b => if is_alive b then Ok (address b) else Pick_scan bs start (i + 1) k
      end
  end.

Definition Pick (r : Router) (host : string) : Router * result string :=
  match pools r !! normalizeHost host with
  | None => (r, Err (ErrSentinel SRouteNotFound))
  | Some p =>
      let n := length (backends p) in
      let rr' := wrap64 (rr p + 1) in
      let start := wrap64 (rr' - 1) in
      let p' := mkPool (backends p) rr' in
      (mkRouter (<[normalizeHost host := p']> (pools r)) (backendToHost r),
       Pick_scan (backends p) start 0 n)
  end.

(** The loop of [SetBackendAlive]: swap the flag of the first backend with this
    address; [Some prev] when there is one. *)
Fixpoint swap_alive (bs : list backend) (addr : string) (newVal : Z)
    : list backend * option Z :=
  match bs with
  | [] => ([], None)
  | b :: rest =>
      if bool_decide (address b ≠ addr) then
        let '(rest, prev) := swap_alive rest addr newVal in (b :: rest, prev)
      else (mkBackend (address b) newVal :: rest, Some (alive b))
  end.

Definition SetBackendAlive (r : Router) (host addr : string) (up : bool)
    : Router * result bool :=
  match pools r !! normalizeHost host with
  | None => (r, Err (ErrSentinel SRouteNotFound))
  | Some p =>
      let newVal := (if up then 1 else 0)%Z in
      match swap_alive (backends p) addr newVal with
      | (bs, Some prev) =>
          (mkRouter (<[normalizeHost host := mkPool bs (rr p)]> (pools r)) (backendToHost r),
           Ok (negb (prev =? newVal)%Z))
      | (_, None) =>
          (r, Err (ErrMsg ("backend " +:+ Quote addr +:+ " not found for host " +:+ Quote host)))
      end
  end.

(** [Snapshot], over [range r.pools] in the order [ord]. *)
Definition Snapshot (ord : list (string * pool)) : list BackendState :=
  ord ≫= λ hp, (λ b, mkBackendState hp.1 (address b) (is_alive b)) <$> backends hp.2.

End router.

(** ** Reference selection *)

(** What [Pick] promises: the first alive backend of the pool, read cyclically
    from the ticket taken from the counter. *)
Definition first_alive (bs : list backend) : result string :=
  match find is_alive bs with
  | Some b => Ok (address b)
  | None => Err (ErrSentinel SNoAliveBackends)
  end.

Definition scan_order (start : Z) (bs : list backend) : list backend :=
  rotate (Z.to_nat (start mod Z.of_nat (length bs))) bs.

(** The scan from ticket [start] stays clear of the counter's wrap-around. *)
Definition aligned (start : Z) (n : nat) : Prop :=
  (start + Z.of_nat n ≤ 2 ^ 64)%Z ∨ (Z.of_nat n | 2 ^ 64)%Z.

Definition pool_wf (p : pool) : Prop := backends p ≠ [] ∧ in_u64 (rr p).

Lemma scan_index start i n :
  (0 < n)%nat → in_u64 start → aligned start n → (0 ≤ i < Z.of_nat n)%Z →
  (wrap64 (start + i) mod Z.of_nat n = (start + i) mod Z.of_nat n)%Z.
Proof.
  unfold in_u64, aligned. intros Hn Hs [Ha|Ha] Hi.
  - rewrite wrap64_id; [done|]. unfold in_u64. lia.
  - by apply Z.mod_mod_divide.
Qed.

Lemma scan_order_lookup start i bs :
  (i < length bs)%nat →
  scan_order start bs !! i = bs !! Z.to_nat ((start + Z.of_nat i) mod Z.of_nat (length bs)).
Proof.
  intros Hi. unfold scan_order. rewrite lookup_rotate_r by done.
  f_equal. unfold rotate_nat_add. f_equal.
  rewrite Z2Nat.id by (apply Z.mod_pos_bound; lia).
  by rewrite Z.add_mod_idemp_l by lia.
Qed.

Lemma elem_of_scan_order b start bs : b ∈ scan_order start bs ↔ b ∈ bs.
Proof. apply elem_of_rotate. Qed.

Lemma first_alive_Ok bs a :
  first_alive bs = Ok a → ∃ b, b ∈ bs ∧ address b = a ∧ is_alive b = true.
Proof.
  unfold first_alive. destruct (find _ _) as [b|] eqn:E; [|done]. intros [= <-].
  apply find_some in E as [Hb%list_elem_of_In ?]. eauto.
Qed.

Lemma first_alive_None bs :
  first_alive bs = Err (ErrSentinel SNoAliveBackends) ↔ Forall (λ b, is_alive b = false) bs.
Proof.
  unfold first_alive. rewrite Forall_forall. destruct (find _ _) as [b|] eqn:E.
  - apply find_some in E as [Hb%list_elem_of_In Ha]. split; [done|].
    intros H. apply H in Hb. congruence.
  - split; [|done]. intros _ b Hb%list_elem_of_In. by eapply find_none.
Qed.

Lemma first_alive_head b bs : is_alive b = true → first_alive (b :: bs) = Ok (address b).
Proof. unfold first_alive. simpl. by intros ->. Qed.

(** The scan, with [k] iterations to go, is the reference on the rest of the
    scan order. *)
Lemma Pick_scan_first_alive bs start k i :
  in_u64 start → aligned start (length bs) → (i + k = length bs)%nat →
  Pick_scan bs start (Z.of_nat i) k = first_alive (drop i (scan_order start bs)).
Proof.
  intros Hs Ha. revert i. induction k as [|k IH]; intros i Hi.
  - rewrite drop_ge by (unfold scan_order; rewrite length_rotate; lia). done.
  - cbn [Pick_scan]. rewrite scan_index by (done || lia).
    rewrite <-scan_order_lookup by lia.
    destruct (lookup_lt_is_Some_2 (scan_order start bs) i) as [b Hb].
    { unfold scan_order. rewrite length_rotate. lia. }
    rewrite (drop_S _ b _ Hb), Hb. unfold first_alive. simpl.
    destruct (is_alive b); [done|].
    replace (Z.of_nat i + 1)%Z with (Z.of_nat (S i)) by lia. by rewrite IH by lia.
Qed.

(** Whatever the counter, the scan returns an alive backend of the list, the
    [SNoAliveBackends] error, and never indexes out of range. *)
Lemma Pick_scan_cases bs start k i :
  bs ≠ [] ∨ k = O →
  (∃ b, b ∈ bs ∧ is_alive b = true ∧ Pick_scan bs start i k = Ok (address b)) ∨
  Pick_scan bs start i k = Err (ErrSentinel SNoAliveBackends).
Proof.
  intros Hbs. revert i. induction k as [|k IH]; intros i; [by right|].
  destruct Hbs as [Hbs|]; [|done]. cbn [Pick_scan].
  set (idx := (wrap64 (start + i) mod Z.of_nat (length bs))%Z).
  destruct (lookup_lt_is_Some_2 bs (Z.to_nat idx)) as [b Hb].
  { destruct bs; [done|]. subst idx. pose proof (Z.mod_pos_bound (wrap64 (start + i)) (Z.of_nat (length (b :: bs)))). simpl length in *. lia. }
  rewrite Hb. destruct (is_alive b) eqn:Eb; [|apply IH; by left].
  left. exists b. eauto using list_elem_of_lookup_2.
Qed.

Section pick_lemmas.
Context `{UnicodeTables}.

Lemma Pick_found r host p :
  pools r !! normalizeHost host = Some p → in_u64 (rr p) →
  Pick r host =
    (mkRouter (<[normalizeHost host := mkPool (backends p) (wrap64 (rr p + 1))]> (pools r))
       (backendToHost r),
     Pick_scan (backends p) (rr p) 0 (length (backends p))).
Proof.
  intros Hp Hrr. unfold Pick. rewrite Hp. do 2 f_equal.
  replace (wrap64 (rr p + 1) - 1)%Z with (wrap64 (rr p + 1) + -1)%Z by lia.
  rewrite wrap64_add_l. replace (rr p + 1 + -1)%Z with (rr p) by lia. by apply wrap64_id.
Qed.

Lemma Pick_backends r host :
  backends <$> pools (Pick r host).1 = backends <$> pools r.
Proof.
  unfold Pick. destruct (pools r !! normalizeHost host) as [p|] eqn:Hp; [|done].
  cbn. rewrite fmap_insert. apply insert_id. by rewrite lookup_fmap, Hp.
Qed.

End pick_lemmas.

(** ** Sequences of picks *)

Section picks.
Context `{UnicodeTables}.

(** [k] calls of [Pick] for one host, with nothing in between. *)
Fixpoint picks (k : nat) (r : Router) (host : string) : Router * list (result string) :=
  match k with
  | O => (r, [])
  | S k =>
      let '(r, a) := Pick r host in
      let '(r, l) := picks k r host in (r, a :: l)
  end.

Lemma picks_pool k r host p :
  pools r !! normalizeHost host = Some p → in_u64 (rr p) →
  ∃ p', pools (picks k r host).1 !! normalizeHost host = Some p' ∧
    backends p' = backends p ∧ rr p' = wrap64 (rr p + Z.of_nat k).
Proof.
  revert r p. induction k as [|k IH]; intros r p Hp Hrr; cbn [picks].
  - exists p. rewrite Z.add_0_r, wrap64_id by done. done.
  - pose proof (Pick_found r host p Hp Hrr) as E. rewrite E. cbn.
    destruct (IH (Pick r host).1 (mkPool (backends p) (wrap64 (rr p + 1))))
      as (p' & Hp' & Hb & Hr').
    { rewrite E. cbn. apply lookup_insert_eq. }
    { apply wrap64_range. }
    rewrite E in Hp'. cbn in Hp'. destruct (picks k _ host) as [r' l]. cbn in *.
    exists p'. split_and!; [done|done|]. rewrite Hr', wrap64_add_l. f_equal. lia.
Qed.

(** With the counter short of its maximum, pick number [i] of a run is the
    reference selection for ticket [rr + i]. *)
Lemma picks_lookup k r host p :
  pools r !! normalizeHost host = Some p → pool_wf p →
  (rr p + Z.of_nat k + Z.of_nat (length (backends p)) ≤ 2 ^ 64)%Z →
  (picks k r host).2 =
    (λ i, first_alive (scan_order (rr p + Z.of_nat i) (backends p))) <$> seq 0 k.
Proof.
  revert r p. induction k as [|k IH]; intros r p Hp [Hne Hrr] Hk; cbn [picks]; [done|].
  assert (0 < length (backends p))%nat as Hlen by (destruct (backends p); simpl; [done|lia]).
  pose proof (Pick_found r host p Hp Hrr) as E. rewrite E. cbn.
  set (p1 := mkPool (backends p) (wrap64 (rr p + 1))).
  assert (rr p1 = rr p + 1)%Z as Hp1.
  { apply wrap64_id. unfold in_u64 in *. lia. }
  specialize (IH (Pick r host).1 p1). rewrite E in IH. cbn in IH.
  destruct (picks k _ host) as [r' l]. cbn in *.
  rewrite IH; [|apply lookup_insert_eq|split; [done|apply wrap64_range]|rewrite Hp1; cbn; lia].
  f_equal.
  - rewrite (Pick_scan_first_alive _ _ _ 0) by (done || (left; lia) || lia).
    by rewrite drop_0, Z.add_0_r.
  - rewrite <-fmap_S_seq, <-list_fmap_compose. apply list_fmap_ext. intros ? i _. cbn.
    rewrite Hp1. do 2 f_equal. lia.
Qed.

End picks.

(** ** Health updates *)

Lemma swap_alive_Some bs addr v bs' prev :
  swap_alive bs addr v = (bs', Some prev) ↔
  ∃ bs1 b bs2, bs = bs1 ++ b :: bs2 ∧ address b = addr ∧ (addr ∉ address <$> bs1) ∧
    alive b = prev ∧ bs' = bs1 ++ mkBackend addr v :: bs2.
Proof.
  revert bs'. induction bs as [|b bs IH]; intros bs'; cbn [swap_alive].
  - split; [done|]. intros ([|] & ? & ? & ? & _); done.
  - destruct (decide (address b = addr)) as [Hb|Hb].
    + rewrite bool_decide_eq_false_2 by tauto. split.
      * intros [= <- <-]. exists [], b, bs. subst addr. cbn. split_and!; [done..| |done|done].
        apply not_elem_of_nil.
      * intros ([|b1 bs1] & b' & bs2 & [= -> ->] & Ha & Hn & Hprev & ->); cbn in *.
        { by subst. } by apply not_elem_of_cons in Hn as [[] _].
    + rewrite bool_decide_eq_true_2 by done.
      destruct (swap_alive bs addr v) as [bs0 prev0]. split.
      * intros [= <- ->]. destruct (proj1 (IH bs0) eq_refl) as (bs1 & b' & bs2 & -> & Ha & Hn & Hp & ->).
        exists (b :: bs1), b', bs2. cbn. rewrite not_elem_of_cons. split_and!; done || congruence.
      * intros ([|b1 bs1] & b' & bs2 & [= -> ->] & Ha & Hn & Hprev & ->); [by subst|].
        cbn in Hn. apply not_elem_of_cons in Hn as [_ Hn].
        assert ((bs0, prev0) = (bs1 ++ mkBackend addr v :: bs2, Some prev)) as [= -> ->]; [|done].
        apply IH. eauto 10.
Qed.

Lemma swap_alive_None bs addr v :
  (swap_alive bs addr v).2 = None ↔ addr ∉ (address <$> bs).
Proof.
  induction bs as [|b bs IH]; cbn.
  - split; [intros _; apply not_elem_of_nil|done].
  - rewrite not_elem_of_cons. case_bool_decide as Hb.
    + destruct (swap_alive bs addr v); cbn in *. rewrite IH. split; [|tauto].
      intros ?. split; [congruence|done].
    + split; [done|]. intros [? _]. destruct Hb. congruence.
Qed.

Lemma swap_alive_addresses bs addr v :
  address <$> (swap_alive bs addr v).1 = address <$> bs.
Proof.
  induction bs as [|b bs IH]; [done|]. cbn. case_bool_decide; [|done].
  destruct (swap_alive bs addr v); cbn in *. by rewrite IH.
Qed.

(** ** Construction *)

Definition fresh_pool (addrs : list string) : pool :=
  mkPool ((λ a, mkBackend a 1) <$> addrs) 0.

Section new_lemmas.
Context `{UnicodeTables}.

Definition route_ok (e : string * list string) : Prop :=
  normalizeHost e.1 ≠ "" ∧ e.2 ≠ [].

Lemma New_addrs_backends hk addrs bks b2h :
  (New_addrs hk addrs bks b2h).1 = bks ++ backends (fresh_pool addrs).
Proof.
  revert bks b2h. induction addrs as [|a addrs IH]; intros bks b2h; cbn.
  - by rewrite app_nil_r.
  - rewrite IH. by rewrite <-app_assoc.
Qed.

Lemma New_addrs_index hk addrs bks b2h a :
  (New_addrs hk addrs bks b2h).2 !! a =
    match b2h !! a with
    | Some h => Some h
    | None => if decide (a ∈ addrs) then Some hk else None
    end.
Proof.
  revert bks b2h. induction addrs as [|a0 addrs IH]; intros bks b2h; cbn [New_addrs].
  - cbn. destruct (b2h !! a); done.
  - rewrite IH. destruct (b2h !! a0) as [h0|] eqn:E0.
    + destruct (b2h !! a) eqn:Ea; [done|].
      destruct (decide (a = a0)) as [->|]; [congruence|].
      apply decide_ext. rewrite elem_of_cons. tauto.
    + destruct (decide (a = a0)) as [->|Hne].
      * rewrite lookup_insert_eq, E0, decide_True; [done|apply elem_of_cons; auto].
      * rewrite lookup_insert_ne by done. destruct (b2h !! a); [done|].
        apply decide_ext. rewrite elem_of_cons. tauto.
Qed.

Lemma New_routes_cons host addrs ord ps b2h :
  route_ok (host, addrs) →
  New_routes ((host, addrs) :: ord) ps b2h =
    New_routes ord (<[normalizeHost host := fresh_pool addrs]> ps)
      (New_addrs (normalizeHost host) addrs [] b2h).2.
Proof.
  intros [Hh Ha]. cbn in *. rewrite bool_decide_eq_false_2 by done.
  rewrite bool_decide_eq_false_2 by (by destruct addrs).
  pose proof (New_addrs_backends (normalizeHost host) addrs [] b2h) as Hb.
  destruct (New_addrs _ addrs [] b2h) as [bks b2h']. cbn in *. by subst bks.
Qed.

(** Construction succeeds exactly when every route is acceptable, and the only
    other outcome is an error. *)
Lemma New_routes_cases ord ps b2h :
  (Forall route_ok ord ∧ ∃ r, New_routes ord ps b2h = Ok r) ∨
  (¬ Forall route_ok ord ∧ ∃ e, New_routes ord ps b2h = Err e).
Proof.
  revert ps b2h. induction ord as [|[host addrs] ord IH]; intros ps b2h; [by left; eauto|].
  destruct (decide (normalizeHost host = "")) as [Hh|Hh].
  { right. cbn. rewrite bool_decide_eq_true_2 by done.
    split; [|eauto]. by intros [[? _] _]%Forall_cons. }
  destruct (decide (addrs = [])) as [->|Ha].
  { right. cbn. rewrite bool_decide_eq_false_2 by done. cbn.
    split; [|eauto]. by intros [[_ ?] _]%Forall_cons. }
  rewrite New_routes_cons by done. rewrite Forall_cons.
  destruct (IH (<[normalizeHost host := fresh_pool addrs]> ps)
    (New_addrs (normalizeHost host) addrs [] b2h).2) as [[? ?]|[? ?]].
  - left. done.
  - right. tauto.
Qed.

Lemma New_routes_inv host addrs ord ps b2h r :
  New_routes ((host, addrs) :: ord) ps b2h = Ok r →
  route_ok (host, addrs) ∧
  New_routes ord (<[normalizeHost host := fresh_pool addrs]> ps)
      (New_addrs (normalizeHost host) addrs [] b2h).2 = Ok r.
Proof.
  intros E. destruct (New_routes_cases ((host, addrs) :: ord) ps b2h) as [[Hok _]|[_ [e ?]]]; [|congruence].
  apply Forall_cons in Hok as [Hok _]. split; [done|]. by rewrite <-New_routes_cons.
Qed.

Definition host_keys (ord : list (string * list string)) : list string :=
  (λ e, normalizeHost e.1) <$> ord.

Lemma New_routes_pools ord ps b2h r k :
  New_routes ord ps b2h = Ok r → NoDup (host_keys ord) →
  pools r !! k =
    match list_find (λ e, normalizeHost e.1 = k) ord with
    | Some (_, e) => Some (fresh_pool e.2)
    | None => ps !! k
    end.
Proof.
  revert ps b2h. induction ord as [|[host addrs] ord IH]; intros ps b2h E Hnd.
  - injection E as <-. done.
  - apply New_routes_inv in E as [_ E]. cbn in Hnd. apply NoDup_cons in Hnd as [Hn Hnd].
    rewrite (IH _ _ E Hnd). cbn [list_find fst]. destruct (decide (normalizeHost host = k)) as [Hk|Hk].
    + destruct (list_find _ ord) as [[i e]|] eqn:Ef; cbn.
      * apply list_find_Some in Ef as (Hi & He & _). destruct Hn. rewrite Hk, <-He.
        apply list_elem_of_fmap. exists e. split; [done|]. by eapply list_elem_of_lookup_2.
      * subst k. by rewrite lookup_insert_eq.
    + destruct (list_find _ ord) as [[i e]|]; cbn; [done|]. by rewrite lookup_insert_ne.
Qed.

Lemma New_routes_index ord ps b2h r a :
  New_routes ord ps b2h = Ok r →
  (∀ h, b2h !! a = Some h → backendToHost r !! a = Some h) ∧
  (b2h !! a = None →
    (∀ h, backendToHost r !! a = Some h →
       ∃ host addrs, (host, addrs) ∈ ord ∧ a ∈ addrs ∧ h = normalizeHost host) ∧
    (∀ e, e ∈ ord → a ∈ e.2 → is_Some (backendToHost r !! a))).
Proof.
  revert ps b2h. induction ord as [|[host addrs] ord IH]; intros ps b2h E.
  - injection E as <-. cbn. split; [done|]. intros ->. split; [done|].
    by intros e ?%not_elem_of_nil.
  - apply New_routes_inv in E as [_ E]. destruct (IH _ _ E) as [IH1 IH2].
    rewrite New_addrs_index in IH1, IH2. split.
    { intros h Hh. apply IH1. by rewrite Hh. }
    intros Ha. rewrite Ha in IH1, IH2. case_decide as Hin.
    + specialize (IH1 _ eq_refl). rewrite IH1. split; [|eauto].
      intros h [= <-]. exists host, addrs. split; [apply elem_of_cons; auto|done].
    + destruct (IH2 eq_refl) as [IH2a IH2b]. split.
      * intros h (host' & addrs' & ? & ? & ?)%IH2a. exists host', addrs'.
        split; [apply elem_of_cons; auto|done].
      * intros e [->|He]%elem_of_cons Hae; [done|]. eauto.
Qed.

(** No two host names of the table have the same normal form. *)
Definition distinct_keys (routes : gmap string (list string)) : Prop :=
  ∀ h1 h2, h1 ∈ dom routes → h2 ∈ dom routes → normalizeHost h1 = normalizeHost h2 → h1 = h2.

Lemma distinct_keys_NoDup routes ord :
  range_order routes ord → distinct_keys routes → NoDup (host_keys ord).
Proof.
  intros Hord Hinj. change (host_keys ord) with (normalizeHost ∘ fst <$> ord). rewrite list_fmap_compose.
  apply NoDup_fmap_2_strong; [|by eapply range_order_NoDup].
  intros x y ([h1 a1] & -> & H1)%list_elem_of_fmap ([h2 a2] & -> & H2)%list_elem_of_fmap.
  apply (range_order_elem _ _ _ _ Hord) in H1, H2. cbn. apply Hinj; by eapply elem_of_dom_2.
Qed.

(** The first route that lists an address owns it in the reverse index. *)
Definition first_host (a : string) (ord : list (string * list string)) : option string :=
  (λ e, normalizeHost e.2.1) <$> list_find (λ e, a ∈ e.2) ord.

Lemma New_routes_first ord ps b2h r a :
  New_routes ord ps b2h = Ok r →
  backendToHost r !! a = match b2h !! a with Some h => Some h | None => first_host a ord end.
Proof.
  unfold first_host. revert ps b2h. induction ord as [|[host addrs] ord IH]; intros ps b2h E.
  { cbn in E. injection E as <-. cbn. by destruct (b2h !! a). }
  apply New_routes_inv in E as [_ E]. rewrite (IH _ _ E), New_addrs_index.
  destruct (b2h !! a) as [h|]; [done|]. cbn [list_find snd].
  destruct (decide (a ∈ addrs)) as [Ha|Ha]; [done|]. by destruct (list_find _ ord) as [[]|].
Qed.

Lemma first_host_elem routes ord a :
  range_order routes ord →
  match first_host a ord with
  | Some h => ∃ host addrs, routes !! host = Some addrs ∧ a ∈ addrs ∧ h = normalizeHost host
  | None => ∀ host addrs, routes !! host = Some addrs → a ∉ addrs
  end.
Proof.
  unfold first_host. intros Hord. destruct (list_find _ ord) as [[i [host addrs]]|] eqn:Ef; cbn.
  - apply list_find_Some in Ef as (Hi & Ha & _). exists host, addrs. split_and!; [|done|done].
    apply (range_order_elem _ _ _ _ Hord). by eapply list_elem_of_lookup_2.
  - apply list_find_None in Ef. rewrite Forall_forall in Ef. intros host addrs Hin.
    exact (Ef (host, addrs) (proj2 (range_order_elem _ _ _ _ Hord) Hin)).
Qed.

(** Which addresses are indexed does not depend on the order, and neither does
    the owner of an address that the routes of one host only list. *)
Lemma first_host_order routes ord ord' a :
  range_order routes ord → range_order routes ord' →
  (is_Some (first_host a ord) ↔ is_Some (first_host a ord')) ∧
  ((∀ host host' addrs addrs', routes !! host = Some addrs → routes !! host' = Some addrs' →
      a ∈ addrs → a ∈ addrs' → normalizeHost host = normalizeHost host') →
   first_host a ord = first_host a ord').
Proof.
  intros Hord Hord'. pose proof (first_host_elem routes ord a Hord) as Hf.
  pose proof (first_host_elem routes ord' a Hord') as Hf'.
  destruct (first_host a ord) as [h|], (first_host a ord') as [h'|].
  - split; [by split; eauto|]. intros Huniq. destruct Hf as (? & ? & ? & ? & ->), Hf' as (? & ? & ? & ? & ->).
    f_equal. by eapply Huniq.
  - destruct Hf as (? & ? & Hr & Ha & _). by destruct (Hf' _ _ Hr).
  - destruct Hf' as (? & ? & Hr & Ha & _). by destruct (Hf _ _ Hr).
  - done.
Qed.

Lemma New_Ok_routes routes ord r : New routes ord = Ok r → New_routes ord ∅ ∅ = Ok r.
Proof. unfold New. by case_bool_decide. Qed.

Lemma New_pools routes ord r k p :
  range_order routes ord → distinct_keys routes → New routes ord = Ok r →
  pools r !! k = Some p ↔
    ∃ host addrs, routes !! host = Some addrs ∧ normalizeHost host = k ∧ p = fresh_pool addrs.
Proof.
  intros Hord Hinj E%New_Ok_routes.
  rewrite (New_routes_pools _ _ _ _ _ E) by (by eapply distinct_keys_NoDup).
  destruct (list_find _ ord) as [[i [host addrs]]|] eqn:Ef.
  - apply list_find_Some in Ef as (Hi & Hk & _). cbn in *.
    apply list_elem_of_lookup_2, (range_order_elem _ _ _ _ Hord) in Hi. split.
    + intros [= <-]. eauto.
    + intros (h' & addrs' & Hh' & Hk' & ->).
      assert (h' = host) as -> by (apply Hinj; [by eapply elem_of_dom_2..|congruence]).
      congruence.
  - split; [done|]. intros (h' & addrs' & Hh' & Hk' & ->).
    apply list_find_None in Ef. rewrite Forall_forall in Ef.
    by destruct (Ef (h', addrs') ltac:(by apply (range_order_elem _ _ _ _ Hord))).
Qed.

End new_lemmas.

(** ** What picks can return, and the effect of a health update *)

Section outcome_lemmas.
Context `{UnicodeTables}.

Lemma Pick_Ok_inv r host a :
  (Pick r host).2 = Ok a →
  ∃ p b, pools r !! normalizeHost host = Some p ∧ b ∈ backends p ∧
    address b = a ∧ is_alive b = true.
Proof.
  unfold Pick. destruct (pools r !! normalizeHost host) as [p|] eqn:Hp; cbn; [|done].
  destruct (Pick_scan_cases (backends p) (wrap64 (wrap64 (rr p + 1) - 1))
    (length (backends p)) 0) as [(b & Hb & Hal & ->)| ->]; [|intros [= <-]; eauto 10|done].
  destruct (backends p); [by right|by left].
Qed.

Lemma picks_Ok_inv k r host a :
  Ok a ∈ (picks k r host).2 →
  ∃ p b, pools r !! normalizeHost host = Some p ∧ b ∈ backends p ∧
    address b = a ∧ is_alive b = true.
Proof.
  revert r. induction k as [|k IH]; intros r; cbn [picks]; [by intros ?%not_elem_of_nil|].
  pose proof (Pick_Ok_inv r host a) as Hp. pose proof (Pick_backends r host) as Hb.
  specialize (IH (Pick r host).1).
  destruct (Pick r host) as [r1 x]. cbn in *. destruct (picks k r1 host) as [r2 l]. cbn in *.
  intros [<-|Hl]%elem_of_cons; [auto|]. destruct (IH Hl) as (p & b & Hp1 & Hb1 & ? & ?).
  apply (f_equal (lookup (normalizeHost host))) in Hb. rewrite !lookup_fmap, Hp1 in Hb.
  destruct (pools r !! normalizeHost host) as [p0|]; [|done]. injection Hb as Hb.
  exists p0, b. rewrite <-Hb. done.
Qed.

Lemma SetBackendAlive_Ok r host addr up r' c :
  SetBackendAlive r host addr up = (r', Ok c) →
  ∃ p bs1 b bs2, pools r !! normalizeHost host = Some p ∧ backends p = bs1 ++ b :: bs2 ∧
    address b = addr ∧ (addr ∉ address <$> bs1) ∧ c = negb (alive b =? (if up then 1 else 0))%Z ∧
    r' = mkRouter (<[normalizeHost host :=
           mkPool (bs1 ++ mkBackend addr (if up then 1 else 0) :: bs2) (rr p)]> (pools r))
           (backendToHost r).
Proof.
  unfold SetBackendAlive. destruct (pools r !! normalizeHost host) as [p|] eqn:Hp; [|done].
  destruct (swap_alive (backends p) addr _) as [bs [prev|]] eqn:Es; [|done].
  apply swap_alive_Some in Es as (bs1 & b & bs2 & Hb & Ha & Hn & <- & ->).
  intros [= <- <-]. exists p, bs1, b, bs2. done.
Qed.

(** *** The flag a health update writes *)

(** The [alive] word of the first backend with this address, the one
    [SetBackendAlive] addresses. *)
Definition alive_flag (r : Router) (host addr : string) : option Z :=
  p ← pools r !! normalizeHost host;
  (λ ib, alive ib.2) <$> list_find (λ b, address b = addr) (backends p).

Lemma list_find_address bs1 b bs2 :
  address b ∉ (address <$> bs1) →
  list_find (λ x, address x = address b) (bs1 ++ b :: bs2) = Some (length bs1, b).
Proof.
  intros Hn. apply list_find_Some. split_and!; [by apply list_lookup_middle|done|].
  intros j y Hj Hlt E. rewrite lookup_app_l in Hj by done. apply Hn. rewrite <-E.
  apply list_elem_of_fmap_2. by eapply list_elem_of_lookup_2.
Qed.

Lemma list_find_replace bs1 b bs2 v addr :
  addr ≠ address b →
  (λ ib : nat * backend, alive ib.2) <$>
    list_find (λ x, address x = addr) (bs1 ++ mkBackend (address b) v :: bs2) =
  (λ ib : nat * backend, alive ib.2) <$> list_find (λ x, address x = addr) (bs1 ++ b :: bs2).
Proof.
  intros Hne. induction bs1 as [|c bs1 IH]; cbn.
  - rewrite !decide_False by done. by destruct (list_find _ bs2) as [[]|].
  - destruct (decide (address c = addr)); [done|].
    revert IH. destruct (list_find _ (bs1 ++ mkBackend _ v :: bs2)) as [[]|],
      (list_find _ (bs1 ++ b :: bs2)) as [[]|]; done.
Qed.

Lemma SetBackendAlive_found r host addr up :
  is_Some (alive_flag r host addr) ↔ ∃ r' c, SetBackendAlive r host addr up = (r', Ok c).
Proof.
  unfold alive_flag. split.
  - unfold SetBackendAlive. destruct (pools r !! normalizeHost host) as [p|]; cbn; [|by intros []].
    intros (z & ([i b] & Hf & _)%fmap_Some).
    destruct (swap_alive (backends p) addr _) as [bs [prev|]] eqn:Es; [eauto|].
    apply list_find_Some in Hf as (Hi & Ha & _).
    assert (addr ∉ (address <$> backends p)) as Hn.
    { apply (swap_alive_None _ _ (if up then 1 else 0)%Z). by rewrite Es. }
    destruct Hn. cbn in Ha. rewrite <-Ha. apply list_elem_of_fmap_2. by eapply list_elem_of_lookup_2.
  - intros (r' & c & (p & bs1 & b & bs2 & Hp & Hb & Ha & Hn & _)%SetBackendAlive_Ok).
    rewrite Hp. cbn. subst addr. rewrite Hb, list_find_address by done. cbn. eauto.
Qed.

(** A health update writes its own flag and no other. *)
Lemma SetBackendAlive_flag r host addr up host' addr' :
  alive_flag (SetBackendAlive r host addr up).1 host' addr' =
    if decide (normalizeHost host = normalizeHost host' ∧ addr = addr')
    then (λ _, if up then 1 else 0)%Z <$> alive_flag r host' addr'
    else alive_flag r host' addr'.
Proof.
  destruct (SetBackendAlive r host addr up) as [r' [c|e|w]] eqn:E.
  - pose proof E as (p & bs1 & b & bs2 & Hp & Hb & Ha & Hn & _ & ->)%SetBackendAlive_Ok.
    unfold alive_flag. cbn [fst pools]. destruct (decide (normalizeHost host = normalizeHost host')) as [Hh|Hh].
    + rewrite <-Hh, lookup_insert_eq, Hp. cbn [mbind option_bind backends]. rewrite Hb. subst addr.
      destruct (decide (address b = addr')) as [<-|Hne].
      * rewrite decide_True by done.
        rewrite (list_find_address bs1 (mkBackend (address b) _)), (list_find_address bs1 b) by done. done.
      * rewrite decide_False by tauto. by apply list_find_replace.
    + rewrite lookup_insert_ne by done. by rewrite decide_False by tauto.
  - assert (r' = r) as -> by (revert E; unfold SetBackendAlive; repeat case_match; by intros [= <- <-]).
    cbn [fst]. case_decide as Hd; [|done]. destruct Hd as [Hh ->].
    destruct (alive_flag r host' addr') as [z|] eqn:Ez; [|done]. exfalso.
    destruct (proj1 (SetBackendAlive_found r host addr' up)) as (r1 & c & E1); [|congruence].
    revert Ez. unfold alive_flag. rewrite Hh. eauto.
  - revert E. unfold SetBackendAlive. by repeat case_match.
Qed.

(** Every address of a fresh pool has its flag set. *)
Lemma fresh_flag r host addrs addr :
  pools r !! normalizeHost host = Some (fresh_pool addrs) → addr ∈ addrs →
  alive_flag r host addr = Some 1%Z.
Proof.
  intros Hp Ha. unfold alive_flag. rewrite Hp. cbn [mbind option_bind fresh_pool backends].
  clear Hp. induction addrs as [|a addrs IH]; [by apply not_elem_of_nil in Ha|].
  cbn. case_decide as Hd; [done|]. apply elem_of_cons in Ha as [->|Ha]; [done|].
  specialize (IH Ha). revert IH. unfold fmap. by destruct (list_find _ _) as [[]|].
Qed.

End outcome_lemmas.

(** ** Properties of the router *)

Section router_properties.
Context `{UnicodeTables}.

Definition router_wf (r : Router) : Prop := map_Forall (λ _ p, pool_wf p) (pools r).

(** The router knows a backend with this address. *)
Definition listed (r : Router) (addr : string) : Prop :=
  ∃ h p b, pools r !! h = Some p ∧ b ∈ backends p ∧ address b = addr.

Lemma Pick_wf r host : router_wf r → router_wf (Pick r host).1.
Proof.
  intros Hwf. unfold Pick. destruct (pools r !! normalizeHost host) as [p|] eqn:Hp; [|done]. cbn.
  apply map_Forall_insert_2; [|done]. split; [|apply wrap64_range]. by apply (Hwf _ _ Hp).
Qed.

Lemma SetBackendAlive_wf r host addr up :
  router_wf r → router_wf (SetBackendAlive r host addr up).1.
Proof.
  intros Hwf. destruct (SetBackendAlive r host addr up) as [r' [c|e|w]] eqn:E.
  - apply SetBackendAlive_Ok in E as (p & bs1 & b & bs2 & Hp & _ & _ & _ & _ & ->). cbn.
    apply map_Forall_insert_2; [|done]. split; [by destruct bs1|]. by apply (Hwf _ _ Hp).
  - revert E. unfold SetBackendAlive. repeat case_match; by intros [= <- <-].
  - revert E. unfold SetBackendAlive. by repeat case_match.
Qed.

Lemma New_wf routes ord r : New routes ord = Ok r → router_wf r.
Proof.
  intros E%New_Ok_routes. revert E. generalize (∅ : gmap string string).
  assert (map_Forall (λ _ p, pool_wf p) (∅ : gmap string pool)) as H0 by apply map_Forall_empty.
  revert H0. generalize (∅ : gmap string pool).
  induction ord as [|[host addrs] ord IH]; intros ps Hps b2h; cbn [New_routes]; [by intros [= <-]|].
  case_bool_decide; [done|]. case_bool_decide; [done|].
  pose proof (New_addrs_backends (normalizeHost host) addrs [] b2h) as Hb.
  destruct (New_addrs _ addrs [] b2h) as [bks b2h']. cbn in Hb. apply IH.
  apply map_Forall_insert_2; [|done]. split; [|by unfold in_u64; cbn; lia].
  cbn. rewrite Hb. by destruct addrs.
Qed.

(** Every address of a route is indexed. *)
Lemma New_index routes ord r host addrs addr :
  range_order routes ord → New routes ord = Ok r → routes !! host = Some addrs → addr ∈ addrs →
  is_Some (HostForBackendAddr r addr).
Proof.
  intros Hord E%New_Ok_routes Hr Ha. destruct (New_routes_index _ _ _ _ addr E) as [_ Hidx].
  apply (proj2 (Hidx (lookup_empty _)) (host, addrs)); [|done].
  by apply (range_order_elem _ _ _ _ Hord).
Qed.

(** The first selection from a fresh pool is its first address. *)
Lemma Pick_fresh r host a addrs :
  pools r !! normalizeHost host = Some (fresh_pool (a :: addrs)) → (Pick r host).2 = Ok a.
Proof.
  intros Hp. rewrite (Pick_found _ _ _ Hp) by (unfold in_u64; cbn; lia).
  cbn [snd fresh_pool backends rr fmap list_fmap length Pick_scan].
  rewrite Z.mod_small by (rewrite wrap64_id by (unfold in_u64; lia); lia). done.
Qed.

Lemma Pick_no_panic r host why : (Pick r host).2 ≠ Panic why.
Proof.
  unfold Pick. destruct (pools r !! normalizeHost host) as [p|] eqn:Hp; [|done]. cbn.
  destruct (Pick_scan_cases (backends p) (wrap64 (wrap64 (rr p + 1) - 1))
    (length (backends p)) 0) as [(b & _ & _ & ->)| ->]; [|done|done].
  destruct (backends p); [by right|by left].
Qed.

(** The addresses of the pools, which neither operation changes. *)
Definition addresses (r : Router) : gmap string (list string) :=
  (λ p, address <$> backends p) <$> pools r.

Lemma listed_addresses r a : listed r a ↔ ∃ h l, addresses r !! h = Some l ∧ a ∈ l.
Proof.
  unfold listed, addresses. setoid_rewrite lookup_fmap. split.
  - intros (h & p & b & Hp & Hb & <-). exists h, (address <$> backends p). rewrite Hp.
    split; [done|]. by apply list_elem_of_fmap_2.
  - intros (h & l & Hl & Ha). destruct (pools r !! h) as [p|] eqn:Hp; [|done]. injection Hl as <-.
    apply list_elem_of_fmap in Ha as (b & -> & Hb). by exists h, p, b.
Qed.

Lemma Pick_addresses r host : addresses (Pick r host).1 = addresses r.
Proof.
  unfold Pick, addresses. destruct (pools r !! normalizeHost host) as [p|] eqn:Hp; [|done]. cbn.
  rewrite fmap_insert. apply insert_id. by rewrite lookup_fmap, Hp.
Qed.

Lemma SetBackendAlive_addresses r host addr up : addresses (SetBackendAlive r host addr up).1 = addresses r.
Proof.
  destruct (SetBackendAlive r host addr up) as [r' [c|e|w]] eqn:E.
  - apply SetBackendAlive_Ok in E as (p & bs1 & b & bs2 & Hp & Hbs & Hb & _ & _ & ->).
    unfold addresses. cbn. rewrite fmap_insert. apply insert_id. rewrite lookup_fmap, Hp. cbn.
    by rewrite Hbs, !fmap_app, !fmap_cons, Hb.
  - revert E. unfold SetBackendAlive. repeat case_match; by intros [= <- <-].
  - revert E. unfold SetBackendAlive. by repeat case_match.
Qed.

Lemma Pick_listed r host a : listed (Pick r host).1 a ↔ listed r a.
Proof. by rewrite !listed_addresses, Pick_addresses. Qed.

Lemma SetBackendAlive_listed r host addr up a : listed (SetBackendAlive r host addr up).1 a ↔ listed r a.
Proof. by rewrite !listed_addresses, SetBackendAlive_addresses. Qed.

(** A new router lists addresses of its routes only. *)
Lemma New_listed routes ord r a :
  range_order routes ord → New routes ord = Ok r → listed r a →
  ∃ host addrs, routes !! host = Some addrs ∧ a ∈ addrs.
Proof.
  intros Hord E%New_Ok_routes. rewrite listed_addresses.
  assert (∀ ps b2h, New_routes ord ps b2h = Ok r → ∀ h l, addresses r !! h = Some l →
    ((λ p, address <$> backends p) <$> ps) !! h = Some l ∨ ∃ host, (host, l) ∈ ord) as Hgen.
  { clear E Hord. induction ord as [|[host addrs] ord IH]; intros ps b2h.
    - cbn. intros [= <-] h l. by left.
    - intros [Hok E]%New_routes_inv h l Hl. destruct (IH _ _ E h l Hl) as [Hp|[host' Hin]].
      + rewrite fmap_insert in Hp. apply lookup_insert_Some in Hp as [[<- Hp]|[_ Hp]]; [|by left].
        right. exists host. apply elem_of_cons. left. f_equal. rewrite <-Hp. cbn.
        rewrite <-list_fmap_compose. exact (list_fmap_id addrs).
      + right. exists host'. apply elem_of_cons. by right. }
  intros (h & l & Hl & Ha). destruct (Hgen _ _ E h l Hl) as [Hp|[host Hin]].
  { by rewrite fmap_empty, lookup_empty in Hp. }
  exists host, l. split; [|done]. by apply (range_order_elem _ _ _ _ Hord).
Qed.

(** Scanning from ticket [t] over a pool that is entirely alive hits the
    ticket's own backend. *)
Lemma first_alive_all_up t bs i :
  Forall (λ b, is_alive b = true) bs → (i < length bs)%nat →
  first_alive (scan_order (t + Z.of_nat i) bs) =
    default (Err (ErrSentinel SNoAliveBackends)) ((λ b, Ok (address b)) <$> scan_order t bs !! i).
Proof.
  intros Hall Hi.
  assert (scan_order (t + Z.of_nat i) bs !! O = scan_order t bs !! i) as Hhd.
  { rewrite !scan_order_lookup by lia. do 2 f_equal. f_equal. lia. }
  rewrite <-Hhd. destruct (scan_order _ bs) as [|b l] eqn:E; [done|]. cbn.
  apply first_alive_head. rewrite Forall_forall in Hall. apply Hall.
  apply (elem_of_scan_order b (t + Z.of_nat i)). rewrite E. apply elem_of_cons. auto.
Qed.

(** C7: away from the wrap-around of the 64-bit ticket counter, [Pick] takes the next ticket and returns the first alive backend of the pool in cyclic order from that ticket, [ErrNoAliveBackends] when there is none; every other pool and the reverse index are unchanged. *)
Theorem Pick_selects r host p :
  pools r !! normalizeHost host = Some p → pool_wf p →
  aligned (rr p) (length (backends p)) →
  Pick r host =
    (mkRouter (<[normalizeHost host := mkPool (backends p) (wrap64 (rr p + 1))]> (pools r))
       (backendToHost r),
     first_alive (scan_order (rr p) (backends p))).
Proof.
  intros Hp [Hne Hrr] Ha. rewrite (Pick_found r host p) by done.
  by rewrite (Pick_scan_first_alive _ _ _ 0) by (done || lia).
Qed.

(** The whitelist and liveness guarantee of [Pick], with no condition on the counter: an address it returns belongs to a backend of the pool of the normalised host that is alive, [ErrRouteNotFound] is returned exactly for hosts without a pool, the only other outcome is [ErrNoAliveBackends], and the index into the pool is never out of range. *)
Theorem Pick_safe r host :
  match (Pick r host).2 with
  | Ok a => ∃ p b, pools r !! normalizeHost host = Some p ∧ b ∈ backends p ∧
              address b = a ∧ is_alive b = true
  | Err e => (e = ErrSentinel SRouteNotFound ∧ pools r !! normalizeHost host = None) ∨
             (e = ErrSentinel SNoAliveBackends ∧ is_Some (pools r !! normalizeHost host))
  | Panic _ => False
  end.
Proof.
  pose proof (Pick_Ok_inv r host) as HOk. revert HOk. unfold Pick.
  destruct (pools r !! normalizeHost host) as [p|] eqn:Hp; cbn; [|by left].
  destruct (Pick_scan_cases (backends p) (wrap64 (wrap64 (rr p + 1) - 1))
    (length (backends p)) 0) as [(b & Hb & Hal & ->)| ->]; [|by auto|by eauto].
  destruct (backends p); [by right|by left].
Qed.

(** C24: round-robin fairness: as many consecutive picks as the pool has backends, all of them alive, return every backend's address exactly once, in pool order rotated to the current ticket. *)
Theorem picks_round r host p :
  pools r !! normalizeHost host = Some p → pool_wf p →
  (rr p + 2 * Z.of_nat (length (backends p)) ≤ 2 ^ 64)%Z →
  Forall (λ b, is_alive b = true) (backends p) →
  (picks (length (backends p)) r host).2 = (λ b, Ok (address b)) <$> scan_order (rr p) (backends p) ∧
  (picks (length (backends p)) r host).2 ≡ₚ (λ b, Ok (address b)) <$> backends p.
Proof.
  intros Hp Hwf Hrr Hall.
  assert ((picks (length (backends p)) r host).2 =
    (λ b, Ok (address b)) <$> scan_order (rr p) (backends p)) as ->.
  { rewrite (picks_lookup _ _ _ _ Hp Hwf) by lia. apply list_eq. intros i.
    rewrite !list_lookup_fmap. destruct (decide (i < length (backends p))%nat) as [Hi|Hi].
    - rewrite lookup_seq_lt by done. cbn. rewrite first_alive_all_up by done.
      destruct (lookup_lt_is_Some_2 (scan_order (rr p) (backends p)) i) as [b ->]; [|done].
      unfold scan_order. by rewrite length_rotate.
    - rewrite !lookup_ge_None_2; [done| |].
      + unfold scan_order. rewrite length_rotate. lia.
      + rewrite length_seq. lia. }
  split; [done|]. apply fmap_Permutation. unfold scan_order, rotate.
  rewrite Permutation_app_comm. by rewrite take_drop.
Qed.

(** C23: complete behaviour of [SetBackendAlive]: it succeeds exactly when the host has a pool with a backend of that address, sets the flag of the first such backend and of nothing else, reports whether the flag was different, and on either error leaves the router as it was. *)
Theorem SetBackendAlive_spec r (host addr : string) (up : bool) :
  let newVal := (if up then 1 else 0)%Z in
  match SetBackendAlive r host addr up with
  | (r', Ok changed) => ∃ p bs1 b bs2,
      pools r !! normalizeHost host = Some p ∧ backends p = bs1 ++ b :: bs2 ∧
      address b = addr ∧ (addr ∉ address <$> bs1) ∧
      changed = bool_decide (alive b ≠ newVal) ∧
      pools r' = <[normalizeHost host :=
                     mkPool (bs1 ++ mkBackend addr newVal :: bs2) (rr p)]> (pools r) ∧
      backendToHost r' = backendToHost r
  | (r', Err e) => r' = r ∧
      ((pools r !! normalizeHost host = None ∧ e = ErrSentinel SRouteNotFound) ∨
       (∃ p, pools r !! normalizeHost host = Some p ∧ (addr ∉ address <$> backends p) ∧
          errors_Is e SRouteNotFound = false))
  | (_, Panic _) => False
  end.
Proof.
  cbn zeta. unfold SetBackendAlive.
  destruct (pools r !! normalizeHost host) as [p|] eqn:Hp; [|by auto].
  destruct (swap_alive (backends p) addr _) as [bs [prev|]] eqn:Es.
  - apply swap_alive_Some in Es as (bs1 & b & bs2 & Hb & Ha & Hn & <- & ->).
    exists p, bs1, b, bs2. split_and!; try done.
    destruct (Z.eqb_spec (alive b) (if up then 1 else 0)).
    + rewrite bool_decide_eq_false_2; [done|tauto].
    + by rewrite bool_decide_eq_true_2.
  - split; [done|]. right. exists p. split_and!; try done.
    apply (swap_alive_None _ _ (if up then 1 else 0)%Z). by rewrite Es.
Qed.

(** A backend that a health update marks dead leaves the rotation: when the addresses of the pool are distinct, no sequence of picks for any spelling of the host returns it until another update. *)
Theorem SetBackendAlive_removes r host addr r' c p :
  pools r !! normalizeHost host = Some p → NoDup (address <$> backends p) →
  SetBackendAlive r host addr false = (r', Ok c) →
  ∀ host' k, normalizeHost host' = normalizeHost host → Ok addr ∉ (picks k r' host').2.
Proof.
  intros Hp Hnd E host' k Hh Hin.
  apply SetBackendAlive_Ok in E as (p0 & bs1 & b0 & bs2 & Hp0 & Hb0 & Ha0 & Hn & _ & ->).
  apply picks_Ok_inv in Hin as (p1 & b & Hp1 & Hb & Ha & Hal). cbn in Hp1.
  rewrite Hh, lookup_insert_eq in Hp1. injection Hp1 as <-. cbn in Hb.
  assert (p0 = p) as -> by congruence. rewrite Hb0, fmap_app in Hnd. cbn in Hnd. rewrite Ha0 in Hnd.
  apply NoDup_app in Hnd as (_ & _ & [Hn2 _]%NoDup_cons).
  apply elem_of_app in Hb as [Hb|[->|Hb]%elem_of_cons]; [|done|].
  - apply Hn. rewrite <-Ha. by apply list_elem_of_fmap_2.
  - apply Hn2. rewrite <-Ha. by apply list_elem_of_fmap_2.
Qed.

(** The distinctness is needed, and nothing in the program establishes it: a pool that lists one address twice keeps handing it out after the health checker has marked that address dead, because only the first of the two flags is written. *)
Theorem duplicate_backend_survives r host addr p :
  pools r !! normalizeHost host = Some p → in_u64 (rr p) → aligned (rr p) 2 →
  backends p = [mkBackend addr 1; mkBackend addr 1] →
  (SetBackendAlive r host addr false).2 = Ok true ∧
  (Pick (SetBackendAlive r host addr false).1 host).2 = Ok addr ∧
  (SetBackendAlive (SetBackendAlive r host addr false).1 host addr false).2 = Ok false.
Proof.
  intros Hp Hrr Ha Hb. unfold SetBackendAlive at 1 2 4. rewrite Hp, Hb. cbn [swap_alive address alive].
  rewrite bool_decide_eq_false_2 by tauto. cbn [fst snd].
  split; [done|]. set (r' := mkRouter _ _).
  assert (pools r' !! normalizeHost host = Some (mkPool [mkBackend addr 0; mkBackend addr 1] (rr p)))
    as Hp' by apply lookup_insert_eq.
  split.
  - rewrite (Pick_found r' host _ Hp') by done. cbn [snd backends rr length].
    rewrite (Pick_scan_first_alive _ _ _ 0) by done. rewrite drop_0.
    assert (rr p mod 2 = 0 ∨ rr p mod 2 = 1)%Z as [E|E] by (pose proof (Z.mod_pos_bound (rr p) 2); lia);
      unfold scan_order; cbn [length]; change (Z.of_nat 2) with 2%Z; by rewrite E.
  - unfold SetBackendAlive. rewrite Hp'. cbn. by rewrite bool_decide_eq_false_2 by tauto.
Qed.

(** At the wrap-around of the ticket counter the scan is not cyclic: with three backends and the counter at its maximum [Pick] inspects backend 0 twice, never backend 2, and reports no alive backend although backend 2 is alive. *)
Theorem Pick_wrap_misses_backend r host a0 a1 a2 :
  pools r !! normalizeHost host =
    Some (mkPool [mkBackend a0 0; mkBackend a1 0; mkBackend a2 1] (2 ^ 64 - 1)) →
  (Pick r host).2 = Err (ErrSentinel SNoAliveBackends) ∧
  (Pick (Pick r host).1 host).2 = Ok a2.
Proof.
  intros Hp. assert (in_u64 (2 ^ 64 - 1)) as Hrr by (unfold in_u64; lia).
  rewrite (Pick_found r host _ Hp) by done. split; [reflexivity|].
  rewrite (Pick_found _ host (mkPool [mkBackend a0 0; mkBackend a1 0; mkBackend a2 1] 0)).
  - reflexivity.
  - apply lookup_insert_eq.
  - unfold in_u64. cbn. lia.
Qed.

(** [New] succeeds exactly on a non-empty route table in which every host has a non-empty normal form and at least one address, whatever the order in which the map is ranged over; otherwise it returns an error and never panics. *)
Theorem New_succeeds_iff routes ord :
  range_order routes ord →
  ((∃ r, New routes ord = Ok r) ↔
     routes ≠ ∅ ∧ map_Forall (λ host addrs, normalizeHost host ≠ "" ∧ addrs ≠ []) routes) ∧
  (∀ why, New routes ord ≠ Panic why).
Proof.
  intros Hord.
  assert (Forall route_ok ord ↔
    map_Forall (λ host addrs, normalizeHost host ≠ "" ∧ addrs ≠ []) routes) as Hok.
  { rewrite map_Forall_to_list, Hord. apply Forall_iff. by intros [h a]. }
  unfold New. case_bool_decide as Hs.
  { apply map_size_empty_iff in Hs as ->. split; [|done]. split; [by intros []|by intros []]. }
  rewrite map_size_empty_iff in Hs.
  destruct (New_routes_cases ord ∅ ∅) as [(HF & r & ->)|(HF & e & ->)]; rewrite Hok in HF.
  - split; [|done]. split; [done|eauto].
  - split; [|done]. split; [by intros []|by intros [_ ?]].
Qed.

(** C31: the router [New] builds from a table whose hosts have distinct normal forms is exactly the table: the pool of a normalised host holds the addresses of its route in order, all alive with a fresh counter, and there is no other pool; the reverse index maps an address to the normal form of the first host, in the order of the map iteration, whose route lists it; so the pools and the set of indexed addresses do not depend on that order, and the index as a whole only depends on it for addresses that several hosts list. *)
Theorem New_correct routes ord r :
  range_order routes ord → distinct_keys routes → New routes ord = Ok r →
  (∀ k p, pools r !! k = Some p ↔
     ∃ host addrs, routes !! host = Some addrs ∧ normalizeHost host = k ∧ p = fresh_pool addrs) ∧
  (∀ a, backendToHost r !! a = first_host a ord) ∧
  router_wf r ∧
  (∀ ord' r', range_order routes ord' → New routes ord' = Ok r' →
     pools r' = pools r ∧ dom (backendToHost r') = dom (backendToHost r) ∧
     ∀ a, (∀ host host' addrs addrs', routes !! host = Some addrs → routes !! host' = Some addrs' →
             a ∈ addrs → a ∈ addrs' → normalizeHost host = normalizeHost host') →
          backendToHost r' !! a = backendToHost r !! a).
Proof.
  intros Hord Hinj E. pose proof (λ k p, New_pools routes ord r k p Hord Hinj E) as Hp.
  assert (∀ ord' r' a, New routes ord' = Ok r' → backendToHost r' !! a = first_host a ord') as Hidx.
  { intros ord' r' a E'%New_Ok_routes. by rewrite (New_routes_first _ _ _ _ a E'), lookup_empty. }
  split_and!; [done|by intros a; apply Hidx|by eapply New_wf|].
  intros ord' r' Hord' E'. split_and!.
  - apply map_eq. intros k. apply option_eq. intros p. by rewrite Hp, (New_pools routes ord' r').
  - apply set_eq. intros a. rewrite !elem_of_dom, (Hidx _ _ a E'), (Hidx _ _ a E).
    apply (first_host_order routes); done.
  - intros a Huniq. rewrite (Hidx _ _ a E'), (Hidx _ _ a E).
    symmetry. by apply (first_host_order routes ord ord').
Qed.

(** C32: the whitelist for IPv4 requests is exact: [HostForBackendAddr] knows an address exactly when some route of the table lists it, and the host it gives is the normal form of such a route. *)
Theorem HostForBackendAddr_exact routes ord r addr :
  range_order routes ord → New routes ord = Ok r →
  (is_Some (HostForBackendAddr r addr) ↔
     ∃ host addrs, routes !! host = Some addrs ∧ addr ∈ addrs) ∧
  (∀ h, HostForBackendAddr r addr = Some h →
     ∃ host addrs, routes !! host = Some addrs ∧ addr ∈ addrs ∧ h = normalizeHost host).
Proof.
  intros Hord E%New_Ok_routes. unfold HostForBackendAddr.
  destruct (New_routes_index _ _ _ _ addr E) as [_ Hidx].
  destruct (Hidx (lookup_empty _)) as [H1 H2].
  assert (∀ h, backendToHost r !! addr = Some h →
     ∃ host addrs, routes !! host = Some addrs ∧ addr ∈ addrs ∧ h = normalizeHost host) as H3.
  { intros h (host & addrs & Hin & ? & ?)%H1. exists host, addrs.
    by rewrite <-(range_order_elem _ _ _ _ Hord). }
  split; [|done]. split.
  - intros [h (host & addrs & ? & ? & _)%H3]. eauto.
  - intros (host & addrs & Hr & Ha). apply (H2 (host, addrs)); [|done].
    by apply (range_order_elem _ _ _ _ Hord).
Qed.

(** The operations keep every pool non-empty with its counter in range. *)
Theorem router_wf_preserved r host addr up :
  router_wf r → router_wf (Pick r host).1 ∧ router_wf (SetBackendAlive r host addr up).1.
Proof. intros Hwf. split; [by apply Pick_wf|by apply SetBackendAlive_wf]. Qed.

End router_properties.

(** ** Host names *)

Definition dots (k : nat) : bytes := replicate k Byte.x2e.

Section hosts.
Context `{UnicodeTables}.

(** On graphic ASCII without capitals, normalising only drops a final dot. *)
Lemma normalizeHost_plain h : plain h = true → normalizeHost h = TrimSuffix h ".".
Proof.
  intros Hp. unfold normalizeHost, ToLower, TrimSpace. f_equal.
  unfold plain in Hp. rewrite to_lower_plain, s2b_b2s by done.
  rewrite <-(b2s_s2b h) at 2. f_equal.
  apply trim_space_all_graphic. revert Hp. rewrite !forallb_forall.
  intros Hp b [? _]%Hp%andb_prop. done.
Qed.

Lemma plain_app l k : plain (b2s (l ++ k)) = plain (b2s l) && plain (b2s k).
Proof. unfold plain. rewrite !s2b_b2s. apply forallb_app. Qed.

Lemma plain_dots k : plain (b2s (dots k)) = true.
Proof. unfold plain. rewrite s2b_b2s. induction k; done. Qed.

Lemma normalizeHost_drop_dot h k :
  plain (b2s h) = true →
  normalizeHost (b2s (h ++ dots (S k))) = b2s (h ++ dots k).
Proof.
  intros Hp. rewrite normalizeHost_plain by (by rewrite plain_app, Hp, plain_dots).
  unfold TrimSuffix. rewrite s2b_b2s. change (s2b ".") with [Byte.x2e].
  assert (dots (S k) = dots k ++ [Byte.x2e]) as -> by apply replicate_cons_app.
  by rewrite app_assoc, trim_suffix_app.
Qed.

Lemma normalizeHost_no_dot h :
  plain (b2s h) = true → (∀ l, h ≠ l ++ [Byte.x2e]) → normalizeHost (b2s h) = b2s h.
Proof.
  intros Hp Hd. rewrite normalizeHost_plain by done. unfold TrimSuffix.
  by rewrite s2b_b2s, trim_suffix_none.
Qed.

(** Host names are matched without regard to ASCII case: two ASCII spellings that agree up to case have the same normal form, hence the same pool. *)
Theorem normalizeHost_case_insensitive h1 h2 :
  is_ascii (s2b h1) = true → is_ascii (s2b h2) = true →
  lower_byte <$> s2b h1 = lower_byte <$> s2b h2 →
  normalizeHost h1 = normalizeHost h2.
Proof.
  intros H1 H2 E. unfold normalizeHost, ToLower. by rewrite (to_lower_case _ _ H1 H2 E).
Qed.

End hosts.

(** ** Interleaved picks

    [Pick] as the sequence of its atomic operations, run by any number of
    goroutines on one pool together with health updates: one [AddUint64] that
    takes the ticket, then one [LoadUint32] per inspected backend. *)
Inductive picker :=
  | PStart
  | PScan (ticket i : Z)
  | PDone (ticket : Z) (res : result string).

Definition istate : Type := pool * gmap nat picker.

Inductive istep : istate → istate → Prop :=
  | step_ticket p ts t :
      ts !! t = Some PStart →
      istep (p, ts)
        (mkPool (backends p) (wrap64 (rr p + 1)),
         <[t := PScan (wrap64 (wrap64 (rr p + 1) - 1)) 0]> ts)
  | step_load p ts t ticket i b :
      ts !! t = Some (PScan ticket i) →
      (i < Z.of_nat (length (backends p)))%Z →
      backends p !! Z.to_nat (wrap64 (ticket + i) mod Z.of_nat (length (backends p))) = Some b →
      istep (p, ts)
        (p, <[t := if is_alive b then PDone ticket (Ok (address b))
                   else PScan ticket (i + 1)]> ts)
  | step_exhausted p ts t ticket i :
      ts !! t = Some (PScan ticket i) →
      (Z.of_nat (length (backends p)) ≤ i)%Z →
      istep (p, ts) (p, <[t := PDone ticket (Err (ErrSentinel SNoAliveBackends))]> ts)
  | step_health p ts addr v :
      istep (p, ts) (mkPool (swap_alive (backends p) addr v).1 (rr p), ts).

Definition ticket_of (t : picker) : option Z :=
  match t with PStart => None | PScan k _ => Some k | PDone k _ => Some k end.

(** Backend [j] is alive and the ticket counter is away from its maximum. *)
Definition calm (n j : nat) (s : istate) : Prop :=
  length (backends s.1) = n ∧ (0 ≤ rr s.1)%Z ∧ (rr s.1 + Z.of_nat n < 2 ^ 64)%Z ∧
  ∃ b, backends s.1 !! j = Some b ∧ is_alive b = true.

Definition calm_step (n j : nat) (s s' : istate) : Prop :=
  istep s s' ∧ calm n j s ∧ calm n j s'.

(** What a goroutine may have reached while backend [j] was alive throughout:
    its ticket is below the counter and none of the slots it inspected was
    [j]. *)
Definition picker_ok (n j : nat) (top : Z) (t : picker) : Prop :=
  match t with
  | PStart => True
  | PScan k i => (0 ≤ k < top)%Z ∧ (k + Z.of_nat n ≤ 2 ^ 64)%Z ∧ (0 ≤ i ≤ Z.of_nat n)%Z ∧
      ∀ i', (0 ≤ i' < i)%Z → Z.to_nat ((k + i') mod Z.of_nat n) ≠ j
  | PDone k res => (0 ≤ k < top)%Z ∧ ∃ a, res = Ok a
  end.

Definition system_ok (n j : nat) (s : istate) : Prop :=
  map_Forall (λ _ t, picker_ok n j (rr s.1) t) s.2 ∧
  (∀ t1 t2 p1 p2 k, s.2 !! t1 = Some p1 → s.2 !! t2 = Some p2 →
     ticket_of p1 = Some k → ticket_of p2 = Some k → t1 = t2).

(** Some slot of a full cycle from any ticket is [j]. *)
Lemma cycle_hits n j k :
  (j < n)%nat → ∃ i, (0 ≤ i < Z.of_nat n)%Z ∧ Z.to_nat ((k + i) mod Z.of_nat n) = j.
Proof.
  intros Hj. exists ((Z.of_nat j - k) mod Z.of_nat n)%Z.
  split; [apply Z.mod_pos_bound; lia|].
  rewrite Z.add_mod_idemp_r by lia. replace (k + (Z.of_nat j - k))%Z with (Z.of_nat j) by lia.
  rewrite Z.mod_small by lia. lia.
Qed.

Lemma picker_ok_mono n j top top' t :
  (top ≤ top')%Z → picker_ok n j top t → picker_ok n j top' t.
Proof. destruct t as [|k i|k res]; cbn; [done| |]; intuition lia. Qed.

(** Updating one goroutine to a state that is itself acceptable and keeps its
    ticket preserves the invariant of the system. *)
Lemma system_ok_update n j p ts t old new :
  system_ok n j (p, ts) → ts !! t = Some old → ticket_of new = ticket_of old →
  picker_ok n j (rr p) new → system_ok n j (p, <[t := new]> ts).
Proof.
  intros [Hf Hinj] Hold Htk Hnew. cbn in Hf, Hinj. split.
  - by apply map_Forall_insert_2.
  - intros t1 t2 p1 p2 k. cbn. rewrite !lookup_insert_Some.
    intros [[<- <-]|[? H1]] [[<- <-]|[? H2]] K1 K2; try done.
    + apply (Hinj t t2 old p2 k); congruence.
    + apply (Hinj t1 t p1 old k); congruence.
    + by eapply Hinj.
Qed.

Lemma calm_step_ok n j s s' : calm_step n j s s' → system_ok n j s → system_ok n j s'.
Proof.
  intros (Hst & (Hn & H0 & Hrr & b0 & Hb0 & Hal0) & Hcalm') Hok.
  assert (j < n)%nat as Hj by (rewrite <-Hn; by eapply lookup_lt_Some).
  destruct Hst as [p ts t Ht|p ts t k i b Ht Hi Hb|p ts t k i Ht Hi|p ts addr v]; cbn in *.
  - destruct Hok as [Hf Hinj].
    assert (wrap64 (rr p + 1) = rr p + 1)%Z as Hinc by (apply wrap64_id; unfold in_u64; lia).
    rewrite Hinc. replace (rr p + 1 - 1)%Z with (rr p) by lia.
    rewrite wrap64_id by (unfold in_u64; lia). split; cbn.
    + apply map_Forall_insert_2.
      * cbn. split_and!; lia.
      * eapply map_Forall_impl; [exact Hf|]. intros ? t'. apply picker_ok_mono. cbn. lia.
    + assert (∀ t' p', ts !! t' = Some p' → ticket_of p' ≠ Some (rr p)) as Hfresh.
      { intros t' p' Ht' E. specialize (Hf _ _ Ht'). destruct p'; cbn in *; [done|..];
          injection E as ->; lia. }
      intros t1 t2 p1 p2 k0. rewrite !lookup_insert_Some.
      intros [[<- <-]|[? H1]] [[<- <-]|[? H2]] K1 K2; cbn in *; try done.
      * injection K1 as <-. by apply Hfresh in H2.
      * injection K2 as <-. by apply Hfresh in H1.
      * by eapply Hinj.
  - pose proof (proj1 Hok _ _ Ht) as Hp. cbn in Hp.
    eapply system_ok_update; [done|done|by destruct (is_alive b)|].
    destruct Hp as (Hk & Hkn & Hir & Hmiss).
    assert (wrap64 (k + i) = k + i)%Z as Hw by (apply wrap64_id; unfold in_u64; lia).
    rewrite Hw, Hn in Hb.
    destruct (is_alive b) eqn:Hal; cbn; [split; [lia|eauto]|].
    split_and!; try lia. intros i' Hi'.
    destruct (decide (i' = i)) as [->|]; [|apply Hmiss; lia].
    intros E. rewrite E, Hb0 in Hb. congruence.
  - pose proof (proj1 Hok _ _ Ht) as (Hk & Hkn & Hir & Hmiss).
    destruct (cycle_hits n j k Hj) as (i' & Hi' & Hij).
    destruct (Hmiss i'); [lia|done].
  - done.
Qed.

(** C19: correctness of [Pick] under interleaving: when some backend of the pool stays alive and the counter stays clear of its maximum, then along every run of any number of goroutines with each other and with health updates, a finished [Pick] has returned an address and never [ErrNoAliveBackends], and no two goroutines ever hold the same ticket. *)
Theorem interleaved_picks n j s s' :
  (∀ t p, s.2 !! t = Some p → p = PStart) → rtc (calm_step n j) s s' →
  (∀ t k res, s'.2 !! t = Some (PDone k res) → ∃ a, res = Ok a) ∧
  (∀ t1 t2 p1 p2 k, s'.2 !! t1 = Some p1 → s'.2 !! t2 = Some p2 →
     ticket_of p1 = Some k → ticket_of p2 = Some k → t1 = t2).
Proof.
  intros Hstart Hrun.
  assert (system_ok n j s') as [Hf Hinj].
  { eapply (rtc_preserve _ (system_ok n j)); [intros ??; apply calm_step_ok|exact Hrun|].
    split; [intros t p Hp|intros t1 t2 p1 p2 k H1 H2].
    - by rewrite (Hstart _ _ Hp).
    - by rewrite (Hstart _ _ H1). }
  split; [|exact Hinj]. intros t k res Ht. by destruct (Hf _ _ Ht) as [_ ?].
Qed.

(** ** Witnesses: the properties at a concrete router *)

#[local] Existing Instance ascii_tables.

Definition sample_routes : gmap string (list string) :=
  {[ "api.internal" := ["10.0.0.1:80"; "10.0.0.2:80"; "10.0.0.3:80"];
     "db.internal" := ["10.0.2.1:5432"] ]}.

Definition sample_pool : pool := fresh_pool ["10.0.0.1:80"; "10.0.0.2:80"; "10.0.0.3:80"].

Definition sample_router : Router :=
  match New sample_routes (map_to_list sample_routes) with
  | Ok r => r
  | _ => mkRouter ∅ ∅
  end.

Definition one_pool (p : pool) : Router := mkRouter {[ "h" := p ]} ∅.

Lemma sample_pool_wf : pool_wf sample_pool.
Proof. split; [discriminate|]. unfold in_u64. cbn. lia. Defined.

Lemma sample_distinct : distinct_keys sample_routes.
Proof.
  intros h1 h2 H1 H2. assert (∀ h, h ∈ dom sample_routes → h = "api.internal" ∨ h = "db.internal") as Hd.
  { intros h. unfold sample_routes. set_solver. }
  by destruct (Hd _ H1) as [-> | ->], (Hd _ H2) as [-> | ->].
Defined.

Lemma Pick_selects_witness :
  (Pick sample_router "API.internal.").2 = Ok "10.0.0.1:80".
Proof.
  rewrite (Pick_selects sample_router "API.internal." sample_pool).
  - reflexivity.
  - vm_compute. reflexivity.
  - exact sample_pool_wf.
  - left. cbn. lia.
Defined.

Lemma picks_round_witness :
  (picks 3 sample_router "api.internal").2 =
    [Ok "10.0.0.1:80"; Ok "10.0.0.2:80"; Ok "10.0.0.3:80"].
Proof.
  exact (proj1 (picks_round sample_router "api.internal" sample_pool
    ltac:(vm_compute; reflexivity) sample_pool_wf ltac:(cbn; lia)
    ltac:(repeat constructor))).
Defined.

Lemma SetBackendAlive_removes_witness :
  Ok "10.0.0.2:80" ∉
    (picks 7 (SetBackendAlive sample_router "api.internal" "10.0.0.2:80" false).1 "API.internal").2.
Proof.
  apply (SetBackendAlive_removes sample_router "api.internal" "10.0.0.2:80" _ true sample_pool).
  - vm_compute. reflexivity.
  - apply (bool_decide_unpack (NoDup (address <$> backends sample_pool))). vm_compute. exact I.
  - vm_compute. reflexivity.
  - vm_compute. reflexivity.
Defined.

Lemma duplicate_backend_survives_witness :
  let r := one_pool (mkPool [mkBackend "10.0.0.1:80" 1; mkBackend "10.0.0.1:80" 1] 0) in
  (Pick (SetBackendAlive r "h" "10.0.0.1:80" false).1 "h").2 = Ok "10.0.0.1:80".
Proof.
  apply (duplicate_backend_survives _ "h" "10.0.0.1:80"
    (mkPool [mkBackend "10.0.0.1:80" 1; mkBackend "10.0.0.1:80" 1] 0)).
  - vm_compute. reflexivity.
  - unfold in_u64. cbn. lia.
  - left. cbn. lia.
  - reflexivity.
Defined.

Lemma Pick_wrap_misses_backend_witness :
  let r := one_pool (mkPool [mkBackend "a" 0; mkBackend "b" 0; mkBackend "c" 1] (2 ^ 64 - 1)) in
  (Pick r "h").2 = Err (ErrSentinel SNoAliveBackends) ∧ (Pick (Pick r "h").1 "h").2 = Ok "c".
Proof. apply (Pick_wrap_misses_backend _ "h" "a" "b" "c"). vm_compute. reflexivity. Defined.

Lemma New_succeeds_iff_witness :
  ∃ r, New sample_routes (map_to_list sample_routes) = Ok r.
Proof.
  apply (New_succeeds_iff sample_routes (map_to_list sample_routes)).
  - apply range_order_self.
  - split.
    + intros E. assert (size sample_routes = 0) as Hs by (rewrite E; reflexivity).
      vm_compute in Hs. discriminate.
    + apply (bool_decide_unpack (map_Forall (λ host addrs, normalizeHost host ≠ "" ∧ addrs ≠ [])
        sample_routes)). vm_compute. exact I.
Defined.

Lemma New_correct_witness :
  pools sample_router !! "db.internal" = Some (fresh_pool ["10.0.2.1:5432"]).
Proof.
  apply (New_correct sample_routes (map_to_list sample_routes) sample_router).
  - apply range_order_self.
  - exact sample_distinct.
  - vm_compute. reflexivity.
  - exists "db.internal", ["10.0.2.1:5432"]. split_and!; vm_compute; reflexivity.
Defined.

Lemma HostForBackendAddr_exact_witness :
  ∃ host addrs, sample_routes !! host = Some addrs ∧ "10.0.2.1:5432" ∈ addrs.
Proof.
  apply (HostForBackendAddr_exact sample_routes (map_to_list sample_routes) sample_router
    "10.0.2.1:5432" (range_order_self _)).
  - vm_compute. reflexivity.
  - vm_compute. eauto.
Defined.

Lemma router_wf_preserved_witness :
  router_wf (Pick (one_pool sample_pool) "h").1.
Proof.
  assert (router_wf (one_pool sample_pool)) as Hwf by apply map_Forall_singleton, sample_pool_wf.
  exact (proj1 (router_wf_preserved (one_pool sample_pool) "h" "10.0.0.1:80" true Hwf)).
Defined.

Lemma normalizeHost_case_insensitive_witness :
  normalizeHost "API.Example.com" = normalizeHost "api.EXAMPLE.com".
Proof. apply normalizeHost_case_insensitive; vm_compute; reflexivity. Defined.

Definition solo_start : istate := (sample_pool, {[ 0%nat := PStart ]}).
Definition solo_ticket : istate :=
  (mkPool (backends sample_pool) 1, {[ 0%nat := PScan 0 0 ]}).
Definition solo_done : istate :=
  (mkPool (backends sample_pool) 1, {[ 0%nat := PDone 0 (Ok "10.0.0.1:80") ]}).

Lemma calm_sample r ts : (0 ≤ r < 100)%Z → calm 3 0 (mkPool (backends sample_pool) r, ts).
Proof.
  intros Hr. split_and!; cbn; try lia. exists (mkBackend "10.0.0.1:80" 1). done.
Defined.

Lemma interleaved_picks_witness :
  rtc (calm_step 3 0) solo_start solo_done ∧
  ∃ a, (Ok "10.0.0.1:80" : result string) = Ok a.
Proof.
  assert (rtc (calm_step 3 0) solo_start solo_done) as Hrun.
  { apply rtc_l with solo_ticket; [|apply rtc_once].
    - split; [|split; apply (calm_sample _); lia].
      exact (step_ticket sample_pool {[ 0%nat := PStart ]} 0 eq_refl).
    - split; [|split; apply (calm_sample _); lia].
      exact (step_load (mkPool (backends sample_pool) 1) {[ 0%nat := PScan 0 0 ]} 0 0 0
        (mkBackend "10.0.0.1:80" 1) eq_refl eq_refl eq_refl). }
  split; [exact Hrun|].
  apply (proj1 (interleaved_picks 3 0 solo_start solo_done
    ltac:(intros t p; cbn; rewrite lookup_singleton_Some; intros [_ <-]; reflexivity)
    Hrun) 0%nat 0%Z). reflexivity.
Defined.
