(* ===== verification/GoNet.v ===== *)
(** * The parts of Go's [net] package the program uses as pure functions

    [net.IP] values and their text form, [net.JoinHostPort], [net.ParseIP], and
    the byte-stream connection on which the SOCKS code works. *)
From S2P Require Import Prelude GoStrings.

(** ** IP addresses: [net.IP] is a byte slice of length 4 or 16 *)

Abbreviation IP := (list byte).

Definition v4_in_v6_prefix : bytes := replicate 10 Byte.x00 ++ [Byte.xff; Byte.xff].

(** [ip.To4()]; [None] is the nil slice. *)
Definition To4 (ip : IP) : option IP :=
  if bool_decide (length ip = 4) then Some ip
  else if bool_decide (length ip = 16) then
    strip_prefix v4_in_v6_prefix ip
  else None.

Definition dotted (ip : IP) : string := Join ((λ b, itoa (bval b)) <$> ip) ".".

(** Digits of a 16-bit group without leading zeros. *)
Fixpoint drop_zeros (l : list N) : list N :=
  match l with
  | [] => []
  | [d] => [d]
  | d :: l => if (d =? 0)%N then drop_zeros l else d :: l
  end.

Definition hex_group (g : N) : string :=
  b2s (hex_digit <$> drop_zeros [g / 4096; (g / 256) mod 16; (g / 16) mod 16; g mod 16]%N).

Fixpoint groups (ip : IP) : list N :=
  match ip with
  | hi :: lo :: ip => (Byte.to_N hi * 256 + Byte.to_N lo)%N :: groups ip
  | _ => []
  end.

Fixpoint zero_run (l : list N) : nat :=
  match l with
  | 0%N :: l => S (zero_run l)
  | _ => 0
  end.

(** Start and length of the first longest run of zero groups. *)
Fixpoint longest_run (i : nat) (l : list N) (best : nat * nat) : nat * nat :=
  match l with
  | [] => best
  | _ :: l' =>
      let r := zero_run l in
      longest_run (S i) l' (if bool_decide (best.2 < r)%nat then (i, r) else best)
  end.

Definition ipv6_text (ip : IP) : string :=
  let g := groups ip in
  let '(e0, n) := longest_run 0 g (0, 0) in
  if bool_decide (2 ≤ n)%nat then
    Join (hex_group <$> take e0 g) ":" +:+ "::" +:+ Join (hex_group <$> drop (e0 + n) g) ":"
  else Join (hex_group <$> g) ":".

(** [ip.String()] *)
Definition IP_String (ip : IP) : string :=
  if bool_decide (length ip = 0) then "<nil>"
  else match To4 ip with
  | Some ip4 => dotted ip4
  | None =>
      if bool_decide (length ip = 16) then ipv6_text ip
      else "?" +:+ b2s (ip ≫= λ b, [hex_digit (Byte.to_N b / 16)%N; hex_digit (Byte.to_N b)])
  end.

(** [net.JoinHostPort] *)
Definition JoinHostPort (host port : string) : string :=
  if Contains host ":" || Contains host "%" then "[" +:+ host +:+ "]:" +:+ port
  else host +:+ ":" +:+ port.

(** [ip.IsUnspecified()]: 0.0.0.0 in either form, or [::]. *)
Definition IsUnspecified (ip : IP) : bool :=
  bool_decide (To4 ip = Some (replicate 4 Byte.x00)) || bool_decide (ip = replicate 16 Byte.x00).

(** *** [net.ParseIP] *)

Definition dec_digit (b : byte) : option N :=
  let n := Byte.to_N b in if between 48 57 n then Some (n - 48)%N else None.

Definition hex_value (b : byte) : option N :=
  let n := Byte.to_N b in
  if between 48 57 n then Some (n - 48)%N
  else if between 97 102 n then Some (n - 87)%N
  else if between 65 70 n then Some (n - 55)%N
  else None.

(** A decimal octet: digits only, no leading zero, at most 255. *)
Fixpoint octet_go (val : N) (l : bytes) : option N :=
  match l with
  | [] => Some val
  | b :: l =>
      d ← dec_digit b;
      let val := (val * 10 + d)%N in
      if (255 <? val)%N then None else octet_go val l
  end.

Definition parse_octet (l : bytes) : option byte :=
  match l with
  | [] => None
  | b :: _ :: _ => if decide (b = Byte.x30) then None else nbyte <$> octet_go 0 l
  | [_] => nbyte <$> octet_go 0 l
  end.

Definition parse_ipv4 (l : bytes) : option bytes :=
  let fields := split_byte Byte.x2e l in
  if bool_decide (length fields = 4) then mapM parse_octet fields else None.

(** The hexadecimal digits at the front of [l], at most four: their value, how
    many there are, and the rest. *)
Fixpoint hex_field (acc : N) (off : nat) (l : bytes) : option (N * nat * bytes) :=
  match l with
  | [] => Some (acc, off, [])
  | b :: l' =>
      match hex_value b with
      | None => Some (acc, off, l)
      | Some d => if bool_decide (3 < off)%nat then None else hex_field (acc * 16 + d) (S off) l'
      end
  end.

(** The field loop: [ip] is filled from the left, [ellipsis] is the position of
    the double colon.  The result is the unread rest with the final state. *)
Fixpoint ipv6_fields (fuel : nat) (ip : bytes) (ellipsis : option nat) (l : bytes)
    : option (bytes * option nat * bytes) :=
  match fuel with
  | O => Some (ip, ellipsis, l)
  | S fuel =>
      '(acc, off, rest) ← hex_field 0 0 l;
      if bool_decide (off = 0) then None
      else if has_prefix [Byte.x2e] rest then
        if bool_decide (ellipsis = None) && bool_decide (length ip ≠ 12) then None
        else if bool_decide (16 < length ip + 4)%nat then None
        else v4 ← parse_ipv4 l; Some (ip ++ v4, ellipsis, [])
      else
        let ip := ip ++ [nbyte (acc / 256); nbyte acc] in
        if bool_decide (rest = []) then Some (ip, ellipsis, [])
        else match strip_prefix [Byte.x3a; Byte.x3a] rest with
        | Some rest =>
            if bool_decide (ellipsis ≠ None) then None
            else if bool_decide (rest = []) then Some (ip, Some (length ip), [])
            else ipv6_fields fuel ip (Some (length ip)) rest
        | None =>
            match strip_prefix [Byte.x3a] rest with
            | Some rest => if bool_decide (rest = []) then None else ipv6_fields fuel ip ellipsis rest
            | None => None
            end
        end
  end.

Definition parse_ipv6 (l : bytes) : option bytes :=
  let '(ellipsis, s) :=
    match strip_prefix [Byte.x3a; Byte.x3a] l with
    | Some s => (Some 0, s)
    | None => (None, l)
    end in
  if bool_decide (s = []) && bool_decide (ellipsis = Some 0) then Some (replicate 16 Byte.x00)
  else
    '(ip, ellipsis, rest) ← ipv6_fields 8 [] ellipsis s;
    if bool_decide (rest ≠ []) then None
    else if bool_decide (length ip < 16)%nat then
      e ← ellipsis;
      Some (take e ip ++ replicate (16 - length ip) Byte.x00 ++ drop e ip)
    else match ellipsis with Some _ => None | None => Some ip end.

(** [net.ParseIP]: the first dot, colon or percent sign decides. *)
Fixpoint ip_kind (l : bytes) : option byte :=
  match l with
  | [] => None
  | b :: l =>
      if decide (b = Byte.x2e ∨ b = Byte.x3a ∨ b = Byte.x25) then Some b else ip_kind l
  end.

Definition ParseIP (s : string) : option IP :=
  let kind := ip_kind (s2b s) in
  if bool_decide (kind = Some Byte.x2e) then
    (λ v4, v4_in_v6_prefix ++ v4) <$> parse_ipv4 (s2b s)
  else if bool_decide (kind = Some Byte.x3a) then
    if contains [Byte.x25] (s2b s) then None else parse_ipv6 (s2b s)
  else None.

(** *** Text of IPv4 addresses *)

Definition octet_text (b : byte) : bytes := s2b (itoa (bval b)).

(** The decimal text of an octet is made of digits and parses back to it. *)
Lemma octet_text_digits b : forallb (λ c, between 48 57 (Byte.to_N c)) (octet_text b) = true.
Proof. byte_cases b. Qed.

Lemma parse_octet_text b : parse_octet (octet_text b) = Some b.
Proof. byte_cases b. Qed.

Lemma octet_text_notin b c : between 48 57 (Byte.to_N c) = false → c ∉ octet_text b.
Proof.
  intros Hc Hin%list_elem_of_In. pose proof (octet_text_digits b) as Hd.
  rewrite forallb_forall in Hd. apply Hd in Hin. congruence.
Qed.

Lemma dotted_bytes a b c d :
  s2b (dotted [a; b; c; d]) =
    octet_text a ++ Byte.x2e :: octet_text b ++ Byte.x2e :: octet_text c ++ Byte.x2e :: octet_text d.
Proof. unfold dotted. cbn [fmap list_fmap Join]. by autorewrite with gostr. Qed.

Lemma ip_kind_skip x l :
  Byte.x2e ∉ x → Byte.x3a ∉ x → Byte.x25 ∉ x → ip_kind (x ++ l) = ip_kind l.
Proof.
  induction x as [|b x IH]; [done|]. rewrite !not_elem_of_cons. intros [] [] []. cbn.
  rewrite decide_False; [by apply IH|]. intros [->|[->| ->]]; done.
Qed.

(** Printing and parsing an IPv4 address is the identity. *)
Lemma ParseIP_dotted a b c d :
  ParseIP (dotted [a; b; c; d]) = Some (v4_in_v6_prefix ++ [a; b; c; d]).
Proof.
  unfold ParseIP. rewrite dotted_bytes.
  rewrite ip_kind_skip by (by apply octet_text_notin). cbn [ip_kind].
  rewrite decide_True by (by left). rewrite bool_decide_eq_true_2 by done.
  unfold parse_ipv4. rewrite !split_byte_app by (by apply octet_text_notin).
  rewrite split_byte_none by (by apply octet_text_notin).
  rewrite bool_decide_eq_true_2 by done. cbn [mapM]. by rewrite !parse_octet_text.
Qed.

Lemma To4_mapped ip4 : length ip4 = 4 → To4 (v4_in_v6_prefix ++ ip4) = Some ip4.
Proof.
  intros Hl. unfold To4. rewrite bool_decide_eq_false_2 by (rewrite length_app, Hl; done).
  rewrite bool_decide_eq_true_2 by (rewrite length_app, Hl; done). apply strip_prefix_app.
Qed.

Lemma To4_length ip ip4 : To4 ip = Some ip4 → length ip4 = 4.
Proof.
  unfold To4. case_bool_decide; [by intros [= <-]|]. case_bool_decide as H16; [|done].
  intros E%strip_prefix_Some. rewrite E, length_app in H16. cbn in H16. lia.
Qed.

Lemma IP_String_v4 ip ip4 : To4 ip = Some ip4 → IP_String ip = dotted ip4.
Proof.
  intros E. unfold IP_String. rewrite E. case_bool_decide; [|done]. by destruct ip.
Qed.

(** IPv4 text needs no brackets. *)
Lemma JoinHostPort_v4 a b c d port :
  JoinHostPort (dotted [a; b; c; d]) port = dotted [a; b; c; d] +:+ ":" +:+ port.
Proof.
  unfold JoinHostPort, Contains. rewrite dotted_bytes.
  change (s2b ":") with [Byte.x3a]. change (s2b "%") with [Byte.x25]. rewrite !contains_byte.
  rewrite !bool_decide_eq_false_2; [done|..];
    repeat (rewrite elem_of_app || rewrite elem_of_cons);
    intros [Hi|[Hi|[Hi|[Hi|[Hi|[Hi|Hi]]]]]]; try done; by apply octet_text_notin in Hi.
Qed.

(** ** The stream connection

    [c_in] is what the peer will have sent when its read side ends, and
    [c_end] the error every read reports after that ([io.EOF], a deadline, a
    reset).  [c_out] is what has been written.  [c_write] decides the coming
    [Write] calls one by one: [None] writes everything, [Some (k, e)] writes
    the first [k] bytes and fails with [e]; once it is exhausted every write
    succeeds. *)
Record conn := mkConn {
  c_in : bytes;
  c_end : goerror;
  c_out : bytes;
  c_write : list (option (nat * goerror));
}.

(** Operations on a connection: state passing with an error. *)
Definition io (A : Type) : Type := conn → conn * result A.

#[export] Instance io_ret : MRet io := λ A a c, (c, Ok a).
#[export] Instance io_bind : MBind io := λ A B f m c,
  match m c with
  | (c, Ok a) => f a c
  | (c, Err e) => (c, Err e)
  | (c, Panic w) => (c, Panic w)
  end.

Definition fail {A} (e : goerror) : io A := λ c, (c, Err e).

(** [fmt.Errorf] without [%w] *)
Definition errorf {A} (msg : string) : io A := fail (ErrMsg msg).

(** [if err := m; err != nil { return fmt.Errorf(prefix + ": %w", err) }] *)
Definition wrapping {A} (prefix : string) (m : io A) : io A := λ c,
  match m c with
  | (c, Err e) => (c, Err (wrap_err prefix e))
  | r => r
  end.

(** [_ = m] *)
Definition ignore {A} (m : io A) : io unit := λ c, ((m c).1, Ok tt).

(** [io.ReadFull(conn, buf)] with [len(buf) = n] *)
Definition ReadFull (n : nat) : io bytes := λ c,
  if bool_decide (n ≤ length (c_in c))%nat then
    (mkConn (drop n (c_in c)) (c_end c) (c_out c) (c_write c), Ok (take n (c_in c)))
  else
    (mkConn [] (c_end c) (c_out c) (c_write c),
     Err (match c_in c with
          | [] => c_end c
          | _ => if bool_decide (c_end c = ErrSentinel SEOF)
                 then ErrSentinel SUnexpectedEOF else c_end c
          end)).

(** [conn.Write(p)] *)
Definition Write (p : bytes) : io unit := λ c,
  match c_write c with
  | Some (k, e) :: w =>
      (mkConn (c_in c) (c_end c) (c_out c ++ take k p) w, Err e)
  | None :: w => (mkConn (c_in c) (c_end c) (c_out c ++ p) w, Ok tt)
  | [] => (mkConn (c_in c) (c_end c) (c_out c ++ p) [], Ok tt)
  end.

(** A connection on which writes succeed. *)
Definition writes_ok (c : conn) : Prop := Forall (λ w, w = None) (c_write c).

(** [buf[i]] *)
Definition byte_at (l : bytes) (i : nat) : byte := default Byte.x00 (l !! i).

(** [binary.BigEndian.Uint16] and [PutUint16] *)
Definition be16 (hi lo : byte) : Z := (bval hi * 256 + bval lo)%Z.
Definition put_be16 (z : Z) : bytes := [to_byte (z / 256); to_byte z].

Lemma be16_put z : (0 ≤ z < 65536)%Z → be16 (to_byte (z / 256)) (to_byte z) = z.
Proof.
  intros Hz. unfold be16. rewrite !bval_to_byte.
  rewrite (Z.mod_small (z / 256)) by (split; [apply Z.div_pos; lia|apply Z.div_lt_upper_bound; lia]).
  pose proof (Z.div_mod z 256). lia.
Qed.

Lemma put_be16_be16 hi lo : put_be16 (be16 hi lo) = [hi; lo].
Proof.
  unfold put_be16, be16. pose proof (bval_range hi). pose proof (bval_range lo).
  rewrite Z.div_add_l, Z.div_small, Z.add_0_r, to_byte_bval by lia. do 2 f_equal.
  apply bval_inj. rewrite bval_to_byte, Z.add_comm, Z_mod_plus_full.
  apply Z.mod_small. lia.
Qed.

(** ** Lemmas on the connection *)

Lemma ReadFull_app p r e o w :
  ReadFull (length p) (mkConn (p ++ r) e o w) = (mkConn r e o w, Ok p).
Proof.
  unfold ReadFull. cbn. rewrite bool_decide_eq_true_2 by (rewrite length_app; lia).
  by rewrite drop_app_length, take_app_length.
Qed.

Lemma ReadFull_short n l e o w :
  (length l < n)%nat → ∃ err, ReadFull n (mkConn l e o w) = (mkConn [] e o w, Err err).
Proof.
  intros Hl. unfold ReadFull. cbn. rewrite bool_decide_eq_false_2 by lia. eauto.
Qed.

Lemma ReadFull_cases n c :
  (∃ p r, c_in c = p ++ r ∧ length p = n ∧
     ReadFull n c = (mkConn r (c_end c) (c_out c) (c_write c), Ok p)) ∨
  ((length (c_in c) < n)%nat ∧
     ∃ e, ReadFull n c = (mkConn [] (c_end c) (c_out c) (c_write c), Err e)).
Proof.
  unfold ReadFull. case_bool_decide as Hn.
  - left. exists (take n (c_in c)), (drop n (c_in c)).
    split; [by rewrite take_drop|]. split; [|done]. rewrite length_take. lia.
  - right. split; [lia|eauto].
Qed.

Lemma Write_ok p c :
  writes_ok c →
  Write p c = (mkConn (c_in c) (c_end c) (c_out c ++ p) (drop 1 (c_write c)), Ok tt).
Proof.
  unfold Write, writes_ok. destruct (c_write c) as [|[] w]; [done|by intros [? _]%Forall_cons|done].
Qed.

Lemma io_bind_Ok {A B} (m : io A) (f : A → io B) c c' b :
  (x ← m; f x) c = (c', Ok b) ↔ ∃ c1 a, m c = (c1, Ok a) ∧ f a c1 = (c', Ok b).
Proof.
  unfold mbind, io_bind. destruct (m c) as [c1 [a|e|w]]; split.
  - eauto.
  - by intros (? & ? & [= <- <-] & ?).
  - done.
  - by intros (? & ? & ? & ?).
  - done.
  - by intros (? & ? & ? & ?).
Qed.

Lemma io_bind_step {A B} (m : io A) (f : A → io B) c c1 a :
  m c = (c1, Ok a) → (x ← m; f x) c = f a c1.
Proof. intros E. unfold mbind, io_bind. by rewrite E. Qed.

Lemma io_bind_err {A B} (m : io A) (f : A → io B) c c1 e :
  m c = (c1, Err e) → (x ← m; f x) c = (c1, Err e).
Proof. intros E. unfold mbind, io_bind. by rewrite E. Qed.

Lemma wrapping_Ok {A} pre (m : io A) c c' a :
  wrapping pre m c = (c', Ok a) ↔ m c = (c', Ok a).
Proof. unfold wrapping. by destruct (m c) as [c1 []]. Qed.

Lemma wrapping_Err {A} pre (m : io A) c c' e :
  m c = (c', Err e) → wrapping pre m c = (c', Err (wrap_err pre e)).
Proof. unfold wrapping. by intros ->. Qed.

Lemma ReadFull_Ok n c c' p :
  ReadFull n c = (c', Ok p) ↔
    length p = n ∧ c_in c = p ++ c_in c' ∧
    c' = mkConn (c_in c') (c_end c) (c_out c) (c_write c).
Proof.
  split.
  - destruct (ReadFull_cases n c) as [(p' & r & Hin & Hl & ->)|(_ & e & ->)]; [|done].
    intros [= <- <-]. done.
  - intros (Hl & Hin & ->). destruct c as [i e o w]. cbn in *. subst. apply ReadFull_app.
Qed.

(** Running a wrapped read at the front of a known input. *)
Lemma read_app {B} pre p r e o w n (f : bytes → io B) :
  length p = n →
  (x ← wrapping pre (ReadFull n); f x) (mkConn (p ++ r) e o w) = f p (mkConn r e o w).
Proof. intros <-. apply io_bind_step, wrapping_Ok, ReadFull_app. Qed.

Lemma read_short {B} pre l e o w n (f : bytes → io B) :
  (length l < n)%nat →
  ∃ err, (x ← wrapping pre (ReadFull n); f x) (mkConn l e o w) = (mkConn [] e o w, Err err).
Proof.
  intros Hl. destruct (ReadFull_short n l e o w Hl) as [err E]. eexists.
  by eapply io_bind_err, wrapping_Err.
Qed.

Lemma Write_Ok_inv p c c' :
  Write p c = (c', Ok tt) →
  c_in c' = c_in c ∧ c_end c' = c_end c ∧ c_out c' = c_out c ++ p ∧
  c_write c' = drop 1 (c_write c).
Proof. unfold Write. by destruct (c_write c) as [|[[k e]|] l]; intros [= <-]. Qed.
