(* ===== verification/Protocol.v ===== *)
(** * The SOCKS5 wire protocol: [src/internal/socks/protocol.go]

    The method negotiation, the request parser and the reply writers, as
    programs over the stream connection of [GoNet]. *)
From S2P Require Import Prelude GoStrings GoNet.
From S2P Require Router.

Definition socksVersion5 : byte := Byte.x05.
Definition authNoAuth : byte := Byte.x00.
Definition authNoAcceptable : byte := Byte.xff.
Definition cmdConnect : byte := Byte.x01.
Definition atypIPv4 : byte := Byte.x01.
Definition atypFQDN : byte := Byte.x03.
Definition atypIPv6 : byte := Byte.x04.
Definition replySuccess : byte := Byte.x00.
Definition replyGeneralFailure : byte := Byte.x01.
Definition replyCommandNotSupp : byte := Byte.x07.
Definition replyAddrTypeNotSupp : byte := Byte.x08.
Definition replyHostUnreachable : byte := Byte.x04.
Definition defaultFailureReplyAtyp : byte := atypIPv4.

Record request := mkRequest { atyp : byte; host : string; port : Z }.

(** The address [net.Conn.LocalAddr] reports: a [*net.TCPAddr] or another
    implementation of [net.Addr]. *)
Inductive net_addr :=
  | TCPAddr (ip : IP) (port : Z)
  | OtherAddr.

Section protocol.
Context `{UnicodeTables}.

(** The package's own copy of the host normalisation ([handler.go]). *)
Definition normalizeHost (host : string) : string :=
  let host := TrimSpace (ToLower host) in
  let host := TrimSuffix host "." in
  host.

Definition RouteKey (r : request) : string := normalizeHost (host r).

End protocol.

(** The loop over the offered methods, with its [break]. *)
Fixpoint select_method (methods : bytes) (selected : byte) : byte :=
  match methods with
  | [] => selected
  | method :: rest =>
      if bool_decide (method = authNoAuth) then authNoAuth else select_method rest selected
  end.

Definition handleHandshake : io unit :=
  header ← wrapping "read greeting header" (ReadFull 2);
  if bool_decide (byte_at header 0 ≠ socksVersion5) then
    errorf ("unsupported socks version: " +:+ itoa (bval (byte_at header 0)))
  else
    let nMethods := Z.to_nat (bval (byte_at header 1)) in
    if bool_decide (nMethods = 0) then errorf "empty auth methods list"
    else
      methods ← wrapping "read auth methods" (ReadFull nMethods);
      let selected := select_method methods authNoAcceptable in
      _ ← wrapping "write auth select" (Write [socksVersion5; selected]);
      if bool_decide (selected ≠ authNoAuth) then
        errorf "no supported authentication method"
      else mret tt.

Definition writeFailureReply (code : byte) : io unit :=
  Write [socksVersion5; code; Byte.x00; defaultFailureReplyAtyp;
         Byte.x00; Byte.x00; Byte.x00; Byte.x00; Byte.x00; Byte.x00].

(** [_ = writeFailureReply(conn, code); return nil, fmt.Errorf(msg)] *)
Definition reject {A} (code : byte) (msg : string) : io A :=
  _ ← ignore (writeFailureReply code); errorf msg.

(** The address part of a request: the [switch req.atyp]. *)
Definition read_host (at_ : byte) : io string :=
  if bool_decide (at_ = atypIPv4) then
    addr ← wrapping "read ipv4 address" (ReadFull 4); mret (dotted addr)
  else if bool_decide (at_ = atypFQDN) then
    size ← wrapping "read fqdn length" (ReadFull 1);
    if bool_decide (byte_at size 0 = Byte.x00) then reject replyAddrTypeNotSupp "empty fqdn"
    else
      name ← wrapping "read fqdn" (ReadFull (Z.to_nat (bval (byte_at size 0))));
      mret (b2s name)
  else if bool_decide (at_ = atypIPv6) then
    reject replyAddrTypeNotSupp "ipv6 is not supported"
  else reject replyAddrTypeNotSupp ("unsupported atyp: " +:+ itoa (bval at_)).

Definition readRequest : io request :=
  header ← wrapping "read request header" (ReadFull 4);
  if bool_decide (byte_at header 0 ≠ socksVersion5) then
    errorf ("unsupported request version: " +:+ itoa (bval (byte_at header 0)))
  else if bool_decide (byte_at header 1 ≠ cmdConnect) then
    reject replyCommandNotSupp ("unsupported command: " +:+ itoa (bval (byte_at header 1)))
  else if bool_decide (byte_at header 2 ≠ Byte.x00) then
    reject replyGeneralFailure ("invalid reserved byte: " +:+ itoa (bval (byte_at header 2)))
  else
    host ← read_host (byte_at header 3);
    portBytes ← wrapping "read destination port" (ReadFull 2);
    let port := be16 (byte_at portBytes 0) (byte_at portBytes 1) in
    if bool_decide (port = 0)%Z then
      reject replyGeneralFailure "invalid destination port 0"
    else mret (mkRequest (byte_at header 3) host port).

Definition writeSuccessReply (bindAddr : net_addr) : io unit :=
  match bindAddr with
  | OtherAddr => writeFailureReply replyGeneralFailure
  | TCPAddr ip port =>
      let ip4 := default (replicate 4 Byte.x00) (To4 ip) in
      Write ([socksVersion5; replySuccess; Byte.x00; atypIPv4] ++ ip4 ++ put_be16 (wrap16 port))
  end.

(** ** Reference encodings (RFC 1928) *)

Inductive dest :=
  | DIPv4 (a b c d : byte)
  | DName (name : bytes).

Definition dest_wf (d : dest) : Prop :=
  match d with
  | DIPv4 _ _ _ _ => True
  | DName name => (1 ≤ length name ≤ 255)%nat
  end.

Definition dest_atyp (d : dest) : byte :=
  match d with DIPv4 _ _ _ _ => atypIPv4 | DName _ => atypFQDN end.

Definition dest_text (d : dest) : string :=
  match d with DIPv4 a b c d => dotted [a; b; c; d] | DName name => b2s name end.

Definition dest_bytes (d : dest) : bytes :=
  match d with
  | DIPv4 a b c d => [a; b; c; d]
  | DName name => to_byte (Z.of_nat (length name)) :: name
  end.

(** The CONNECT request for a destination and port. *)
Definition connect_bytes (d : dest) (port : Z) : bytes :=
  [socksVersion5; cmdConnect; Byte.x00; dest_atyp d] ++ dest_bytes d ++ put_be16 port.

Definition greeting_bytes (methods : bytes) : bytes :=
  [socksVersion5; to_byte (Z.of_nat (length methods))] ++ methods.

Definition failure_reply (code : byte) : bytes :=
  [socksVersion5; code; Byte.x00; atypIPv4;
   Byte.x00; Byte.x00; Byte.x00; Byte.x00; Byte.x00; Byte.x00].

(** ** Lemmas *)

Lemma select_method_spec methods :
  select_method methods authNoAcceptable =
    if decide (authNoAuth ∈ methods) then authNoAuth else authNoAcceptable.
Proof.
  induction methods as [|m l IH]; cbn [select_method]; [done|].
  destruct (decide (m = authNoAuth)) as [->|Hm].
  - rewrite bool_decide_eq_true_2 by done. rewrite decide_True; [done|].
    apply elem_of_cons. by left.
  - rewrite bool_decide_eq_false_2, IH by done. apply decide_ext.
    rewrite elem_of_cons. split; [tauto|]. intros [E|?]; [by destruct Hm|done].
Qed.

Lemma length_byte n :
  (n ≤ 255)%nat → Z.to_nat (bval (to_byte (Z.of_nat n))) = n.
Proof. intros Hn. rewrite bval_to_byte, Z.mod_small by lia. lia. Qed.

Lemma byte_of_length n b : Z.to_nat (bval b) = n → to_byte (Z.of_nat n) = b.
Proof.
  intros <-. pose proof (bval_range b). rewrite Z2Nat.id by lia. apply to_byte_bval.
Qed.

Lemma bval_zero b : Z.to_nat (bval b) = 0 ↔ b = Byte.x00.
Proof.
  split; [|by intros ->]. intros H. apply bval_inj. change (bval Byte.x00) with 0%Z.
  pose proof (bval_range b). lia.
Qed.

(** [read_host] on the address part of an encoded request. *)
Lemma read_host_dest d r e o w :
  dest_wf d →
  read_host (dest_atyp d) (mkConn (dest_bytes d ++ r) e o w) =
    (mkConn r e o w, Ok (dest_text d)).
Proof.
  destruct d as [a b c d|name]; intros Hwf; unfold read_host; cbn [dest_atyp].
  - change (bool_decide (atypIPv4 = atypIPv4)) with true. cbn [dest_bytes].
    by rewrite read_app.
  - change (bool_decide (atypFQDN = atypIPv4)) with false.
    change (bool_decide (atypFQDN = atypFQDN)) with true. cbn iota. cbn in Hwf.
    change (dest_bytes (DName name) ++ r) with ([to_byte (Z.of_nat (length name))] ++ (name ++ r)).
    rewrite read_app by done. cbn [byte_at lookup list_lookup default].
    rewrite bool_decide_eq_false_2.
    + rewrite read_app by (symmetry; apply length_byte; lia). done.
    + intros E%bval_zero. change (Z.to_nat (bval (to_byte (Z.of_nat (length name)))) = 0) in E.
      rewrite length_byte in E; lia.
Qed.

(** Conversely, what [read_host] accepts is the encoding of a destination. *)
Lemma read_host_inv at_ c c' h :
  read_host at_ c = (c', Ok h) →
  ∃ d, dest_wf d ∧ at_ = dest_atyp d ∧ h = dest_text d ∧
    c_in c = dest_bytes d ++ c_in c' ∧
    c' = mkConn (c_in c') (c_end c) (c_out c) (c_write c).
Proof.
  unfold read_host. case_bool_decide as H1; [|case_bool_decide as H2; [|case_bool_decide]].
  - rewrite io_bind_Ok. intros (c1 & p & Hp%wrapping_Ok%ReadFull_Ok & [= <- <-]).
    destruct Hp as (Hl & Hin & Hc). destruct p as [|a [|b [|x [|y []]]]]; try done.
    exists (DIPv4 a b x y). done.
  - rewrite io_bind_Ok. intros (c1 & p & (Hl & Hin & Hc)%wrapping_Ok%ReadFull_Ok & Hrest).
    destruct p as [|s []]; try done. case_bool_decide as Hs; [done|].
    apply io_bind_Ok in Hrest as (c2 & name & (Hl2 & Hin2 & Hc2)%wrapping_Ok%ReadFull_Ok & [= <- <-]).
    cbn in Hs, Hl2. pose proof (bval_range s) as Hr.
    assert (Z.to_nat (bval s) ≠ 0) as Hs0 by (by rewrite bval_zero).
    exists (DName name). cbn. split_and!; [lia|lia|done|done| |].
    + rewrite Hin, Hin2. by rewrite (byte_of_length (length name) s) by lia.
    + rewrite Hc2, Hc. done.
  - unfold reject. intros (? & ? & ? & ?)%io_bind_Ok. done.
  - unfold reject. intros (? & ? & ? & ?)%io_bind_Ok. done.
Qed.

(** *** Whole messages *)

(** The negotiation on a well-formed greeting. *)
Lemma handshake_run methods rest e o w :
  (1 ≤ length methods ≤ 255)%nat → Forall (λ x, x = None) w →
  handleHandshake (mkConn (greeting_bytes methods ++ rest) e o w) =
    (mkConn rest e
       (o ++ [socksVersion5; if decide (authNoAuth ∈ methods) then authNoAuth else authNoAcceptable])
       (drop 1 w),
     if decide (authNoAuth ∈ methods) then Ok tt
     else Err (ErrMsg "no supported authentication method")).
Proof.
  intros Hl Hw. unfold handleHandshake, greeting_bytes. rewrite <-app_assoc.
  rewrite read_app by done.
  set (n := to_byte (Z.of_nat (length methods))).
  change (byte_at [socksVersion5; n] 0) with socksVersion5.
  change (byte_at [socksVersion5; n] 1) with n. cbn zeta.
  assert (Z.to_nat (bval n) = length methods) as -> by (apply length_byte; lia).
  rewrite bool_decide_eq_false_2 by tauto. rewrite bool_decide_eq_false_2 by lia.
  rewrite read_app, select_method_spec by done.
  erewrite io_bind_step; [|apply wrapping_Ok, Write_ok, Hw]. cbn.
  by case_decide.
Qed.

(** Reading an encoded request returns its destination and port. *)
Lemma read_request_run d p rest e o w :
  dest_wf d → (1 ≤ p < 65536)%Z →
  readRequest (mkConn ([socksVersion5; cmdConnect; Byte.x00; dest_atyp d] ++
      (dest_bytes d ++ (put_be16 p ++ rest))) e o w) =
    (mkConn rest e o w, Ok (mkRequest (dest_atyp d) (dest_text d) p)).
Proof.
  intros Hd Hp. unfold readRequest.
  rewrite read_app by done.
  do 3 rewrite bool_decide_eq_false_2 by (cbn; tauto).
  erewrite io_bind_step by (by apply read_host_dest).
  rewrite read_app by done. cbn [put_be16].
  change (byte_at (put_be16 p) 0) with (to_byte (p / 256)).
  change (byte_at (put_be16 p) 1) with (to_byte p).
  rewrite be16_put by lia. rewrite bool_decide_eq_false_2 by lia. done.
Qed.

(** ** Properties of the protocol *)

(** C35: method negotiation on a well-formed greeting: the server consumes exactly the greeting, answers version 5 with NO AUTH when the client offers it and then succeeds, and otherwise answers with 0xFF and fails. *)
Theorem handleHandshake_greeting methods rest e o w :
  (1 ≤ length methods ≤ 255)%nat → Forall (λ x, x = None) w →
  handleHandshake (mkConn (greeting_bytes methods ++ rest) e o w) =
    (mkConn rest e
       (o ++ [socksVersion5; if decide (authNoAuth ∈ methods) then authNoAuth else authNoAcceptable])
       (drop 1 w),
     if decide (authNoAuth ∈ methods) then Ok tt
     else Err (ErrMsg "no supported authentication method")).
Proof. exact (handshake_run methods rest e o w). Qed.

(** The negotiation succeeds only on a version-5 greeting that offers NO AUTH, for any behaviour of the connection, and then it has consumed that greeting and nothing more and written exactly the two bytes 05 00. *)
Theorem handleHandshake_accepts c c' :
  handleHandshake c = (c', Ok tt) →
  ∃ methods, (1 ≤ length methods ≤ 255)%nat ∧ authNoAuth ∈ methods ∧
    c_in c = greeting_bytes methods ++ c_in c' ∧
    c_out c' = c_out c ++ [socksVersion5; authNoAuth].
Proof.
  unfold handleHandshake.
  intros (c1 & hd & (Hl & Hin & Hc)%wrapping_Ok%ReadFull_Ok & H)%io_bind_Ok.
  destruct hd as [|v [|n []]]; try done. case_bool_decide as Hv; [done|].
  case_bool_decide as Hn; [done|]. cbn in Hv, Hn, H.
  apply io_bind_Ok in H as (c2 & ms & (Hl2 & Hin2 & Hc2)%wrapping_Ok%ReadFull_Ok & H).
  apply io_bind_Ok in H as (c3 & [] & (Hi3 & _ & Ho3 & _)%wrapping_Ok%Write_Ok_inv & H).
  rewrite select_method_spec in H, Ho3. pose proof (bval_range n).
  change (byte_at [v; n] 1) with n in *.
  case_decide as Hm; [|done]. injection H as <-. exists ms. split_and!; [lia|lia|done| |].
  - rewrite Hin, Hin2, Hi3. unfold greeting_bytes.
    rewrite (byte_of_length (length ms) n) by lia. by rewrite Hv.
  - by rewrite Ho3, Hc2, Hc.
Qed.

(** C8: exactness of the request parser: it succeeds if and only if the input starts with the CONNECT request, encoded as RFC 1928 prescribes, for an IPv4 address or a name of 1 to 255 bytes and a non-zero port; it returns that destination and port, leaves every later byte unread, and writes nothing. *)
Theorem readRequest_exact c c' req :
  readRequest c = (c', Ok req) ↔
  ∃ d port rest, dest_wf d ∧ (1 ≤ port < 65536)%Z ∧
    c_in c = connect_bytes d port ++ rest ∧
    c' = mkConn rest (c_end c) (c_out c) (c_write c) ∧
    req = mkRequest (dest_atyp d) (dest_text d) port.
Proof.
  unfold readRequest, connect_bytes. split.
  - intros (c1 & hd & (Hl & Hin & Hc)%wrapping_Ok%ReadFull_Ok & H)%io_bind_Ok.
    destruct hd as [|v [|cmd [|rsv [|at_ []]]]]; try done.
    change (byte_at [v; cmd; rsv; at_] 0) with v in H.
    change (byte_at [v; cmd; rsv; at_] 1) with cmd in H.
    change (byte_at [v; cmd; rsv; at_] 2) with rsv in H.
    change (byte_at [v; cmd; rsv; at_] 3) with at_ in H.
    case_bool_decide as Hv; [done|]. case_bool_decide as Hcmd.
    { apply io_bind_Ok in H as (? & ? & ? & ?). done. }
    case_bool_decide as Hrsv.
    { apply io_bind_Ok in H as (? & ? & ? & ?). done. }
    subst v cmd rsv.
    apply io_bind_Ok in H as (c2 & h & (d & Hd & -> & -> & Hin2 & Hc2)%read_host_inv & H).
    apply io_bind_Ok in H as (c3 & p & (Hl3 & Hin3 & Hc3)%wrapping_Ok%ReadFull_Ok & H).
    destruct p as [|hi [|lo []]]; try done. cbn in H.
    case_bool_decide as Hp; [by apply io_bind_Ok in H as (? & ? & ? & ?)|].
    injection H as <- <-. exists d, (be16 hi lo), (c_in c3).
    pose proof (bval_range hi). pose proof (bval_range lo).
    split_and!; [done|unfold be16 in *; lia|unfold be16 in *; lia| | |done].
    + by rewrite Hin, Hin2, Hin3, put_be16_be16, <-!app_assoc.
    + by rewrite Hc3, Hc2, Hc.
  - intros (d & p & rest & Hd & Hp & Hin & -> & ->). destruct c as [i e o w]. cbn in *. subst i.
    unfold connect_bytes. rewrite <-!app_assoc. by apply read_request_run.
Qed.

(** ** Error replies *)

(** The failure code a request deserves, read off its bytes; [None] when the
    request is acceptable, incomplete, or not version 5. *)
Definition port_reply (l : bytes) : option byte :=
  match l with
  | hi :: lo :: _ => if bool_decide (be16 hi lo = 0)%Z then Some replyGeneralFailure else None
  | _ => None
  end.

Definition dest_reply (at_ : byte) (l : bytes) : option byte :=
  if bool_decide (at_ = atypIPv4) then port_reply (drop 4 l)
  else if bool_decide (at_ = atypFQDN) then
    match l with
    | [] => None
    | n :: l => if bool_decide (n = Byte.x00) then Some replyAddrTypeNotSupp
                else port_reply (drop (Z.to_nat (bval n)) l)
    end
  else Some replyAddrTypeNotSupp.

Definition request_reply (l : bytes) : option byte :=
  match l with
  | v :: cmd :: rsv :: at_ :: l =>
      if bool_decide (v ≠ socksVersion5) then None
      else if bool_decide (cmd ≠ cmdConnect) then Some replyCommandNotSupp
      else if bool_decide (rsv ≠ Byte.x00) then Some replyGeneralFailure
      else dest_reply at_ l
  | _ => None
  end.

(** A run from [o] ends with the reply [code] and an error when there is a
    code, and without output otherwise. *)
Definition replied (o : bytes) (code : option byte) {A} (out : conn * result A) : Prop :=
  c_out out.1 = o ++ from_option failure_reply [] code ∧
  match out.2 with Ok _ => code = None | Err _ => True | Panic _ => False end.

Lemma reject_replied {A} code msg i e o w :
  Forall (λ x, x = None) w → replied o (Some code) (reject (A:=A) code msg (mkConn i e o w)).
Proof.
  intros Hw. unfold reject. erewrite io_bind_step.
  2: { unfold ignore, writeFailureReply. rewrite Write_ok by done. done. }
  done.
Qed.

Lemma read_replied {A} pre n (f : bytes → io A) i e o w code :
  ((length i < n)%nat → code = None) →
  (∀ p r, i = p ++ r → length p = n → replied o code (f p (mkConn r e o w))) →
  replied o code ((x ← wrapping pre (ReadFull n); f x) (mkConn i e o w)).
Proof.
  intros Hs Hl. destruct (decide (n ≤ length i)%nat) as [Hn|Hn].
  - rewrite <-(take_drop n i) at 1. rewrite read_app by (rewrite length_take; lia).
    apply Hl; [by rewrite take_drop|rewrite length_take; lia].
  - destruct (read_short pre i e o w n f) as [err ->]; [lia|]. rewrite Hs by lia.
    split; [|done]. cbn. by rewrite app_nil_r.
Qed.

Lemma port_replied at_ h i e o w :
  Forall (λ x, x = None) w →
  replied o (port_reply i)
    ((portBytes ← wrapping "read destination port" (ReadFull 2);
      let port := be16 (byte_at portBytes 0) (byte_at portBytes 1) in
      if bool_decide (port = 0)%Z then
        reject replyGeneralFailure "invalid destination port 0"
      else mret (mkRequest at_ h port)) (mkConn i e o w)).
Proof.
  intros Hw. apply read_replied.
  - destruct i as [|? []]; cbn; [done|done|lia].
  - intros [|hi [|lo []]] r -> Hl; try done. cbn [app port_reply].
    change (byte_at [hi; lo] 0) with hi. change (byte_at [hi; lo] 1) with lo. cbn zeta.
    case_bool_decide; [by apply reject_replied|].
    split; [|done]. cbn. by rewrite app_nil_r.
Qed.

Lemma io_bind_assoc {A B C} (m : io A) (f : A → io B) (g : B → io C) c :
  (y ← (x ← m; f x); g y) c = (x ← m; y ← f x; g y) c.
Proof. unfold mbind, io_bind. by destruct (m c) as [c1 []]. Qed.

Lemma reject_bind_replied {A B} code msg (f : A → io B) i e o w :
  Forall (λ x, x = None) w →
  replied o (Some code) ((x ← reject code msg; f x) (mkConn i e o w)).
Proof.
  intros Hw. unfold reject. rewrite io_bind_assoc. erewrite io_bind_step.
  2: { unfold ignore, writeFailureReply. rewrite Write_ok by done. done. }
  done.
Qed.

(** C26: the replies of the request parser on every branch: an unsupported command is answered with code 7, a non-zero reserved byte and port 0 with code 1, IPv6, an unknown address type and an empty name with code 8, each as one 10-byte reply followed by an error; an acceptable, truncated or wrong-version request is not answered at all. *)
Theorem readRequest_replies i e o w :
  Forall (λ x, x = None) w →
  replied o (request_reply i) (readRequest (mkConn i e o w)).
Proof.
  intros Hw. unfold readRequest. apply read_replied.
  { destruct i as [|? [|? [|? []]]]; cbn; done || lia. }
  intros [|v [|cmd [|rsv [|at_ []]]]] r -> Hl; try done. cbn [app request_reply].
  change (byte_at [v; cmd; rsv; at_] 0) with v. change (byte_at [v; cmd; rsv; at_] 1) with cmd.
  change (byte_at [v; cmd; rsv; at_] 2) with rsv. change (byte_at [v; cmd; rsv; at_] 3) with at_.
  case_bool_decide; [split; [cbn; by rewrite app_nil_r|done]|].
  case_bool_decide; [by apply reject_replied|].
  case_bool_decide; [by apply reject_replied|].
  unfold read_host, dest_reply.
  case_bool_decide; [|case_bool_decide; [|case_bool_decide; by apply reject_bind_replied]].
  - rewrite io_bind_assoc. apply read_replied.
    + intros Hlt. by rewrite drop_ge by lia.
    + intros p r' -> Hp. rewrite <-Hp, drop_app_length. by apply port_replied.
  - rewrite io_bind_assoc. apply read_replied.
    + destruct r; [done|cbn; lia].
    + intros [|n []] r' -> Hp; try done. cbn [app]. change (byte_at [n] 0) with n.
      case_bool_decide; [by apply reject_bind_replied|].
      rewrite io_bind_assoc. apply read_replied.
      * intros Hlt. by rewrite drop_ge by lia.
      * intros p r'' -> Hp'. rewrite <-Hp', drop_app_length. by apply port_replied.
Qed.

(** C36: the success reply is the ten bytes 05 00 00 01, the bound IPv4 address and the port in network order, where an IPv4-mapped address is shortened and any other address is sent as 0.0.0.0; reading those bytes back gives that address and the low 16 bits of the port. *)
Theorem writeSuccessReply_bytes ip port c :
  writes_ok c → (length ip = 4 ∨ length ip = 16) →
  let ip4 := default (replicate 4 Byte.x00) (To4 ip) in
  ∃ reply, writeSuccessReply (TCPAddr ip port) c =
      (mkConn (c_in c) (c_end c) (c_out c ++ reply) (drop 1 (c_write c)), Ok tt) ∧
    length reply = 10 ∧ take 4 reply = [socksVersion5; replySuccess; Byte.x00; atypIPv4] ∧
    take 4 (drop 4 reply) = ip4 ∧
    be16 (byte_at reply 8) (byte_at reply 9) = wrap16 port.
Proof.
  intros Hw Hip. cbn zeta.
  assert (length (default (replicate 4 Byte.x00) (To4 ip)) = 4) as H4.
  { unfold To4. case_bool_decide; [done|]. case_bool_decide; [|lia].
    destruct (strip_prefix _ ip) as [r|] eqn:E; [|done].
    apply strip_prefix_Some in E. subst ip. cbn in *. lia. }
  unfold writeSuccessReply. rewrite Write_ok by done. eexists. split; [reflexivity|].
  destruct (default _ (To4 ip)) as [|a [|b [|x [|y []]]]]; try done.
  split_and!; try done. cbn. apply be16_put.
  unfold wrap16. change 65536%Z with (2 ^ 16)%Z. apply Z.mod_pos_bound. lia.
Qed.

(** ** Witnesses *)

Definition quiet (i : bytes) : conn := mkConn i (ErrSentinel SEOF) [] [].

Lemma handleHandshake_greeting_witness :
  handleHandshake (quiet (greeting_bytes [Byte.x02; Byte.x00] ++ [Byte.x05])) =
    (mkConn [Byte.x05] (ErrSentinel SEOF) [Byte.x05; Byte.x00] [], Ok tt).
Proof.
  unfold quiet. rewrite (handleHandshake_greeting [Byte.x02; Byte.x00]).
  - reflexivity.
  - cbn. lia.
  - constructor.
Defined.

Lemma handleHandshake_accepts_witness :
  ∃ methods, (1 ≤ length methods ≤ 255)%nat ∧ authNoAuth ∈ methods ∧
    [Byte.x05; Byte.x01; Byte.x00] = greeting_bytes methods ++ [] ∧
    [Byte.x05; Byte.x00] = [] ++ [socksVersion5; authNoAuth].
Proof.
  exact (handleHandshake_accepts (quiet [Byte.x05; Byte.x01; Byte.x00])
    (mkConn [] (ErrSentinel SEOF) [Byte.x05; Byte.x00] []) eq_refl).
Defined.

Lemma readRequest_replies_witness :
  c_out (readRequest (quiet [Byte.x05; Byte.x02; Byte.x00; Byte.x01])).1 =
    failure_reply replyCommandNotSupp.
Proof.
  exact (proj1 (readRequest_replies [Byte.x05; Byte.x02; Byte.x00; Byte.x01]
    (ErrSentinel SEOF) [] [] (Forall_nil_2 _))).
Defined.

Lemma writeSuccessReply_bytes_witness :
  ∃ reply, writeSuccessReply (TCPAddr [Byte.x7f; Byte.x00; Byte.x00; Byte.x01] 8080) (quiet []) =
      (mkConn [] (ErrSentinel SEOF) reply [], Ok tt) ∧
    length reply = 10 ∧ take 4 reply = [socksVersion5; replySuccess; Byte.x00; atypIPv4] ∧
    take 4 (drop 4 reply) = [Byte.x7f; Byte.x00; Byte.x00; Byte.x01] ∧
    be16 (byte_at reply 8) (byte_at reply 9) = 8080%Z.
Proof.
  exact (writeSuccessReply_bytes [Byte.x7f; Byte.x00; Byte.x00; Byte.x01] 8080 (quiet [])
    (Forall_nil_2 _) (or_introl eq_refl)).
Defined.
