(* ===== verification/Config.v ===== *)
(** * Configuration: [src/internal/config/config.go]

    The raw configuration as the YAML decoder fills it, its validation into
    the runtime configuration, and the update made by auto-discovery.  The
    YAML codec is the class [Yaml], a file is what reading it returns, and
    [net.ResolveTCPAddr] consults the resolver of the host, so its answer to
    the [n]-th call is a parameter [dns n].  A nil map of the source is the empty map. *)
From S2P Require Import Prelude GoStrings GoNet.

(** ** Data *)

Definition Second : Z := 1000000000.
Definition Millisecond : Z := 1000000.
Definition defaultHealthInterval : Z := 5 * Second.
Definition defaultHealthTimeout : Z := 2 * Second.
Definition defaultDialTimeout : Z := 4 * Second.
Definition defaultTCPKeepAlive : Z := 30 * Second.
Definition defaultShutdownGrace : Z := 10 * Second.
Definition defaultReadTimeout : Z := 10 * Second.
Definition defaultWriteTimeout : Z := 10 * Second.
Definition defaultIdleTimeout : Z := 300 * Second.

Record HealthcheckConfig := mkHealthcheck {
  IntervalMS : Z;
  TimeoutMS : Z;
  Path : string;
}.

Record BackendGroup := mkBackendGroup {
  Addresses : list string;
  Healthcheck : HealthcheckConfig;
}.

Record Config := mkConfig {
  Server_ListenAddr : string;
  Server_MaxConnections : Z;
  Server_MaxInflightDials : Z;
  Metrics_Enabled : option bool;
  Metrics_ListenAddr : string;
  Default_Healthcheck : HealthcheckConfig;
  TCP_KeepAliveMS : Z;
  Timeouts_DialMS : Z;
  Timeouts_ShutdownGracePeriod : Z;
  Timeouts_ReadMS : Z;
  Timeouts_WriteMS : Z;
  Timeouts_IdleMS : Z;
  AutoDiscovery_Enabled : option bool;
  Backends : gmap string BackendGroup;
  Routes : gmap string string;
}.

Record BackendGroupConfig := mkGroup {
  g_Name : string;
  g_Addresses : list string;
  g_Interval : Z;
  g_Timeout : Z;
  g_Path : string;
}.

Record RuntimeConfig := mkRuntime {
  rc_ListenAddr : string;
  rc_MetricsEnabled : bool;
  rc_MetricsListenAddr : string;
  rc_AutoDiscoveryEnabled : bool;
  rc_MaxConnections : Z;
  rc_MaxInflightDials : Z;
  rc_DialTimeout : Z;
  rc_ReadTimeout : Z;
  rc_WriteTimeout : Z;
  rc_IdleTimeout : Z;
  rc_TCPKeepAlive : Z;
  rc_ShutdownGrace : Z;
  rc_Routes : gmap string (list string);
  rc_BackendGroups : list BackendGroupConfig;
  rc_HostToGroup : gmap string string;
}.

(** [*net.TCPAddr] as far as the program reads it; the nil IP is [[]]. *)
Record tcp_addr := mkTCPAddr { ta_IP : IP; ta_Port : Z }.

Definition resolver : Type := nat → string → goerror + tcp_addr.

Section config.
Context `{UnicodeTables}.

Definition normalizeHost (host : string) : string :=
  let host := TrimSpace (ToLower host) in
  let host := TrimSuffix host "." in
  host.

Definition durationFromMS (ms fallback : Z) : Z :=
  if (ms <=? 0)%Z then fallback else swrap64 (ms * Millisecond).

(** [if path != "" && !strings.HasPrefix(path, "/") { path = "/" + path }] *)
Definition normalizePath (path : string) : string :=
  let path := TrimSpace path in
  if bool_decide (path ≠ "") && negb (HasPrefix path "/") then "/" +:+ path else path.

Definition formatAddr (a : tcp_addr) : string :=
  JoinHostPort (IP_String (ta_IP a)) (itoa (ta_Port a)).

(** *** Auto-discovered routes *)

Definition set_maps (cfg : Config) (b : gmap string BackendGroup) (r : gmap string string) : Config :=
  {| Server_ListenAddr := Server_ListenAddr cfg;
     Server_MaxConnections := Server_MaxConnections cfg;
     Server_MaxInflightDials := Server_MaxInflightDials cfg;
     Metrics_Enabled := Metrics_Enabled cfg;
     Metrics_ListenAddr := Metrics_ListenAddr cfg;
     Default_Healthcheck := Default_Healthcheck cfg;
     TCP_KeepAliveMS := TCP_KeepAliveMS cfg;
     Timeouts_DialMS := Timeouts_DialMS cfg;
     Timeouts_ShutdownGracePeriod := Timeouts_ShutdownGracePeriod cfg;
     Timeouts_ReadMS := Timeouts_ReadMS cfg;
     Timeouts_WriteMS := Timeouts_WriteMS cfg;
     Timeouts_IdleMS := Timeouts_IdleMS cfg;
     AutoDiscovery_Enabled := AutoDiscovery_Enabled cfg;
     Backends := b;
     Routes := r |}.

(** The name of the group for a discovered host, given the groups there are. *)
Definition autoGroupName (backends : gmap string BackendGroup) (hostKey : string) : string :=
  let groupName :=
    "auto-" +:+ ReplaceByte (ReplaceByte hostKey Byte.x2e Byte.x2d) Byte.x3a Byte.x2d in
  match backends !! groupName with
  | Some _ => groupName +:+ "-" +:+ itoa (Z.of_nat (size backends))
  | None => groupName
  end.

(** [AddAutoDiscoveredRoute]: the configuration is updated in place. *)
Definition AddAutoDiscoveredRoute (cfg : Config) (host : string) (addresses : list string)
    : Config * result bool :=
  let hostKey := normalizeHost host in
  if bool_decide (hostKey = "") then (cfg, Err (ErrMsg "empty host"))
  else if bool_decide (length addresses = 0) then (cfg, Err (ErrMsg "no addresses"))
  else match Routes cfg !! hostKey with
  | Some _ => (cfg, Ok false)
  | None =>
      let groupName := autoGroupName (Backends cfg) hostKey in
      (set_maps cfg
         (<[groupName := mkBackendGroup addresses (mkHealthcheck 0 0 "")]> (Backends cfg))
         (<[hostKey := groupName]> (Routes cfg)),
       Ok true)
  end.

Context (dns : resolver).

(** The address loop of the backends: every address must be a concrete IP. *)
Fixpoint check_addrs (groupName : string) (addrs : list string) (n : nat)
    : result (list string * nat) :=
  match addrs with
  | [] => Ok ([], n)
  | addr :: rest =>
      let addr := TrimSpace addr in
      if bool_decide (addr = "") then
        Err (ErrMsg ("backends[" +:+ Quote groupName +:+ "] contains empty address"))
      else match dns n addr with
      | inl e => Err (wrap_err ("invalid backend " +:+ Quote addr +:+ " in group " +:+ Quote groupName) e)
      | inr tcpAddr =>
          if bool_decide (ta_IP tcpAddr = []) || IsUnspecified (ta_IP tcpAddr) then
            Err (ErrMsg ("backend " +:+ Quote addr +:+ " in group " +:+ Quote groupName
                         +:+ " must use a concrete IP"))
          else
            let! r := check_addrs groupName rest (S n) in
            Ok (formatAddr tcpAddr :: r.1, r.2)
      end
  end.

(** One iteration of [range cfg.Backends]. *)
Definition check_group (dInterval dTimeout : Z) (dPath : string)
    (groupName : string) (group : BackendGroup) (n : nat) : result (BackendGroupConfig * nat) :=
  let groupName := TrimSpace groupName in
  if bool_decide (groupName = "") then Err (ErrMsg "backends contains empty group name")
  else if bool_decide (length (Addresses group) = 0) then
    Err (ErrMsg ("backends[" +:+ Quote groupName +:+ "] must contain at least one address"))
  else
    let! r := check_addrs groupName (Addresses group) n in
    let interval := durationFromMS (IntervalMS (Healthcheck group)) dInterval in
    let timeout := durationFromMS (TimeoutMS (Healthcheck group)) dTimeout in
    if (interval <? timeout)%Z then
      Err (ErrMsg ("backends[" +:+ Quote groupName +:+ "].healthcheck.timeout_ms must be <= interval_ms"))
    else
      let path := normalizePath (Path (Healthcheck group)) in
      let path := if bool_decide (path = "") then dPath else path in
      Ok (mkGroup groupName r.1 interval timeout path, r.2).

Fixpoint check_groups (dInterval dTimeout : Z) (dPath : string)
    (ord : list (string * BackendGroup)) (n : nat) : result (list BackendGroupConfig * nat) :=
  match ord with
  | [] => Ok ([], n)
  | (groupName, group) :: rest =>
      let! g := check_group dInterval dTimeout dPath groupName group n in
      let! r := check_groups dInterval dTimeout dPath rest g.2 in
      Ok (g.1 :: r.1, r.2)
  end.

(** The address loop of the routes: resolves again and ignores the error, so a
    failing resolution is a nil dereference. *)
Fixpoint route_addrs (addrs : list string) (n : nat) : result (list string * nat) :=
  match addrs with
  | [] => Ok ([], n)
  | addr :: rest =>
      match dns n (TrimSpace addr) with
      | inr tcpAddr =>
          let! r := route_addrs rest (S n) in
          Ok (formatAddr tcpAddr :: r.1, r.2)
      | inl _ => Panic "nil pointer dereference"
      end
  end.

(** [range cfg.Routes] in the order [ord]. *)
Fixpoint build_routes (backends : gmap string BackendGroup) (ord : list (string * string))
    (routes : gmap string (list string)) (hostToGroup : gmap string string) (n : nat)
    : result (gmap string (list string) * gmap string string) :=
  match ord with
  | [] => Ok (routes, hostToGroup)
  | (host, groupName) :: rest =>
      let normalizedHost := normalizeHost host in
      if bool_decide (normalizedHost = "") then Err (ErrMsg "routes contains empty host key")
      else
        let groupName := TrimSpace groupName in
        if bool_decide (groupName = "") then
          Err (ErrMsg ("routes[" +:+ Quote host +:+ "] has empty group name"))
        else match backends !! groupName with
        | None => Err (ErrMsg ("routes[" +:+ Quote host +:+ "] references unknown group " +:+ Quote groupName))
        | Some group =>
            let! r := route_addrs (Addresses group) n in
            build_routes backends rest (<[normalizedHost := r.1]> routes)
              (<[normalizedHost := groupName]> hostToGroup) r.2
        end
  end.

(** [_, err := net.ResolveTCPAddr("tcp", addr)] for a listen address *)
Definition resolve_listen (what : string) (addr : string) (n : nat) : result nat :=
  match dns n addr with
  | inr _ => Ok (S n)
  | inl e => Err (wrap_err ("invalid " +:+ what) e)
  end.

(** [normalizeAndValidate], with the orders in which the two maps are ranged
    over. *)
Definition normalizeAndValidate (ordB : list (string * BackendGroup))
    (ordR : list (string * string)) (cfg : Config) : result RuntimeConfig :=
  if bool_decide (TrimSpace (Server_ListenAddr cfg) = "") then
    Err (ErrMsg "server.listen_addr is required")
  else
    let! n := resolve_listen "server.listen_addr" (Server_ListenAddr cfg) 0 in
    let metricsEnabled := default true (Metrics_Enabled cfg) in
    let metricsListenAddr := TrimSpace (Metrics_ListenAddr cfg) in
    let metricsListenAddr :=
      if metricsEnabled && bool_decide (metricsListenAddr = "") then "127.0.0.1:9090"
      else metricsListenAddr in
    let! n := (if metricsEnabled then resolve_listen "metrics.listen_addr" metricsListenAddr n
               else Ok n) in
    let dInterval := durationFromMS (IntervalMS (Default_Healthcheck cfg)) defaultHealthInterval in
    let dTimeout := durationFromMS (TimeoutMS (Default_Healthcheck cfg)) defaultHealthTimeout in
    if (dInterval <? dTimeout)%Z then
      Err (ErrMsg "healthcheck.timeout_ms must be <= healthcheck.interval_ms")
    else
      let dPath := normalizePath (Path (Default_Healthcheck cfg)) in
      if bool_decide (size (Backends cfg) = 0) then
        Err (ErrMsg "backends must contain at least one group")
      else if bool_decide (size (Routes cfg) = 0) then
        Err (ErrMsg "routes must contain at least one host")
      else
        let autoDiscoveryEnabled := default false (AutoDiscovery_Enabled cfg) in
        let! g := check_groups dInterval dTimeout dPath ordB n in
        let! r := build_routes (Backends cfg) ordR ∅ ∅ g.2 in
        Ok {| rc_ListenAddr := Server_ListenAddr cfg;
              rc_MetricsEnabled := metricsEnabled;
              rc_MetricsListenAddr := metricsListenAddr;
              rc_AutoDiscoveryEnabled := autoDiscoveryEnabled;
              rc_MaxConnections := Server_MaxConnections cfg;
              rc_MaxInflightDials := Server_MaxInflightDials cfg;
              rc_DialTimeout := durationFromMS (Timeouts_DialMS cfg) defaultDialTimeout;
              rc_ReadTimeout := durationFromMS (Timeouts_ReadMS cfg) defaultReadTimeout;
              rc_WriteTimeout := durationFromMS (Timeouts_WriteMS cfg) defaultWriteTimeout;
              rc_IdleTimeout := durationFromMS (Timeouts_IdleMS cfg) defaultIdleTimeout;
              rc_TCPKeepAlive := durationFromMS (TCP_KeepAliveMS cfg) defaultTCPKeepAlive;
              rc_ShutdownGrace := durationFromMS (Timeouts_ShutdownGracePeriod cfg) defaultShutdownGrace;
              rc_Routes := r.1;
              rc_BackendGroups := g.1;
              rc_HostToGroup := r.2 |}.

End config.

(** ** The configuration file

    A file is what [os.ReadFile] returns for it.  The YAML codec is the
    package [gopkg.in/yaml.v3]: a class without laws here; what is needed of
    it is [yaml_roundtrip] below. *)
Definition file : Type := goerror + string.

Class Yaml := {
  Unmarshal : string → goerror + Config;
  Marshal : Config → goerror + string;
}.

(** What the codec is documented to do: reading back what it wrote. *)
Definition yaml_roundtrip `{Yaml} : Prop :=
  ∀ cfg raw, Marshal cfg = inr raw → Unmarshal raw = inr cfg.

Section files.
Context `{UnicodeTables, Yaml}.

Definition LoadRaw (f : file) : result Config :=
  match f with
  | inl e => Err (wrap_err "read config" e)
  | inr raw =>
      match Unmarshal raw with
      | inl e => Err (wrap_err "parse yaml" e)
      | inr cfg => Ok cfg
      end
  end.

Definition Load (dns : resolver) (ordB : Config → list (string * BackendGroup))
    (ordR : Config → list (string * string)) (f : file) : result RuntimeConfig :=
  match f with
  | inl e => Err (wrap_err "read config" e)
  | inr raw =>
      match Unmarshal raw with
      | inl e => Err (wrap_err "parse yaml" e)
      | inr cfg => normalizeAndValidate dns (ordB cfg) (ordR cfg) cfg
      end
  end.

(** [Save]; a failing [os.WriteFile] leaves the file as [failed] says. *)
Definition Save (failed : option (goerror * file)) (cfg : Config) (f : file) : file * result unit :=
  match Marshal cfg with
  | inl e => (f, Err (wrap_err "marshal config" e))
  | inr data =>
      match failed with
      | Some (e, f') => (f', Err (wrap_err "write config" e))
      | None => (inr data, Ok tt)
      end
  end.

End files.

(** ** Lemmas *)

Lemma durationFromMS_exact ms fallback :
  (0 < ms ≤ 9223372036854)%Z → durationFromMS ms fallback = (ms * Millisecond)%Z.
Proof.
  intros Hms. unfold durationFromMS. destruct (Z.leb_spec ms 0); [lia|].
  apply swrap64_id. unfold in_i64, Millisecond. lia.
Qed.

Section config_lemmas.
Context `{UnicodeTables}.
Context (dns : resolver).

Lemma check_addrs_Ok name addrs n l n' :
  check_addrs dns name addrs n = Ok (l, n') →
  n' = n + length addrs ∧
  Forall2 (λ a s, ∃ k t, dns k (TrimSpace a) = inr t ∧ ta_IP t ≠ [] ∧
    IsUnspecified (ta_IP t) = false ∧ s = formatAddr t) addrs l.
Proof.
  revert n l. induction addrs as [|a addrs IH]; intros n l; cbn [check_addrs].
  - intros [= <- <-]. split; [cbn; lia|constructor].
  - case_bool_decide; [done|]. destruct (dns n (TrimSpace a)) as [e|t] eqn:Et; [done|].
    destruct (bool_decide (ta_IP t = []) || IsUnspecified (ta_IP t)) eqn:Eip; [done|]. bools.
    intros [[l1 n1] [E [= <- <-]]]%rbind_Ok. apply IH in E as [-> HF]. cbn. split; [lia|].
    constructor; [|done]. exists n, t. done.
Qed.

Lemma check_group_Ok dI dT dP name group n g n' :
  check_group dns dI dT dP name group n = Ok (g, n') →
  g_Name g = TrimSpace name ∧ g_Name g ≠ "" ∧ Addresses group ≠ [] ∧
  (g_Timeout g ≤ g_Interval g)%Z ∧
  g_Interval g = durationFromMS (IntervalMS (Healthcheck group)) dI ∧
  g_Timeout g = durationFromMS (TimeoutMS (Healthcheck group)) dT ∧
  check_addrs dns (TrimSpace name) (Addresses group) n = Ok (g_Addresses g, n').
Proof.
  unfold check_group. case_bool_decide as Hn; [done|]. case_bool_decide as Ha; [done|].
  intros [[l n1] [E1 E]]%rbind_Ok. destruct (_ <? _)%Z eqn:Et; [done|]. bools.
  injection E as <- <-. cbn. split_and!; try done. by destruct (Addresses group).
Qed.

Lemma check_groups_Ok dI dT dP ord n gs n' :
  check_groups dns dI dT dP ord n = Ok (gs, n') →
  Forall2 (λ e g, ∃ k k', check_group dns dI dT dP e.1 e.2 k = Ok (g, k')) ord gs.
Proof.
  revert n gs. induction ord as [|[name group] ord IH]; intros n gs; cbn [check_groups].
  - intros [= <- <-]. constructor.
  - intros [[g k] [Eg [[gs1 n1] [E [= <- <-]]]%rbind_Ok]]%rbind_Ok.
    constructor; [by eauto|by eapply IH].
Qed.

Lemma route_addrs_Ok addrs n l n' :
  route_addrs dns addrs n = Ok (l, n') →
  Forall2 (λ a s, ∃ k t, dns k (TrimSpace a) = inr t ∧ s = formatAddr t) addrs l.
Proof.
  revert n l. induction addrs as [|a addrs IH]; intros n l; cbn [route_addrs].
  - intros [= <- <-]. constructor.
  - destruct (dns n (TrimSpace a)) as [e|t] eqn:Et; [done|].
    intros [[l1 n1] [E [= <- <-]]]%rbind_Ok. constructor; [by eauto|by eapply IH].
Qed.

(** What [build_routes] adds to the two maps. *)
Lemma build_routes_Ok backends ord rts h2g n rts' h2g' :
  build_routes dns backends ord rts h2g n = Ok (rts', h2g') →
  ∀ h, (rts' !! h = rts !! h ∧ h2g' !! h = h2g !! h) ∨
    ∃ host gname group l k k', (host, gname) ∈ ord ∧ normalizeHost host = h ∧ h ≠ "" ∧
      backends !! TrimSpace gname = Some group ∧ h2g' !! h = Some (TrimSpace gname) ∧
      route_addrs dns (Addresses group) k = Ok (l, k') ∧ rts' !! h = Some l.
Proof.
  revert rts h2g n. induction ord as [|[host gname] ord IH]; intros rts h2g n; cbn [build_routes].
  { intros [= <- <-] h. by left. }
  case_bool_decide as Hh; [done|]. case_bool_decide as Hg; [done|].
  destruct (backends !! TrimSpace gname) as [group|] eqn:Eg; [|done].
  intros [[l k] [El E]]%rbind_Ok h. destruct (IH _ _ _ E h) as [[-> ->]|HR].
  - cbn. destruct (decide (normalizeHost host = h)) as [<-|Hne].
    + right. exists host, gname, group, l, n, k. rewrite !lookup_insert_eq.
      split_and!; try done. apply elem_of_cons. by left.
    + left. by rewrite !lookup_insert_ne.
  - right. destruct HR as (host' & gname' & group' & l' & k1 & k2 & Hin & HR).
    exists host', gname', group', l', k1, k2. split; [apply elem_of_cons; by right|done].
Qed.

Lemma build_routes_covers backends ord rts h2g n rts' h2g' host gname :
  build_routes dns backends ord rts h2g n = Ok (rts', h2g') →
  (host, gname) ∈ ord ∨ is_Some (rts !! normalizeHost host) →
  is_Some (rts' !! normalizeHost host).
Proof.
  revert rts h2g n. induction ord as [|[host0 gname0] ord IH]; intros rts h2g n; cbn [build_routes].
  { intros [= <- <-] [[]%not_elem_of_nil|?]; done. }
  case_bool_decide; [done|]. case_bool_decide; [done|].
  destruct (backends !! TrimSpace gname0) as [group|]; [|done].
  intros [[l k] [_ E]]%rbind_Ok [[[= <- <-]|Hin]%elem_of_cons|Hs].
  - apply (IH _ _ _ E). right. cbn. rewrite lookup_insert_eq. eauto.
  - apply (IH _ _ _ E). by left.
  - apply (IH _ _ _ E). right. cbn. apply lookup_insert_is_Some'. by right.
Qed.

(** A run that crashes does so on an address of a routed group. *)
Lemma build_routes_Panic backends ord rts h2g n w :
  build_routes dns backends ord rts h2g n = Panic w →
  ∃ host gname group a k e, (host, gname) ∈ ord ∧ backends !! TrimSpace gname = Some group ∧
    a ∈ Addresses group ∧ dns k (TrimSpace a) = inl e.
Proof.
  assert (∀ addrs n w, route_addrs dns addrs n = Panic w →
    ∃ a k e, a ∈ addrs ∧ dns k (TrimSpace a) = inl e) as Hra.
  { clear. intros addrs. induction addrs as [|a addrs IH]; intros n w; cbn [route_addrs]; [done|].
    destruct (dns n (TrimSpace a)) as [e|t] eqn:Ed.
    - intros _. exists a, n, e. split; [apply elem_of_cons; by left|done].
    - destruct (route_addrs dns addrs (S n)) as [| |w'] eqn:E; [done|done|]. intros _.
      destruct (IH _ _ E) as (a' & k & e & ? & ?). exists a', k, e.
      split; [apply elem_of_cons; by right|done]. }
  revert rts h2g n. induction ord as [|[host gname] ord IH]; intros rts h2g n; cbn [build_routes]; [done|].
  case_bool_decide; [done|]. case_bool_decide; [done|].
  destruct (backends !! TrimSpace gname) as [group|] eqn:Eg; [|done].
  destruct (route_addrs dns (Addresses group) n) as [[l k]|e|w'] eqn:El; cbn [rbind]; [|done|].
  - intros (h1 & g1 & gr & a & k' & e & Hin & HR)%IH. exists h1, g1, gr, a, k', e.
    split; [apply elem_of_cons; by right|done].
  - intros _. destruct (Hra _ _ _ El) as (a & k & e & ? & ?). exists host, gname, group, a, k, e.
    split; [apply elem_of_cons; by left|done].
Qed.

Lemma normalizeAndValidate_Ok ordB ordR cfg rc :
  normalizeAndValidate dns ordB ordR cfg = Ok rc →
  ∃ dI dT dP n n1, check_groups dns dI dT dP ordB n = Ok (rc_BackendGroups rc, n1) ∧
    build_routes dns (Backends cfg) ordR ∅ ∅ n1 = Ok (rc_Routes rc, rc_HostToGroup rc).
Proof.
  unfold normalizeAndValidate. case_bool_decide; [done|].
  intros (n & _ & (n2 & _ & E)%rbind_Ok)%rbind_Ok.
  destruct (_ <? _)%Z; [done|]. case_bool_decide; [done|]. case_bool_decide; [done|].
  apply rbind_Ok in E as ([gs n3] & Eg & ([rts h2g] & Er & [= <-])%rbind_Ok). eauto 10.
Qed.

(** The probe interval of a group: its own setting, else the global one, else
    the built-in default. *)
Lemma normalizeAndValidate_interval ordB ordR cfg rc g :
  normalizeAndValidate dns ordB ordR cfg = Ok rc → g ∈ rc_BackendGroups rc →
  ∃ name group, (name, group) ∈ ordB ∧
    g_Interval g = durationFromMS (IntervalMS (Healthcheck group))
      (durationFromMS (IntervalMS (Default_Healthcheck cfg)) defaultHealthInterval).
Proof.
  unfold normalizeAndValidate. case_bool_decide; [done|].
  intros (n & _ & (n2 & _ & E)%rbind_Ok)%rbind_Ok Hg.
  destruct (_ <? _)%Z; [done|]. case_bool_decide; [done|]. case_bool_decide; [done|].
  apply rbind_Ok in E as ([gs n3] & Eg%check_groups_Ok & ([rts h2g] & Er & [= <-])%rbind_Ok).
  apply list_elem_of_lookup in Hg as [i Hi].
  destruct (Forall2_lookup_r _ _ _ _ _ Eg Hi) as ([name group] & Hin & k1 & k2 & Hc).
  apply check_group_Ok in Hc as (_ & _ & _ & _ & HI & _). exists name, group.
  split; [by eapply list_elem_of_lookup_2|done].
Qed.

Lemma normalizeAndValidate_Panic ordB ordR cfg w :
  normalizeAndValidate dns ordB ordR cfg = Panic w →
  ∃ dI dT dP n gs n1 w', check_groups dns dI dT dP ordB n = Ok (gs, n1) ∧
    build_routes dns (Backends cfg) ordR ∅ ∅ n1 = Panic w'.
Proof.
  assert (∀ name addrs n w, check_addrs dns name addrs n ≠ Panic w) as Hca.
  { intros name addrs. induction addrs as [|a addrs IH]; intros n w'; cbn [check_addrs]; [done|].
    case_bool_decide; [done|]. destruct (dns n _); [done|]. destruct (_ || _); [done|].
    specialize (IH (S n)). by destruct (check_addrs dns name addrs (S n)). }
  assert (∀ dI dT dP name g n w, check_group dns dI dT dP name g n ≠ Panic w) as Hcg.
  { intros dI dT dP name g n w'. unfold check_group. case_bool_decide; [done|].
    case_bool_decide; [done|]. pose proof (Hca (TrimSpace name) (Addresses g) n) as Hc.
    destruct (check_addrs _ _ _ n) as [| |w0]; cbn; [by destruct (_ <? _)%Z|done|by destruct (Hc w0)]. }
  assert (∀ dI dT dP ord n w, check_groups dns dI dT dP ord n ≠ Panic w) as Hcgs.
  { intros dI dT dP ord. induction ord as [|[name g] ord IH]; intros n w'; cbn [check_groups]; [done|].
    pose proof (Hcg dI dT dP name g n) as Hc.
    destruct (check_group _ _ _ _ name g n) as [[g1 n1]| |w0]; cbn; [|done|by destruct (Hc w0)].
    specialize (IH n1). by destruct (check_groups _ _ _ _ ord n1). }
  assert (∀ what a n w, resolve_listen dns what a n ≠ Panic w) as Hrl.
  { intros what a n w'. unfold resolve_listen. by destruct (dns n a). }
  unfold normalizeAndValidate. case_bool_decide; [done|].
  destruct (resolve_listen _ _ _ 0) as [n| |w0] eqn:E1; cbn [rbind]; [|done|by apply Hrl in E1].
  destruct (if default true (Metrics_Enabled cfg) then _ else _) as [n2| |w0] eqn:E2; cbn [rbind].
  - clear E1 E2. destruct (_ <? _)%Z; [done|]. case_bool_decide; [done|]. case_bool_decide; [done|].
    destruct (check_groups _ _ _ _ ordB n2) as [[gs n3]| |w0] eqn:Eg; cbn [rbind]; [|done|by apply Hcgs in Eg].
    destruct (build_routes _ _ _ _ _ _) as [[]| |w'] eqn:Er; [done|done|]. intros _. eauto 10.
  - done.
  - destruct (default true _); [by apply Hrl in E2|done].
Qed.

End config_lemmas.

(** ** Properties of the configuration *)

Section config_properties.
Context `{UnicodeTables}.

(** The resolver answers the same question the same way every time. *)
Definition dns_stable (dns : resolver) : Prop := ∀ n m s, dns n s = dns m s.

Lemma stable_addrs dns as1 l1 l2 :
  dns_stable dns →
  Forall2 (λ a s, ∃ k t, dns k (TrimSpace a) = inr t ∧ ta_IP t ≠ [] ∧
    IsUnspecified (ta_IP t) = false ∧ s = formatAddr t) as1 l1 →
  Forall2 (λ a s, ∃ k t, dns k (TrimSpace a) = inr t ∧ s = formatAddr t) as1 l2 →
  l1 = l2.
Proof.
  intros Hs H1. revert l2. induction H1 as [|a s1 as1 l1 (k & t & Et & _ & _ & ->) _ IH];
    intros l2 H2; inversion H2 as [|? s2 ? l2' (k2 & t2 & Et2 & ->) H2']; subst; [done|].
  f_equal; [|by apply IH]. rewrite (Hs k k2), Et2 in Et. congruence.
Qed.

(** C13: what validation guarantees about the runtime configuration it returns: every backend group is named, non-empty and has its timeout within its interval; every configured host is routed under its normal form, each routed host has a non-empty name and at least one address, and its group exists in the configuration. *)
Theorem validated_config dns ordB ordR cfg rc :
  range_order (Backends cfg) ordB → range_order (Routes cfg) ordR →
  normalizeAndValidate dns ordB ordR cfg = Ok rc →
  (∀ g, g ∈ rc_BackendGroups rc →
     g_Name g ≠ "" ∧ g_Addresses g ≠ [] ∧ (g_Timeout g ≤ g_Interval g)%Z ∧
     ∃ name group, Backends cfg !! name = Some group ∧ g_Name g = TrimSpace name) ∧
  (∀ host gname, Routes cfg !! host = Some gname → is_Some (rc_Routes rc !! normalizeHost host)) ∧
  (∀ h addrs, rc_Routes rc !! h = Some addrs →
     h ≠ "" ∧ addrs ≠ [] ∧ ∃ host gname, Routes cfg !! host = Some gname ∧
       normalizeHost host = h ∧ rc_HostToGroup rc !! h = Some (TrimSpace gname) ∧
       is_Some (Backends cfg !! TrimSpace gname)).
Proof.
  intros HB HR (dI & dT & dP & n & n1 & Eg & Er)%normalizeAndValidate_Ok.
  apply check_groups_Ok in Eg.
  assert (∀ name group, Backends cfg !! name = Some group → Addresses group ≠ []) as Hne.
  { intros name group Hg. apply (range_order_elem _ _ _ _ HB), list_elem_of_lookup in Hg as [i Hi].
    destruct (Forall2_lookup_l _ _ _ _ _ Eg Hi) as (g & _ & k & k' & Hc).
    by apply check_group_Ok in Hc as (_ & _ & ? & _). }
  split_and!.
  - intros g Hg. apply list_elem_of_lookup in Hg as [i Hi].
    destruct (Forall2_lookup_r _ _ _ _ _ Eg Hi) as ([name group] & Hin & k & k' & Hc).
    apply check_group_Ok in Hc as (Hn & Hn0 & Ha & Ht & _ & _ & Hl).
    apply list_elem_of_lookup_2, (range_order_elem _ _ _ _ HB) in Hin. cbn in *.
    apply check_addrs_Ok in Hl as [_ Hl%Forall2_length].
    split_and!; [done| |done|by eauto]. intros E. rewrite E in Hl. by destruct (Addresses group).
  - intros host gname Hr. eapply build_routes_covers; [exact Er|].
    left. by apply (range_order_elem _ _ _ _ HR).
  - intros h addrs Hh. destruct (build_routes_Ok dns _ _ _ _ _ _ _ Er h) as [[E _]|HX].
    { by rewrite E, lookup_empty in Hh. }
    destruct HX as (host & gname & group & l & k & k' & Hin & Hk & Hh0 & Hgr & Hg2 & Hl & Hr).
    apply (range_order_elem _ _ _ _ HR) in Hin. split; [done|]. split; [|by eauto 10].
    assert (l = addrs) as -> by congruence. apply route_addrs_Ok, Forall2_length in Hl.
    specialize (Hne _ _ Hgr). destruct addrs; [by destruct (Addresses group)|done].
Qed.

(** Every routed host has the addresses of a group of the checker. *)
Lemma route_group dns ordB ordR cfg rc h addrs :
  dns_stable dns →
  range_order (Backends cfg) ordB → normalizeAndValidate dns ordB ordR cfg = Ok rc →
  rc_Routes rc !! h = Some addrs →
  ∃ g, g ∈ rc_BackendGroups rc ∧ rc_HostToGroup rc !! h = Some (g_Name g) ∧
    g_Addresses g = addrs.
Proof.
  intros Hst HB (dI & dT & dP & n & n1 & Eg & Er)%normalizeAndValidate_Ok Hh.
  apply check_groups_Ok in Eg.
  destruct (build_routes_Ok dns _ _ _ _ _ _ _ Er h) as [[E _]|HX].
  { by rewrite E, lookup_empty in Hh. }
  destruct HX as (host & gname & group & l & k & k' & _ & _ & _ & Hgr & Hg2 & Hl & Hr).
  apply (range_order_elem _ _ _ _ HB), list_elem_of_lookup in Hgr as [i Hi].
  destruct (Forall2_lookup_l _ _ _ _ _ Eg Hi) as (g & Hg & k1 & k2 & Hc).
  apply check_group_Ok in Hc as (Hn & _ & _ & _ & _ & _ & Ha). cbn [fst snd] in *.
  apply check_addrs_Ok in Ha as [_ Ha]. apply route_addrs_Ok in Hl.
  exists g. split; [by eapply list_elem_of_lookup_2|]. split.
  - by rewrite Hg2, Hn, TrimSpace_idemp.
  - rewrite (stable_addrs dns _ _ _ Hst Ha Hl). congruence.
Qed.

(** Conversely a group mapped to a host carries that host's addresses, when
    the group names of the file have no surrounding space. *)
Lemma group_route dns ordB ordR cfg rc h g :
  dns_stable dns → (∀ name, name ∈ dom (Backends cfg) → TrimSpace name = name) →
  range_order (Backends cfg) ordB → normalizeAndValidate dns ordB ordR cfg = Ok rc →
  g ∈ rc_BackendGroups rc → rc_HostToGroup rc !! h = Some (g_Name g) →
  rc_Routes rc !! h = Some (g_Addresses g).
Proof.
  intros Hst Htrim HB (dI & dT & dP & n & n1 & Eg & Er)%normalizeAndValidate_Ok Hg Hh.
  apply check_groups_Ok in Eg.
  destruct (build_routes_Ok dns _ _ _ _ _ _ _ Er h) as [[_ E]|HX].
  { by rewrite E, lookup_empty in Hh. }
  destruct HX as (host & gname & group & l & k & k' & _ & _ & _ & Hgr & Hg2 & Hl & Hr).
  apply list_elem_of_lookup in Hg as [i Hi].
  destruct (Forall2_lookup_r _ _ _ _ _ Eg Hi) as ([name group'] & Hin & k1 & k2 & Hc).
  apply check_group_Ok in Hc as (Hn & _ & _ & _ & _ & _ & Ha). cbn [fst snd] in *.
  apply list_elem_of_lookup_2, (range_order_elem _ _ _ _ HB) in Hin.
  rewrite Htrim in Hn by (by eapply elem_of_dom_2).
  assert (TrimSpace gname = name) as Hgn by congruence. rewrite Hgn in Hgr.
  assert (group' = group) as -> by congruence.
  apply check_addrs_Ok in Ha as [_ Ha]. apply route_addrs_Ok in Hl.
  rewrite (stable_addrs dns _ _ _ Hst Ha Hl). done.
Qed.

(** C27: with a resolver that answers consistently, routing and health checking see the same backends: the addresses of every routed host are those of a group handed to the health checker under the name the host is mapped to, so every health update of that group finds its backend. *)
Theorem routes_match_groups dns ordB ordR cfg rc :
  dns_stable dns →
  range_order (Backends cfg) ordB → range_order (Routes cfg) ordR →
  normalizeAndValidate dns ordB ordR cfg = Ok rc →
  ∀ h addrs, rc_Routes rc !! h = Some addrs →
    ∃ g, g ∈ rc_BackendGroups rc ∧ rc_HostToGroup rc !! h = Some (g_Name g) ∧
      g_Addresses g = addrs.
Proof. intros Hst HB _ Hv h addrs. by apply (route_group dns ordB ordR cfg). Qed.

(** Validation never crashes when the resolver answers consistently: the error that the second resolution of a backend address ignores cannot occur, because the first pass has resolved every address of every group. *)
Theorem validation_no_panic dns ordB ordR cfg why :
  dns_stable dns → range_order (Backends cfg) ordB →
  normalizeAndValidate dns ordB ordR cfg ≠ Panic why.
Proof.
  intros Hst HB (dI & dT & dP & n & gs & n1 & w & Eg & Er)%normalizeAndValidate_Panic.
  apply check_groups_Ok in Eg.
  destruct (build_routes_Panic dns _ _ _ _ _ _ Er) as (host & gname & group & a & k & e & _ & Hgr & Ha & Hd).
  apply (range_order_elem _ _ _ _ HB), list_elem_of_lookup in Hgr as [i Hi].
  destruct (Forall2_lookup_l _ _ _ _ _ Eg Hi) as (g & Hg & k1 & k2 & Hc).
  apply check_group_Ok in Hc as (_ & _ & _ & _ & _ & _ & Hl). cbn in *.
  apply check_addrs_Ok in Hl as [_ Hl].
  apply list_elem_of_lookup in Ha as [j Hj].
  destruct (Forall2_lookup_l _ _ _ _ _ Hl Hj) as (s & _ & k3 & t & Et & _).
  rewrite (Hst k k3), Et in Hd. done.
Qed.

(** The millisecond settings: a non-positive value selects the default, a value up to 9223372036854 ms is converted exactly and stays positive, and the result is always an [int64]; beyond that bound the product wraps around, and 2^58 ms becomes a zero duration. *)
Theorem durationFromMS_bounds ms fallback :
  in_i64 fallback →
  in_i64 (durationFromMS ms fallback) ∧
  ((ms ≤ 0)%Z → durationFromMS ms fallback = fallback) ∧
  ((0 < ms ≤ 9223372036854)%Z →
     durationFromMS ms fallback = (ms * Millisecond)%Z ∧ (0 < durationFromMS ms fallback)%Z) ∧
  durationFromMS (2 ^ 58) fallback = 0%Z ∧
  (durationFromMS 9223372036855 fallback < 0)%Z.
Proof.
  intros Hf. split_and!.
  - unfold durationFromMS. destruct (_ <=? _)%Z; [done|apply swrap64_range].
  - intros Hms. unfold durationFromMS. by destruct (Z.leb_spec ms 0); [|lia].
  - intros Hms. rewrite durationFromMS_exact by done. unfold Millisecond. lia.
  - reflexivity.
  - reflexivity.
Qed.

(** C37: the effect of a discovered route: when the host is new and its group name is free, the route and its group are added and every other route and group is kept; when the host is already routed, or the host or address list is empty, the configuration is unchanged; adding the same host again is refused. *)
Theorem AddAutoDiscoveredRoute_spec cfg host addrs :
  let key := normalizeHost host in
  let name := autoGroupName (Backends cfg) key in
  match AddAutoDiscoveredRoute cfg host addrs with
  | (cfg', Ok true) =>
      key ≠ "" ∧ addrs ≠ [] ∧ Routes cfg !! key = None ∧
      Routes cfg' = <[key := name]> (Routes cfg) ∧
      (∃ g, Backends cfg' !! name = Some g ∧ Addresses g = addrs) ∧
      (Backends cfg !! name = None → Backends cfg ⊆ Backends cfg') ∧
      Routes cfg ⊆ Routes cfg' ∧
      (∀ host' addrs', normalizeHost host' = key → addrs' ≠ [] →
         AddAutoDiscoveredRoute cfg' host' addrs' = (cfg', Ok false))
  | (cfg', Ok false) => cfg' = cfg ∧ is_Some (Routes cfg !! key)
  | (cfg', Err _) => cfg' = cfg ∧ (key = "" ∨ addrs = [])
  | (_, Panic _) => False
  end.
Proof.
  cbn zeta. unfold AddAutoDiscoveredRoute at 1. case_bool_decide as Hk; [by auto|].
  case_bool_decide as Ha; [destruct addrs; [by auto|done]|].
  destruct (Routes cfg !! normalizeHost host) as [g|] eqn:Hr; [by eauto|].
  split_and!; try done; cbn.
  - by intros ->.
  - rewrite lookup_insert_eq. eauto.
  - intros Hfree. by apply insert_subseteq.
  - by apply insert_subseteq.
  - intros host' addrs' Hh' Ha'. unfold AddAutoDiscoveredRoute. rewrite Hh'.
    rewrite bool_decide_eq_false_2 by done. rewrite bool_decide_eq_false_2 by (by destruct addrs').
    cbn. by rewrite lookup_insert_eq.
Qed.

(** The configuration with one static route, before any discovery. *)
Definition static_config (g : BackendGroup) : Config :=
  mkConfig "127.0.0.1:1080" 0 0 None "" (mkHealthcheck 0 0 "") 0 0 0 0 0 0 (Some true)
    {[ "static" := g ]} {[ "s.internal" := "static" ]}.

Definition discover_all (cfg : Config) (l : list (string * list string)) : Config :=
  foldl (λ cfg e, (AddAutoDiscoveredRoute cfg e.1 e.2).1) cfg l.

(** The addresses a host is routed to. *)
Definition routed (cfg : Config) (host : string) : option (list string) :=
  g ← Routes cfg !! host; Addresses <$> Backends cfg !! g.

(** The numbered name chosen for a second group is not checked: after discovering a-b-3, then a.b, then a-b from a one-group configuration, the last group replaces the first one's, and the host a-b-3 is routed to the addresses of a-b. *)
Theorem discovery_overwrites_group g a1 a2 a3 :
  let cfg2 := discover_all (static_config g) [("a-b-3", [a1]); ("a.b", [a2])] in
  let r3 := AddAutoDiscoveredRoute cfg2 "a-b" [a3] in
  routed cfg2 "a-b-3" = Some [a1] ∧ r3.2 = Ok true ∧
  routed r3.1 "a-b-3" = Some [a3] ∧ routed r3.1 "a-b" = Some [a3].
Proof. by vm_compute. Qed.

End config_properties.

(** ** Witnesses *)

#[local] Existing Instance ascii_tables.

(** A resolver that answers every question with 10.0.0.1:80. *)
Definition fixed_dns : resolver := λ _ _, inr (mkTCPAddr [Byte.x0a; Byte.x00; Byte.x00; Byte.x01] 80).

Definition sample_config : Config :=
  mkConfig "0.0.0.0:1080" 0 0 (Some false) "" (mkHealthcheck 5000 2000 "") 0 0 0 0 0 0 None
    {[ "api-pool" := mkBackendGroup [" 10.0.0.1:80 "] (mkHealthcheck 0 0 "healthz") ]}
    {[ "API.internal." := "api-pool" ]}.

Definition sample_rc : RuntimeConfig :=
  match normalizeAndValidate fixed_dns (map_to_list (Backends sample_config))
          (map_to_list (Routes sample_config)) sample_config with
  | Ok rc => rc
  | _ => mkRuntime "" false "" false 0 0 0 0 0 0 0 0 ∅ [] ∅
  end.

Lemma fixed_dns_stable : dns_stable fixed_dns.
Proof. intros n m s. reflexivity. Qed.

Lemma sample_rc_Ok :
  normalizeAndValidate fixed_dns (map_to_list (Backends sample_config))
    (map_to_list (Routes sample_config)) sample_config = Ok sample_rc.
Proof. vm_compute. reflexivity. Qed.

Lemma sample_rc_route : rc_Routes sample_rc !! "api.internal" = Some ["10.0.0.1:80"].
Proof. decided. Qed.

Lemma validated_config_witness :
  is_Some (rc_Routes sample_rc !! "api.internal") ∧ ["10.0.0.1:80"] ≠ [].
Proof.
  destruct (validated_config fixed_dns _ _ sample_config sample_rc
    (range_order_self _) (range_order_self _) sample_rc_Ok) as (_ & H1 & H2).
  split.
  - apply (H1 "API.internal." "api-pool"). decided.
  - by destruct (H2 _ _ sample_rc_route) as (_ & ? & _).
Defined.

Lemma routes_match_groups_witness :
  ∃ g, g ∈ rc_BackendGroups sample_rc ∧
    rc_HostToGroup sample_rc !! "api.internal" = Some (g_Name g) ∧ g_Addresses g = ["10.0.0.1:80"].
Proof.
  exact (routes_match_groups fixed_dns _ _ sample_config sample_rc fixed_dns_stable
    (range_order_self _) (range_order_self _) sample_rc_Ok _ _ sample_rc_route).
Defined.

Lemma validation_no_panic_witness :
  normalizeAndValidate fixed_dns (map_to_list (Backends sample_config))
    (map_to_list (Routes sample_config)) sample_config ≠ Panic "nil pointer dereference".
Proof.
  exact (validation_no_panic fixed_dns _ _ sample_config _ fixed_dns_stable (range_order_self _)).
Defined.

Lemma durationFromMS_bounds_witness :
  durationFromMS 4000 defaultDialTimeout = defaultDialTimeout ∧
  durationFromMS 0 defaultDialTimeout = defaultDialTimeout.
Proof.
  destruct (durationFromMS_bounds 4000 defaultDialTimeout) as (_ & _ & H & _).
  { unfold in_i64, defaultDialTimeout, Second. lia. }
  destruct (durationFromMS_bounds 0 defaultDialTimeout) as (_ & H0 & _).
  { unfold in_i64, defaultDialTimeout, Second. lia. }
  split; [apply H; lia|apply H0; lia].
Defined.
