(* ===== verification/GoFloat.v ===== *)
(** * [float64] conversion and the [%g] verb

    IEEE binary64 values are the Standard Library's [spec_float]; [%g] is
    [strconv.FormatFloat(f, 'g', -1, 64)]: the shortest decimal that reads back
    as the same value, in positional or exponent notation. *)
From S2P Require Import Prelude GoStrings.
From Stdlib Require Export SpecFloat.

(** [float64(n)] for an integer: round to nearest, ties to even. *)
Definition float_of_Z (n : Z) : spec_float := binary_normalize 53 1024 n 0 false.

(** [x / y] *)
Definition float_div (x y : spec_float) : spec_float := SFdiv 53 1024 x y.

Local Open Scope Z_scope.

(** The value [m * 2^e] and the bounds of the reals that round to it, as
    numerators over one denominator. *)
Definition float_bounds (m e : Z) : (Z * Z * Z) * Z :=
  let low := if (m =? 2 ^ 52) && (-1074 <? e) then 1 else 2 in
  let up := if 0 <=? e then 2 ^ e else 1 in
  let den := if 0 <=? e then 4 else 4 * 2 ^ (- e) in
  ((4 * m * up, (4 * m - low) * up, (4 * m + 2) * up), den).

(** [a / b <= 10^k], [a / b < 10^k] on positive rationals. *)
Definition scaled (a b k : Z) : Z * Z :=
  if 0 <=? k then (a, b * 10 ^ k) else (a * 10 ^ (- k), b).

(** The decimal point position: [10^(dp-1) <= v < 10^dp]. *)
Fixpoint find_dp (fuel : nat) (num den dp : Z) : Z :=
  match fuel with
  | O => dp
  | S fuel =>
      let '(a, b) := scaled num den dp in
      if b <=? a then find_dp fuel num den (dp + 1)
      else
        let '(a, b) := scaled num den (dp - 1) in
        if a <? b then find_dp fuel num den (dp - 1) else dp
  end.

(** The [nd]-digit decimal in the rounding interval nearest to the value, as
    [(D, q)] for [D * 10^q]; more digits are tried until there is one. *)
Fixpoint shortest (fuel : nat) (nd : Z) (even : bool) (b : (Z * Z * Z) * Z) (dp : Z) : Z * Z :=
  let '((v, lo, hi), den) := b in
  let q := dp - nd in
  let '(n, d) := scaled v den q in
  let D := n / d in
  match fuel with
  | O => (D, q)
  | S fuel =>
      let cmp x y := if even then x <=? y else x <? y in
      let inside z :=
        let '(l, dl) := scaled lo den q in
        let '(h, dh) := scaled hi den q in
        cmp l (z * dl) && cmp (z * dh) h in
      match inside D, inside (D + 1) with
      | true, true => if 2 * (n - D * d) <=? d then (D, q) else (D + 1, q)
      | true, false => (D, q)
      | false, true => (D + 1, q)
      | false, false => shortest fuel (nd + 1) even b dp
      end
  end.

Fixpoint strip_zeros (fuel : nat) (D q : Z) : Z * Z :=
  match fuel with
  | O => (D, q)
  | S fuel => if (D mod 10 =? 0) && (0 <? D) then strip_zeros fuel (D / 10) (q + 1) else (D, q)
  end.

Definition zeros (n : Z) : string := b2s (replicate (Z.to_nat n) Byte.x30).

(** [%e] with the digits given: one digit before the point. *)
Definition fmt_e (digits : string) (exp : Z) : string :=
  let bs := s2b digits in
  let frac := drop 1 bs in
  b2s (take 1 bs) +:+ (if decide (frac = []) then "" else "." +:+ b2s frac) +:+ "e"
    +:+ (if exp <? 0 then "-" else "+") +:+ (if Z.abs exp <? 10 then "0" else "")
    +:+ itoa (Z.abs exp).

(** [%f] with the digits given and the point after [dp] of them. *)
Definition fmt_f (digits : string) (nd dp : Z) : string :=
  if dp <=? 0 then "0." +:+ zeros (- dp) +:+ digits
  else if nd <=? dp then digits +:+ zeros (dp - nd)
  else b2s (take (Z.to_nat dp) (s2b digits)) +:+ "." +:+ b2s (drop (Z.to_nat dp) (s2b digits)).

(** [fmt.Sprintf("%g", x)] *)
Definition fmt_g (x : spec_float) : string :=
  match x with
  | S754_zero s => if s then "-0" else "0"
  | S754_infinity s => if s then "-Inf" else "+Inf"
  | S754_nan => "NaN"
  | S754_finite s m e =>
      let b := float_bounds (Z.pos m) e in
      let '((v, _, _), den) := b in
      let dp := find_dp 700 v den 0 in
      let '(D, q) := shortest 16 1 (Z.even (Z.pos m)) b dp in
      let '(D, q) := strip_zeros 20 D q in
      let digits := itoa D in
      let nd := Z.of_nat (length (s2b digits)) in
      let dp := nd + q in
      let exp := dp - 1 in
      (if s then "-" else "") +:+
      (if (exp <? -4) || (6 <=? exp) then fmt_e digits exp else fmt_f digits nd dp)
  end.

Example fmt_g_counter : fmt_g (float_of_Z 2) = "2" ∧ fmt_g (float_of_Z (-1)) = "-1".
Proof. by vm_compute. Qed.

Example fmt_g_seconds :
  fmt_g (float_div (float_of_Z 150000000) (float_of_Z 1000000000)) = "0.15" ∧
  fmt_g (float_div (float_of_Z 200000000) (float_of_Z 1000000000)) = "0.2" ∧
  fmt_g (float_div (float_of_Z 2000000000) (float_of_Z 1000000000)) = "2".
Proof. by vm_compute. Qed.

Example fmt_g_large :
  fmt_g (float_of_Z 999999) = "999999" ∧ fmt_g (float_of_Z 1000000) = "1e+06" ∧
  fmt_g (float_of_Z 1234567) = "1.234567e+06" ∧
  fmt_g (float_of_Z (2 ^ 53 + 1)) = "9.007199254740992e+15" ∧
  fmt_g (float_div (float_of_Z 1) (float_of_Z 3)) = "0.3333333333333333" ∧
  fmt_g (float_div (float_of_Z 12) (float_of_Z 1000000000)) = "1.2e-08".
Proof. by vm_compute. Qed.
