(* ===== verification/Metrics.v ===== *)
(** * Metrics: [src/internal/metrics/collector.go]

    The collector with its counters and labelled maps, every operation that
    updates it, and the text rendering.  A [*Collector] is an [option]: the
    methods are no-ops on the nil receiver.  Counters are [uint64]. *)
From S2P Require Import Prelude GoStrings GoFloat.

(** ** State *)

Record Collector := mkCollector {
  connectionsTotal : Z;
  connectionsActive : Z;
  connectionErrors : gmap string Z;
  requestsTotal : gmap string Z;
  requestsByBackend : gmap string Z;
  routeFailures : gmap string Z;
  backendDialFailed : gmap string Z;
  relayBytes : gmap string Z;
  healthchecks : gmap string Z;
  backendsAlive : gmap string bool;
  tcpState : gmap string Z;
  handshakeCount : Z;
  handshakeSumNs : Z;
  dialCount : Z;
  dialSumNs : Z;
  sessionCount : Z;
  sessionSumNs : Z;
}.

Definition NewCollector : Collector :=
  mkCollector 0 0 ∅ ∅ ∅ ∅ ∅ ∅ ∅ ∅ ∅ 0 0 0 0 0 0.

Definition set_connectionsTotal (c : Collector) (v : Z) : Collector :=
  mkCollector v (connectionsActive c) (connectionErrors c) (requestsTotal c)
    (requestsByBackend c) (routeFailures c) (backendDialFailed c) (relayBytes c)
    (healthchecks c) (backendsAlive c) (tcpState c) (handshakeCount c) (handshakeSumNs c)
    (dialCount c) (dialSumNs c) (sessionCount c) (sessionSumNs c).
Definition set_connectionsActive (c : Collector) (v : Z) : Collector :=
  mkCollector (connectionsTotal c) v (connectionErrors c) (requestsTotal c)
    (requestsByBackend c) (routeFailures c) (backendDialFailed c) (relayBytes c)
    (healthchecks c) (backendsAlive c) (tcpState c) (handshakeCount c) (handshakeSumNs c)
    (dialCount c) (dialSumNs c) (sessionCount c) (sessionSumNs c).
Definition set_connectionErrors (c : Collector) (v : gmap string Z) : Collector :=
  mkCollector (connectionsTotal c) (connectionsActive c) v (requestsTotal c)
    (requestsByBackend c) (routeFailures c) (backendDialFailed c) (relayBytes c)
    (healthchecks c) (backendsAlive c) (tcpState c) (handshakeCount c) (handshakeSumNs c)
    (dialCount c) (dialSumNs c) (sessionCount c) (sessionSumNs c).
Definition set_requestsTotal (c : Collector) (v : gmap string Z) : Collector :=
  mkCollector (connectionsTotal c) (connectionsActive c) (connectionErrors c) v
    (requestsByBackend c) (routeFailures c) (backendDialFailed c) (relayBytes c)
    (healthchecks c) (backendsAlive c) (tcpState c) (handshakeCount c) (handshakeSumNs c)
    (dialCount c) (dialSumNs c) (sessionCount c) (sessionSumNs c).
Definition set_requestsByBackend (c : Collector) (v : gmap string Z) : Collector :=
  mkCollector (connectionsTotal c) (connectionsActive c) (connectionErrors c)
    (requestsTotal c) v (routeFailures c) (backendDialFailed c) (relayBytes c)
    (healthchecks c) (backendsAlive c) (tcpState c) (handshakeCount c) (handshakeSumNs c)
    (dialCount c) (dialSumNs c) (sessionCount c) (sessionSumNs c).
Definition set_routeFailures (c : Collector) (v : gmap string Z) : Collector :=
  mkCollector (connectionsTotal c) (connectionsActive c) (connectionErrors c)
    (requestsTotal c) (requestsByBackend c) v (backendDialFailed c) (relayBytes c)
    (healthchecks c) (backendsAlive c) (tcpState c) (handshakeCount c) (handshakeSumNs c)
    (dialCount c) (dialSumNs c) (sessionCount c) (sessionSumNs c).
Definition set_backendDialFailed (c : Collector) (v : gmap string Z) : Collector :=
  mkCollector (connectionsTotal c) (connectionsActive c) (connectionErrors c)
    (requestsTotal c) (requestsByBackend c) (routeFailures c) v (relayBytes c)
    (healthchecks c) (backendsAlive c) (tcpState c) (handshakeCount c) (handshakeSumNs c)
    (dialCount c) (dialSumNs c) (sessionCount c) (sessionSumNs c).
Definition set_relayBytes (c : Collector) (v : gmap string Z) : Collector :=
  mkCollector (connectionsTotal c) (connectionsActive c) (connectionErrors c)
    (requestsTotal c) (requestsByBackend c) (routeFailures c) (backendDialFailed c) v
    (healthchecks c) (backendsAlive c) (tcpState c) (handshakeCount c) (handshakeSumNs c)
    (dialCount c) (dialSumNs c) (sessionCount c) (sessionSumNs c).
Definition set_healthchecks (c : Collector) (v : gmap string Z) : Collector :=
  mkCollector (connectionsTotal c) (connectionsActive c) (connectionErrors c)
    (requestsTotal c) (requestsByBackend c) (routeFailures c) (backendDialFailed c)
    (relayBytes c) v (backendsAlive c) (tcpState c) (handshakeCount c) (handshakeSumNs c)
    (dialCount c) (dialSumNs c) (sessionCount c) (sessionSumNs c).
Definition set_backendsAlive (c : Collector) (v : gmap string bool) : Collector :=
  mkCollector (connectionsTotal c) (connectionsActive c) (connectionErrors c)
    (requestsTotal c) (requestsByBackend c) (routeFailures c) (backendDialFailed c)
    (relayBytes c) (healthchecks c) v (tcpState c) (handshakeCount c) (handshakeSumNs c)
    (dialCount c) (dialSumNs c) (sessionCount c) (sessionSumNs c).
Definition set_tcpState (c : Collector) (v : gmap string Z) : Collector :=
  mkCollector (connectionsTotal c) (connectionsActive c) (connectionErrors c)
    (requestsTotal c) (requestsByBackend c) (routeFailures c) (backendDialFailed c)
    (relayBytes c) (healthchecks c) (backendsAlive c) v (handshakeCount c) (handshakeSumNs
    c) (dialCount c) (dialSumNs c) (sessionCount c) (sessionSumNs c).
Definition set_handshakeCount (c : Collector) (v : Z) : Collector :=
  mkCollector (connectionsTotal c) (connectionsActive c) (connectionErrors c)
    (requestsTotal c) (requestsByBackend c) (routeFailures c) (backendDialFailed c)
    (relayBytes c) (healthchecks c) (backendsAlive c) (tcpState c) v (handshakeSumNs c)
    (dialCount c) (dialSumNs c) (sessionCount c) (sessionSumNs c).
Definition set_handshakeSumNs (c : Collector) (v : Z) : Collector :=
  mkCollector (connectionsTotal c) (connectionsActive c) (connectionErrors c)
    (requestsTotal c) (requestsByBackend c) (routeFailures c) (backendDialFailed c)
    (relayBytes c) (healthchecks c) (backendsAlive c) (tcpState c) (handshakeCount c) v
    (dialCount c) (dialSumNs c) (sessionCount c) (sessionSumNs c).
Definition set_dialCount (c : Collector) (v : Z) : Collector :=
  mkCollector (connectionsTotal c) (connectionsActive c) (connectionErrors c)
    (requestsTotal c) (requestsByBackend c) (routeFailures c) (backendDialFailed c)
    (relayBytes c) (healthchecks c) (backendsAlive c) (tcpState c) (handshakeCount c)
    (handshakeSumNs c) v (dialSumNs c) (sessionCount c) (sessionSumNs c).
Definition set_dialSumNs (c : Collector) (v : Z) : Collector :=
  mkCollector (connectionsTotal c) (connectionsActive c) (connectionErrors c)
    (requestsTotal c) (requestsByBackend c) (routeFailures c) (backendDialFailed c)
    (relayBytes c) (healthchecks c) (backendsAlive c) (tcpState c) (handshakeCount c)
    (handshakeSumNs c) (dialCount c) v (sessionCount c) (sessionSumNs c).
Definition set_sessionCount (c : Collector) (v : Z) : Collector :=
  mkCollector (connectionsTotal c) (connectionsActive c) (connectionErrors c)
    (requestsTotal c) (requestsByBackend c) (routeFailures c) (backendDialFailed c)
    (relayBytes c) (healthchecks c) (backendsAlive c) (tcpState c) (handshakeCount c)
    (handshakeSumNs c) (dialCount c) (dialSumNs c) v (sessionSumNs c).
Definition set_sessionSumNs (c : Collector) (v : Z) : Collector :=
  mkCollector (connectionsTotal c) (connectionsActive c) (connectionErrors c)
    (requestsTotal c) (requestsByBackend c) (routeFailures c) (backendDialFailed c)
    (relayBytes c) (healthchecks c) (backendsAlive c) (tcpState c) (handshakeCount c)
    (handshakeSumNs c) (dialCount c) (dialSumNs c) (sessionCount c) v.

(** [m[k] += n] on a map of [uint64] counters *)
Definition bump (m : gmap string Z) (k : string) (n : Z) : gmap string Z :=
  <[k := wrap64 (default 0%Z (m !! k) + n)]> m.

(** ** Operations *)

Definition IncTCPState (c : option Collector) (state : string) : option Collector :=
  match c with
  | None => None
  | Some c =>
      if bool_decide (state = "") then Some c
      else Some (set_tcpState c (bump (tcpState c) state 1))
  end.

Definition IncConnectionAccepted (c : option Collector) : option Collector :=
  c ← c;
  let c := set_connectionsTotal c (wrap64 (connectionsTotal c + 1)) in
  Some (set_connectionsActive c (swrap64 (connectionsActive c + 1))).

Definition DecConnectionActive (c : option Collector) : option Collector :=
  c ← c; Some (set_connectionsActive c (swrap64 (connectionsActive c - 1))).

Definition ObserveHandshakeLatency (c : option Collector) (d : Z) : option Collector :=
  c ← c;
  let c := set_handshakeCount c (wrap64 (handshakeCount c + 1)) in
  Some (set_handshakeSumNs c (wrap64 (handshakeSumNs c + wrap64 d))).

Definition IncRequest (c : option Collector) (atyp : string) : option Collector :=
  c ← c; Some (set_requestsTotal c (bump (requestsTotal c) atyp 1)).

(** The key of a request: [fmt.Sprintf("host=%s,backend=%s,result=%s", ...)] *)
Definition requestKey (host backend result : string) : string :=
  "host=" +:+ host +:+ ",backend=" +:+ backend +:+ ",result=" +:+ result.

Definition failureKey (host reason : string) : string :=
  "host=" +:+ host +:+ ",reason=" +:+ reason.

Definition aliveKeyOf (host backend : string) : string :=
  "host=" +:+ host +:+ ",backend=" +:+ backend.

Definition IncRequestByBackend (c : option Collector) (host backend result : string)
    : option Collector :=
  c ← c;
  let host := if bool_decide (host = "") then "unknown" else host in
  let backend := if bool_decide (backend = "") then "none" else backend in
  let result := if bool_decide (result = "") then "unknown" else result in
  Some (set_requestsByBackend c (bump (requestsByBackend c) (requestKey host backend result) 1)).

Definition IncConnectionError (c : option Collector) (stage : string) : option Collector :=
  c ← c; Some (set_connectionErrors c (bump (connectionErrors c) stage 1)).

Definition IncRouteFailure (c : option Collector) (host reason : string) : option Collector :=
  c ← c; Some (set_routeFailures c (bump (routeFailures c) (failureKey host reason) 1)).

Definition ObserveBackendDialLatency (c : option Collector) (d : Z) : option Collector :=
  c ← c;
  let c := set_dialCount c (wrap64 (dialCount c + 1)) in
  Some (set_dialSumNs c (wrap64 (dialSumNs c + wrap64 d))).

Definition IncBackendDialFailure (c : option Collector) (host reason : string) : option Collector :=
  c ← c; Some (set_backendDialFailed c (bump (backendDialFailed c) (failureKey host reason) 1)).

Definition AddRelayBytes (c : option Collector) (direction : string) (n : Z) : option Collector :=
  c ← c;
  if (n <=? 0)%Z then Some c
  else Some (set_relayBytes c (bump (relayBytes c) direction (wrap64 n))).

Definition ObserveSessionDuration (c : option Collector) (d : Z) : option Collector :=
  c ← c;
  let c := set_sessionCount c (wrap64 (sessionCount c + 1)) in
  Some (set_sessionSumNs c (wrap64 (sessionSumNs c + wrap64 d))).

Definition ObserveHealthcheck (c : option Collector) (host backend : string) (alive : bool)
    : option Collector :=
  c ← c;
  let result := if alive then "alive" else "dead" in
  let c := set_healthchecks c (bump (healthchecks c) (requestKey host backend result) 1) in
  Some (set_backendsAlive c (<[aliveKeyOf host backend := alive]> (backendsAlive c))).

(** ** The types of the counters *)

(** Every counter fits its machine type: [uint64], and [int64] for the gauge. *)
Definition collector_ok (c : Collector) : Prop :=
  Forall in_u64 [connectionsTotal c; handshakeCount c; handshakeSumNs c; dialCount c; dialSumNs c;
                 sessionCount c; sessionSumNs c] ∧
  in_i64 (connectionsActive c) ∧
  Forall (map_Forall (λ _ : string, in_u64))
    [connectionErrors c; requestsTotal c; requestsByBackend c; routeFailures c; backendDialFailed c;
     relayBytes c; healthchecks c; tcpState c].

Definition typed (c : option Collector) : Prop := default True (collector_ok <$> c).

Lemma bump_ok m k n : map_Forall (λ _ : string, in_u64) m → map_Forall (λ _, in_u64) (bump m k n).
Proof. intros Hm. apply map_Forall_insert_2; [apply wrap64_range|done]. Qed.

Lemma NewCollector_typed : typed (Some NewCollector).
Proof.
  assert (in_u64 0) by (unfold in_u64; lia). assert (in_i64 0) by (unfold in_i64; lia).
  refine (conj _ (conj _ _)); repeat (apply Forall_cons; split); try apply Forall_nil; try done;
    apply map_Forall_empty.
Qed.

(** Each operation writes wrapped values into fields that are in range. *)
Ltac typing :=
  match goal with |- typed ?c → _ => destruct c as [?c|]; [|done] end;
  cbn [mbind option_bind];
  repeat match goal with |- context [if ?b then _ else _] => destruct b end; try done;
  intros (?Hn & ?Hg & ?Hm);
  repeat match goal with H : Forall _ (_ :: _) |- _ => apply Forall_cons in H as [? H] end;
  refine (conj _ (conj _ _)); repeat (apply Forall_cons; split); try apply Forall_nil;
  cbn [connectionsTotal connectionsActive connectionErrors requestsTotal requestsByBackend routeFailures
    backendDialFailed relayBytes healthchecks backendsAlive tcpState handshakeCount
    handshakeSumNs dialCount dialSumNs sessionCount sessionSumNs set_connectionsTotal set_connectionsActive set_connectionErrors set_requestsTotal
    set_requestsByBackend set_routeFailures set_backendDialFailed set_relayBytes
    set_healthchecks set_backendsAlive set_tcpState set_handshakeCount
    set_handshakeSumNs set_dialCount set_dialSumNs set_sessionCount
    set_sessionSumNs];
  auto using bump_ok with gosock.

Lemma IncTCPState_typed c state : typed c → typed (IncTCPState c state).
Proof. unfold IncTCPState. typing. Qed.
Lemma IncConnectionAccepted_typed c : typed c → typed (IncConnectionAccepted c).
Proof. unfold IncConnectionAccepted. typing. Qed.
Lemma DecConnectionActive_typed c : typed c → typed (DecConnectionActive c).
Proof. unfold DecConnectionActive. typing. Qed.
Lemma ObserveHandshakeLatency_typed c d : typed c → typed (ObserveHandshakeLatency c d).
Proof. unfold ObserveHandshakeLatency. typing. Qed.
Lemma IncRequest_typed c a : typed c → typed (IncRequest c a).
Proof. unfold IncRequest. typing. Qed.
Lemma IncRequestByBackend_typed c h b r : typed c → typed (IncRequestByBackend c h b r).
Proof. unfold IncRequestByBackend. typing. Qed.
Lemma IncConnectionError_typed c stage : typed c → typed (IncConnectionError c stage).
Proof. unfold IncConnectionError. typing. Qed.
Lemma IncRouteFailure_typed c h r : typed c → typed (IncRouteFailure c h r).
Proof. unfold IncRouteFailure. typing. Qed.
Lemma ObserveBackendDialLatency_typed c d : typed c → typed (ObserveBackendDialLatency c d).
Proof. unfold ObserveBackendDialLatency. typing. Qed.
Lemma IncBackendDialFailure_typed c h r : typed c → typed (IncBackendDialFailure c h r).
Proof. unfold IncBackendDialFailure. typing. Qed.
Lemma AddRelayBytes_typed c d n : typed c → typed (AddRelayBytes c d n).
Proof. unfold AddRelayBytes. typing. Qed.
Lemma ObserveSessionDuration_typed c d : typed c → typed (ObserveSessionDuration c d).
Proof. unfold ObserveSessionDuration. typing. Qed.
Lemma ObserveHealthcheck_typed c h b alive : typed c → typed (ObserveHealthcheck c h b alive).
Proof. unfold ObserveHealthcheck. typing. Qed.

Create HintDb typed discriminated.
#[export] Hint Resolve IncTCPState_typed IncConnectionAccepted_typed DecConnectionActive_typed
  ObserveHandshakeLatency_typed IncRequest_typed IncRequestByBackend_typed IncConnectionError_typed
  IncRouteFailure_typed ObserveBackendDialLatency_typed IncBackendDialFailure_typed AddRelayBytes_typed
  ObserveSessionDuration_typed ObserveHealthcheck_typed NewCollector_typed : typed.

(** ** Rendering *)

Definition newline : string := b2s [Byte.x0a].

Section render.
Context `{UnicodeTables}.

(** [writeCounter] and [writeGauge]: the name and the value as [%g] *)
Definition writeCounter (name : string) (value : spec_float) : string :=
  name +:+ " " +:+ fmt_g value +:+ newline.
Definition writeGauge (name : string) (value : spec_float) : string :=
  name +:+ " " +:+ fmt_g value +:+ newline.

Definition nsToSec (ns : Z) : spec_float := float_div (float_of_Z ns) (float_of_Z 1000000000).

(** [%s=%q] *)
Definition labelPair (k v : string) : string := k +:+ "=" +:+ Quote v.

(** One exposition line [metric{labels} value] *)
Definition sampleLine (metric labels : string) (v : Z) : string :=
  metric +:+ "{" +:+ labels +:+ "} " +:+ itoa v +:+ newline.

(** The maps are ranged over only to collect the keys, which are sorted
    ([sorted_keys_order]), so the order of [map_to_list] stands for any. *)
Definition keys_of {V} (m : gmap string V) : list string := sorted_keys (map_to_list m).

Definition concat_lines (l : list string) : string := Join l "".

Definition writeLabelCounters (metric label : string) (m : gmap string Z) : string :=
  concat_lines ((λ k, sampleLine metric (labelPair label k) (default 0%Z (m !! k))) <$> keys_of m).

Definition parsePart (out : gmap string string) (part : bytes) : gmap string string :=
  match cut_byte Byte.x3d (trim_space part) with
  | Some (k, v) => <[b2s k := b2s v]> out
  | None => out
  end.

Definition parseKVLabels (s : string) : gmap string string :=
  foldl parsePart ∅ (split_byte Byte.x2c (s2b s)).

Definition formatLabels (m : gmap string string) : string :=
  Join ((λ k, labelPair k (default "" (m !! k))) <$> keys_of m) ",".

Definition writeKVLabelCounters (metric : string) (m : gmap string Z) : string :=
  concat_lines
    ((λ k, sampleLine metric (formatLabels (parseKVLabels k)) (default 0%Z (m !! k))) <$> keys_of m).

(** The loop over [backendsAlive]: 1 for alive, 0 for dead *)
Definition writeAlive (metric : string) (m : gmap string bool) : string :=
  concat_lines
    ((λ k, sampleLine metric (formatLabels (parseKVLabels k))
             (if default false (m !! k) then 1 else 0)%Z) <$> keys_of m).

Definition RenderPrometheusText (c : option Collector) : string :=
  match c with
  | None => ""
  | Some c =>
      concat_lines
        [writeCounter "zerosock_connections_total" (float_of_Z (connectionsTotal c));
         writeGauge "zerosock_connections_active" (float_of_Z (connectionsActive c));
         writeCounter "zerosock_handshake_latency_seconds_count" (float_of_Z (handshakeCount c));
         writeCounter "zerosock_handshake_latency_seconds_sum" (nsToSec (handshakeSumNs c));
         writeCounter "zerosock_backend_dial_latency_seconds_count" (float_of_Z (dialCount c));
         writeCounter "zerosock_backend_dial_latency_seconds_sum" (nsToSec (dialSumNs c));
         writeCounter "zerosock_session_duration_seconds_count" (float_of_Z (sessionCount c));
         writeCounter "zerosock_session_duration_seconds_sum" (nsToSec (sessionSumNs c));
         writeLabelCounters "zerosock_tcp_state_total" "state" (tcpState c);
         writeLabelCounters "zerosock_connection_errors_total" "stage" (connectionErrors c);
         writeLabelCounters "zerosock_requests_total" "atyp" (requestsTotal c);
         writeKVLabelCounters "zerosock_requests_backend_total" (requestsByBackend c);
         writeKVLabelCounters "zerosock_route_failures_total" (routeFailures c);
         writeKVLabelCounters "zerosock_backend_dial_failures_total" (backendDialFailed c);
         writeLabelCounters "zerosock_relay_bytes_total" "direction" (relayBytes c);
         writeKVLabelCounters "zerosock_healthchecks_total" (healthchecks c);
         writeAlive "zerosock_backend_alive" (backendsAlive c)]
  end.

End render.

(** ** Lemmas *)

(** A label value the key encoding can carry: graphic ASCII without a comma. *)
Definition label_safe (s : string) : bool :=
  forallb (λ b, between 33 126 (Byte.to_N b) && bool_decide (b ≠ Byte.x2c)) (s2b s).

Lemma label_safe_graphic s :
  label_safe s = true → forallb (λ b, between 33 126 (Byte.to_N b)) (s2b s) = true.
Proof.
  unfold label_safe. rewrite !forallb_forall. intros Hs b Hb.
  by destruct (andb_prop _ _ (Hs b Hb)).
Qed.

Lemma label_safe_comma s : label_safe s = true → Byte.x2c ∉ s2b s.
Proof.
  unfold label_safe. rewrite forallb_forall. intros Hs Hb%list_elem_of_In%Hs.
  done.
Qed.

(** A part [name=value] of a key, with a fixed name. *)
Lemma parsePart_pair out name v :
  forallb (λ b, between 33 126 (Byte.to_N b)) (s2b name) = true → Byte.x3d ∉ s2b name →
  label_safe v = true →
  parsePart out (s2b name ++ Byte.x3d :: s2b v) = <[name := v]> out.
Proof.
  intros Hn Heq Hv. unfold parsePart. rewrite trim_space_all_graphic.
  - rewrite cut_byte_app by done. by rewrite !b2s_s2b.
  - rewrite forallb_app, Hn. cbn [forallb]. by rewrite label_safe_graphic.
Qed.

Lemma part_comma name v :
  Byte.x2c ∉ s2b name → label_safe v = true → Byte.x2c ∉ s2b name ++ Byte.x3d :: s2b v.
Proof.
  intros Hn Hv. rewrite elem_of_app, elem_of_cons. intros [?|[?|Hc]]; [done|done|].
  by apply label_safe_comma in Hc.
Qed.

Lemma requestKey_bytes host backend result :
  s2b (requestKey host backend result) =
    (s2b "host" ++ Byte.x3d :: s2b host) ++ Byte.x2c ::
    (s2b "backend" ++ Byte.x3d :: s2b backend) ++ Byte.x2c ::
    (s2b "result" ++ Byte.x3d :: s2b result).
Proof.
  unfold requestKey. autorewrite with gostr. rewrite <-!app_assoc. reflexivity.
Qed.

Lemma parse_requestKey host backend result :
  label_safe host = true → label_safe backend = true → label_safe result = true →
  parseKVLabels (requestKey host backend result) =
    <["result" := result]> (<["backend" := backend]> (<["host" := host]> ∅)).
Proof.
  intros Hh Hb Hr. unfold parseKVLabels. rewrite requestKey_bytes.
  rewrite split_byte_app by (apply part_comma; [decided|done]).
  rewrite split_byte_app by (apply part_comma; [decided|done]).
  rewrite split_byte_none by (apply part_comma; [decided|done]).
  cbn [foldl]. by rewrite !parsePart_pair by first [done | decided].
Qed.

(** Newlines in a text *)
Definition newlines (s : string) : nat := count_occ Byte.byte_eq_dec (s2b s) Byte.x0a.

Lemma newlines_app s t : newlines (s +:+ t) = newlines s + newlines t.
Proof. unfold newlines. by rewrite s2b_app, count_occ_app. Qed.

Lemma newlines_visible s : forallb visible (s2b s) = true → newlines s = 0.
Proof.
  intros Hv. apply count_occ_not_In. intros Hin. rewrite forallb_forall in Hv.
  by apply Hv in Hin.
Qed.

Lemma newlines_itoa z : newlines (itoa z) = 0.
Proof.
  apply newlines_visible. pose proof (itoa_decimal z) as Hd. rewrite forallb_forall in Hd |- *.
  intros b Hb%Hd. revert Hb. byte_cases b.
Qed.

Section newline_lemmas.
Context `{UnicodeTables}.

Lemma newlines_Quote s : newlines (Quote s) = 0.
Proof. apply newlines_visible. unfold Quote. rewrite s2b_b2s. apply quote_visible. Qed.

Lemma newlines_sampleLine metric labels v :
  newlines metric = 0 → newlines labels = 0 → newlines (sampleLine metric labels v) = 1.
Proof.
  intros Hm Hl. unfold sampleLine. rewrite !newlines_app, Hm, Hl, newlines_itoa. reflexivity.
Qed.

Lemma newlines_concat_lines l :
  Forall (λ s, newlines s = 1) l → newlines (concat_lines l) = length l.
Proof.
  intros Hl. induction Hl as [|s l Hs Hl IH]; [done|].
  assert (concat_lines (s :: l) = s +:+ concat_lines l) as ->.
  { unfold concat_lines. cbn. destruct l; [|done]. cbn. by rewrite string_app_nil_r. }
  rewrite newlines_app, Hs, IH. done.
Qed.

Lemma length_keys_of {V} (m : gmap string V) : length (keys_of m) = size m.
Proof.
  unfold keys_of, sorted_keys. rewrite merge_sort_Permutation, length_fmap. apply length_map_to_list.
Qed.

(** ** Properties of the metrics *)

(** C40: the encoding of the three labels of a sample into one map key is undone exactly by the renderer when the values are graphic ASCII without commas: the rendered labels are the three values, quoted, sorted by name. *)
Theorem request_labels_roundtrip host backend result :
  label_safe host = true → label_safe backend = true → label_safe result = true →
  formatLabels (parseKVLabels (requestKey host backend result)) =
    labelPair "backend" backend +:+ "," +:+ labelPair "host" host +:+ "," +:+
    labelPair "result" result.
Proof.
  intros Hh Hb Hr. rewrite parse_requestKey by done. unfold formatLabels.
  assert (keys_of (<["result" := result]> (<["backend" := backend]> (<["host" := host]> ∅)) : gmap string string)
    = ["backend"; "host"; "result"]) as -> by (vm_compute; reflexivity).
  cbn [fmap list_fmap Join]. rewrite lookup_insert_eq.
  rewrite (lookup_insert_ne _ "result" "backend") by done. rewrite lookup_insert_eq.
  rewrite (lookup_insert_ne _ "result" "host") by done.
  rewrite (lookup_insert_ne _ "backend" "host") by done. by rewrite lookup_insert_eq.
Qed.

(** A family with one fixed label name is rendered as one line per series whatever bytes the label values contain: quoting lets no newline or other control byte through. *)
Theorem writeLabelCounters_lines metric label (m : gmap string Z) :
  newlines metric = 0 → newlines label = 0 →
  newlines (writeLabelCounters metric label m) = size m.
Proof.
  intros Hm Hl. unfold writeLabelCounters. rewrite newlines_concat_lines.
  - by rewrite length_fmap, length_keys_of.
  - apply Forall_fmap, Forall_true. intros k. apply newlines_sampleLine; [done|].
    unfold labelPair. rewrite !newlines_app, newlines_Quote, Hl. reflexivity.
Qed.

(** A host name a client may put in a request, 28 bytes. *)
Definition hostile_host : string :=
  "a,x" +:+ newline +:+ "forged_total 7" +:+ newline +:+ "y=c".

(** The families that pack several labels into one key do not have that protection: label names are taken from the key and written unquoted, so a failed request for a host name containing a comma and newlines inserts a line of the client's choice into the exposition. *)
Theorem metrics_line_injection :
  Contains (RenderPrometheusText (IncRouteFailure (Some NewCollector) hostile_host "route_not_found"))
    (newline +:+ "forged_total 7" +:+ newline) = true.
Proof. by vm_compute. Qed.

(** Two different hosts can render to the same series: after one failed request for each, the exposition holds the same sample line twice. *)
Theorem metrics_duplicate_series :
  let c := IncRouteFailure (IncRouteFailure (Some NewCollector) "h,a" "timeout") "h,b" "timeout" in
  let line := sampleLine "zerosock_route_failures_total"
                (labelPair "host" "h" +:+ "," +:+ labelPair "reason" "timeout") 1 in
  Contains (RenderPrometheusText c) (line +:+ line) = true.
Proof. by vm_compute. Qed.

End newline_lemmas.

(** ** Witnesses *)

#[local] Existing Instance ascii_tables.

Lemma request_labels_roundtrip_witness :
  formatLabels (parseKVLabels (requestKey "api.internal" "10.0.0.1:443" "success")) =
    labelPair "backend" "10.0.0.1:443" +:+ "," +:+ labelPair "host" "api.internal" +:+ "," +:+
    labelPair "result" "success".
Proof. apply request_labels_roundtrip; reflexivity. Defined.

Lemma writeLabelCounters_lines_witness :
  newlines (writeLabelCounters "zerosock_tcp_state_total" "state"
    {[ "syn" := 2%Z; hostile_host := 1%Z ]}) = 2.
Proof. exact (writeLabelCounters_lines "zerosock_tcp_state_total" "state" {[ "syn" := 2%Z; hostile_host := 1%Z ]} eq_refl eq_refl). Defined.
