(* ===== verification/Exporter.v ===== *)
(** * The metrics endpoint: [src/internal/metrics/exporter.go]

    [StartHTTP]: the handler of the [/metrics] path, the goroutine that listens
    and reports how it ended on a channel of capacity one, and the goroutine
    that shuts the server down once the context is done.  [net/http] decides
    how [ListenAndServe] returns; what is used of it is its documentation: it
    returns an error always, and [ErrServerClosed] only after [Shutdown]. *)
From S2P Require Import Prelude GoStrings GoFloat Metrics.

(** ** The handler *)

Record response := mkResponse { rs_header : list (string * string); rs_body : string }.

Definition serve_metrics `{UnicodeTables} (c : option Collector) : response :=
  mkResponse [("Content-Type", "text/plain; version=0.0.4; charset=utf-8")] (RenderPrometheusText c).

(** ** The two goroutines *)

(** Where the listening goroutine is. *)
Inductive stage :=
  | Starting
  | Serving
  | Sending (e : goerror)
  | Closing
  | Finished.

(** [errCh] is the buffer of the channel; [shut] is set by [server.Shutdown]. *)
Record exporter := mkExporter {
  pc : stage;
  errCh : list goerror;
  closed : bool;
  shut : bool;
}.

Definition errCh_capacity : nat := 1.

(** [StartHTTP], whose goroutines have not run yet. *)
Definition StartHTTP : exporter := mkExporter Starting [] false false.

Definition goto (x : exporter) (s : stage) : exporter := mkExporter s (errCh x) (closed x) (shut x).

(** [if err != nil && !errors.Is(err, http.ErrServerClosed)] *)
Definition listen_ended (err : option goerror) : stage :=
  match err with
  | None => Closing
  | Some e =>
      if errors_Is e SServerClosed then Closing else Sending (wrap_err "metrics listen failed" e)
  end.

(** One step of either goroutine, with the line it logs; [done] says whether the
    context is done. *)
Inductive exporter_step (done : bool) : exporter → list string → exporter → Prop :=
  | ex_listen x addr :
      pc x = Starting →
      exporter_step done x ["metrics: listening on " +:+ addr] (goto x Serving)
  | ex_ended x e :
      pc x = Serving → (errors_Is e SServerClosed = true → shut x = true) →
      exporter_step done x [] (goto x (listen_ended (Some e)))
  | ex_send x e :
      pc x = Sending e → (length (errCh x) < errCh_capacity)%nat →
      exporter_step done x [] (mkExporter Closing (errCh x ++ [e]) (closed x) (shut x))
  | ex_close x :
      pc x = Closing → exporter_step done x [] (mkExporter Finished (errCh x) true (shut x))
  | ex_shutdown x :
      done = true → exporter_step done x [] (mkExporter (pc x) (errCh x) (closed x) true).

(** [<-metricsErrCh]: what a receive yields, if it does not block. *)
Definition receive (x : exporter) : option (option goerror * exporter) :=
  match errCh x with
  | e :: rest => Some (Some e, mkExporter (pc x) rest (closed x) (shut x))
  | [] => if closed x then Some (None, x) else None
  end.

(** The context, the exporter, and the values its reader has got. *)
Record endpoint := mkEndpoint { done : bool; exp : exporter; received : list (option goerror) }.

Inductive endpoint_step : endpoint → endpoint → Prop :=
  | ep_done x got : endpoint_step (mkEndpoint false x got) (mkEndpoint true x got)
  | ep_step b x l x' got :
      exporter_step b x l x' → endpoint_step (mkEndpoint b x got) (mkEndpoint b x' got)
  | ep_receive b x v x' got :
      receive x = Some (v, x') → endpoint_step (mkEndpoint b x got) (mkEndpoint b x' (got ++ [v])).

(** ** The invariant *)

(** What the channel still holds together with what has been received: the
    error of the listener, if it is one to report. *)
Definition delivered (x : exporter) (got : list (option goerror)) : list (option goerror) :=
  got ++ (Some <$> errCh x).

(** How far the goroutine is determines what went over the channel: nothing
    until the listener has ended; then nothing if the server was shut down, or
    one error; and nils once the channel is closed. *)
Definition exporter_ok (b : bool) (x : exporter) (got : list (option goerror)) : Prop :=
  (shut x = true → b = true) ∧ (closed x = true ↔ pc x = Finished) ∧
  match pc x with
  | Starting | Serving | Sending _ => delivered x got = []
  | Closing => delivered x got = [] ∧ shut x = true ∨ ∃ e, delivered x got = [Some e]
  | Finished =>
      ∃ n, errCh x = [] ∧ got = replicate n None ∧ shut x = true ∨
           ∃ e, delivered x got = Some e :: replicate n None
  end.

Lemma receive_cases x v x' :
  receive x = Some (v, x') →
  pc x' = pc x ∧ closed x' = closed x ∧ shut x' = shut x ∧
  (∃ e, v = Some e ∧ errCh x = e :: errCh x' ∨
        v = None ∧ closed x = true ∧ errCh x = [] ∧ errCh x' = []).
Proof.
  unfold receive. destruct (errCh x) as [|e rest] eqn:E.
  - destruct (closed x) eqn:Ec; [|done]. intros [= <- <-]. split_and!; try done. exists (ErrMsg ""). by right.
  - intros [= <- <-]. split_and!; try done. exists e. by left.
Qed.

Lemma receive_delivered x v x' got :
  receive x = Some (v, x') →
  delivered x' (got ++ [v]) = delivered x got ∨
  v = None ∧ closed x = true ∧ errCh x = [] ∧ delivered x' (got ++ [v]) = delivered x got ++ [None].
Proof.
  intros (_ & _ & _ & e & [[-> E]|(-> & Hc & E & E')])%receive_cases; unfold delivered.
  - left. by rewrite E, <-app_assoc.
  - right. rewrite E, E'. cbn. by rewrite !app_nil_r.
Qed.

Lemma endpoint_step_ok s s' :
  endpoint_step s s' →
  exporter_ok (done s) (exp s) (received s) → exporter_ok (done s') (exp s') (received s').
Proof.
  intros [x got|b x l x' got Hx|b x v x' got Hv]; cbn [done exp received]; intros (Hs & Hc & Hp);
    unfold exporter_ok.
  - split; [done|]. by split.
  - destruct Hx as [x addr E|x e E He|x e E Hcap|x E|x Hb]; cbn [pc errCh closed shut goto];
      rewrite ?E in Hp.
    + split; [done|]. split; [by rewrite Hc, E|done].
    + split; [done|]. split.
      * rewrite Hc, E. split; [done|]. unfold listen_ended. by destruct (errors_Is _ _).
      * unfold listen_ended. destruct (errors_Is e _) eqn:Ee; cbn; [left; split; [done|by apply He]|done].
    + split; [done|]. split; [by rewrite Hc, E|]. right. exists e.
      revert Hp. unfold delivered. cbn [errCh]. intros [-> Hn]%app_nil. by destruct (errCh x).
    + split; [done|]. split; [done|].
      destruct Hp as [[Hn Hsh]|[e He]]; [exists 0; left|exists 0; right; by exists e].
      revert Hn. unfold delivered. intros [-> Hn]%app_nil. by destruct (errCh x).
    + split_and!; [done|done|]. destruct (pc x); try done.
      * destruct Hp as [[? ?]|?]; [by left|by right].
      * destruct Hp as (n & [(? & ? & ?)|?]); exists n; [by left|by right].
  - pose proof (receive_cases _ _ _ Hv) as (Ep & Ec & Es & e & Hcase).
    pose proof (receive_delivered _ _ _ got Hv) as Hd.
    split; [by rewrite Es|]. split; [by rewrite Ec, Ep|]. rewrite Ep, Es.
    assert (pc x ≠ Finished → delivered x' (got ++ [v]) = delivered x got) as Hsame.
    { intros Hne. destruct Hd as [?|(_ & Hcl & _)]; [done|]. by apply Hc in Hcl. }
    destruct (pc x) eqn:E; try (by rewrite Hsame).
    destruct Hp as (n & [(E1 & -> & Hsh)|[e0 He0]]).
    + destruct Hcase as [[_ E2]|(-> & _ & _ & E2)]; [by rewrite E1 in E2|].
      exists (S n). left. split_and!; [done| |done]. by rewrite replicate_S_end.
    + destruct Hd as [Hd|(_ & _ & _ & Hd)].
      * exists n. right. exists e0. by rewrite Hd.
      * exists (S n). right. exists e0. rewrite Hd, He0. by rewrite replicate_S_end.
Qed.

(** ** Properties of the exporter *)

(** What a reader of the channel sees: at most one error, then nils. *)
Inductive reads : list (option goerror) → Prop :=
  | reads_nils n : reads (replicate n None)
  | reads_error e n : reads (Some e :: replicate n None).

Lemma endpoint_reach_ok s :
  rtc endpoint_step (mkEndpoint false StartHTTP []) s → exporter_ok (done s) (exp s) (received s).
Proof.
  intros Hr. apply (rtc_preserve _ (λ s, exporter_ok (done s) (exp s) (received s)) _ _ endpoint_step_ok Hr).
  split; [done|]. by split.
Qed.

(** C21: the channel that [StartHTTP] returns: whatever the listener, the context and the reader do, sending the listener's error never blocks, at most one error goes over the channel and it comes before every nil, a nil is only read once the context is done or the error has been read, and once the goroutine has finished a read never blocks. *)
Theorem errCh_protocol s :
  rtc endpoint_step (mkEndpoint false StartHTTP []) s →
  (∀ e, pc (exp s) = Sending e → (length (errCh (exp s)) < errCh_capacity)%nat) ∧
  reads (received s) ∧
  (head (received s) = Some None → done s = true) ∧
  (pc (exp s) = Finished → is_Some (receive (exp s))) ∧
  (pc (exp s) ≠ Finished → ∃ x l, exporter_step (done s) (exp s) l x).
Proof.
  intros Hr. pose proof (endpoint_reach_ok s Hr) as (Hs & Hc & Hp). destruct s as [b x got]. cbn in *.
  split_and!.
  - intros e E. rewrite E in Hp. apply app_nil in Hp as [_ Hn]. destruct (errCh x); [unfold errCh_capacity; cbn; lia|done].
  - destruct (pc x).
    1-3: apply app_nil in Hp as [-> _]; exact (reads_nils 0).
    + destruct Hp as [[[-> _]%app_nil _]|[e He]]; [exact (reads_nils 0)|].
      destruct got as [|v got]; [exact (reads_nils 0)|]. injection He as -> [-> _]%app_nil. exact (reads_error e 0).
    + destruct Hp as (n & [(_ & -> & _)|[e He]]); [apply reads_nils|].
      destruct got as [|v got]; [exact (reads_nils 0)|]. injection He as -> He.
      destruct (errCh x) as [|e' l] eqn:E; [rewrite app_nil_r in He; subst; apply reads_error|].
      exfalso. assert (Some e' ∈ replicate n None) as Hin by (rewrite <-He; apply elem_of_app; right; apply elem_of_cons; by left).
      by apply elem_of_replicate in Hin as [? _].
  - intros Hh. destruct got as [|v got]; [done|]. injection Hh as ->. destruct (pc x).
    1-3: done.
    + destruct Hp as [[? _]|[e ?]]; done.
    + destruct Hp as (n & [(_ & _ & Hsh)|[e ?]]); [by apply Hs|done].
  - intros E. apply Hc in E. unfold receive. destruct (errCh x); [rewrite E|]; eauto.
  - intros Hne. destruct (pc x) as [| |e| |] eqn:E.
    + exists (goto x Serving), ["metrics: listening on " +:+ ""]. by constructor.
    + exists (goto x (listen_ended (Some (ErrMsg "accept")))), []. by constructor.
    + exists (mkExporter Closing (errCh x ++ [e]) (closed x) (shut x)), []. constructor; [done|].
      apply app_nil in Hp as [_ Hn]. destruct (errCh x); [unfold errCh_capacity; cbn; lia|done].
    + exists (mkExporter Finished (errCh x) true (shut x)), []. by constructor.
    + done.
Qed.

(** ** Witnesses *)

(** The address was in use: the error is read, then nil. *)
Definition failed_endpoint : endpoint :=
  mkEndpoint false (mkExporter Finished [] true false)
    [Some (wrap_err "metrics listen failed" (ErrMsg "address already in use")); None].

Lemma failed_endpoint_reach : rtc endpoint_step (mkEndpoint false StartHTTP []) failed_endpoint.
Proof.
  eapply rtc_l; [eapply ep_step, (ex_listen _ _ "127.0.0.1:9090"); reflexivity|].
  eapply rtc_l; [eapply ep_step, (ex_ended _ _ (ErrMsg "address already in use")); [reflexivity|done]|].
  eapply rtc_l; [eapply ep_step, ex_send; [reflexivity|unfold errCh_capacity; cbn; lia]|].
  eapply rtc_l; [eapply ep_step, ex_close; reflexivity|].
  eapply rtc_l; [eapply ep_receive; reflexivity|].
  eapply rtc_l; [eapply ep_receive; reflexivity|]. apply rtc_refl.
Qed.

Lemma errCh_protocol_witness :
  reads (received failed_endpoint) ∧ is_Some (receive (exp failed_endpoint)).
Proof.
  destruct (errCh_protocol failed_endpoint failed_endpoint_reach) as (_ & Hr & _ & Hf & _).
  split; [exact Hr|apply Hf; reflexivity].
Defined.
