(* ===== verification/Health.v ===== *)
(** * The health checker: [src/internal/health/checker.go]

    One worker per backend address of every group; a probe writes its outcome
    into the router and the metrics for every host that uses the group.  The
    outcome of a connection attempt or an HTTP GET comes from the network and
    is an argument; the events a worker sees (ticks with their probe outcome,
    cancellation) are an explicit sequence. *)
From S2P Require Import Prelude GoStrings Config Metrics.
From S2P Require Router.

(** ** State *)

Record Checker := mkChecker {
  ck_groups : list BackendGroupConfig;
  groupToHosts : gmap string (list string);
}.

(** What the workers share with the rest of the program. *)
Record shared := mkShared {
  s_router : Router.Router;
  s_metrics : option Collector;
  s_log : list string;
}.

Inductive worker :=
  | L4Worker (group : BackendGroupConfig) (address : string) (hosts : list string)
  | L7Worker (group : BackendGroupConfig) (address : string) (hosts : list string).

Definition w_group (w : worker) : BackendGroupConfig :=
  match w with L4Worker g _ _ => g | L7Worker g _ _ => g end.
Definition w_address (w : worker) : string :=
  match w with L4Worker _ a _ => a | L7Worker _ a _ => a end.
Definition w_hosts (w : worker) : list string :=
  match w with L4Worker _ _ h => h | L7Worker _ _ h => h end.

(** [url := "http://" + address + group.Path] *)
Definition w_url (w : worker) : string := "http://" +:+ w_address w +:+ g_Path (w_group w).

(** [New], ranging over [hostToGroup] in the order [ord] *)
Definition New (groups : list BackendGroupConfig) (ord : list (string * string)) : Checker :=
  mkChecker groups
    (foldl (λ m e, <[e.2 := default [] (m !! e.2) ++ [e.1]]> m) ∅ ord).

(** The goroutines [Start] launches. *)
Definition Start (c : Checker) : list worker :=
  ck_groups c ≫= λ group,
    let hosts := default [] (groupToHosts c !! g_Name group) in
    (λ addr, if bool_decide (g_Path group = "") then L4Worker group addr hosts
             else L7Worker group addr hosts) <$> g_Addresses group.

(** What the network answered to a probe. *)
Inductive answer :=
  | Dialed (res : goerror + unit)
  | Got (res : goerror + Z).

Definition probeL4 (res : goerror + unit) : bool :=
  match res with inl _ => false | inr _ => true end.

Definition probeL7 (res : goerror + Z) : bool :=
  match res with inl _ => false | inr status => (status =? 200)%Z end.

Section checker.
Context `{UnicodeTables}.

Definition log_suffix (w : worker) : string :=
  match w with
  | L4Worker _ _ _ => ""
  | L7Worker g _ _ => " (L7 " +:+ g_Path g +:+ ")"
  end.

(** The body of the loop over the hosts in [probe]. *)
Definition probe_host (w : worker) (alive : bool) (s : shared) (host : string) : shared :=
  let m := ObserveHealthcheck (s_metrics s) host (w_address w) alive in
  match Router.SetBackendAlive (s_router s) host (w_address w) alive with
  | (r, Ok changed) =>
      mkShared r m
        (if changed
         then s_log s ++ ["health: backend " +:+ (if alive then "alive" else "dead") +:+ " host="
                          +:+ host +:+ " backend=" +:+ w_address w +:+ log_suffix w]
         else s_log s)
  | (r, Err e) =>
      mkShared r m
        (s_log s ++ ["health: failed to update backend state host=" +:+ host +:+ " backend="
                     +:+ w_address w +:+ " err=" +:+ err_text e])
  | (r, Panic _) => mkShared r m (s_log s)
  end.

Definition probe (w : worker) (a : answer) (s : shared) : shared :=
  let alive := match a with Dialed r => probeL4 r | Got r => probeL7 r end in
  foldl (probe_host w alive) s (w_hosts w).

Inductive worker_event :=
  | Tick (a : answer)
  | Cancelled.

Fixpoint worker_loop (w : worker) (evs : list worker_event) (s : shared) : shared :=
  match evs with
  | Tick a :: evs => worker_loop w evs (probe w a s)
  | Cancelled :: _ => s
  | [] => s
  end.

(** [time.NewTicker(group.Interval)] panics on an interval that is not
    positive. *)
Definition NewTicker (w : worker) : result unit :=
  if (g_Interval (w_group w) <=? 0)%Z then Panic "non-positive interval for NewTicker" else Ok tt.

(** [runL4Worker] and [runL7Worker]: the ticker, then one probe at once and one
    per tick. *)
Definition runWorker (w : worker) (first : answer) (evs : list worker_event) (s : shared)
    : result shared :=
  let! _ := NewTicker w in
  Ok (worker_loop w evs (probe w first s)).

End checker.

(** ** Lemmas *)

Section checker_lemmas.
Context `{UnicodeTables}.

Definition is_alive_answer (a : answer) : bool :=
  match a with Dialed r => probeL4 r | Got r => probeL7 r end.

Lemma probe_host_router w alive s host :
  s_router (probe_host w alive s host) =
    (Router.SetBackendAlive (s_router s) host (w_address w) alive).1.
Proof. unfold probe_host. by destruct (Router.SetBackendAlive _ _ _ _) as [r [[]|e|]]. Qed.

Lemma probe_host_metrics w alive s host :
  s_metrics (probe_host w alive s host) =
    ObserveHealthcheck (s_metrics s) host (w_address w) alive.
Proof. unfold probe_host. by destruct (Router.SetBackendAlive _ _ _ _) as [r [[]|e|]]. Qed.

(** The gauge of the last observation for a host and backend. *)
Definition gauge (m : option Collector) (host addr : string) : option bool :=
  c ← m; backendsAlive c !! aliveKeyOf host addr.

Lemma gauge_observe c host addr alive host' addr' :
  gauge (ObserveHealthcheck (Some c) host addr alive) host' addr' =
    if decide (aliveKeyOf host addr = aliveKeyOf host' addr') then Some alive
    else gauge (Some c) host' addr'.
Proof. unfold gauge, ObserveHealthcheck. cbn -[aliveKeyOf]. by rewrite lookup_insert. Qed.

(** Probing the hosts of a list one after the other. *)
Lemma probe_hosts w alive c s hosts :
  s_metrics s = Some c →
  let s' := foldl (probe_host w alive) s hosts in
  is_Some (s_metrics s') ∧
  (∀ host, host ∈ hosts → gauge (s_metrics s') host (w_address w) = Some alive) ∧
  (∀ host addr, Router.alive_flag (s_router s') host addr =
     if decide (Router.normalizeHost host ∈ (Router.normalizeHost <$> hosts) ∧ addr = w_address w)
     then (λ _, if alive then 1 else 0)%Z <$> Router.alive_flag (s_router s) host addr
     else Router.alive_flag (s_router s) host addr).
Proof.
  intros Hm. cbn zeta. induction hosts as [|h hosts IH] using rev_ind; cbn [foldl].
  { split_and!; [by rewrite Hm|by intros ? []%not_elem_of_nil|].
    intros host addr. rewrite decide_False; [done|]. by intros [[]%not_elem_of_nil _]. }
  rewrite foldl_app. cbn [foldl]. destruct IH as ([c' Hc'] & Hg & Hf).
  rewrite probe_host_metrics, probe_host_router. rewrite Hc' in Hg |- *.
  split_and!; [by cbn; eauto| |].
  - intros host Hin. rewrite gauge_observe. case_decide as Hk; [done|].
    apply elem_of_app in Hin as [Hin|[->|[]%not_elem_of_nil]%elem_of_cons]; [by apply Hg|done].
  - intros host addr. rewrite Router.SetBackendAlive_flag, Hf, fmap_app.
    assert (Router.normalizeHost host ∈
        (Router.normalizeHost <$> hosts) ++ (Router.normalizeHost <$> [h]) ↔
      Router.normalizeHost host ∈ (Router.normalizeHost <$> hosts) ∨
      Router.normalizeHost h = Router.normalizeHost host) as Hin.
    { rewrite elem_of_app. cbn [fmap list_fmap]. rewrite list_elem_of_singleton. split; intuition. }
    assert (w_address w = addr ↔ addr = w_address w) as Hsym by (split; congruence).
    destruct (Router.alive_flag (s_router s) host addr); repeat case_decide; cbn; tauto.
Qed.

Lemma New_hosts groups ord g h :
  h ∈ default [] (groupToHosts (New groups ord) !! g) ↔ (h, g) ∈ ord.
Proof.
  unfold New. cbn. induction ord as [|[h0 g0] ord IH] using rev_ind; cbn.
  - rewrite lookup_empty. cbn. split; by intros []%not_elem_of_nil.
  - rewrite foldl_app. cbn. rewrite elem_of_app, list_elem_of_singleton, <-IH.
    destruct (decide (g = g0)) as [->|Hne].
    + rewrite lookup_insert_eq. cbn. rewrite elem_of_app, list_elem_of_singleton.
      split; (intros [?|E]; [by left|right; congruence]).
    + rewrite lookup_insert_ne by done. split; [by left|]. intros [?|E]; [done|congruence].
Qed.

Lemma Start_worker c w :
  w ∈ Start c ↔ ∃ g, g ∈ ck_groups c ∧ w_address w ∈ g_Addresses g ∧ w_group w = g ∧
    w_hosts w = default [] (groupToHosts c !! g_Name g) ∧
    (if bool_decide (g_Path g = "") then w = L4Worker g (w_address w) (w_hosts w)
     else w = L7Worker g (w_address w) (w_hosts w)).
Proof.
  unfold Start. rewrite list_elem_of_bind. split.
  - intros (g & Hw & Hg). exists g. apply list_elem_of_fmap in Hw as (a & -> & Ha).
    by case_bool_decide.
  - intros (g & Hg & Ha & _ & Hh & Hw). exists g. split; [|done].
    apply list_elem_of_fmap. exists (w_address w). split; [|done].
    rewrite <-Hh. by case_bool_decide.
Qed.

End checker_lemmas.

(** ** Properties of the health checker *)

Section checker_properties.
Context `{UnicodeTables}.

(** C34: a probe brings the router and the metrics in line with what the network answered: for every host of the worker the alive gauge shows the outcome, the flag of the worker's backend is set to it wherever that backend exists, and no flag of another backend or another host changes. *)
Theorem probe_updates w a c s :
  s_metrics s = Some c →
  let s' := probe w a s in
  let alive := is_alive_answer a in
  (∀ host, host ∈ w_hosts w →
     gauge (s_metrics s') host (w_address w) = Some alive ∧
     Router.alive_flag (s_router s') host (w_address w) =
       (λ _, if alive then 1 else 0)%Z <$> Router.alive_flag (s_router s) host (w_address w)) ∧
  (∀ host addr,
     Router.normalizeHost host ∉ (Router.normalizeHost <$> w_hosts w) ∨ addr ≠ w_address w →
     Router.alive_flag (s_router s') host addr = Router.alive_flag (s_router s) host addr).
Proof.
  intros Hm. cbn zeta. unfold probe.
  destruct (probe_hosts w (is_alive_answer a) c s (w_hosts w) Hm) as (_ & Hg & Hf).
  unfold is_alive_answer in *. split.
  - intros host Hin. split; [by apply Hg|]. rewrite Hf, decide_True; [done|].
    split; [by apply list_elem_of_fmap_2|done].
  - intros host addr Hd. rewrite Hf, decide_False; [done|]. tauto.
Qed.

(** C25: end to end from a validated configuration: when group names carry no surrounding space and the routed hosts have distinct normal forms, every worker the checker starts finds its backend in the router for each of its hosts, so no health result is lost, and every routed address is probed by some worker for its host. *)
Theorem health_covers_router dns ordB ordR ordN ordH cfg rc r :
  dns_stable dns →
  range_order (Backends cfg) ordB → range_order (Routes cfg) ordR →
  range_order (rc_Routes rc) ordN → range_order (rc_HostToGroup rc) ordH →
  (∀ name, name ∈ dom (Backends cfg) → TrimSpace name = name) →
  Router.distinct_keys (rc_Routes rc) →
  normalizeAndValidate dns ordB ordR cfg = Ok rc →
  Router.New (rc_Routes rc) ordN = Ok r →
  (∀ w host, w ∈ Start (New (rc_BackendGroups rc) ordH) → host ∈ w_hosts w →
     is_Some (Router.alive_flag r host (w_address w))) ∧
  (∀ host addrs addr, rc_Routes rc !! host = Some addrs → addr ∈ addrs →
     ∃ w, w ∈ Start (New (rc_BackendGroups rc) ordH) ∧ w_address w = addr ∧ host ∈ w_hosts w).
Proof.
  intros Hst HB HR HN HH Htrim Hdist Hv Hnew.
  assert (∀ host addrs addr, rc_Routes rc !! host = Some addrs → addr ∈ addrs →
    is_Some (Router.alive_flag r host addr)) as Hflag.
  { intros host addrs addr Hh Ha. rewrite (Router.fresh_flag _ _ addrs); [eauto| |done].
    apply (Router.New_pools _ _ _ _ _ HN Hdist Hnew). eauto. }
  split.
  - intros w host (g & Hg & Ha & <- & Hhs & _)%Start_worker Hin. cbn in Hg.
    rewrite Hhs in Hin. apply New_hosts, (range_order_elem _ _ _ _ HH) in Hin.
    apply (Hflag _ (g_Addresses (w_group w))); [|done].
    by eapply (group_route dns ordB ordR cfg).
  - intros host addrs addr Hh Ha.
    destruct (route_group dns ordB ordR cfg rc host addrs) as (g & Hg & Hhg & <-); try done.
    set (hosts := default [] (groupToHosts (New (rc_BackendGroups rc) ordH) !! g_Name g)).
    exists (if bool_decide (g_Path g = "") then L4Worker g addr hosts else L7Worker g addr hosts).
    split; [|split].
    + apply Start_worker. exists g. by case_bool_decide.
    + by case_bool_decide.
    + assert (host ∈ hosts); [|by case_bool_decide].
      by apply New_hosts, (range_order_elem _ _ _ _ HH).
Qed.

(** The bound on the millisecond settings below which no product wraps. *)
Definition ms_ok (ms : Z) : Prop := (ms ≤ 9223372036854)%Z.

Lemma NewTicker_ok dns ordB ordR ordH cfg rc w :
  range_order (Backends cfg) ordB →
  normalizeAndValidate dns ordB ordR cfg = Ok rc →
  ms_ok (IntervalMS (Default_Healthcheck cfg)) →
  (∀ name group, Backends cfg !! name = Some group → ms_ok (IntervalMS (Healthcheck group))) →
  w ∈ Start (New (rc_BackendGroups rc) ordH) → NewTicker w = Ok tt.
Proof.
  intros HB Hv Hd Hg (g & Hin & _ & <- & _)%Start_worker. cbn in Hin.
  destruct (normalizeAndValidate_interval _ _ _ _ _ _ Hv Hin) as (name & group & Hng & HI).
  apply (range_order_elem _ _ _ _ HB), Hg in Hng. unfold ms_ok in *.
  assert (∀ ms d, (ms ≤ 9223372036854)%Z → (0 < d)%Z → (0 < durationFromMS ms d)%Z) as Hpos.
  { intros ms d Hms Hd0. destruct (Z.le_gt_cases ms 0).
    - unfold durationFromMS. by rewrite (proj2 (Z.leb_le ms 0)).
    - rewrite durationFromMS_exact by lia. unfold Millisecond. lia. }
  unfold NewTicker. rewrite (proj2 (Z.leb_gt _ _)); [done|].
  rewrite HI. apply Hpos; [done|]. by apply Hpos.
Qed.

(** C39: no worker of a validated configuration panics, provided the interval settings are at most 9223372036854 ms: its ticker interval is positive whatever mixture of group, global and default settings applies. *)
Theorem workers_do_not_panic dns ordB ordR ordH cfg rc w first evs s :
  range_order (Backends cfg) ordB →
  normalizeAndValidate dns ordB ordR cfg = Ok rc →
  ms_ok (IntervalMS (Default_Healthcheck cfg)) →
  (∀ name group, Backends cfg !! name = Some group → ms_ok (IntervalMS (Healthcheck group))) →
  w ∈ Start (New (rc_BackendGroups rc) ordH) →
  ∃ s', runWorker w first evs s = Ok s'.
Proof.
  intros HB Hv Hd Hg Hw. unfold runWorker.
  rewrite (NewTicker_ok dns ordB ordR ordH cfg rc w HB Hv Hd Hg Hw). cbn [rbind]. eauto.
Qed.

(** A configuration whose one group asks to be probed every 2^58 ms. *)
Definition slow_config : Config :=
  mkConfig "127.0.0.1:1080" 0 0 (Some false) "" (mkHealthcheck 0 0 "") 0 0 0 0 0 0 None
    {[ "g" := mkBackendGroup ["10.0.0.1:80"] (mkHealthcheck (2 ^ 58) (2 ^ 58) "") ]}
    {[ "h" := "g" ]}.

Definition slow_rc : RuntimeConfig :=
  match normalizeAndValidate fixed_dns (map_to_list (Backends slow_config))
          (map_to_list (Routes slow_config)) slow_config with
  | Ok rc => rc
  | _ => mkRuntime "" false "" false 0 0 0 0 0 0 0 0 ∅ [] ∅
  end.

Lemma slow_rc_Ok :
  normalizeAndValidate fixed_dns (map_to_list (Backends slow_config))
    (map_to_list (Routes slow_config)) slow_config = Ok slow_rc.
Proof. vm_compute. reflexivity. Qed.

(** The bound is needed: the configuration with an interval and timeout of 2^58 ms passes validation, but the multiplication to nanoseconds wraps to zero and the worker it starts panics in [time.NewTicker]. *)
Theorem zero_interval_panics :
  ∃ rc w,
    normalizeAndValidate fixed_dns (map_to_list (Backends slow_config))
      (map_to_list (Routes slow_config)) slow_config = Ok rc ∧
    Start (New (rc_BackendGroups rc) (map_to_list (rc_HostToGroup rc))) = [w] ∧
    w_hosts w = ["h"] ∧
    ∀ first evs s, runWorker w first evs s = Panic "non-positive interval for NewTicker".
Proof.
  exists slow_rc, (L4Worker (mkGroup "g" ["10.0.0.1:80"] 0 0 "") "10.0.0.1:80" ["h"]).
  split; [exact slow_rc_Ok|]. split; [vm_compute; reflexivity|]. by split.
Qed.

End checker_properties.

(** ** Witnesses *)

#[local] Existing Instance ascii_tables.

Definition sample_router : Router.Router :=
  match Router.New (rc_Routes sample_rc) (map_to_list (rc_Routes sample_rc)) with
  | Ok r => r
  | _ => Router.mkRouter ∅ ∅
  end.

Definition sample_worker : worker :=
  L7Worker (mkGroup "api-pool" ["10.0.0.1:80"] (5 * Second) (2 * Second) "/healthz")
    "10.0.0.1:80" ["api.internal"].

Lemma sample_worker_started :
  Start (New (rc_BackendGroups sample_rc) (map_to_list (rc_HostToGroup sample_rc))) = [sample_worker].
Proof. vm_compute. reflexivity. Defined.

Lemma probe_updates_witness :
  gauge (s_metrics (probe sample_worker (Got (inr 500%Z)) (mkShared sample_router (Some NewCollector) [])))
    "api.internal" "10.0.0.1:80" = Some false.
Proof.
  apply (probe_updates sample_worker (Got (inr 500%Z)) NewCollector
    (mkShared sample_router (Some NewCollector) []) eq_refl).
  apply list_elem_of_singleton. reflexivity.
Defined.

Lemma health_covers_router_witness :
  is_Some (Router.alive_flag sample_router "api.internal" "10.0.0.1:80").
Proof.
  refine (proj1 (health_covers_router fixed_dns (map_to_list (Backends sample_config))
    (map_to_list (Routes sample_config)) (map_to_list (rc_Routes sample_rc))
    (map_to_list (rc_HostToGroup sample_rc)) sample_config sample_rc sample_router
    _ (range_order_self _) (range_order_self _) (range_order_self _) (range_order_self _)
    _ _ _ _) sample_worker "api.internal" _ _).
  - intros n m x. reflexivity.
  - intros name Hn. assert (name = "api-pool") as ->; [|reflexivity].
    revert Hn. unfold sample_config. cbn [Backends]. set_solver.
  - intros h1 h2 H1 H2 _.
    assert (rc_Routes sample_rc = {[ "api.internal" := ["10.0.0.1:80"] ]}) as E by decided.
    rewrite E, dom_singleton_L, elem_of_singleton in H1, H2. congruence.
  - vm_compute. reflexivity.
  - vm_compute. reflexivity.
  - rewrite sample_worker_started. apply list_elem_of_singleton. reflexivity.
  - apply list_elem_of_singleton. reflexivity.
Defined.

Lemma workers_do_not_panic_witness :
  ∃ s', runWorker sample_worker (Got (inr 200%Z)) [Cancelled]
    (mkShared sample_router (Some NewCollector) []) = Ok s'.
Proof.
  apply (workers_do_not_panic fixed_dns (map_to_list (Backends sample_config))
    (map_to_list (Routes sample_config)) (map_to_list (rc_HostToGroup sample_rc))
    sample_config sample_rc).
  - apply range_order_self.
  - vm_compute. reflexivity.
  - unfold ms_ok. cbn. lia.
  - intros name group. unfold sample_config. cbn [Backends]. rewrite lookup_singleton_Some.
    intros [_ <-]. unfold ms_ok. cbn. lia.
  - rewrite sample_worker_started. apply list_elem_of_singleton. reflexivity.
Defined.
