(* ===== verification/Prog.v ===== *)
(** * Programs as sequences of effects

    The connection handler runs in one goroutine per client and shares the
    router, the metrics and two semaphores with the others.  It is modelled as
    a tree of atomic effects, so that one definition of the handler serves for
    its sequential behaviour ([exec]), for its behaviour under arbitrary
    answers of the other goroutines and the network ([runs]), and for the
    interleaved server, which performs the effects of many handlers in any
    order.  A monitor is an automaton over effects; [conforms] says that a
    program only performs effects its monitor allows, whatever the answers. *)
From S2P Require Import Prelude.

Section prog.
Context {E : Type} {R : E → Type}.

(** [Do e k]: perform effect [e], go on with its answer. *)
Inductive prog (A : Type) : Type :=
  | Ret (a : A)
  | Do (e : E) (k : R e → prog A).
Arguments Ret {A} a.
Arguments Do {A} e k.

Fixpoint prog_bind {A B} (f : A → prog B) (p : prog A) : prog B :=
  match p with
  | Ret a => f a
  | Do e k => Do e (λ r, prog_bind f (k r))
  end.

#[export] Instance prog_mret : MRet prog := @Ret.
#[export] Instance prog_mbind : MBind prog := λ A B f p, prog_bind f p.

Definition perform (e : E) : prog (R e) := Do e Ret.

(** An effect with its answer. *)
Inductive event := Event (e : E) (r : R e).

(** The complete runs of a program, under any answers. *)
Inductive runs {A} : prog A → list event → A → Prop :=
  | runs_Ret a : runs (Ret a) [] a
  | runs_Do e k r t a : runs (k r) t a → runs (Do e k) (Event e r :: t) a.

(** Execution against a state that answers the effects. *)
Fixpoint exec {A W} (answer : ∀ e, W → W * R e) (p : prog A) (w : W) : W * list event * A :=
  match p with
  | Ret a => (w, [], a)
  | Do e k =>
      let '(w, r) := answer e w in
      let '(w, t, a) := exec answer (k r) w in
      (w, Event e r :: t, a)
  end.

Lemma exec_runs {A W} (answer : ∀ e, W → W * R e) (p : prog A) w :
  runs p (exec answer p w).1.2 (exec answer p w).2.
Proof.
  revert w. induction p as [a|e k IH]; intros w; cbn; [constructor|].
  destruct (answer e w) as [w' r]. specialize (IH r w').
  destruct (exec answer (k r) w') as [[w'' t] a]. by constructor.
Qed.

Section monitor.
Context {S : Type} (step : S → event → option S).

(** Every effect is allowed, and every result satisfies [Q] in the state the
    monitor has then reached. *)
Fixpoint conforms {A} (s : S) (p : prog A) (Q : S → A → Prop) : Prop :=
  match p with
  | Ret a => Q s a
  | Do e k => ∀ r, match step s (Event e r) with
                   | Some s' => conforms s' (k r) Q
                   | None => False
                   end
  end.

Fixpoint watch (s : S) (t : list event) : option S :=
  match t with
  | [] => Some s
  | ev :: t => s' ← step s ev; watch s' t
  end.

Lemma conforms_bind {A B} s (p : prog A) (f : A → prog B) Q :
  conforms s p (λ s' a, conforms s' (f a) Q) → conforms s (p ≫= f) Q.
Proof.
  unfold mbind, prog_mbind. revert s. induction p as [a|e k IH]; intros s; cbn; [done|].
  intros H r. specialize (H r). destruct (step s (Event e r)); [by apply IH|done].
Qed.

Lemma conforms_mono {A} s (p : prog A) (Q Q' : S → A → Prop) :
  conforms s p Q → (∀ s' a, Q s' a → Q' s' a) → conforms s p Q'.
Proof.
  revert s. induction p as [a|e k IH]; intros s H HQ; cbn in *; [by apply HQ|].
  intros r. specialize (H r). destruct (step s (Event e r)); [by apply IH|done].
Qed.

(** A conforming program is never stopped by its monitor. *)
Lemma conforms_runs {A} s (p : prog A) Q t a :
  conforms s p Q → runs p t a → ∃ s', watch s t = Some s' ∧ Q s' a.
Proof.
  intros H Hr. revert s H. induction Hr as [a|e k r t a _ IH]; intros s H; cbn in *; [by eauto|].
  specialize (H r). destruct (step s (Event e r)) as [s'|]; [|done]. by apply IH.
Qed.

(** A program that starts and ends in states satisfying [I]. *)
Definition preserves {A} (I : S → Prop) (p : prog A) : Prop :=
  ∀ s, I s → conforms s p (λ s' _, I s').

Lemma conforms_seq {A B} s (p : prog A) (f : A → prog B) Q Q' :
  conforms s p Q → (∀ s' a, Q s' a → conforms s' (f a) Q') → conforms s (p ≫= f) Q'.
Proof. intros H HQ. apply conforms_bind. by eapply conforms_mono. Qed.

Lemma preserves_ret {A} I (a : A) : preserves I (mret a).
Proof. by intros s Hs. Qed.

Lemma preserves_bind {A B} I (p : prog A) (f : A → prog B) :
  preserves I p → (∀ a, preserves I (f a)) → preserves I (p ≫= f).
Proof.
  intros Hp Hf s Hs. eapply conforms_seq; [by apply Hp|]. intros s' a Hs'. by apply Hf.
Qed.

Lemma preserves_perform I e :
  (∀ s r, I s → ∃ s', step s (Event e r) = Some s' ∧ I s') → preserves I (perform e).
Proof. intros He s Hs r. destruct (He s r Hs) as (s' & -> & Hs'). done. Qed.

End monitor.

(** Every run of the program performs at most [n] effects. *)
Fixpoint bounded {A} (n : nat) (p : prog A) {struct p} : Prop :=
  match p with
  | Ret _ => True
  | Do e k => match n with O => False | S n => ∀ r, bounded n (k r) end
  end.

Lemma bounded_ret {A} n (a : A) : bounded n (mret a).
Proof. exact I. Qed.

Lemma bounded_perform n e : bounded (S n) (perform e).
Proof. intros r. exact I. Qed.

Lemma bounded_mono {A} n m (p : prog A) : (n ≤ m)%nat → bounded n p → bounded m p.
Proof.
  revert n m. induction p as [a|e k IH]; intros [|n] [|m] Hnm; cbn; try done; [lia|].
  intros Hk r. eapply IH, Hk. lia.
Qed.

Lemma bounded_bind {A B} n m (p : prog A) (f : A → prog B) :
  bounded n p → (∀ a, bounded m (f a)) → bounded (n + m) (p ≫= f).
Proof.
  unfold mbind, prog_mbind. revert n. induction p as [a|e k IH]; intros n Hp Hf; cbn.
  - apply (bounded_mono m); [lia|done].
  - destruct n as [|n]; [done|]. intros r. by apply IH.
Qed.

(** The bound left after a subprogram with a known bound. *)
Lemma bounded_seq {A B} n N (p : prog A) (f : A → prog B) :
  bounded n p → (n ≤ N)%nat → (∀ a, bounded (N - n) (f a)) → bounded N (p ≫= f).
Proof. intros Hp Hn Hf. replace N with (n + (N - n)) by lia. by apply bounded_bind. Qed.

Lemma bounded_assoc {A B C} n (p : prog A) (f : A → prog B) (g : B → prog C) :
  bounded n (p ≫= λ a, f a ≫= g) → bounded n ((p ≫= f) ≫= g).
Proof.
  unfold mbind, prog_mbind. revert n. induction p as [a|e k IH]; intros n; cbn; [done|].
  destruct n as [|n]; [done|]. intros Hk r. apply IH, Hk.
Qed.

Lemma bounded_runs {A} n (p : prog A) t a : bounded n p → runs p t a → (length t ≤ n)%nat.
Proof.
  intros Hb Hr. revert n Hb. induction Hr as [a|e k r t a _ IH]; intros n Hb; cbn; [lia|].
  destruct n as [|n]; [done|]. cbn in Hb. specialize (IH n (Hb r)). lia.
Qed.

(** Two monitors watch the same program. *)
Lemma conforms_also {A S S'} (step : S → event → option S) (step' : S' → event → option S')
    s s' (p : prog A) Q Q' :
  conforms step s p Q → conforms step' s' p Q' → conforms step s p (λ t a, Q t a ∧ ∃ t', Q' t' a).
Proof.
  revert s s'. induction p as [a|e k IH]; intros s s'; cbn; [by eauto|].
  intros H H' r. specialize (H r). specialize (H' r).
  destruct (step s (Event e r)) as [t|]; [|done]. destruct (step' s' (Event e r)) as [t'|]; [|done].
  by eapply IH.
Qed.

(** A monitor that allows more. *)
Lemma conforms_weaken {A S} (step step' : S → event → option S) s (p : prog A) Q :
  (∀ s ev s', step s ev = Some s' → step' s ev = Some s') →
  conforms step s p Q → conforms step' s p Q.
Proof.
  intros Hst. revert s. induction p as [a|e k IH]; intros s; cbn; [done|].
  intros H r. specialize (H r). destruct (step s (Event e r)) as [s'|] eqn:Es; [|done].
  rewrite (Hst _ _ _ Es). by apply IH.
Qed.

End prog.
Arguments prog {E} R A.
Arguments Ret {E R A} a.
Arguments Do {E R A} e k.
Arguments event {E} R.
Arguments Event {E R} e r.

#[export] Hint Resolve exec_runs : gosock.

(** Bound the effects of a program by following its structure; the bounds of
    subprograms come from the hint database [bounds]. *)
Create HintDb bounds discriminated.
Ltac bounding :=
  repeat first
    [ progress intros
    | progress cbv zeta
    | apply bounded_ret
    | match goal with
      | |- bounded _ (mret _ ≫= _) => cbn [mbind prog_mbind prog_bind mret prog_mret]
      | |- bounded _ (perform ?e) => exact (bounded_perform _ e)
      | |- bounded _ (perform ?e ≫= _) =>
          refine (bounded_seq 1 _ (perform e) _ (bounded_perform 0 e) _ _); [lia|cbn [Nat.sub]]
      | |- bounded _ (match ?x with _ => _ end ≫= _) => destruct x
      | |- bounded _ (match ?x with _ => _ end) => destruct x
      | |- bounded _ ((_ ≫= _) ≫= _) => apply bounded_assoc
      | |- bounded _ (_ ≫= _) => eapply bounded_seq; [solve [eauto with bounds]|lia|cbn [Nat.sub]]
      end
    | eapply bounded_mono; [|solve [eauto with bounds]]; lia ].

(** Show that a program preserves an invariant of its monitor by following its
    structure; [leaf] discharges the single effects, and the subprograms done
    before are found in the hint database [preserved]. *)
Create HintDb preserved discriminated.
Ltac preserving leaf :=
  repeat first
    [ progress intros
    | progress cbv zeta
    | apply preserves_ret
    | match goal with |- preserves _ _ (perform ?e) => refine (preserves_perform _ _ e _) end; leaf
    | solve [eauto with preserved]
    | apply preserves_bind
    | match goal with
      | |- preserves _ _ (match ?x with _ => _ end) => destruct x
      | |- preserves _ _ (if ?x then _ else _) => destruct x
      end ].
