(* ===== verification/Handler.v ===== *)
(** * The connection handler: [src/internal/socks/handler.go]

    [handleConnection], [DialRoute] and [relay] as programs over the atomic
    effects they perform on the client socket, the shared router, the dial
    semaphore, the metrics, the discoverer and the network. *)
From S2P Require Import Prelude GoStrings GoNet Protocol Metrics Prog.

(** ** The effects *)

(** The two directions of a relay. *)
Inductive direction := ClientToBackend | BackendToClient.

#[export] Instance direction_eq_dec : EqDecision direction.
Proof. solve_decision. Defined.

Definition direction_eqb (d d' : direction) : bool :=
  match d, d' with
  | ClientToBackend, ClientToBackend | BackendToClient, BackendToClient => true
  | _, _ => false
  end.

Definition direction_name (d : direction) : string :=
  match d with ClientToBackend => "client_to_backend" | BackendToClient => "backend_to_client" end.

Definition other (d : direction) : direction :=
  match d with ClientToBackend => BackendToClient | BackendToClient => ClientToBackend end.

(** The calls of the package on the metrics collector. *)
Inductive metric_op :=
  | MConnectionError (stage : string)
  | MHandshakeLatency (d : Z)
  | MRequest (atyp : string)
  | MRouteFailure (host reason : string)
  | MDialLatency (d : Z)
  | MDialFailure (host reason : string)
  | MRequestByBackend (host backend result : string)
  | MTCPState (state : string)
  | MRelayBytes (direction : string) (n : Z)
  | MSessionDuration (d : Z)
  | MConnectionAccepted
  | MConnectionInactive.

Definition apply_metric (op : metric_op) (c : option Collector) : option Collector :=
  match op with
  | MConnectionError stage => IncConnectionError c stage
  | MHandshakeLatency d => ObserveHandshakeLatency c d
  | MRequest a => IncRequest c a
  | MRouteFailure h r => IncRouteFailure c h r
  | MDialLatency d => ObserveBackendDialLatency c d
  | MDialFailure h r => IncBackendDialFailure c h r
  | MRequestByBackend h b r => IncRequestByBackend c h b r
  | MTCPState s => IncTCPState c s
  | MRelayBytes d n => AddRelayBytes c d n
  | MSessionDuration d => ObserveSessionDuration c d
  | MConnectionAccepted => IncConnectionAccepted c
  | MConnectionInactive => DecConnectionActive c
  end.

(** What [net.Dialer.Dial] returned: whether it is a [*net.TCPConn], and its
    local address. *)
Record dialed := mkDialed { is_tcp : bool; LocalAddr : net_addr }.

Inductive effect :=
  | Now
  | SetReadDeadline (t : option Z)
  | SetWriteDeadline (t : option Z)
  | SetDeadline (t : Z)
  | BackendSetDeadline (t : Z)
  | Handshake
  | ReadRequest
  | SendFailure (code : byte)
  | SendSuccess (bindAddr : net_addr)
  | Metric (op : metric_op)
  | CurrentRouter
  | LookupBackend (rt : nat) (addr : string)
  | PickBackend (rt : nat) (host : string)
  | TryAcquireDial
  | ReleaseDial
  | Dial (target : string) (timeout keepAlive : Z)
  | BackendSetKeepAlive (period : Z)
  | CloseBackend
  | Discover (host : string) (port : Z)
  | FirstHalf
  | Copy (d : direction)
  | CloseWrite (d : direction)
  | LogError (e : goerror)
  | ReleaseConn
  | CloseClient
  | WgDone.

(** The answers.  A router is the reference [currentRouter] returned; [Copy]
    answers [io.Copy]'s byte count and error. *)
Definition answer (e : effect) : Type :=
  match e with
  | Now => Z
  | Handshake | SendFailure _ | SendSuccess _ => result unit
  | ReadRequest => result request
  | CurrentRouter => nat
  | LookupBackend _ _ => option string
  | PickBackend _ _ => result string
  | TryAcquireDial => bool
  | Dial _ _ _ => goerror + dialed
  | Discover _ _ => bool * option goerror
  | FirstHalf => direction
  | Copy _ => Z * option goerror
  | _ => unit
  end.

Abbreviation go := (prog answer).

(** The immutable fields of [Server] and [routeDialer]. *)
Record settings := mkSettings {
  dialTimeout : Z;
  keepAlive : Z;
  maxConnections : Z;
  maxInflightDials : Z;
  readTimeout : Z;
  writeTimeout : Z;
  idleTimeout : Z;
  has_discoverer : bool;
}.

Definition metric (op : metric_op) : go unit := perform (Metric op).

(** [time.Since(start)] for a clock reading [now] *)
Definition since (start now : Z) : Z := (now - start)%Z.

Definition when (b : bool) (p : go unit) : go unit := if b then p else mret tt.

(** ** Error texts *)

Section handler.
Context `{UnicodeTables}.

(** The error [DialRoute] makes of an error of [Pick]. *)
Definition pick_error (routeHost : string) (err : goerror) : goerror :=
  if errors_Is err SRouteNotFound then
    wrap_err ("route for host " +:+ Quote routeHost +:+ " not found") err
  else if errors_Is err SNoAliveBackends then
    wrap_err ("no alive backends for host " +:+ Quote routeHost) err
  else wrap_err ("pick backend for host " +:+ Quote routeHost) err.

Definition dial_error (target routeHost : string) (err : goerror) : goerror :=
  wrap_err ("dial backend " +:+ Quote target +:+ " for host " +:+ Quote routeHost) err.

Definition limit_error (routeHost : string) : goerror :=
  ErrMsg ("dial inflight limit reached for host " +:+ Quote routeHost).

Definition not_tcp_error (target : string) : goerror :=
  ErrMsg ("backend connection for " +:+ Quote target +:+ " is not TCP").

Definition classifyDialError (err : goerror) : string :=
  let msg := ToLower (err_text err) in
  if Contains msg "route for host" then "route_not_found"
  else if Contains msg "no alive backends" then "no_alive_backends"
  else if Contains msg "inflight limit reached" then "dial_limit"
  else if Contains msg "timeout" then "timeout"
  else "dial_error".

Definition atypLabel (a : byte) : string :=
  if bool_decide (a = atypIPv4) then "ipv4"
  else if bool_decide (a = atypFQDN) then "fqdn"
  else "unknown".

Definition isRSTError (err : option goerror) : bool :=
  match err with
  | None => false
  | Some err =>
      let msg := ToLower (err_text err) in
      Contains msg "connection reset by peer" ||
      Contains msg "broken pipe" ||
      Contains msg "forcibly closed by the remote host"
  end.

Definition classifyCloseType (err1 err2 : option goerror) : string :=
  if isRSTError err1 || isRSTError err2 then "rst" else "fin".

Definition isIgnorableCopyError (err : option goerror) : bool :=
  match err with
  | None => true
  | Some err =>
      let msg := ToLower (err_text err) in
      Contains msg "closed network connection" ||
      Contains msg "broken pipe" ||
      Contains msg "connection reset by peer" ||
      Contains msg "forcibly closed by the remote host"
  end.

(** ** Dialing *)

(** The return values of [DialRoute]: the backend address, which comes with an
    error too, and the error or the connection. *)
Inductive dial_outcome :=
  | DialCrashed (why : string)
  | DialReturned (target : string) (res : goerror + dialed).

(** The part of [DialRoute] that runs with the dial slot held. *)
Definition dial_picked (cfg : settings) (routeHost : string)
    : go dial_outcome :=
  rt ← perform CurrentRouter;
  picked ← perform (PickBackend rt (normalizeHost routeHost));
  match picked with
  | Panic w => mret (DialCrashed w)
  | Err err => mret (DialReturned "" (inl (pick_error routeHost err)))
  | Ok target =>
      res ← perform (Dial target (dialTimeout cfg) (keepAlive cfg));
      match res with
      | inl err => mret (DialReturned target (inl (dial_error target routeHost err)))
      | inr d =>
          if is_tcp d then
            _ ← perform (BackendSetKeepAlive (keepAlive cfg));
            mret (DialReturned target (inr d))
          else
            _ ← perform CloseBackend;
            mret (DialReturned target (inl (not_tcp_error target)))
      end
  end.

Definition DialRoute (cfg : settings) (routeHost : string)
    : go dial_outcome :=
  if (0 <? maxInflightDials cfg)%Z then
    acquired ← perform TryAcquireDial;
    if (acquired : bool) then
      r ← dial_picked cfg routeHost;
      _ ← perform ReleaseDial;
      mret r
    else mret (DialReturned "" (inl (limit_error routeHost)))
  else dial_picked cfg routeHost.

(** ** The relay *)

Definition copyHalf (d : direction) : go (option goerror) :=
  r ← perform (Copy d);
  _ ← metric (MRelayBytes (direction_name d) r.1);
  _ ← perform (CloseWrite d);
  mret r.2.

(** The first error of the loop in [relay] that is worth reporting. *)
Fixpoint first_error (errs : list (option goerror)) (firstErr : option goerror)
    : option goerror :=
  match errs with
  | [] => firstErr
  | err :: rest =>
      first_error rest
        (if negb (isIgnorableCopyError err) && bool_decide (firstErr = None) then err else firstErr)
  end.

(** [relay]: the halves in the order in which they send on [errCh]; Section
    [halves] below relates this to their interleaving. *)
Definition relay : go (option goerror * string) :=
  first ← perform FirstHalf;
  err1 ← copyHalf first;
  err2 ← copyHalf (other first);
  mret (first_error [err1; err2] None, classifyCloseType err1 err2).

(** ** One connection *)

(** How an iteration of the routing loop ends. *)
Inductive routing :=
  | Connected (routeHost backendAddr : string) (d : dialed)
  | Again
  | Failed (e : goerror)
  | Crashed (why : string).

(** [discoverer != nil && attempt == 0 && added] *)
Definition try_discover (cfg : settings) (attempt : nat) (host : string) (port : Z) : go bool :=
  if has_discoverer cfg && bool_decide (attempt = 0) then
    r ← perform (Discover host port); mret r.1
  else mret false.

Definition dial_attempt (cfg : settings) (req : request) (attempt : nat) (routeHost : string)
    : go routing :=
  _ ← metric (MRequest (atypLabel (atyp req)));
  dialStart ← perform Now;
  r ← DialRoute cfg routeHost;
  match r with
  | DialCrashed w => mret (Crashed w)
  | DialReturned backendAddr res =>
      now ← perform Now;
      _ ← metric (MDialLatency (since dialStart now));
      match res with
      | inr d => mret (Connected routeHost backendAddr d)
      | inl err =>
          again ← (if errors_Is err SRouteNotFound
                   then try_discover cfg attempt routeHost (port req) else mret false);
          if (again : bool) then mret Again
          else
            let reason := classifyDialError err in
            _ ← metric (MDialFailure routeHost reason);
            _ ← metric (MRouteFailure routeHost reason);
            _ ← metric (MRequestByBackend routeHost backendAddr reason);
            _ ← metric (MConnectionError "backend_dial");
            _ ← perform (SendFailure replyHostUnreachable);
            mret (Failed err)
      end
  end.

Definition route_attempt (cfg : settings) (req : request) (attempt : nat) : go routing :=
  if bool_decide (atyp req = atypIPv4) then
    let addr := host req +:+ ":" +:+ itoa (port req) in
    rt ← perform CurrentRouter;
    found ← perform (LookupBackend rt addr);
    match found with
    | Some routeHost => dial_attempt cfg req attempt routeHost
    | None =>
        again ← try_discover cfg attempt (host req) (port req);
        if (again : bool) then mret Again
        else
          _ ← metric (MRouteFailure addr "ip_not_in_routes");
          _ ← metric (MConnectionError "backend_dial");
          _ ← perform (SendFailure replyHostUnreachable);
          mret (Failed (ErrMsg ("ip " +:+ addr +:+ " not in any route (whitelist)")))
    end
  else dial_attempt cfg req attempt (RouteKey req).

(** [for attempt := 0; ; attempt++]; [None] when the fuel is used up. *)
Fixpoint route_loop (cfg : settings) (req : request) (fuel attempt : nat) : go (option routing) :=
  match fuel with
  | O => mret None
  | S fuel =>
      r ← route_attempt cfg req attempt;
      match r with
      | Again => route_loop cfg req fuel (S attempt)
      | _ => mret (Some r)
      end
  end.

(** Only the attempt numbered 0 can continue the loop. *)
Definition loop_fuel : nat := 2.

(** From the success reply to the end of the session. *)
Definition tunnel (cfg : settings) (sessionStart : Z) (routeHost backendAddr : string) (d : dialed)
    : go (result unit) :=
  _ ← (if (0 <? writeTimeout cfg)%Z then
         now ← perform Now; perform (SetWriteDeadline (Some (now + writeTimeout cfg)%Z))
       else mret tt);
  sent ← perform (SendSuccess (LocalAddr d));
  match sent with
  | Panic w => mret (Panic w)
  | Err err =>
      _ ← metric (MRequestByBackend routeHost backendAddr "reply_error");
      _ ← metric (MConnectionError "reply");
      mret (Err (wrap_err "write success reply" err))
  | Ok _ =>
      _ ← perform (SetWriteDeadline None);
      _ ← (if (0 <? idleTimeout cfg)%Z then
             now ← perform Now;
             _ ← perform (SetDeadline (now + idleTimeout cfg)%Z);
             now ← perform Now;
             perform (BackendSetDeadline (now + idleTimeout cfg)%Z)
           else mret tt);
      _ ← metric (MTCPState "established");
      r ← relay;
      _ ← metric (MTCPState r.2);
      match r.1 with
      | Some relayErr =>
          _ ← metric (MRequestByBackend routeHost backendAddr "relay_error");
          _ ← metric (MConnectionError "relay");
          mret (Err relayErr)
      | None =>
          _ ← metric (MRequestByBackend routeHost backendAddr "success");
          now ← perform Now;
          _ ← metric (MSessionDuration (since sessionStart now));
          mret (Ok tt)
      end
  end.

(** [if readTimeout > 0 { _ = client.SetReadDeadline(time.Now().Add(readTimeout)) }] *)
Definition arm_read (cfg : settings) : go unit :=
  if (0 <? readTimeout cfg)%Z then
    now ← perform Now; perform (SetReadDeadline (Some (now + readTimeout cfg)%Z))
  else mret tt.

(** [handleConnection]; [None] only if the routing loop ran out of fuel. *)
Definition handleConnection (cfg : settings) : go (option (result unit)) :=
  sessionStart ← perform Now;
  handshakeStart ← perform Now;
  _ ← arm_read cfg;
  shaken ← perform Handshake;
  match shaken with
  | Panic w => mret (Some (Panic w))
  | Err err => _ ← metric (MConnectionError "handshake"); mret (Some (Err err))
  | Ok _ =>
      _ ← arm_read cfg;
      req ← perform ReadRequest;
      now ← perform Now;
      _ ← metric (MHandshakeLatency (since handshakeStart now));
      _ ← perform (SetReadDeadline None);
      match req with
      | Panic w => mret (Some (Panic w))
      | Err err => _ ← metric (MConnectionError "request"); mret (Some (Err err))
      | Ok req =>
          routed ← route_loop cfg req loop_fuel 0;
          match routed with
          | None | Some Again => mret None
          | Some (Crashed w) => mret (Some (Panic w))
          | Some (Failed e) => mret (Some (Err e))
          | Some (Connected routeHost backendAddr d) =>
              r ← tunnel cfg sessionStart routeHost backendAddr d;
              _ ← perform CloseBackend;
              mret (Some r)
          end
      end
  end.

(** [serveClient] in [server.go], with its deferred calls in the order they
    run; [None] if the routing loop ran out of fuel: then the goroutine is still
    in the loop, and nothing after it is reached. *)
Definition serveClient (cfg : settings) : go (option unit) :=
  r ← handleConnection cfg;
  match r with
  | None => mret None
  | Some r =>
      _ ← match r with Err e => perform (LogError e) | _ => mret tt end;
      _ ← (if (0 <? maxConnections cfg)%Z then perform ReleaseConn else mret tt);
      _ ← metric MConnectionInactive;
      _ ← perform CloseClient;
      _ ← perform WgDone;
      mret (Some tt)
  end.

End handler.

(** ** What a session may do *)

(** The phases of a session: [Routing n m] has at most [n] selections left and
    may ask the discoverer if [m]; [Picked] holds the backend the router
    selected; [Opened] a backend connection not yet announced to the client;
    [Relaying] the halves already copied; [Closing] a session whose reply
    failed; [Done ok] is the end, with [ok] for a session that was relayed. *)
Inductive phase :=
  | Fresh
  | Shaken
  | Routing (picks : nat) (may_discover : bool)
  | Picked (target : string) (picks : nat) (may_discover : bool)
  | Rejected (picks : nat) (may_discover : bool)
  | Opened (d : dialed)
  | Relaying (halves : list direction)
  | Closing
  | Done (relayed : bool)
  | Crash.

Definition session_step (s : phase) (ev : event answer) : option phase :=
  match ev with
  | Event Handshake r =>
      match s with
      | Fresh => Some (match r with Ok _ => Shaken | Err _ => Done false | Panic _ => Crash end)
      | _ => None
      end
  | Event ReadRequest r =>
      match s with
      | Shaken => Some (match r with Ok _ => Routing 2 true | Err _ => Done false | Panic _ => Crash end)
      | _ => None
      end
  | Event (Discover _ _) _ =>
      match s with Routing n true => Some (Routing n false) | _ => None end
  | Event (PickBackend _ _) r =>
      match s with
      | Routing (S n) m =>
          Some (match r with Ok t => Picked t n m | Err _ => Routing n m | Panic _ => Crash end)
      | _ => None
      end
  | Event (Dial target _ _) r =>
      match s with
      | Picked t n m =>
          if bool_decide (t = target) then
            Some (match r with
                  | inl _ => Routing n m
                  | inr d => if is_tcp d then Opened d else Rejected n m
                  end)
          else None
      | _ => None
      end
  | Event (SendFailure code) _ =>
      match s with
      | Routing _ _ => if bool_decide (code = replyHostUnreachable) then Some (Done false) else None
      | _ => None
      end
  | Event (SendSuccess _) r =>
      match s with
      | Opened d => Some (match r with Ok _ => Relaying [] | Err _ => Closing | Panic _ => Crash end)
      | _ => None
      end
  | Event (Copy d) _ =>
      match s with
      | Relaying ds => if bool_decide (d ∈ ds) then None else Some (Relaying (d :: ds))
      | _ => None
      end
  | Event CloseBackend _ =>
      match s with
      | Rejected n m => Some (Routing n m)
      | Relaying ds => if bool_decide (length ds = 2) then Some (Done true) else None
      | Closing => Some (Done false)
      | Crash => Some Crash
      | _ => None
      end
  | Event (LogError _) _ | Event ReleaseConn _ | Event CloseClient _ | Event WgDone _ => None
  | _ => Some s
  end.

Definition session_end (s : phase) (r : option (result unit)) : Prop :=
  match r with
  | None => False
  | Some (Ok _) => s = Done true
  | Some (Err _) => ∃ relayed, s = Done relayed
  | Some (Panic _) => s = Crash
  end.

(** The metrics a session must report: [account_step] collects the operations
    that count events (not latencies or volumes), and [accounted] lists what
    they may be for each result, where [k] counts routing attempts. *)
Definition counts (op : metric_op) : bool :=
  match op with
  | MHandshakeLatency _ | MDialLatency _ | MRelayBytes _ _ => false
  | _ => true
  end.

Definition account_step (l : list metric_op) (ev : event answer) : option (list metric_op) :=
  match ev with
  | Event (Metric op) _ => Some (if counts op then l ++ [op] else l)
  | _ => Some l
  end.

Section specification.
Context `{UnicodeTables}.

Definition max_attempts (cfg : settings) : nat := if has_discoverer cfg then 2 else 1.

Inductive accounted (cfg : settings) : list metric_op → result unit → Prop :=
  | acc_handshake e : accounted cfg [MConnectionError "handshake"] (Err e)
  | acc_request e : accounted cfg [MConnectionError "request"] (Err e)
  | acc_unrouted k a addr e :
      (k < max_attempts cfg)%nat →
      accounted cfg
        (replicate k (MRequest a) ++
           [MRouteFailure addr "ip_not_in_routes"; MConnectionError "backend_dial"]) (Err e)
  | acc_dial k a h b e :
      (k < max_attempts cfg)%nat →
      let reason := classifyDialError e in
      accounted cfg
        (replicate (S k) (MRequest a) ++
           [MDialFailure h reason; MRouteFailure h reason; MRequestByBackend h b reason;
            MConnectionError "backend_dial"]) (Err e)
  | acc_reply k a h b e :
      (k < max_attempts cfg)%nat →
      accounted cfg
        (replicate (S k) (MRequest a) ++
           [MRequestByBackend h b "reply_error"; MConnectionError "reply"]) (Err e)
  | acc_relay k a h b close e :
      (k < max_attempts cfg)%nat → close = "fin" ∨ close = "rst" →
      accounted cfg
        (replicate (S k) (MRequest a) ++
           [MTCPState "established"; MTCPState close; MRequestByBackend h b "relay_error";
            MConnectionError "relay"]) (Err e)
  | acc_success k a h b close d :
      (k < max_attempts cfg)%nat → close = "fin" ∨ close = "rst" →
      accounted cfg
        (replicate (S k) (MRequest a) ++
           [MTCPState "established"; MTCPState close; MRequestByBackend h b "success";
            MSessionDuration d]) (Ok tt)
  | acc_panic l w : accounted cfg l (Panic w).

End specification.

(** ** Lemmas on the monitors *)

(** Run a program against a monitor: introduce the answer of each effect and
    split on it where the program or the monitor does. *)
Ltac walk :=
  repeat first
    [ progress cbn [conforms perform metric session_step account_step prog_bind mbind prog_mbind
                    mret prog_mret counts fst snd]
    | match goal with
      | |- forall _, _ => intro
      | |- context [match ?x with _ => _ end] => is_var x; destruct x
      | |- context [bool_decide (?x = ?x)] => rewrite (bool_decide_eq_true_2 (x = x) eq_refl)
    | |- context [if (0 <? ?x)%Z then _ else _] => destruct (0 <? x)%Z
    | |- context [if is_tcp ?x then _ else _] => destruct (is_tcp x)
      end ].

Section monitors.
Context `{UnicodeTables}.

Lemma arm_read_session cfg s :
  conforms session_step s (arm_read cfg) (λ s' _, s' = s).
Proof. unfold arm_read. walk; done. Qed.

Lemma dial_picked_session cfg h n m :
  conforms session_step (Routing (S n) m) (dial_picked cfg h)
    (λ s r, match r with
            | DialCrashed _ => s = Crash
            | DialReturned _ (inl _) => s = Routing n m
            | DialReturned _ (inr d) => s = Opened d
            end).
Proof.
  unfold dial_picked. walk; done.
Qed.

Lemma DialRoute_session cfg h n m :
  conforms session_step (Routing (S n) m) (DialRoute cfg h)
    (λ s r, match r with
            | DialCrashed _ => s = Crash
            | DialReturned _ (inl _) => ∃ n', s = Routing n' m ∧ (n ≤ n')%nat
            | DialReturned _ (inr d) => s = Opened d
            end).
Proof.
  assert (conforms session_step (Routing (S n) m) (dial_picked cfg h)
    (λ s r, match r with
            | DialCrashed _ => s = Crash
            | DialReturned _ (inl _) => ∃ n', s = Routing n' m ∧ (n ≤ n')%nat
            | DialReturned _ (inr d) => s = Opened d
            end)) as Hd.
  { eapply conforms_mono; [apply dial_picked_session|].
    intros s' [w|t [e|d]]; [done| |done]. intros ->. eauto. }
  unfold DialRoute. destruct (0 <? _)%Z; [|done]. walk; [|by eauto].
  apply conforms_bind. eapply conforms_mono; [exact Hd|].
  intros s' [w|t [e|d]]; [intros ->|intros (n' & -> & ?)|intros ->]; walk; eauto.
Qed.

Lemma try_discover_session cfg n m attempt h p :
  (attempt = 0 → m = true) →
  conforms session_step (Routing n m) (try_discover cfg attempt h p)
    (λ s again, if again then attempt = 0 ∧ has_discoverer cfg = true ∧ s = Routing n false
                else ∃ m', s = Routing n m').
Proof.
  intros Hm. unfold try_discover. destruct (has_discoverer cfg); cbn [andb]; [|by walk; eauto].
  case_bool_decide as Ha; [|by walk; eauto]. rewrite Hm by done. walk.
  destruct (fst _); by eauto.
Qed.

(** How an iteration of the routing loop leaves the session; [n] selections
    were left after the one it may make. *)
Definition routed_in (attempt n : nat) (s : phase) (r : routing) : Prop :=
  match r with
  | Connected _ _ d => s = Opened d
  | Again => attempt = 0 ∧ ∃ n', s = Routing n' false ∧ (n ≤ n')%nat
  | Failed _ => s = Done false
  | Crashed _ => s = Crash
  end.

Lemma dial_attempt_session cfg req attempt h n m :
  (attempt = 0 → m = true) →
  conforms session_step (Routing (S n) m) (dial_attempt cfg req attempt h) (routed_in attempt n).
Proof.
  intros Hm. unfold dial_attempt. walk.
  eapply conforms_seq; [apply DialRoute_session|].
  intros s [w|t [e|d]]; [intros ->; done| |intros ->; walk; done].
  intros (n' & -> & Hn). walk.
  assert (∀ s (again : bool),
    (if again then attempt = 0 ∧ has_discoverer cfg = true ∧ s = Routing n' false
     else ∃ m', s = Routing n' m') →
    conforms session_step s
      (if again then mret Again
       else
         _ ← metric (MDialFailure h (classifyDialError e));
         _ ← metric (MRouteFailure h (classifyDialError e));
         _ ← metric (MRequestByBackend h t (classifyDialError e));
         _ ← metric (MConnectionError "backend_dial");
         _ ← perform (SendFailure replyHostUnreachable);
         mret (Failed e)) (routed_in attempt n)) as Hfin.
  { intros s [] Hs; [destruct Hs as (-> & _ & ->)|destruct Hs as [m' ->]]; walk; unfold routed_in; eauto. }
  destruct (errors_Is e SRouteNotFound).
  - eapply conforms_seq; [by apply try_discover_session|exact Hfin].
  - walk. unfold routed_in. done.
Qed.

Lemma route_attempt_session cfg req attempt n m :
  (attempt = 0 → m = true) →
  conforms session_step (Routing (S n) m) (route_attempt cfg req attempt) (routed_in attempt n).
Proof.
  intros Hm. unfold route_attempt. case_bool_decide; [|by apply dial_attempt_session].
  walk; [by apply dial_attempt_session|].
  eapply conforms_seq; [by apply try_discover_session|].
  intros s [] Hs; [destruct Hs as (-> & _ & ->)|destruct Hs as [m' ->]]; walk; unfold routed_in; eauto.
Qed.

Lemma route_loop_session cfg req :
  conforms session_step (Routing 2 true) (route_loop cfg req loop_fuel 0)
    (λ s r, match r with
            | None | Some Again => False
            | Some (Connected _ _ d) => s = Opened d
            | Some (Failed _) => s = Done false
            | Some (Crashed _) => s = Crash
            end).
Proof.
  cbn [route_loop loop_fuel]. eapply conforms_seq; [by apply route_attempt_session|].
  intros s [h b d| |e|w] Hs; cbn in Hs; try (by walk).
  destruct Hs as (_ & n' & -> & Hn). destruct n' as [|n']; [lia|].
  eapply conforms_seq; [by apply route_attempt_session|].
  intros s [h b d| |e|w] Hs'; cbn in Hs'; try (by walk). by destruct Hs'.
Qed.

Lemma tunnel_session cfg start h b d :
  conforms session_step (Opened d) (tunnel cfg start h b d)
    (λ s r, match r with
            | Ok _ => ∃ ds, s = Relaying ds ∧ length ds = 2
            | Err _ => s = Closing ∨ ∃ ds, s = Relaying ds ∧ length ds = 2
            | Panic _ => s = Crash
            end).
Proof.
  assert (∀ d1, conforms session_step (Relaying []) (copyHalf d1) (λ s _, s = Relaying [d1])) as H1.
  { intros d1. unfold copyHalf. walk. rewrite bool_decide_eq_false_2 by apply not_elem_of_nil. by walk. }
  assert (∀ d1, conforms session_step (Relaying [d1]) (copyHalf (other d1))
    (λ s _, s = Relaying [other d1; d1])) as H2.
  { intros d1. unfold copyHalf. walk; rewrite bool_decide_eq_false_2 by
      (intros Hin%list_elem_of_singleton; by destruct d1); by walk. }
  assert (conforms session_step (Relaying []) relay (λ s _, ∃ ds, s = Relaying ds ∧ length ds = 2)) as Hr.
  { unfold relay. cbn [perform mbind prog_mbind prog_bind conforms session_step]. intros d1.
    change (conforms session_step (Relaying [])
      (err1 ← copyHalf d1; err2 ← copyHalf (other d1);
       mret (first_error [err1; err2] None, classifyCloseType err1 err2))
      (λ s _, ∃ ds, s = Relaying ds ∧ length ds = 2)).
    eapply conforms_seq; [apply H1|]. intros s e1 ->.
    eapply conforms_seq; [apply H2|]. intros s e2 ->. cbn. eauto. }
  unfold tunnel. walk; try by eauto.
  all: eapply conforms_seq; [exact Hr|]; intros s' [[e|] ct] (ds & -> & Hl); walk; eauto.
Qed.


(** *** Termination *)

Lemma arm_read_bounded cfg : bounded 2 (arm_read cfg).
Proof. unfold arm_read. bounding. Qed.

Lemma dial_picked_bounded cfg h : bounded 4 (dial_picked cfg h).
Proof. unfold dial_picked. bounding. Qed.

#[local] Hint Resolve arm_read_bounded dial_picked_bounded : bounds.

Lemma DialRoute_bounded cfg h : bounded 6 (DialRoute cfg h).
Proof. unfold DialRoute. bounding. Qed.

Lemma try_discover_bounded cfg attempt h p : bounded 1 (try_discover cfg attempt h p).
Proof. unfold try_discover. bounding. Qed.

#[local] Hint Resolve DialRoute_bounded try_discover_bounded : bounds.

Lemma dial_attempt_bounded cfg req attempt h : bounded 16 (dial_attempt cfg req attempt h).
Proof. unfold dial_attempt, metric. bounding. Qed.

#[local] Hint Resolve dial_attempt_bounded : bounds.

Lemma route_attempt_bounded cfg req attempt : bounded 18 (route_attempt cfg req attempt).
Proof. unfold route_attempt, metric. bounding. Qed.

#[local] Hint Resolve route_attempt_bounded : bounds.

Lemma route_loop_bounded cfg req : bounded 36 (route_loop cfg req loop_fuel 0).
Proof. cbn [route_loop loop_fuel]. bounding. Qed.

Lemma copyHalf_bounded d : bounded 3 (copyHalf d).
Proof. unfold copyHalf, metric. bounding. Qed.

#[local] Hint Resolve copyHalf_bounded : bounds.

Lemma relay_bounded : bounded 7 relay.
Proof. unfold relay. bounding. Qed.

#[local] Hint Resolve route_loop_bounded relay_bounded : bounds.

Lemma tunnel_bounded cfg start h b d : bounded 20 (tunnel cfg start h b d).
Proof. unfold tunnel, metric. bounding. Qed.

#[local] Hint Resolve tunnel_bounded : bounds.

(** The number of effects of one connection, deferred calls included. *)
Definition session_bound : nat := 73.

Lemma serveClient_bounded cfg : bounded session_bound (serveClient cfg).
Proof.
  assert (bounded 68 (handleConnection cfg)) as Hc by (unfold handleConnection, metric; bounding).
  unfold serveClient, metric, session_bound. eapply bounded_seq; [exact Hc|lia|]. bounding.
Qed.

(** *** Accounting *)

Lemma arm_read_account cfg l : conforms account_step l (arm_read cfg) (λ l' _, l' = l).
Proof. unfold arm_read. walk; done. Qed.

Lemma DialRoute_account cfg h l : conforms account_step l (DialRoute cfg h) (λ l' _, l' = l).
Proof.
  assert (conforms account_step l (dial_picked cfg h) (λ l' _, l' = l)) as Hd.
  { unfold dial_picked. walk; done. }
  unfold DialRoute. destruct (0 <? _)%Z; [|done]. walk; [|done].
  eapply conforms_seq; [exact Hd|]. intros l' r ->. by walk.
Qed.

Lemma try_discover_account cfg attempt h p l :
  conforms account_step l (try_discover cfg attempt h p)
    (λ l' again, l' = l ∧ (again = true → attempt = 0 ∧ has_discoverer cfg = true)).
Proof.
  unfold try_discover. destruct (has_discoverer cfg); cbn [andb]; [|by walk].
  case_bool_decide as Ha; [|by walk]. walk. done.
Qed.

(** What an iteration of the routing loop reports. *)
Definition attempt_account (cfg : settings) (req : request) (attempt : nat) (l l' : list metric_op)
    (r : routing) : Prop :=
  let reqs := l ++ [MRequest (atypLabel (atyp req))] in
  match r with
  | Connected _ _ _ => l' = reqs
  | Again => attempt = 0 ∧ has_discoverer cfg = true ∧ (l' = l ∨ l' = reqs)
  | Failed e =>
      (∃ addr, l' = l ++ [MRouteFailure addr "ip_not_in_routes"; MConnectionError "backend_dial"]) ∨
      (∃ h b, let reason := classifyDialError e in
         l' = reqs ++ [MDialFailure h reason; MRouteFailure h reason;
                       MRequestByBackend h b reason; MConnectionError "backend_dial"])
  | Crashed _ => True
  end.

Lemma dial_attempt_account cfg req attempt h l :
  conforms account_step l (dial_attempt cfg req attempt h)
    (λ l' r, attempt_account cfg req attempt l l' r).
Proof.
  unfold dial_attempt. walk. eapply conforms_seq; [apply DialRoute_account|].
  intros l' [w|t [e|d]] ->; [done| |by walk]. walk.
  match goal with |- conforms _ ?l0 _ _ => set (reqs := l0) end.
  assert (conforms account_step reqs
    (if errors_Is e SRouteNotFound then try_discover cfg attempt h (port req) else mret false)
    (λ l' again, l' = reqs ∧ (again = true → attempt = 0 ∧ has_discoverer cfg = true))) as Ht.
  { destruct (errors_Is e SRouteNotFound); [apply try_discover_account|by walk]. }
  eapply conforms_seq; [exact Ht|]. intros l' [] [-> Ha]; walk; unfold attempt_account.
  - destruct Ha; auto.
  - right. exists h, t. unfold reqs. by rewrite <-!app_assoc.
Qed.

Lemma route_attempt_account cfg req attempt l :
  conforms account_step l (route_attempt cfg req attempt)
    (λ l' r, attempt_account cfg req attempt l l' r).
Proof.
  unfold route_attempt. case_bool_decide; [|apply dial_attempt_account].
  walk; [apply dial_attempt_account|].
  eapply conforms_seq; [apply try_discover_account|].
  intros l' [] [-> Ha]; walk; unfold attempt_account.
  - destruct Ha; auto.
  - left. eexists. by rewrite <-app_assoc.
Qed.

Lemma route_loop_account cfg req :
  conforms account_step [] (route_loop cfg req loop_fuel 0)
    (λ l r, match r with
            | Some (Connected _ _ _) => ∃ k, (k < max_attempts cfg)%nat ∧
                l = replicate (S k) (MRequest (atypLabel (atyp req)))
            | Some (Failed e) => accounted cfg l (Err e)
            | _ => True
            end).
Proof.
  cbn [route_loop loop_fuel].
  assert (∀ i j, (j < max_attempts cfg)%nat → ∀ l r,
    attempt_account cfg req i (replicate j (MRequest (atypLabel (atyp req)))) l r →
    match r with
    | Connected _ _ _ => ∃ k, (k < max_attempts cfg)%nat ∧
        l = replicate (S k) (MRequest (atypLabel (atyp req)))
    | Failed e => accounted cfg l (Err e)
    | _ => True
    end) as Hj.
  { intros i j Hlt l [h b d| |e|w] Ha; cbn in Ha; [|done| |done].
    - exists j. by rewrite Ha, <-replicate_S_end.
    - destruct Ha as [[addr ->]|(h & b & ->)]; [by constructor|].
      rewrite <-replicate_S_end. by constructor. }
  assert (0 < max_attempts cfg)%nat as H0 by (unfold max_attempts; destruct (has_discoverer cfg); lia).
  eapply conforms_seq; [apply route_attempt_account|].
  intros l r Ha. pose proof (Hj 0 0 H0 l r Ha) as HQ. destruct r as [h b d| |e|w]; [exact HQ| |exact HQ|done].
  destruct Ha as (_ & Hd & Hl).
  assert (∃ j, (j < max_attempts cfg)%nat ∧ l = replicate j (MRequest (atypLabel (atyp req)))) as (j & Hlt & ->).
  { unfold max_attempts. rewrite Hd. destruct Hl as [->| ->]; [by exists 0; split; [lia|]|by exists 1; split; [lia|]]. }
  eapply conforms_seq; [apply route_attempt_account|].
  intros l r Ha'. specialize (Hj _ j Hlt l r Ha'). by destruct r.
Qed.

Lemma tunnel_account cfg start h b d k a :
  (k < max_attempts cfg)%nat →
  conforms account_step (replicate (S k) (MRequest a)) (tunnel cfg start h b d) (accounted cfg).
Proof.
  intros Hk.
  assert (∀ l, conforms account_step l relay (λ l' r, l' = l ∧ (r.2 = "fin" ∨ r.2 = "rst"))) as Hr.
  { intros l. unfold relay, copyHalf. walk; (split; [done|]); cbn; unfold classifyCloseType;
      destruct (_ || _); auto. }
  remember (replicate (S k) (MRequest a)) as l eqn:Hl.
  unfold tunnel. walk; rewrite <-?app_assoc; try (cbn [app]; rewrite Hl; by constructor).
  all: eapply conforms_seq; [apply Hr|]; intros l' [[e|] ct] [-> Hct]; walk;
    rewrite <-!app_assoc; cbn [app]; rewrite Hl; by constructor.
Qed.

(** *** The whole handler *)

Lemma handleConnection_conforms cfg :
  conforms session_step Fresh (handleConnection cfg) session_end.
Proof.
  unfold handleConnection. walk.
  eapply conforms_seq; [apply arm_read_session|]. intros s [] ->. walk; try by (unfold session_end; eauto).
  eapply conforms_seq; [apply arm_read_session|]. intros s [] ->. walk; try by (unfold session_end; eauto).
  eapply conforms_seq; [apply route_loop_session|].
  intros s [[h b d| |e|w]|] Hs; try done.
  - rewrite Hs. eapply conforms_seq; [apply tunnel_session|].
    intros s' [[]|e|w]; [intros (ds & -> & Hl)|intros [->|(ds & -> & Hl)]|intros ->]; walk;
      rewrite ?Hl; walk; unfold session_end; eauto.
  - rewrite Hs. walk. unfold session_end. eauto.
Qed.

Lemma handleConnection_account cfg :
  conforms account_step [] (handleConnection cfg)
    (λ l r, ∀ res, r = Some res → accounted cfg l res).
Proof.
  unfold handleConnection. walk.
  eapply conforms_seq; [apply arm_read_account|]. intros l [] ->. walk; try by (simplify_eq; constructor).
  eapply conforms_seq; [apply arm_read_account|]. intros l [] ->. walk; try by (simplify_eq; constructor).
  eapply conforms_seq; [apply route_loop_account|].
  intros l [[h b d| |e|w]|] Hl; walk; try done; try by (simplify_eq; constructor).
  - destruct Hl as (k & Hk & ->). eapply conforms_seq; [by apply tunnel_account|].
    intros l res Hacc. walk. by simplify_eq.
  - by simplify_eq.
Qed.

End monitors.

(** ** The relay's two goroutines

    [relay] starts both halves at once.  Here each of their steps is taken
    separately and in any order: the copy ends (with the count and error the
    network decides, [outcome]), the bytes are counted, the write side is
    closed, and the error is sent on [errCh]. *)
Inductive half := Copying | Copied | Counted | Closed | Sent.

Section halves.

Record halves := mkHalves {
  h_state : direction → half;
  h_metrics : option Collector;
  h_closed : list direction;
  errCh : list (option goerror);
}.

Context (outcome : direction → Z * option goerror).

Definition set_half (f : direction → half) (d : direction) (x : half) : direction → half :=
  λ d', if direction_eqb d' d then x else f d'.

Inductive half_step : halves → halves → Prop :=
  | step_copied d f m c q :
      f d = Copying → half_step (mkHalves f m c q) (mkHalves (set_half f d Copied) m c q)
  | step_counted d f m c q :
      f d = Copied →
      half_step (mkHalves f m c q)
        (mkHalves (set_half f d Counted) (AddRelayBytes m (direction_name d) (outcome d).1) c q)
  | step_closed d f m c q :
      f d = Counted →
      half_step (mkHalves f m c q) (mkHalves (set_half f d Closed) m (c ++ [d]) q)
  | step_sent d f m c q :
      f d = Closed →
      half_step (mkHalves f m c q) (mkHalves (set_half f d Sent) m c (q ++ [(outcome d).2])).

Definition relay_start (m : option Collector) : halves := mkHalves (λ _, Copying) m [] [].

(** The two goroutines have ended. *)
Definition relay_done (s : halves) : Prop := ∀ d, h_state s d = Sent.

(** Steps a half still has to take. *)
Definition half_left (x : half) : nat :=
  match x with Copying => 4 | Copied => 3 | Counted => 2 | Closed => 1 | Sent => 0 end.
Definition steps_left (s : halves) : nat :=
  half_left (h_state s ClientToBackend) + half_left (h_state s BackendToClient).

(** The metrics and messages due to a half that has come this far. *)
Definition half_metrics (s : halves) (d : direction) (m : option Collector) : option Collector :=
  if half_left (h_state s d) <=? 2 then
    AddRelayBytes m (direction_name d) (outcome d).1
  else m.

Definition half_sent (s : halves) (d : direction) : list (option goerror) :=
  if half_left (h_state s d) <=? 0 then [(outcome d).2] else [].

Definition half_closed (s : halves) (d : direction) : list direction :=
  if half_left (h_state s d) <=? 1 then [d] else [].

(** The invariant of the interleaving. *)
Definition halves_ok (m : option Collector) (s : halves) : Prop :=
  h_metrics s = half_metrics s BackendToClient (half_metrics s ClientToBackend m) ∧
  h_closed s ≡ₚ half_closed s ClientToBackend ++ half_closed s BackendToClient ∧
  errCh s ≡ₚ half_sent s ClientToBackend ++ half_sent s BackendToClient.

Lemma AddRelayBytes_comm m d1 n1 d2 n2 :
  d1 ≠ d2 →
  AddRelayBytes (AddRelayBytes m (direction_name d1) n1) (direction_name d2) n2 =
  AddRelayBytes (AddRelayBytes m (direction_name d2) n2) (direction_name d1) n1.
Proof.
  intros Hne. assert (direction_name d1 ≠ direction_name d2) as Hn by (by destruct d1, d2).
  destruct m as [c|]; [|done]. unfold AddRelayBytes. cbn -[direction_name].
  destruct (n1 <=? 0)%Z, (n2 <=? 0)%Z; cbn -[direction_name]; try done.
  unfold set_relayBytes, bump. cbn -[direction_name].
  rewrite !lookup_insert_ne by done. by rewrite insert_insert_ne by done.
Qed.

Lemma half_step_ok m s s' : half_step s s' → halves_ok m s → halves_ok m s'.
Proof.
  unfold halves_ok, half_metrics, half_closed, half_sent.
  intros [d f m0 c q Hf|d f m0 c q Hf|d f m0 c q Hf|d f m0 c q Hf] (Hm & Hc & Hq); cbn -[AddRelayBytes] in *;
    destruct d; unfold set_half; cbn -[AddRelayBytes]; rewrite Hf in Hm, Hc, Hq;
    cbn -[AddRelayBytes] in Hm, Hc, Hq |- *;
    split_and!; rewrite ?Hm, ?Hc, ?Hq, ?app_nil_r; try done; try by rewrite Permutation_app_comm.
  destruct (half_left (f BackendToClient) <=? 2); [|reflexivity].
  by apply (AddRelayBytes_comm _ BackendToClient _ ClientToBackend).
Qed.

Lemma relay_done_left s : relay_done s ↔ steps_left s = 0.
Proof.
  unfold relay_done, steps_left. split; [intros Hd; by rewrite !Hd|].
  intros H0 []; destruct (h_state s ClientToBackend), (h_state s BackendToClient);
    cbn in H0; lia || done.
Qed.

(** Every step brings the relay closer to its end, and a relay that has not
    ended can take one. *)
Lemma half_step_progress s :
  (∀ s', half_step s s' → S (steps_left s') = steps_left s) ∧
  (¬ relay_done s → ∃ s', half_step s s').
Proof.
  split.
  - intros s' [d f m c q Hf|d f m c q Hf|d f m c q Hf|d f m c q Hf]; unfold steps_left, set_half;
      destruct d; cbn; rewrite Hf; cbn; lia.
  - intros Hd. destruct s as [f m c q].
    assert (∃ d, f d ≠ Sent) as [d Hs].
    { destruct (f ClientToBackend) eqn:E1; try by (exists ClientToBackend; rewrite E1).
      destruct (f BackendToClient) eqn:E2; try by (exists BackendToClient; rewrite E2).
      destruct Hd. by intros []. }
    destruct (f d) eqn:E; [| | | |done]; eexists; by (econstructor; exact E).
Qed.

End halves.

(** ** Properties of the handler *)

Lemma halves_ok_reach outcome m s :
  rtc (half_step outcome) (relay_start m) s → halves_ok outcome m s.
Proof.
  intros Hr. eapply rtc_preserve; [|exact Hr|].
  - intros a b Hs. by eapply half_step_ok.
  - by split_and!.
Qed.

(** The metric operations of a trace, in order. *)
Definition ops (t : list (event answer)) : list metric_op :=
  omap (λ ev, match ev with Event (Metric op) _ => Some op | _ => None end) t.

Section handler_properties.
Context `{UnicodeTables}.

(** C3: every run of [handleConnection], whatever the network, the router and the discoverer answer, follows the session protocol: the request is read only after a successful negotiation, a connection is attempted only to the backend the router has just selected and at most twice, the discoverer is asked at most once, the client gets the success reply only over an open backend connection and the failure reply at most once and never after it, each direction is copied exactly once, and a backend connection that was opened is closed; a result without an error means a relayed session, and the loop always ends. *)
Theorem handleConnection_session cfg t r :
  runs (handleConnection cfg) t r →
  ∃ s, watch session_step Fresh t = Some s ∧ session_end s r.
Proof. intros Hr. by eapply conforms_runs; [apply handleConnection_conforms|]. Qed.

(** C18: the metrics account for every session exactly once: a session that fails records one connection error with the stage it failed in (and the matching route, dial and request counters with the classified reason), a session that succeeds records none but one success and one duration, [established] is always followed by exactly one of [fin] and [rst], and a second request is only counted when a discoverer is configured. *)
Theorem handleConnection_accounted cfg t r :
  runs (handleConnection cfg) t (Some r) →
  accounted cfg (List.filter counts (ops t)) r.
Proof.
  assert (∀ t l l', watch account_step l t = Some l' → l' = l ++ List.filter counts (ops t)) as Hw.
  { clear. induction t as [|[e a] t IH]; intros l l'; cbn [watch].
    { intros [= <-]. by rewrite app_nil_r. }
    unfold mbind. cbn [option_bind]. destruct e; cbn; try by intros Hw%IH.
    intros Hw%IH. cbn. rewrite Hw. destruct (counts op); cbn; [by rewrite <-app_assoc|done]. }
  intros Hr. destruct (conforms_runs _ _ _ _ _ _ (handleConnection_account cfg) Hr) as (l & Hl & Ha).
  apply Hw in Hl as ->. by apply Ha.
Qed.

(** C12: the two goroutines of [relay] always finish once both copies have, and in every interleaving of their steps the bytes of both directions are counted, both write sides are closed, and the result is the one of the sequential [relay] for one of the two orders of completion; whether the session counts as reset, and whether it counts as failed, does not depend on the order. *)
Theorem relay_interleavings outcome m s :
  rtc (half_step outcome) (relay_start m) s →
  ((∃ s', half_step outcome s s') ∨ relay_done s) ∧
  (∀ s', half_step outcome s s' → (steps_left s' < steps_left s)%nat) ∧
  (relay_done s →
     let err d := (outcome d).2 in
     h_closed s ≡ₚ [ClientToBackend; BackendToClient] ∧
     (∃ first t, errCh s = [err first; err (other first)] ∧
        runs relay t (first_error (errCh s) None, classifyCloseType (err first) (err (other first))) ∧
        foldl (λ c op, apply_metric op c) m (ops t) = h_metrics s ∧
        classifyCloseType (err first) (err (other first)) =
          (if isRSTError (err ClientToBackend) || isRSTError (err BackendToClient) then "rst" else "fin") ∧
        (first_error (errCh s) None = None ↔
           ∀ d, isIgnorableCopyError (err d) = true))).
Proof.
  intros Hr. pose proof (half_step_progress outcome s) as [Hdec Hprog]. split_and!.
  - destruct (decide (steps_left s = 0)) as [H0|H0]; [right; by apply relay_done_left|].
    left. apply Hprog. by rewrite relay_done_left.
  - intros s' Hs%Hdec. lia.
  - intros Hd. cbn zeta. destruct (halves_ok_reach _ _ _ Hr) as (Hm & Hc & Hq).
    unfold half_metrics, half_closed, half_sent in Hm, Hc, Hq.
    rewrite !Hd in Hm, Hc, Hq. cbn -[AddRelayBytes direction_name] in Hm, Hc, Hq.
    split; [done|].
    assert (∃ first, errCh s = [(outcome first).2; (outcome (other first)).2]) as [first Hf].
    { apply symmetry, Permutation_length_2_inv in Hq as [->| ->];
        [by exists ClientToBackend|by exists BackendToClient]. }
    exists first. rewrite Hf.
    exists [Event FirstHalf first; Event (Copy first) (outcome first);
       Event (Metric (MRelayBytes (direction_name first) (outcome first).1)) tt;
       Event (CloseWrite first) tt; Event (Copy (other first)) (outcome (other first));
       Event (Metric (MRelayBytes (direction_name (other first)) (outcome (other first)).1)) tt;
       Event (CloseWrite (other first)) tt].
    split; [done|]. split; [|split; [|split]].
    + unfold relay, copyHalf. do 7 constructor. constructor.
    + rewrite Hm. destruct first; [done|].
      by apply (AddRelayBytes_comm _ BackendToClient _ ClientToBackend).
    + unfold classifyCloseType. destruct first; [done|]. by rewrite orb_comm.
    + assert (∀ e1 e2, first_error [e1; e2] None = None ↔
        isIgnorableCopyError e1 = true ∧ isIgnorableCopyError e2 = true) as He.
      { intros e1 e2. unfold first_error.
        destruct (isIgnorableCopyError e1) eqn:E1, (isIgnorableCopyError e2) eqn:E2; cbn;
          rewrite ?bool_decide_eq_true_2 by done; cbn.
        all: destruct e1, e2; cbn; try done; split; done || (by intros []) || (by intros [? ?]). }
      rewrite He. split; [|by intros Ha; split]. intros [H1 H2] d.
      destruct first, d; done.
Qed.

End handler_properties.

(** ** Witnesses *)

#[local] Existing Instance ascii_tables.

Definition sample_settings : settings := mkSettings 4 30 1 1 10 10 300 true.

(** Answers for a session to a routed host. *)
Definition script (e : effect) (u : unit) : unit * answer e :=
  (tt, match e return answer e with
       | Now => 0%Z
       | Handshake | SendFailure _ | SendSuccess _ => Ok tt
       | ReadRequest => Ok (mkRequest atypFQDN "API.internal" 80)
       | CurrentRouter => 0
       | LookupBackend _ _ => None
       | PickBackend _ _ => Ok "10.0.0.1:80"
       | TryAcquireDial => true
       | Dial _ _ _ => inr (mkDialed true (TCPAddr [Byte.x0a; Byte.x00; Byte.x00; Byte.x02] 4000))
       | Discover _ _ => (false, None)
       | FirstHalf => BackendToClient
       | Copy _ => (7%Z, None)
       | _ => tt
       end).

Definition sample_trace : list (event answer) := (exec script (handleConnection sample_settings) tt).1.2.

Lemma sample_run : runs (handleConnection sample_settings) sample_trace (Some (Ok tt)).
Proof.
  unfold sample_trace.
  assert ((exec script (handleConnection sample_settings) tt).2 = Some (Ok tt)) as <-
    by (vm_compute; reflexivity).
  apply exec_runs.
Qed.

Lemma handleConnection_session_witness :
  watch session_step Fresh sample_trace = Some (Done true).
Proof.
  destruct (handleConnection_session sample_settings sample_trace (Some (Ok tt)) sample_run)
    as (s & -> & ->). reflexivity.
Defined.

Lemma handleConnection_accounted_witness :
  accounted sample_settings
    (replicate 1 (MRequest "fqdn") ++
       [MTCPState "established"; MTCPState "fin";
        MRequestByBackend "api.internal" "10.0.0.1:80" "success"; MSessionDuration 0])
    (Ok tt).
Proof.
  exact (handleConnection_accounted sample_settings sample_trace (Ok tt) sample_run).
Defined.

Definition sample_outcome (d : direction) : Z * option goerror :=
  match d with
  | ClientToBackend => (5%Z, None)
  | BackendToClient => (7%Z, Some (ErrMsg "read: connection reset by peer"))
  end.

(** Both copies end, then the backend's half runs to its end before the other. *)
Lemma sample_relay :
  ∃ s, rtc (half_step sample_outcome) (relay_start (Some NewCollector)) s ∧ relay_done s ∧
    errCh s = [Some (ErrMsg "read: connection reset by peer"); None].
Proof.
  eexists. split.
  - eapply rtc_l; [by apply (step_copied _ ClientToBackend)|].
    eapply rtc_l; [by apply (step_copied _ BackendToClient)|].
    eapply rtc_l; [by apply (step_counted _ BackendToClient)|].
    eapply rtc_l; [by apply (step_closed _ BackendToClient)|].
    eapply rtc_l; [by apply (step_sent _ BackendToClient)|].
    eapply rtc_l; [by apply (step_counted _ ClientToBackend)|].
    eapply rtc_l; [by apply (step_closed _ ClientToBackend)|].
    eapply rtc_l; [by apply (step_sent _ ClientToBackend)|]. apply rtc_refl.
  - split; [by intros []|reflexivity].
Qed.

Lemma relay_interleavings_witness :
  ∃ s, relay_done s ∧ errCh s = [Some (ErrMsg "read: connection reset by peer"); None] ∧
    h_closed s ≡ₚ [ClientToBackend; BackendToClient].
Proof.
  destruct sample_relay as (s & Hr & Hd & He). exists s.
  destruct (relay_interleavings sample_outcome (Some NewCollector) s Hr) as (_ & _ & Hq).
  split; [exact Hd|]. split; [exact He|]. exact (proj1 (Hq Hd)).
Defined.

(** ** The reason labels of failed dials *)

(** The classification searches the whole error text, which quotes the host the client asked for: a refused connection to a host whose name contains the word is reported as a timeout, and a dial over the limit takes the label of whatever phrase the host name spells. *)
Theorem dial_reason_from_host :
  classifyDialError (dial_error "10.0.0.1:80" "timeout.internal" (ErrMsg "connect: connection refused"))
    = "timeout" ∧
  classifyDialError (dial_error "10.0.0.1:80" "api.internal" (ErrMsg "connect: connection refused"))
    = "dial_error" ∧
  classifyDialError (limit_error "no alive backends") = "no_alive_backends" ∧
  classifyDialError (limit_error "api.internal") = "dial_limit".
Proof. by vm_compute. Qed.
