(* ===== verification/Server.v ===== *)
(** * The server: [src/internal/socks/server.go]

    The state the connection goroutines share, how each effect of a handler
    acts on it, the accept loop, and the interleaving of any number of
    connections with the accept loop, router updates, health results and
    shutdown.  What the network does (accepted connections, dial and copy
    results, the clock) is chosen freely at every step. *)
From S2P Require Import Prelude GoStrings GoNet Protocol Metrics Prog Handler.
From S2P Require Router.

(** ** State *)

(** [routers] are all routers that were ever installed and [current] is the
    pointer in [routeDialer]; [dialSlots] and [connSlots] count the tokens in
    [inflightSem] and [connLimitSem]; [wg] is the [WaitGroup] counter. *)
Record shared := mkShared {
  routers : list Router.Router;
  current : nat;
  dialSlots : nat;
  connSlots : nat;
  wg : nat;
  collector : option Collector;
  s_log : list string;
}.

(** What one connection goroutine owns. *)
Record peer := mkPeer {
  p_conn : conn;
  p_readDeadline : option Z;
  p_writeDeadline : option Z;
  p_backendDeadline : option Z;
  p_closed : bool;
}.

(** What the environment does next: the clock, the text of the client's
    address, the result of dialing an
    address, the discoverer, and the two copies. *)
Record network := mkNetwork {
  n_clock : Z;
  n_remote : string;
  n_dial : string → goerror + dialed;
  n_discover : string → Z → bool * option goerror;
  n_first : direction;
  n_copy : direction → Z * option goerror;
}.

Definition set_routers (s : shared) (rs : list Router.Router) (cur : nat) : shared :=
  mkShared rs cur (dialSlots s) (connSlots s) (wg s) (collector s) (s_log s).
Definition set_dialSlots (s : shared) (n : nat) : shared :=
  mkShared (routers s) (current s) n (connSlots s) (wg s) (collector s) (s_log s).
Definition set_connSlots (s : shared) (n : nat) : shared :=
  mkShared (routers s) (current s) (dialSlots s) n (wg s) (collector s) (s_log s).
Definition set_wg (s : shared) (n : nat) : shared :=
  mkShared (routers s) (current s) (dialSlots s) (connSlots s) n (collector s) (s_log s).
Definition set_collector (s : shared) (c : option Collector) : shared :=
  mkShared (routers s) (current s) (dialSlots s) (connSlots s) (wg s) c (s_log s).
Definition add_log (s : shared) (l : string) : shared :=
  mkShared (routers s) (current s) (dialSlots s) (connSlots s) (wg s) (collector s) (s_log s ++ [l]).

Definition set_conn (p : peer) (c : conn) : peer :=
  mkPeer c (p_readDeadline p) (p_writeDeadline p) (p_backendDeadline p) (p_closed p).
Definition new_peer (c : conn) : peer := mkPeer c None None None false.

Section server.
Context `{UnicodeTables}.
Context (cfg : settings).

(** [UpdateRouter] *)
Definition UpdateRouter (r : Router.Router) (s : shared) : shared :=
  set_routers s (routers s ++ [r]) (length (routers s)).

(** Run a program of [protocol.go] on the client's connection. *)
Definition on_conn {A} (m : io A) (s : shared) (p : peer) : (shared * peer) * result A :=
  let '(c, r) := m (p_conn p) in ((s, set_conn p c), r).

(** How an effect acts on the shared state and the goroutine's own. *)
Definition respond (net : network) (s : shared) (p : peer) (e : effect)
    : (shared * peer) * answer e :=
  match e return (shared * peer) * answer e with
  | Now => ((s, p), n_clock net)
  | SetReadDeadline t =>
      ((s, mkPeer (p_conn p) t (p_writeDeadline p) (p_backendDeadline p) (p_closed p)), tt)
  | SetWriteDeadline t =>
      ((s, mkPeer (p_conn p) (p_readDeadline p) t (p_backendDeadline p) (p_closed p)), tt)
  | SetDeadline t =>
      ((s, mkPeer (p_conn p) (Some t) (Some t) (p_backendDeadline p) (p_closed p)), tt)
  | BackendSetDeadline t =>
      ((s, mkPeer (p_conn p) (p_readDeadline p) (p_writeDeadline p) (Some t) (p_closed p)), tt)
  | Handshake => on_conn handleHandshake s p
  | ReadRequest => on_conn readRequest s p
  | SendFailure code => on_conn (writeFailureReply code) s p
  | SendSuccess a => on_conn (writeSuccessReply a) s p
  | Metric op => ((set_collector s (apply_metric op (collector s)), p), tt)
  | CurrentRouter => ((s, p), current s)
  | LookupBackend rt addr =>
      ((s, p), r ← routers s !! rt; Router.HostForBackendAddr r addr)
  | PickBackend rt host =>
      match routers s !! rt with
      | None => ((s, p), Panic "nil pointer dereference")
      | Some r =>
          let '(r, res) := Router.Pick r host in
          ((set_routers s (<[rt := r]> (routers s)) (current s), p), res)
      end
  | TryAcquireDial =>
      if (Z.of_nat (dialSlots s) <? maxInflightDials cfg)%Z
      then ((set_dialSlots s (S (dialSlots s)), p), true) else ((s, p), false)
  | ReleaseDial => ((set_dialSlots s (pred (dialSlots s)), p), tt)
  | Dial target _ _ => ((s, p), n_dial net target)
  | BackendSetKeepAlive _ => ((s, p), tt)
  | CloseBackend => ((s, p), tt)
  | Discover host port => ((s, p), n_discover net host port)
  | FirstHalf => ((s, p), n_first net)
  | Copy d => ((s, p), n_copy net d)
  | CloseWrite d => ((s, p), tt)
  | LogError e => ((add_log s ("socks5: connection error from=" +:+ n_remote net +:+ " err=" +:+ err_text e), p), tt)
  | ReleaseConn => ((set_connSlots s (pred (connSlots s)), p), tt)
  | CloseClient =>
      ((s, mkPeer (p_conn p) (p_readDeadline p) (p_writeDeadline p) (p_backendDeadline p) true), tt)
  | WgDone => ((set_wg s (pred (wg s)), p), tt)
  end.

(** A receive from an empty semaphore blocks, and [wg.Done] on a zero counter
    panics. *)
Definition blocked (s : shared) (e : effect) : bool :=
  match e with
  | ReleaseDial => dialSlots s =? 0
  | ReleaseConn => connSlots s =? 0
  | WgDone => wg s =? 0
  | _ => false
  end.

(** An answer that would crash the process. *)
Definition crashes (e : effect) : answer e → bool :=
  match e return answer e → bool with
  | Handshake | SendFailure _ | SendSuccess _ => λ r, match r with Panic _ => true | _ => false end
  | ReadRequest => λ r, match r with Panic _ => true | _ => false end
  | PickBackend _ _ => λ r, match r with Panic _ => true | _ => false end
  | _ => λ _, false
  end.

(** The goroutine [i] runs [serveClient] until it ends, alone. *)
Definition run_alone (net : network) (s : shared) (c : conn)
    : (shared * peer) * list (event answer) * option unit :=
  exec (λ e w, respond net w.1 w.2 e) (serveClient cfg) (s, new_peer c).

(** *** The accept loop *)

Inductive serve_state :=
  | NotListening
  | Accepting
  | Returned (err : option goerror).

Record system := mkSystem {
  sh : shared;
  threads : list (peer * go (option unit));
  serve : serve_state;
  listener_closed : bool;
}.

(** [newRouteDialer]: the first router is current and the semaphore is empty;
    the server around it has no connections yet. *)
Definition newRouteDialer (r : Router.Router) (m : option Collector) : shared :=
  mkShared [r] 0 0 0 0 m [].

(** [New] *)
Definition New (r : Router.Router) (m : option Collector) : system :=
  mkSystem (newRouteDialer r m) [] NotListening false.

(** The body of the accept loop for a TCP connection. *)
Definition accept (c : conn) (s : shared) : shared * list (peer * go (option unit)) :=
  if (0 <? maxConnections cfg)%Z && negb (Z.of_nat (connSlots s) <? maxConnections cfg)%Z then
    (set_collector s (IncConnectionError (collector s) "conn_limit"), [])
  else
    let s := if (0 <? maxConnections cfg)%Z then set_connSlots s (S (connSlots s)) else s in
    let s := set_collector s (IncConnectionAccepted (collector s)) in
    let s := set_collector s (IncTCPState (collector s) "syn") in
    (set_wg s (S (wg s)), [(new_peer c, serveClient cfg)]).

(** [Shutdown]: without a listener there is nothing to close. *)
Definition Shutdown (s : system) : system :=
  match serve s with
  | NotListening => s
  | _ => mkSystem (sh s) (threads s) (serve s) true
  end.

(** What [Serve] returns for an error of [Accept]. *)
Definition accept_error (e : goerror) : option goerror :=
  if errors_Is e SNetClosed then None else Some (wrap_err "accept" e).

(** [Wait] reports true exactly when the counter has reached zero. *)
Definition drained (s : system) : Prop := wg (sh s) = 0.

Inductive step : system → system → Prop :=
  | step_listen s t b addr :
      step (mkSystem s t NotListening b)
        (mkSystem (add_log s ("socks5: listening on " +:+ addr)) t Accepting b)
  | step_listen_error s t b addr e :
      step (mkSystem s t NotListening b)
        (mkSystem s t (Returned (Some (wrap_err ("listen " +:+ addr) e))) b)
  | step_accept s t c :
      step (mkSystem s t Accepting false)
        (mkSystem (accept c s).1 (t ++ (accept c s).2) Accepting false)
  | step_accept_other s t type :
      step (mkSystem s t Accepting false)
        (mkSystem (add_log s ("socks5: rejecting non-tcp connection type=" +:+ type)) t Accepting false)
  | step_accept_error s t b e :
      (errors_Is e SNetClosed = true ↔ b = true) →
      step (mkSystem s t Accepting b) (mkSystem s t (Returned (accept_error e)) b)
  | step_shutdown s : step s (Shutdown s)
  | step_thread s t sv b i p e k net s' p' a :
      t !! i = Some (p, Do e k) → blocked s e = false →
      respond net s p e = ((s', p'), a) →
      step (mkSystem s t sv b) (mkSystem s' (<[i := (p', k a)]> t) sv b)
  | step_update s t sv b r :
      Router.router_wf r →
      step (mkSystem s t sv b) (mkSystem (UpdateRouter r s) t sv b)
  | step_health s t sv b i r host addr up :
      routers s !! i = Some r →
      step (mkSystem s t sv b)
        (mkSystem (set_routers s (<[i := (Router.SetBackendAlive r host addr up).1]> (routers s))
                     (current s)) t sv b)
  | step_log s t sv b line :
      step (mkSystem s t sv b) (mkSystem (add_log s line) t sv b)
  | step_observe s t sv b host addr up :
      step (mkSystem s t sv b)
        (mkSystem (set_collector s (ObserveHealthcheck (collector s) host addr up)) t sv b).

End server.

(** ** Slots and counters *)

(** What a connection goroutine still holds: a dial slot, its connection slot,
    its place in the [connectionsActive] gauge and in the [WaitGroup].  While it
    serves its client it holds the last three; it dials only with a dial slot;
    it leaves the gauge when it has given its connection slot back, and closes
    the client and leaves the wait group after that; then it does nothing
    more. *)
Record holds := mkHolds { h_dial : bool; h_conn : bool; h_active : bool; h_wg : bool }.

Section holding.
Context (cfg : settings).

Definition limits_conns : bool := (0 <? maxConnections cfg)%Z.
Definition limits_dials : bool := (0 <? maxInflightDials cfg)%Z.

(** The goroutine serves its client. *)
Definition busy (h : holds) : bool := h_active h && h_wg h && Bool.eqb (h_conn h) limits_conns.

(** It has served its client and left the gauge. *)
Definition leaving (h : holds) : bool := h_wg h && negb (h_dial h || h_conn h || h_active h).

Definition hold_step (h : holds) (ev : event answer) : option holds :=
  match ev with
  | Event TryAcquireDial got =>
      if busy h && negb (h_dial h) then Some (mkHolds got (h_conn h) (h_active h) (h_wg h)) else None
  | Event (Dial _ _ _) _ => if busy h && (h_dial h || negb limits_dials) then Some h else None
  | Event ReleaseDial _ =>
      if busy h && h_dial h then Some (mkHolds false (h_conn h) (h_active h) (h_wg h)) else None
  | Event ReleaseConn _ =>
      if busy h && h_conn h && negb (h_dial h)
      then Some (mkHolds (h_dial h) false (h_active h) (h_wg h)) else None
  | Event (Metric MConnectionInactive) _ =>
      if h_active h && h_wg h && negb (h_conn h || h_dial h)
      then Some (mkHolds (h_dial h) (h_conn h) false (h_wg h)) else None
  | Event (Metric MConnectionAccepted) _ => None
  | Event CloseClient _ => if leaving h then Some h else None
  | Event WgDone _ =>
      if leaving h then Some (mkHolds (h_dial h) (h_conn h) (h_active h) false) else None
  | _ => if busy h then Some h else None
  end.

Definition accepted_holds : holds := mkHolds false limits_conns true true.
Definition released : holds := mkHolds false false false false.

(** A goroutine that has ended holds nothing. *)
Definition finished (h : holds) (r : option unit) : Prop := h = released ∧ r = Some tt.

End holding.

(** How many elements satisfy a test. *)
Fixpoint total {A} (f : A → bool) (l : list A) : nat :=
  match l with [] => 0 | x :: l => (if f x then 1 else 0) + total f l end.

Lemma total_app {A} (f : A → bool) hs1 hs2 : total f (hs1 ++ hs2) = total f hs1 + total f hs2.
Proof. induction hs1 as [|h hs1 IH]; cbn; [done|]. rewrite IH. lia. Qed.

Lemma total_insert {A} (f : A → bool) hs i h h' :
  hs !! i = Some h →
  total f (<[i := h']> hs) + (if f h then 1 else 0) = total f hs + (if f h' then 1 else 0).
Proof.
  revert i. induction hs as [|h0 hs IH]; intros [|i]; cbn [lookup list_lookup insert list_insert total]; [done|done| |].
  - intros [= ->]. destruct (f h), (f h'); lia.
  - intros Hi. specialize (IH i Hi). unfold insert in IH |- *. destruct (f h0), (f h), (f h'); lia.
Qed.

Lemma total_pos {A} (f : A → bool) hs i h : hs !! i = Some h → f h = true → total f hs ≠ 0.
Proof.
  revert i. induction hs as [|h0 hs IH]; intros [|i]; cbn [lookup list_lookup total]; [done|done| |].
  - intros [= ->] ->. lia.
  - intros Hi Hf. specialize (IH i Hi Hf). lia.
Qed.

Lemma total_zero {A} (f : A → bool) hs : (∀ h, h ∈ hs → f h = false) → total f hs = 0.
Proof.
  induction hs as [|h hs IH]; intros Hf; cbn; [done|].
  rewrite (Hf h) by (apply elem_of_cons; by left). apply IH. intros h' Hh. apply Hf, elem_of_cons. by right.
Qed.

(** Two ways of counting agree. *)
Lemma total_ext {A B} (f : A → bool) (g : B → bool) l k :
  Forall2 (λ x y, f x = g y) l k → total f l = total g k.
Proof. induction 1 as [|x y l k E _ IH]; cbn; [done|]. by rewrite E, IH. Qed.

Lemma total_le {A} (f g : A → bool) l : (∀ x, x ∈ l → f x = true → g x = true) → total f l ≤ total g l.
Proof.
  induction l as [|x l IH]; intros Hfg; cbn; [done|].
  assert (total f l ≤ total g l) by (apply IH; intros y Hy; apply Hfg, elem_of_cons; by right).
  specialize (Hfg x ltac:(apply elem_of_cons; by left)). destruct (f x); [rewrite Hfg by done|]; lia.
Qed.

(** An effect that acquires and releases nothing, of a goroutine that serves its
    client. *)
Definition neutral (e : effect) : bool :=
  match e with
  | TryAcquireDial | ReleaseDial | Dial _ _ _ | ReleaseConn | CloseClient | WgDone
  | Metric MConnectionInactive | Metric MConnectionAccepted => false
  | _ => true
  end.

Lemma neutral_step cfg e h r :
  busy cfg h = true → neutral e = true → hold_step cfg h (Event e r) = Some h.
Proof. unfold hold_step. intros ->. destruct e; try done. by destruct op. Qed.

Section serve_lemmas.
Context `{UnicodeTables}.
Context (cfg : settings).

(** A program that leaves what is held as it found it. *)
#[local] Abbreviation keeps h := (preserves (hold_step cfg) (λ h', h' = h)).

Ltac keeping := preserving ltac:(by (intros ? ? ->; eexists; split; [by apply neutral_step|])).

Lemma keeps_arm_read h : busy cfg h = true → keeps h (arm_read cfg).
Proof. unfold arm_read. keeping. Qed.

Lemma keeps_Dial h target d ka :
  busy cfg h = true → h_dial h || negb (limits_dials cfg) = true → keeps h (perform (Dial target d ka)).
Proof. intros Hb Hd h' -> r. cbn. by rewrite Hb, Hd. Qed.

#[local] Hint Resolve keeps_arm_read keeps_Dial : preserved.

Lemma keeps_dial_picked h host :
  busy cfg h = true → h_dial h || negb (limits_dials cfg) = true → keeps h (dial_picked cfg host).
Proof.
  intros Hb Hd. unfold dial_picked. repeat (apply preserves_bind; [keeping|intros ?]). keeping.
Qed.

Lemma keeps_DialRoute h host : busy cfg h = true → h_dial h = false → keeps h (DialRoute cfg host).
Proof.
  unfold DialRoute. fold (limits_dials cfg). destruct (limits_dials cfg) eqn:El.
  2: { intros. apply keeps_dial_picked; [done|]. by rewrite El, orb_true_r. }
  intros Hb Hh h' ->. cbn. intros got. rewrite Hb, Hh. cbn [andb negb].
  set (h1 := mkHolds got (h_conn h) (h_active h) (h_wg h)).
  assert (busy cfg h1 = true) as Hb1 by exact Hb.
  assert (mkHolds false (h_conn h1) (h_active h1) (h_wg h1) = h) as Hh1 by (destruct h; cbn in *; by subst).
  destruct got; [|exact Hh1].
  change (conforms (hold_step cfg) h1 (r ← dial_picked cfg host; _ ← perform ReleaseDial; mret r) (λ h' _, h' = h)).
  eapply conforms_seq; [exact (keeps_dial_picked h1 host Hb1 eq_refl _ eq_refl)|].
  intros h2 r ->. cbn. intros _. rewrite Hb1. exact Hh1.
Qed.

Lemma keeps_try_discover h attempt host p : busy cfg h = true → keeps h (try_discover cfg attempt host p).
Proof. unfold try_discover. keeping. Qed.

#[local] Hint Resolve keeps_DialRoute keeps_try_discover : preserved.

Lemma keeps_dial_attempt h req attempt host :
  busy cfg h = true → h_dial h = false → keeps h (dial_attempt cfg req attempt host).
Proof. unfold dial_attempt, metric. keeping. Qed.

#[local] Hint Resolve keeps_dial_attempt : preserved.

Lemma keeps_route_loop h req fuel attempt :
  busy cfg h = true → h_dial h = false → keeps h (route_loop cfg req fuel attempt).
Proof.
  intros Hw Hh. revert attempt. induction fuel as [|fuel IH]; intros attempt; cbn [route_loop];
    [apply preserves_ret|]. unfold route_attempt, metric. keeping.
Qed.

Lemma keeps_tunnel h start host b d : busy cfg h = true → keeps h (tunnel cfg start host b d).
Proof. unfold tunnel, relay, copyHalf, metric. keeping. Qed.

#[local] Hint Resolve keeps_route_loop keeps_tunnel : preserved.

Lemma keeps_handleConnection h : busy cfg h = true → h_dial h = false → keeps h (handleConnection cfg).
Proof. intros Hw Hh. unfold handleConnection, metric. keeping. Qed.

Lemma accepted_busy : busy cfg (accepted_holds cfg) = true.
Proof. unfold busy. cbn. apply Bool.eqb_reflx. Qed.

(** A connection goroutine starts with its connection slot, its place in the
    gauge and in the wait group, and ends with none of them; and it ends: the
    fuel of its routing loop suffices. *)
Lemma serveClient_holds :
  conforms (hold_step cfg) (accepted_holds cfg) (serveClient cfg) finished.
Proof.
  pose proof accepted_busy as Hb. unfold serveClient. eapply conforms_seq.
  { eapply conforms_also; [|apply handleConnection_conforms].
    exact (keeps_handleConnection (accepted_holds cfg) Hb eq_refl _ eq_refl). }
  intros h [r|] [-> [s Hend]]; [|done].
  assert (keeps (accepted_holds cfg)
    (match r with Err e => perform (LogError e) | _ => mret tt end)) as Hl by keeping.
  eapply conforms_seq; [by apply Hl|]. intros h [] ->. clear Hl Hend. revert Hb.
  unfold accepted_holds, limits_conns.
  destruct (0 <? maxConnections cfg)%Z eqn:E; cbn; unfold busy, limits_conns; cbn; rewrite E; cbn; done.
Qed.

(** A step is one of a goroutine in the wait group, and only [wg.Done] leaves
    it. *)
Lemma hold_step_wg h ev h' :
  hold_step cfg h ev = Some h' → h_wg h = true ∧ (h_wg h' = true ∨ ev = Event WgDone tt).
Proof.
  assert (busy cfg h = true → h_wg h = true) as Hb.
  { unfold busy. by intros [[_ ?]%andb_true_iff _]%andb_true_iff. }
  assert (leaving h = true → h_wg h = true) as Hl by by intros [? _]%andb_true_iff.
  destruct ev as [e a]. destruct e; cbn [hold_step]; try destruct op;
    try destruct (busy cfg h) eqn:Eb; try destruct (leaving h) eqn:El; try done;
    try (destruct a; cbn [andb]; intros [= <-]; by auto);
    try (intros [= <-]; by auto).
  all: cbn [andb]; repeat match goal with |- (if ?x then _ else _) = _ → _ => destruct x eqn:? end;
    intros [= <-]; bools; by auto.
Qed.

(** After [wg.Done] a goroutine does nothing; so if it has given up its place,
    that was the last thing it did. *)
Lemma wg_last t h h' :
  watch (hold_step cfg) h t = Some h' → h_wg h = true → h_wg h' = false →
  ∃ t', t = t' ++ [Event WgDone tt] ∧ Event WgDone tt ∉ t'.
Proof.
  revert h. induction t as [|ev t IH]; intros h; cbn [watch]; [intros [= ->]; congruence|].
  unfold mbind. cbn [option_bind]. destruct (hold_step cfg h ev) as [h1|] eqn:Es; [|done]. intros Hw Hh Hh'.
  destruct (h_wg h1) eqn:E1.
  - destruct (IH h1 Hw E1 Hh') as (t' & -> & Hno). exists (ev :: t'). split; [done|].
    intros [<-|?]%elem_of_cons; [|done]. cbn in Es. destruct (leaving h); [|done]. by injection Es as <-.
  - destruct (hold_step_wg _ _ _ Es) as [_ [?| ->]]; [congruence|]. exists [].
    destruct t as [|ev t]; [by split; [|apply not_elem_of_nil]|].
    cbn [watch] in Hw. unfold mbind in Hw. cbn [option_bind] in Hw.
    destruct (hold_step cfg h1 ev) eqn:E2; [|done]. apply hold_step_wg in E2 as [? _]. congruence.
Qed.

(** *** Router references *)

(** A monitor for router references: a lookup only uses a reference that
    [currentRouter] has returned to this goroutine. *)
Definition ref_step (known : list nat) (ev : event answer) : option (list nat) :=
  match ev with
  | Event CurrentRouter r => Some (r :: known)
  | Event (LookupBackend rt _) _ | Event (PickBackend rt _) _ =>
      if bool_decide (rt ∈ known) then Some known else None
  | _ => Some known
  end.

#[local] Abbreviation refs := (preserves ref_step (λ _, True)).

Ltac referring := preserving ltac:(by (intros; eexists; split; [reflexivity|])).

Lemma refs_dial_picked host : refs (dial_picked cfg host).
Proof.
  unfold dial_picked. intros known _ rt. cbn [ref_step]. intros picked. cbn [ref_step].
  rewrite bool_decide_eq_true_2 by (apply elem_of_cons; by left).
  assert (∀ r, refs (match r with
     | Ok target =>
         res ← perform (Dial target (dialTimeout cfg) (keepAlive cfg));
         match res with
         | inl err => mret (DialReturned target (inl (dial_error target host err)))
         | inr d =>
             if is_tcp d then
               _ ← perform (BackendSetKeepAlive (keepAlive cfg)); mret (DialReturned target (inr d))
             else _ ← perform CloseBackend; mret (DialReturned target (inl (not_tcp_error target)))
         end
     | Err err => mret (DialReturned "" (inl (pick_error host err)))
     | Panic w => mret (DialCrashed w)
     end)) as Hrest by referring.
  by apply (Hrest picked).
Qed.

#[local] Hint Resolve refs_dial_picked : preserved.

Lemma refs_dial_attempt req attempt host : refs (dial_attempt cfg req attempt host).
Proof. unfold dial_attempt, DialRoute, try_discover, metric. referring. Qed.

#[local] Hint Resolve refs_dial_attempt : preserved.

Lemma refs_route_attempt req attempt : refs (route_attempt cfg req attempt).
Proof.
  unfold route_attempt. destruct (bool_decide _); [|apply refs_dial_attempt].
  intros known _ rt. cbn [ref_step]. intros found. cbn [ref_step].
  rewrite bool_decide_eq_true_2 by (apply elem_of_cons; by left).
  assert (∀ f, refs (match f with
     | Some routeHost => dial_attempt cfg req attempt routeHost
     | None =>
         again ← try_discover cfg attempt (host req) (port req);
         if (again : bool) then mret Again
         else
           let addr := host req +:+ ":" +:+ itoa (port req) in
           _ ← metric (MRouteFailure addr "ip_not_in_routes");
           _ ← metric (MConnectionError "backend_dial");
           _ ← perform (SendFailure replyHostUnreachable);
           mret (Failed (ErrMsg ("ip " +:+ addr +:+ " not in any route (whitelist)")))
     end)) as Hrest by (unfold try_discover, metric; referring).
  by apply (Hrest found).
Qed.

#[local] Hint Resolve refs_route_attempt : preserved.

Lemma refs_serveClient : refs (serveClient cfg).
Proof.
  assert (∀ req fuel attempt, refs (route_loop cfg req fuel attempt)) as Hl.
  { intros req fuel. induction fuel as [|fuel IH]; intros attempt; cbn [route_loop]; referring. }
  unfold serveClient, handleConnection, arm_read, tunnel, relay, copyHalf, metric. referring.
Qed.

End serve_lemmas.

(** ** The invariant of the counters *)

Definition b2n (b : bool) : nat := if b then 1 else 0.

(** The [zerosock_connections_active] gauge, when metrics are collected. *)
Definition active_gauge (s : shared) : option Z := connectionsActive <$> collector s.

Lemma apply_metric_active op c :
  connectionsActive <$> apply_metric op c =
    match op with
    | MConnectionAccepted => (λ n, swrap64 (n + 1)) <$> (connectionsActive <$> c)
    | MConnectionInactive => (λ n, swrap64 (n - 1)) <$> (connectionsActive <$> c)
    | _ => connectionsActive <$> c
    end.
Proof.
  destruct c as [c|]; [|by destruct op]. destruct op; try done.
  - cbn. by case_bool_decide.
  - cbn. by destruct (n <=? 0)%Z.
Qed.

Section counters.
Context `{UnicodeTables}.
Context (cfg : settings).

Definition within (limit : Z) (n : nat) : Prop := (n ≤ Z.to_nat limit)%nat.

(** What an effect does to the counters matches what its monitor records. *)
Lemma respond_counters net s p e s' p' a h h' :
  respond cfg net s p e = ((s', p'), a) → blocked s e = false →
  hold_step cfg h (Event e a) = Some h' →
  dialSlots s' + b2n (h_dial h) = dialSlots s + b2n (h_dial h') ∧
  connSlots s' + b2n (h_conn h) = connSlots s + b2n (h_conn h') ∧
  wg s' + b2n (h_wg h) = wg s + b2n (h_wg h') ∧
  (dialSlots s' ≤ dialSlots s ∨ (Z.of_nat (dialSlots s') ≤ maxInflightDials cfg)%Z)%nat ∧
  connSlots s' ≤ connSlots s ∧
  (h_active h = h_active h' ∧ active_gauge s' = active_gauge s ∨
   h_active h = true ∧ h_active h' = false ∧
     active_gauge s' = (λ n, swrap64 (n - 1)) <$> active_gauge s).
Proof.
  assert (∀ A (m : io A) s p, (on_conn m s p).1.1 = s) as Hio.
  { intros A m s0 p0. unfold on_conn. by destruct (m (p_conn p0)). }
  intros Hr Hb Hh. destruct h as [hd hc ha hw]. destruct (hold_step_wg cfg _ _ _ Hh) as [Hw _].
  cbn in Hw. subst hw.
  destruct e; cbn in Hr, Hb, Hh;
    try (match type of Hr with on_conn ?m ?s0 ?p0 = _ =>
           pose proof (Hio _ m s0 p0) as Hs; rewrite Hr in Hs; cbn in Hs end);
    repeat match type of Hr with
      | context [match ?x with _ => _ end] => destruct x eqn:?
      end;
    try (pose proof (apply_metric_active op (collector s)) as Ha; destruct op);
    simplify_eq; bools; cbn in *;
    repeat match goal with H : (if ?x then _ else _) = Some _ |- _ => destruct x eqn:?; simplify_eq end;
    bools; simplify_eq/=; unfold active_gauge; cbn [collector set_collector dialSlots connSlots wg b2n h_dial h_conn
      h_active h_wg set_dialSlots set_connSlots set_wg set_routers add_log];
    try rewrite Nat.eqb_neq in Hb; split_and!; try (first [lia|by auto]).
Qed.

(** The counters count what the goroutines hold. *)
Definition counters_ok (s : shared) (hs : list holds) : Prop :=
  dialSlots s = total h_dial hs ∧ connSlots s = total h_conn hs ∧ wg s = total h_wg hs ∧
  within (maxInflightDials cfg) (dialSlots s) ∧ within (maxConnections cfg) (connSlots s) ∧
  (∀ n, active_gauge s = Some n → n = swrap64 (Z.of_nat (total h_active hs))).

Definition system_ok (s : system) : Prop :=
  ∃ hs, Forall2 (λ th h, conforms (hold_step cfg) h th.2 finished) (threads s) hs ∧
    counters_ok (sh s) hs.

Lemma swrap64_congr n k : swrap64 (swrap64 n + k) = swrap64 (n + k).
Proof.
  unfold swrap64. f_equal. replace ((n + 2 ^ 63) mod 2 ^ 64 - 2 ^ 63 + k + 2 ^ 63)%Z
    with ((n + 2 ^ 63) mod 2 ^ 64 + k)%Z by lia.
  rewrite Z.add_mod_idemp_l by lia. f_equal. lia.
Qed.

(** One step of a goroutine keeps the counters right. *)
Lemma thread_step_ok net s p e s' p' a hs i h h' :
  respond cfg net s p e = ((s', p'), a) → blocked s e = false →
  hs !! i = Some h → hold_step cfg h (Event e a) = Some h' →
  counters_ok s hs → counters_ok s' (<[i := h']> hs).
Proof.
  intros Hr Hb Hi Hh (Hd & Hc & Hw & Bd & Bc & Hg).
  destruct (respond_counters _ _ _ _ _ _ _ _ _ Hr Hb Hh) as (Ed & Ec & Ew & Ld & Lc & Ea).
  pose proof (total_insert h_dial hs i h h' Hi). pose proof (total_insert h_conn hs i h h' Hi).
  pose proof (total_insert h_wg hs i h h' Hi). pose proof (total_insert h_active hs i h h' Hi) as Ta.
  unfold b2n, within in *. split_and!; try lia.
  1-2: unfold within; lia.
  intros n Hn. destruct Ea as [[Ea Eg]|(Ea & Ea' & Eg)].
  - rewrite Ea in Ta. assert (total h_active (<[i:=h']> hs) = total h_active hs) as -> by lia.
    apply Hg. by rewrite <-Eg.
  - rewrite Ea, Ea' in Ta. rewrite Eg in Hn. destruct (active_gauge s) as [n0|] eqn:E0; [|done].
    injection Hn as <-. rewrite (Hg n0 eq_refl).
    replace (swrap64 (Z.of_nat (total h_active hs)) - 1)%Z
      with (swrap64 (Z.of_nat (total h_active hs)) + -1)%Z by lia.
    rewrite swrap64_congr. f_equal. lia.
Qed.

(** The accept loop refuses a connection when all slots are taken. *)
Definition full (s : shared) : bool :=
  (0 <? maxConnections cfg)%Z && negb (Z.of_nat (connSlots s) <? maxConnections cfg)%Z.

Lemma accept_full c s :
  full s = true →
  accept cfg c s = (set_collector s (IncConnectionError (collector s) "conn_limit"), []).
Proof. unfold full, accept. by intros ->. Qed.

Lemma accept_free c s :
  full s = false →
  let s' := (accept cfg c s).1 in
  (accept cfg c s).2 = [(new_peer c, serveClient cfg)] ∧
  dialSlots s' = dialSlots s ∧ wg s' = S (wg s) ∧
  connSlots s' = (if (0 <? maxConnections cfg)%Z then S (connSlots s) else connSlots s) ∧
  active_gauge s' = (λ n, swrap64 (n + 1)) <$> active_gauge s.
Proof.
  unfold full, accept, active_gauge. intros ->. cbn zeta.
  destruct s as [rs cur ds cs w [co|] lg]; destruct (0 <? maxConnections cfg)%Z; by split_and!.
Qed.

Lemma accept_ok c s hs :
  counters_ok s hs →
  ∃ hs', Forall2 (λ th h, conforms (hold_step cfg) h th.2 finished) (accept cfg c s).2 hs' ∧
    counters_ok (accept cfg c s).1 (hs ++ hs').
Proof.
  intros (Hd & Hc & Hw & Bd & Bc & Hg). destruct (full s) eqn:Ef.
  { rewrite (accept_full c s Ef). exists []. split; [constructor|]. rewrite app_nil_r. split_and!; try done.
    intros n Hn. apply Hg. rewrite <-Hn. symmetry. unfold active_gauge. cbn [collector set_collector fst].
    exact (apply_metric_active (MConnectionError "conn_limit") (collector s)). }
  destruct (accept_free c s Ef) as (-> & Ed & Ew & Ec & Eg).
  exists [accepted_holds cfg]. split.
  { apply Forall2_cons. split; [cbn [snd]; exact (serveClient_holds cfg)|by apply Forall2_nil]. }
  unfold full in Ef. unfold counters_ok, within in *. rewrite !total_app. cbn [total accepted_holds h_dial h_conn h_active h_wg].
  unfold limits_conns. destruct (0 <? maxConnections cfg)%Z eqn:Em; cbn [andb] in Ef; bools; split_and!; try lia.
  all: intros n Hn; rewrite Hn in Eg; destruct (active_gauge s) as [n0|]; [|done]; injection Eg as ->;
    rewrite (Hg n0 eq_refl), swrap64_congr; f_equal; lia.
Qed.

Lemma step_ok s s' : step cfg s s' → system_ok s → system_ok s'.
Proof.
  intros Hs (hs & HF & HC). destruct Hs as
    [s t b addr|s t b addr e|s t c|s t|s t b e He|s|s t sv b i p e k net s' p' a Hi Hb Hr
    |s t sv b r Hwf|s t sv b i r host addr up Hi|s t sv b line|s t sv b host addr up].
  - exists hs. by split.
  - exists hs. by split.
  - destruct (accept_ok c s hs HC) as (hs' & HF' & HC'). exists (hs ++ hs').
    split; [by apply Forall2_app|done].
  - exists hs. by split.
  - exists hs. by split.
  - exists hs. destruct s as [s t [] b]; by split.
  - destruct (Forall2_lookup_l _ _ _ _ _ HF Hi) as (h & Hhi & Hh).
    cbn [snd conforms] in Hh. specialize (Hh a).
    destruct (hold_step cfg h (Event e a)) as [h'|] eqn:Eh; [|done].
    exists (<[i := h']> hs). split; [by apply Forall2_insert|]. by eapply thread_step_ok.
  - exists hs. by split.
  - exists hs. by split.
  - exists hs. by split.
  - exists hs. split; [done|]. destruct HC as (Hd & Hc & Hw & Bd & Bc & Hg).
    split_and!; try done. intros n Hn. apply Hg. rewrite <-Hn. unfold active_gauge.
    cbn [sh collector set_collector]. by destruct (collector s).
Qed.

End counters.

(** *** What the invariant says of goroutines that have ended *)

Definition default_answer (e : effect) : answer e :=
  match e return answer e with
  | Now => 0%Z
  | Handshake | SendFailure _ | SendSuccess _ => Ok tt
  | ReadRequest => Err (ErrMsg "")
  | CurrentRouter => 0
  | LookupBackend _ _ => None
  | PickBackend _ _ => Ok ""
  | TryAcquireDial => true
  | Dial _ _ _ => inl (ErrMsg "")
  | Discover _ _ => (false, None)
  | FirstHalf => ClientToBackend
  | Copy _ => (0%Z, None)
  | _ => tt
  end.

(** The goroutine has ended. *)
Definition ended (p : go (option unit)) : Prop := match p with Ret (Some _) => True | _ => False end.

(** *** Where a goroutine is, read off what it does next *)

Definition next (q : go (option unit)) : option effect :=
  match q with Ret _ => None | Do e _ => Some e end.

Definition unfinished (q : go (option unit)) : bool := match q with Ret (Some _) => false | _ => true end.

(** The connection counts as active until the deferred [DecConnectionActive]:
    after it only the client is closed and the wait group left. *)
Definition in_service (q : go (option unit)) : bool :=
  unfinished q && match next q with Some CloseClient | Some WgDone => false | _ => true end.

(** It holds a connection slot until the deferred receive that comes before. *)
Definition with_slot (q : go (option unit)) : bool :=
  in_service q && match next q with Some (Metric MConnectionInactive) => false | _ => true end.

(** A call of the dialer is in progress. *)
Definition dialing (q : go (option unit)) : bool :=
  match next q with Some (Dial _ _ _) => true | _ => false end.

Definition count (f : go (option unit) → bool) (s : system) : nat := total (λ th, f th.2) (threads s).

Section ok_lemmas.
Context `{UnicodeTables}.
Context (cfg : settings).

(** What a goroutine holds is determined by where it is. *)
Lemma conforms_where h q :
  conforms (hold_step cfg) h q finished →
  h_wg h = unfinished q ∧ h_active h = in_service q ∧ h_conn h = limits_conns cfg && with_slot q ∧
  (limits_dials cfg = true → dialing q = true → h_dial h = true).
Proof.
  destruct q as [r|e k]; cbn [conforms].
  - intros [-> ->]. by rewrite andb_false_r.
  - intros Hq. specialize (Hq (default_answer e)).
    destruct (hold_step cfg h (Event e (default_answer e))) as [h'|] eqn:Es; [clear Hq|done].
    destruct h as [hd hc ha hw]. unfold with_slot, in_service, dialing. cbn [unfinished next andb h_wg h_active h_conn h_dial].
    assert (busy cfg (mkHolds hd hc ha hw) = true →
      hw = true ∧ ha = true ∧ hc = limits_conns cfg && true) as Hbusy.
    { unfold busy. cbn. intros [[-> ->]%andb_true_iff Hc]%andb_true_iff. rewrite andb_true_r.
      by apply Bool.eqb_prop in Hc. }
    assert (leaving (mkHolds hd hc ha hw) = true → hw = true ∧ ha = false ∧ hc = limits_conns cfg && false) as Hleave.
    { unfold leaving. cbn. rewrite andb_false_r. destruct hw, hd, hc, ha; done. }
    destruct e; cbn [hold_step] in Es; try destruct op;
      try destruct (busy cfg _); try destruct (leaving _); try done;
      try (destruct (Hbusy eq_refl) as (-> & -> & ->); split_and!; by auto);
      try (destruct (Hleave eq_refl) as (-> & -> & ->); split_and!; by auto).
    1-2: cbn in Es; destruct ha, hw, hc, hd; try done; by rewrite andb_false_r.
    all: destruct (Hbusy eq_refl) as (-> & -> & ->); split_and!; try done; intros Hl _;
      cbn [andb h_dial] in Es; rewrite Hl in Es; by destruct hd.
Qed.

Lemma ok_count s hs f g :
  Forall2 (λ th h, conforms (hold_step cfg) h th.2 finished) (threads s) hs →
  (∀ h q, conforms (hold_step cfg) h q finished → g h = f q) → count f s = total g hs.
Proof.
  intros HF Hfg. unfold count. apply total_ext. eapply Forall2_impl; [exact HF|].
  intros th h Hq. symmetry. exact (Hfg h th.2 Hq).
Qed.

Lemma ok_dialing s : system_ok cfg s → limits_dials cfg = true → count dialing s ≤ dialSlots (sh s).
Proof.
  intros (hs & HF & Hd & _) Hl. rewrite Hd. unfold count. revert hs HF Hd.
  generalize (threads s). intros ths hs HF _. induction HF as [|th h ths hs Hq _ IH]; cbn; [lia|].
  destruct (conforms_where _ _ Hq) as (_ & _ & _ & Hdial).
  destruct (dialing th.2); [rewrite Hdial by done|]; lia.
Qed.

Lemma ok_ret s i p r : system_ok cfg s → threads s !! i = Some (p, Ret r) → r = Some tt.
Proof. intros (hs & HF & _) Hi. by destruct (Forall2_lookup_l _ _ _ _ _ HF Hi) as (h & _ & [_ ?]). Qed.

Lemma ok_never_blocked s i p e k :
  system_ok cfg s → threads s !! i = Some (p, Do e k) → blocked (sh s) e = false.
Proof.
  intros (hs & HF & Hd & Hc & Hw & _) Hi. destruct (Forall2_lookup_l _ _ _ _ _ HF Hi) as (h & Hhi & Hh).
  destruct (conforms_where _ _ Hh) as (Ew & _). cbn [snd conforms] in Hh. specialize (Hh (default_answer e)).
  destruct e; try done; apply Nat.eqb_neq; rewrite ?Hd, ?Hc, ?Hw; eapply total_pos; try done; cbn in Hh.
  - by destruct (h_dial h); [|rewrite andb_false_r in Hh].
  - by destruct (h_conn h); [|rewrite andb_false_r in Hh].
Qed.

(** When every goroutine has ended nothing is held. *)
Lemma ended_total f hs ths :
  Forall2 (λ th h, conforms (hold_step cfg) h th.2 finished) ths hs →
  f released = false → Forall (λ th : peer * go (option unit), ended th.2) ths → total f hs = 0.
Proof.
  intros HF Hf Hend. apply total_zero. intros h Hh. apply list_elem_of_lookup in Hh as [i Hi].
  destruct (Forall2_lookup_r _ _ _ _ _ HF Hi) as ([p q] & Hti & Hq).
  pose proof (Forall_lookup_1 _ _ _ _ Hend Hti) as He. cbn in Hq, He.
  destruct q as [[[]|]|]; [|done..]. cbn in Hq. by destruct Hq as [-> _].
Qed.

Lemma ok_drained s : system_ok cfg s → drained s ↔ Forall (λ th, ended th.2) (threads s).
Proof.
  intros (hs & HF & Hd & Hc & Hw & _). unfold drained. rewrite Hw. split; [|by eapply ended_total].
  intros H0. apply Forall_lookup. intros i [p q] Hi. cbn.
  destruct (Forall2_lookup_l _ _ _ _ _ HF Hi) as (h & Hhi & Hh). cbn [snd] in Hh.
  destruct (conforms_where _ _ Hh) as (Ew & _). destruct (h_wg h) eqn:Eh; [by destruct (total_pos h_wg _ _ _ Hhi Eh)|].
  by destruct q as [[[]|]|].
Qed.

Lemma ok_drained_slots s : system_ok cfg s → drained s → connSlots (sh s) = 0 ∧ dialSlots (sh s) = 0.
Proof.
  intros Hok Hdr. pose proof (proj1 (ok_drained s Hok) Hdr) as Hend.
  destruct Hok as (hs & HF & Hd & Hc & _). rewrite Hd, Hc. split; by eapply ended_total.
Qed.

End ok_lemmas.

(** ** Where the server connects to, and that it does not crash *)

(** The session protocol, with the deferred calls of [serveClient] after its
    end. *)
Definition serve_step (s : phase) (ev : event answer) : option phase :=
  match ev with
  | Event (LogError _) _ | Event ReleaseConn _ | Event CloseClient _ | Event WgDone _ =>
      match s with Done _ | Crash => Some s | _ => None end
  | _ => session_step s ev
  end.

(** A program of [protocol.go] that does not panic. *)
Definition quiet {A} (m : io A) : Prop := ∀ c w, (m c).2 ≠ Panic w.

Lemma quiet_ret {A} (a : A) : quiet (mret a).
Proof. done. Qed.

Lemma quiet_bind {A B} (m : io A) (f : A → io B) : quiet m → (∀ a, quiet (f a)) → quiet (m ≫= f).
Proof.
  intros Hm Hf c w. unfold mbind, io_bind. specialize (Hm c).
  destruct (m c) as [c1 [a|e|w1]]; [by apply Hf|done|by destruct (Hm w1)].
Qed.

Lemma quiet_wrapping {A} pre (m : io A) : quiet m → quiet (wrapping pre m).
Proof. intros Hm c w. unfold wrapping. specialize (Hm c w). by destruct (m c) as [c1 []]. Qed.

Lemma quiet_ReadFull n : quiet (ReadFull n).
Proof. intros c w. unfold ReadFull. by case_bool_decide. Qed.

Lemma quiet_Write p : quiet (Write p).
Proof. intros c w. unfold Write. by destruct (c_write c) as [|[[k e]|] l]. Qed.

Lemma quiet_errorf {A} msg : quiet (A := A) (errorf msg).
Proof. done. Qed.

Lemma quiet_ignore {A} (m : io A) : quiet (ignore m).
Proof. done. Qed.

Create HintDb quiet discriminated.
#[local] Hint Resolve quiet_ret quiet_wrapping quiet_ReadFull quiet_Write quiet_errorf quiet_ignore : quiet.

Ltac quieten :=
  repeat first
    [ progress intros
    | progress cbv zeta
    | solve [eauto with quiet]
    | apply quiet_bind
    | match goal with |- quiet (if ?x then _ else _) => destruct x end ].

Lemma quiet_handleHandshake : quiet handleHandshake.
Proof. unfold handleHandshake. quieten. Qed.

Lemma quiet_readRequest : quiet readRequest.
Proof. unfold readRequest, read_host, reject. quieten. Qed.

Lemma quiet_writeFailureReply code : quiet (writeFailureReply code).
Proof. apply quiet_Write. Qed.

Lemma quiet_writeSuccessReply a : quiet (writeSuccessReply a).
Proof. destruct a; apply quiet_Write. Qed.

Section safety.
Context `{UnicodeTables}.
Context (cfg : settings).

Lemma serveClient_phases : conforms serve_step Fresh (serveClient cfg) (λ _ _, True).
Proof.
  unfold serveClient. eapply conforms_seq.
  { eapply conforms_weaken; [|apply handleConnection_conforms]. intros s [e r] s'. by destruct e. }
  intros s [[[]|e|w]|] Hs; cbn in Hs; [| | |done].
  2: destruct Hs as [b Hs].
  all: rewrite Hs; destruct (0 <? maxConnections cfg)%Z; cbn; done.
Qed.

(** The address belongs to a backend of a router that was installed. *)
Definition installed (rs : list Router.Router) (target : string) : Prop :=
  ∃ r, r ∈ rs ∧ Router.listed r target.

Definition thread_safe (rs : list Router.Router) (p : go (option unit)) : Prop :=
  ∃ ph known,
    conforms serve_step ph p (λ _ _, True) ∧ conforms ref_step known p (λ _ _, True) ∧
    Forall (λ rt, rt < length rs)%nat known ∧
    (∀ t n m, ph = Picked t n m → installed rs t).

Definition routers_ok (s : shared) : Prop :=
  (current s < length (routers s))%nat ∧ Forall Router.router_wf (routers s).

Definition system_safe (s : system) : Prop :=
  routers_ok (sh s) ∧ Forall (λ th, thread_safe (routers (sh s)) th.2) (threads s).

(** Replacing routers by ones with the same backends, or adding some. *)
Definition extends (rs rs' : list Router.Router) : Prop :=
  (length rs ≤ length rs')%nat ∧ ∀ t, installed rs t → installed rs' t.

Lemma thread_safe_extends rs rs' p : extends rs rs' → thread_safe rs p → thread_safe rs' p.
Proof.
  intros [Hl Hi] (ph & known & H1 & H2 & H3 & H4). exists ph, known. split_and!; try done.
  - eapply Forall_impl; [exact H3|]. cbn. lia.
  - intros t n m Hp. apply Hi. by eapply H4.
Qed.

Lemma extends_refl rs : extends rs rs.
Proof. by split. Qed.

Lemma extends_insert rs i r r' :
  rs !! i = Some r → (∀ a, Router.listed r a → Router.listed r' a) → extends rs (<[i := r']> rs).
Proof.
  intros Hi Hl. split; [by rewrite length_insert|]. intros t (r0 & Hr0 & Ht).
  apply list_elem_of_lookup in Hr0 as [j Hj]. destruct (decide (i = j)) as [<-|Hne].
  - assert (r0 = r) as -> by congruence. exists r'. split; [|by apply Hl].
    apply list_elem_of_lookup. exists i. apply list_lookup_insert_eq. by eapply lookup_lt_Some.
  - exists r0. split; [|done]. apply list_elem_of_lookup. exists j. by rewrite list_lookup_insert_ne.
Qed.

Lemma extends_app rs rs' : extends rs (rs ++ rs').
Proof.
  split; [rewrite length_app; lia|]. intros t (r & Hr & Ht). exists r. split; [|done].
  apply elem_of_app. by left.
Qed.

(** An effect changes the routers only by a selection. *)
Lemma respond_selects net s p e s' p' a :
  respond cfg net s p e = ((s', p'), a) →
  current s' = current s ∧
  (routers s' = routers s ∨
   ∃ rt host r, routers s !! rt = Some r ∧ routers s' = <[rt := (Router.Pick r host).1]> (routers s)).
Proof.
  intros Hr. destruct e; cbn in Hr; unfold on_conn in Hr; repeat case_match; simplify_eq; auto.
  split; [done|]. right. exists rt, host. eexists. split; [done|].
  match goal with E : Router.Pick _ _ = _ |- _ => by rewrite E end.
Qed.

Lemma respond_routers net s p e s' p' a :
  respond cfg net s p e = ((s', p'), a) → routers_ok s →
  routers_ok s' ∧ extends (routers s) (routers s').
Proof.
  intros [E2 E1]%respond_selects [Hc Hwf]. unfold routers_ok. rewrite E2.
  destruct E1 as [->|(rt & host & r & Hrt & ->)]; [by split; [|apply extends_refl]|].
  rewrite length_insert. split.
  - split; [done|]. apply Forall_insert; [done|]. apply Router.Pick_wf.
    by eapply (Forall_lookup_1 _ _ _ _ Hwf).
  - apply (extends_insert _ _ r); [done|]. intros a' Ha. by apply Router.Pick_listed.
Qed.

(** What a goroutine does next is safe. *)
Lemma thread_safe_next net s p e k s' p' a :
  routers_ok s → thread_safe (routers s) (Do e k) → respond cfg net s p e = ((s', p'), a) →
  crashes e a = false ∧
  (∀ target d ka, e = Dial target d ka → installed (routers s) target) ∧
  thread_safe (routers s') (k a).
Proof.
  intros Hok (ph & known & H1 & H2 & H3 & H4) Hr.
  cbn [conforms] in H1, H2. specialize (H1 a). specialize (H2 a).
  destruct (serve_step ph (Event e a)) as [ph'|] eqn:E1; [|done].
  destruct (ref_step known (Event e a)) as [known'|] eqn:E2; [|done].
  destruct (respond_routers _ _ _ _ _ _ _ Hr Hok) as [Hok' [Hlen Hext]].
  assert (∀ A (m : io A) r, quiet m → on_conn m s p = ((s', p'), r) → ∀ w, r ≠ Panic w) as Hq.
  { intros A m r Hm Hon w ->. unfold on_conn in Hon. destruct (m (p_conn p)) as [c1 r1] eqn:Em.
    injection Hon as _ _ ->. apply (Hm (p_conn p) w). by rewrite Em. }
  split; [|split].
  - destruct e; cbn in Hr |- *; try done; destruct a as [?|?|w]; try done; exfalso.
    + by apply (Hq _ _ _ quiet_handleHandshake Hr w).
    + by apply (Hq _ _ _ quiet_readRequest Hr w).
    + by apply (Hq _ _ _ (quiet_writeFailureReply code) Hr w).
    + by apply (Hq _ _ _ (quiet_writeSuccessReply bindAddr) Hr w).
    + cbn in E2. case_bool_decide as Hk; [|done]. rewrite Forall_forall in H3. apply H3 in Hk.
      destruct (lookup_lt_is_Some_2 (routers s) rt Hk) as [r Hrt]. rewrite Hrt in Hr.
      pose proof (Router.Pick_no_panic r host w). destruct (Router.Pick r host) as [r' res].
      cbn in *. congruence.
  - intros target d ka ->. cbn in E1. destruct ph as [| | |t n m| | | | | |]; try done.
    case_bool_decide as Ht; [|done]. subst t. by eapply H4.
  - exists ph', known'. split_and!; [done|done| |].
    + assert (Forall (λ rt, rt < length (routers s'))%nat known) as Hk.
      { eapply Forall_impl; [exact H3|]. cbn. lia. }
      destruct e; cbn in E2; simplify_eq; try done.
      * constructor; [|done]. cbn in Hr. injection Hr as <- <- <-. apply Hok.
      * case_bool_decide; by simplify_eq.
      * case_bool_decide; by simplify_eq.
    + intros t n m ->. destruct e; cbn in E1; destruct ph as [| |[|n0] m0|t1 n1 m1| | | | | |];
        try done; repeat case_match; simplify_eq; try (by eapply Hext, H4).
      apply Hext. cbn in Hr. destruct (routers s !! rt) as [r|] eqn:Hrt; [|done].
      exists r. split; [by eapply list_elem_of_lookup_2|].
      destruct (Router.Pick_Ok_inv r host t) as (p0 & b & Hp & Hb & Hba & _).
      { destruct (Router.Pick r host) as [r' res]. by injection Hr as _ _ ->. }
      exists (Router.normalizeHost host), p0, b. done.
Qed.

Lemma accept_safe c s :
  routers_ok s →
  routers (accept cfg c s).1 = routers s ∧ current (accept cfg c s).1 = current s ∧
  Forall (λ th, thread_safe (routers s) th.2) (accept cfg c s).2.
Proof.
  intros Hok. assert (thread_safe (routers s) (serveClient cfg)) as Hs.
  { exists Fresh, []. split_and!; [exact serveClient_phases|by apply (refs_serveClient cfg)|by constructor|done]. }
  unfold accept. destruct (0 <? maxConnections cfg)%Z; cbn [andb].
  - destruct (negb _); cbn [fst snd]; split_and!; [done|done|by apply Forall_nil|done|done|].
    apply Forall_cons. split; [exact Hs|by apply Forall_nil].
  - cbn [fst snd]. split_and!; [done|done|]. apply Forall_cons. split; [exact Hs|by apply Forall_nil].
Qed.

Lemma step_safe s s' : step cfg s s' → system_safe s → system_safe s'.
Proof.
  intros Hs [Hok HF]. destruct Hs as
    [s t b addr|s t b addr e|s t c|s t|s t b e He|s|s t sv b i p e k net s' p' a Hi Hb Hr
    |s t sv b r Hwf|s t sv b i r host addr up Hi|s t sv b line|s t sv b host addr up]; cbn [sh threads] in Hok, HF.
  - by split.
  - by split.
  - destruct (accept_safe c s Hok) as (E1 & E2 & HF'). unfold system_safe, routers_ok. cbn [sh threads].
    rewrite E1, E2. split; [done|]. by apply Forall_app.
  - by split.
  - by split.
  - destruct s as [s t [] b]; by split.
  - destruct (respond_routers _ _ _ _ _ _ _ Hr Hok) as [Hok' Hext]. split; [done|]. cbn [sh threads].
    assert (Forall (λ th, thread_safe (routers s') th.2) t) as HF'.
    { eapply Forall_impl; [exact HF|]. intros th. by apply thread_safe_extends. }
    apply Forall_insert; [done|]. cbn [snd].
    pose proof (Forall_lookup_1 _ _ _ _ HF Hi) as Ht. cbn [snd] in Ht.
    by destruct (thread_safe_next _ _ _ _ _ _ _ _ Hok Ht Hr) as (_ & _ & Hnext).
  - destruct Hok as [Hc Hwf']. split.
    + unfold routers_ok. cbn. rewrite length_app. cbn. split; [lia|]. by apply Forall_app; split; [|constructor].
    + eapply Forall_impl; [exact HF|]. intros th. apply thread_safe_extends, extends_app.
  - destruct Hok as [Hc Hwf']. split.
    + unfold routers_ok. cbn. rewrite length_insert. split; [done|]. apply Forall_insert; [done|].
      apply Router.SetBackendAlive_wf. by eapply (Forall_lookup_1 _ _ _ _ Hwf').
    + eapply Forall_impl; [exact HF|]. intros th. apply thread_safe_extends. cbn.
      apply (extends_insert _ _ r); [done|]. intros a Ha. by apply Router.SetBackendAlive_listed.
  - by split.
  - by split.
Qed.

End safety.

(** ** What the metrics say *)

Lemma apply_metric_typed op c : typed c → typed (apply_metric op c).
Proof. destruct op; cbn [apply_metric]; eauto with typed. Qed.

Lemma apply_metric_total op c :
  op ≠ MConnectionAccepted → connectionsTotal <$> apply_metric op c = connectionsTotal <$> c.
Proof.
  intros Hop. destruct c as [c|]; [|by destruct op]. destruct op; try done; cbn;
    [by case_bool_decide|by destruct (_ <=? _)%Z].
Qed.

(** The counters are in range, and [connections_total] counts the goroutines. *)
Definition metrics_ok (s : system) : Prop :=
  typed (collector (sh s)) ∧
  ∀ n, connectionsTotal <$> collector (sh s) = Some n → n = wrap64 (Z.of_nat (length (threads s))).

Section metrics.
Context `{UnicodeTables}.
Context (cfg : settings).

Lemma respond_metrics net s p e s' p' a h :
  respond cfg net s p e = ((s', p'), a) → is_Some (hold_step cfg h (Event e a)) →
  (typed (collector s) → typed (collector s')) ∧
  connectionsTotal <$> collector s' = connectionsTotal <$> collector s.
Proof.
  intros Hr Hh. assert (collector s' = collector s ∨
    ∃ op, op ≠ MConnectionAccepted ∧ collector s' = apply_metric op (collector s)) as [->|(op & Hop & ->)].
  { destruct e; cbn in Hr; unfold on_conn in Hr; repeat case_match; simplify_eq; try (by left).
    right. exists op. split; [|done]. intros ->. destruct Hh as [h' Hh]. unfold hold_step in Hh.
    by destruct (h_wg h). }
  - done.
  - split; [apply apply_metric_typed|by apply apply_metric_total].
Qed.

Lemma accept_metrics c s t :
  metrics_ok (mkSystem s t Accepting false) →
  metrics_ok (mkSystem (accept cfg c s).1 (t ++ (accept cfg c s).2) Accepting false).
Proof.
  unfold metrics_ok. cbn [sh threads]. intros [Ht Hn]. destruct (full cfg s) eqn:Ef.
  - rewrite (accept_full cfg c s Ef). cbn [fst snd collector set_collector]. rewrite app_nil_r. split.
    + exact (apply_metric_typed (MConnectionError "conn_limit") _ Ht).
    + pose proof (apply_metric_total (MConnectionError "conn_limit") (collector s) ltac:(done)) as E.
      cbn [apply_metric] in E. intros n. rewrite E. apply Hn.
  - destruct (accept_free cfg c s Ef) as (-> & _). rewrite length_app. cbn [length].
    assert (collector (accept cfg c s).1 =
      apply_metric (MTCPState "syn") (apply_metric MConnectionAccepted (collector s))) as ->.
    { unfold full in Ef. unfold accept. rewrite Ef. by destruct (0 <? maxConnections cfg)%Z. }
    split; [by do 2 apply apply_metric_typed|].
    intros n. rewrite (apply_metric_total (MTCPState "syn")) by done.
    destruct (collector s) as [co|]; [|done]. cbn. intros [= <-]. rewrite (Hn _ eq_refl).
    rewrite wrap64_add_l. f_equal. lia.
Qed.

Lemma step_metrics s s' : step cfg s s' → system_ok cfg s → metrics_ok s → metrics_ok s'.
Proof.
  intros Hs (hs & HF & _) Hok. destruct Hs as
    [s t b addr|s t b addr e|s t c|s t|s t b e He|s|s t sv b i p e k net s' p' a Hi Hb Hr
    |s t sv b r Hwf|s t sv b i r host addr up Hi|s t sv b line|s t sv b host addr up]; try done.
  - by apply accept_metrics.
  - by destruct s as [s t [] b].
  - destruct (Forall2_lookup_l _ _ _ _ _ HF Hi) as (h & _ & Hh).
    cbn [snd conforms] in Hh. specialize (Hh a).
    destruct (respond_metrics net s p e s' p' a h Hr) as [Ht Hn]; [by destruct (hold_step _ _); eauto|].
    destruct Hok as [Ht0 Hn0]. cbn [sh threads] in *. split; cbn [sh threads]; [by apply Ht|].
    intros n. rewrite Hn, length_insert. apply Hn0.
  - destruct Hok as [Ht Hn]. split; cbn [sh threads collector set_collector]; [by eauto with typed|].
    cbn [sh threads] in Hn. by destruct (collector s).
Qed.

(** A collector that is there stays there. *)
Lemma step_collects s s' : step cfg s s' → is_Some (collector (sh s)) → is_Some (collector (sh s')).
Proof.
  assert (∀ op c, is_Some c → is_Some (apply_metric op c)) as Ha.
  { intros op c [x ->]. destruct op; cbn; try done; [by case_bool_decide|by destruct (_ <=? _)%Z]. }
  intros Hs Hc. destruct Hs as
    [s t b addr|s t b addr e|s t c|s t|s t b e He|s|s t sv b i p e k net s' p' a Hi Hb Hr
    |s t sv b r Hwf|s t sv b i r host addr up Hi|s t sv b line|s t sv b host addr up]; try done;
    cbn [sh] in *.
  - unfold accept. destruct (_ && _); cbn [fst collector set_collector].
    + by apply (Ha (MConnectionError "conn_limit")).
    + destruct (0 <? _)%Z; by apply (Ha (MTCPState "syn")), (Ha MConnectionAccepted).
  - by destruct s as [s t [] b].
  - destruct e; cbn in Hr; unfold on_conn in Hr; repeat case_match; simplify_eq; try done. by apply Ha.
  - cbn. by destruct Hc as [c ->].
Qed.

End metrics.

(** ** Properties of the server *)

Section server_properties.
Context `{UnicodeTables}.

Lemma reach_ok cfg r m s :
  (∀ n, connectionsActive <$> m = Some n → n = 0%Z) →
  rtc (step cfg) (New r m) s → system_ok cfg s.
Proof.
  intros Hm Hr. eapply rtc_preserve; [|exact Hr|].
  - intros a b Hs. by apply step_ok.
  - exists []. split; [constructor|]. split_and!; try done; unfold within; cbn; lia.
Qed.

Lemma reach_safe cfg r m s : Router.router_wf r → rtc (step cfg) (New r m) s → system_safe s.
Proof.
  intros Hwf Hr. eapply rtc_preserve; [|exact Hr|]; [intros a b Hs; by eapply step_safe|].
  split; [|by apply Forall_nil]. split; cbn; [lia|by apply Forall_singleton].
Qed.

(** C5: in every reachable state of the server, whatever the interleaving of connections, health results, router updates and shutdown: the connection slots in use are those of the connections that have not run their deferred release, so no more than [max_connections] clients are served at a time; every dial in progress holds a dial slot, so no more than [max_inflight_dials] dials are in progress; releasing a slot never blocks and the wait group never goes negative; the active-connections gauge is the number of connections that have not run their deferred decrement, the wait group counts the goroutines that have not ended, and reaches zero exactly when all have, and then every slot has been returned. *)
Theorem server_counters cfg r m s :
  (∀ n, connectionsActive <$> m = Some n → n = 0%Z) →
  rtc (step cfg) (New r m) s →
  connSlots (sh s) = (if limits_conns cfg then count with_slot s else 0) ∧
  (limits_conns cfg = true → (count with_slot s ≤ Z.to_nat (maxConnections cfg))%nat) ∧
  (limits_dials cfg = true → count dialing s ≤ dialSlots (sh s)) ∧
  (dialSlots (sh s) ≤ Z.to_nat (maxInflightDials cfg))%nat ∧
  (∀ i p e k, threads s !! i = Some (p, Do e k) → blocked (sh s) e = false) ∧
  (∀ n, active_gauge (sh s) = Some n → n = swrap64 (Z.of_nat (count in_service s))) ∧
  wg (sh s) = count unfinished s ∧
  (drained s ↔ Forall (λ th, ended th.2) (threads s)) ∧
  (drained s → connSlots (sh s) = 0 ∧ dialSlots (sh s) = 0).
Proof.
  intros Hm Hok%reach_ok; [|done]. pose proof Hok as (hs & HF & Hd & Hc & Hw & Bd & Bc & Hg).
  assert (connSlots (sh s) = if limits_conns cfg then count with_slot s else 0) as Ec.
  { rewrite Hc, <-(ok_count cfg s hs (λ q, limits_conns cfg && with_slot q) h_conn HF).
    - unfold count. destruct (limits_conns cfg); [done|]. by apply total_zero.
    - intros h q Hq. apply (conforms_where cfg h q Hq). }
  split_and!; [done| |by apply ok_dialing|done| | | |by eapply ok_drained|by eapply ok_drained_slots].
  - intros El. rewrite El in Ec. by rewrite <-Ec.
  - intros i p e k. by eapply ok_never_blocked.
  - intros n Hn. rewrite (ok_count cfg s hs in_service h_active HF); [by apply Hg|].
    intros h q Hq. apply (conforms_where cfg h q Hq).
  - rewrite Hw. symmetry. apply (ok_count cfg s hs unfinished h_wg HF).
    intros h q Hq. apply (conforms_where cfg h q Hq).
Qed.

(** C6: a connection goroutine always ends: whatever it is answered it performs at most [session_bound] operations and does not stay in the routing loop, whose third attempt is never reached; on the way it releases its dial slot, its connection slot and its place in the gauge, in this order and on error paths too, and [wg.Done] is the last thing it does and done once; and run on its own in any environment it reaches that end. *)
Theorem serveClient_terminates cfg :
  (∀ t u, runs (serveClient cfg) t u →
     u = Some tt ∧ (length t ≤ session_bound)%nat ∧
     watch (hold_step cfg) (accepted_holds cfg) t = Some released ∧
     ∃ t', t = t' ++ [Event WgDone tt] ∧ Event WgDone tt ∉ t') ∧
  (∀ net s c, (run_alone cfg net s c).2 = Some tt ∧
     runs (serveClient cfg) (run_alone cfg net s c).1.2 (Some tt)).
Proof.
  assert (∀ t u, runs (serveClient cfg) t u → u = Some tt ∧
    watch (hold_step cfg) (accepted_holds cfg) t = Some released) as Hend.
  { intros t u Hr. by destruct (conforms_runs _ _ _ _ _ _ (serveClient_holds cfg) Hr) as (h & Hw & -> & ->). }
  split.
  - intros t u Hr. destruct (Hend t u Hr) as [-> Hw]. split_and!; [done| |done|by eapply wg_last].
    by eapply bounded_runs; [apply serveClient_bounded|].
  - intros net s c. pose proof (exec_runs (λ e w, respond cfg net w.1 w.2 e) (serveClient cfg) (s, new_peer c)) as Hr.
    unfold run_alone. destruct (Hend _ _ Hr) as [E _]. split; [exact E|]. by rewrite <-E.
Qed.

(** In every reachable state of the server the next thing any connection goroutine does is safe: if it dials, the address is that of a backend of a router that was installed, so the proxy never connects anywhere the configuration does not list, whatever the client asks for; and no answer the shared state or the client's bytes give it is a run-time panic. *)
Theorem server_safe cfg r m s :
  Router.router_wf r → rtc (step cfg) (New r m) s →
  ∀ i p e k net, threads s !! i = Some (p, Do e k) →
    (∀ target d ka, e = Dial target d ka → installed (routers (sh s)) target) ∧
    crashes e (respond cfg net (sh s) p e).2 = false.
Proof.
  intros Hwf Hr i p e k net Hi.
  destruct (reach_safe cfg r m s Hwf Hr) as [Hok HF].
  pose proof (Forall_lookup_1 _ _ _ _ HF Hi) as Ht. cbn [snd] in Ht.
  destruct (respond cfg net (sh s) p e) as [[s' p'] a] eqn:Er.
  by destruct (thread_safe_next cfg _ _ _ _ _ _ _ _ Hok Ht Er) as (Hc & Hd & _).
Qed.

(** C15: in every reachable state every counter the collector holds is in the range of its machine type, however often it was incremented or added to, and [connections_total] is the number of connections that were accepted, modulo 2^64. *)
Theorem server_metrics cfg r s :
  rtc (step cfg) (New r (Some NewCollector)) s →
  ∃ c, collector (sh s) = Some c ∧ collector_ok c ∧
    connectionsTotal c = wrap64 (Z.of_nat (length (threads s))).
Proof.
  intros Hr. assert ((system_ok cfg s ∧ metrics_ok s) ∧ is_Some (collector (sh s))) as [[_ [Ht Hn]] [c Hc]].
  { apply (rtc_preserve _ (λ s, (system_ok cfg s ∧ metrics_ok s) ∧ is_Some (collector (sh s))) _ _) in Hr; [done| |].
    - intros a b Hs [[Ho Hm] Hc]. split; [split; [by eapply step_ok|by eapply step_metrics]|].
      by eapply step_collects.
    - split; [split|by eauto].
      + eapply reach_ok; [|apply rtc_refl]. by intros n [= <-].
      + split; [apply NewCollector_typed|]. by intros n [= <-]. }
  exists c. rewrite Hc in Ht, Hn. split; [done|]. split; [done|]. by apply Hn.
Qed.

(** Goroutine [i] performs its next [n] effects in the environment [net]. *)
Fixpoint advance (cfg : settings) (n : nat) (net : network) (i : nat) (s : system) : system :=
  match n with
  | O => s
  | S n =>
      match threads s !! i with
      | Some (p, Do e k) =>
          if blocked (sh s) e then s
          else
            let '((s', p'), a) := respond cfg net (sh s) p e in
            advance cfg n net i
              (mkSystem s' (<[i := (p', k a)]> (threads s)) (serve s) (listener_closed s))
      | _ => s
      end
  end.

Lemma advance_reach cfg n net i s : rtc (step cfg) s (advance cfg n net i s).
Proof.
  revert s. induction n as [|n IH]; intros [s t sv b]; cbn [advance sh threads]; [done|].
  destruct (t !! i) as [[p [a|e k]]|] eqn:Hi; [done| |done].
  destruct (blocked s e) eqn:Hb; [done|].
  destruct (respond cfg net s p e) as [[s' p'] a] eqn:Er.
  eapply rtc_l; [|apply IH]. by eapply step_thread.
Qed.

End server_properties.

(** ** Witnesses *)

#[local] Existing Instance ascii_tables.

Definition sample_network : network :=
  mkNetwork 0 "127.0.0.1:50000" (λ _, inr (mkDialed true (TCPAddr [Byte.x0a; Byte.x00; Byte.x00; Byte.x02] 4000)))
    (λ _ _, (false, None)) ClientToBackend (λ _, (7%Z, None)).

Definition sample_router : Router.Router :=
  Router.mkRouter
    {[ "api.internal" := Router.mkPool [Router.mkBackend "10.0.0.1:80" 1] 0 ]}
    {[ "10.0.0.1:80" := "api.internal" ]}.

(** A client that asks for api.internal on port 80. *)
Definition sample_client : conn :=
  mkConn (greeting_bytes [Byte.x00] ++ connect_bytes (DName (s2b "API.internal")) 80)
    (ErrSentinel SEOF) [] [].

(** The server with one accepted connection. *)
Definition sample_system : system :=
  let s := add_log (sh (New sample_router (Some NewCollector))) "socks5: listening on :1080" in
  mkSystem (accept sample_settings sample_client s).1 (accept sample_settings sample_client s).2
    Accepting false.

Lemma sample_system_reach :
  rtc (step sample_settings) (New sample_router (Some NewCollector)) sample_system.
Proof.
  eapply rtc_l; [apply (step_listen _ _ _ _ ":1080")|].
  eapply rtc_l; [apply (step_accept _ _ _ sample_client)|]. apply rtc_refl.
Qed.

Lemma sample_wf : Router.router_wf sample_router.
Proof.
  unfold Router.router_wf. cbn [Router.pools sample_router]. apply map_Forall_singleton.
  split; [done|]. unfold in_u64. cbn. lia.
Qed.

Definition sample_dialing : system := advance sample_settings 16 sample_network 0 sample_system.

Definition next_effect (s : system) (i : nat) : option effect :=
  match threads s !! i with Some (_, Do e _) => Some e | _ => None end.

Lemma next_effect_thread s i e :
  next_effect s i = Some e → ∃ p k, threads s !! i = Some (p, Do e k).
Proof.
  unfold next_effect. destruct (threads s !! i) as [[p [a|e' k]]|]; try done.
  intros [= ->]. eauto.
Qed.

Lemma sample_dialing_next : next_effect sample_dialing 0 = Some (Dial "10.0.0.1:80" 4 30).
Proof. vm_compute. reflexivity. Qed.

Lemma sample_dialing_reach :
  rtc (step sample_settings) (New sample_router (Some NewCollector)) sample_dialing.
Proof.
  etrans; [exact sample_system_reach|]. apply advance_reach.
Qed.

Lemma sample_done_reach :
  rtc (step sample_settings) (New sample_router (Some NewCollector))
    (advance sample_settings 60 sample_network 0 sample_system).
Proof.
  etrans; [exact sample_system_reach|]. apply advance_reach.
Qed.

Lemma fresh_gauge n : connectionsActive <$> Some NewCollector = Some n → n = 0%Z.
Proof. cbn. by intros [= <-]. Qed.

Lemma server_counters_witness :
  (count with_slot sample_dialing = 1 ∧ count dialing sample_dialing = 1 ∧
   connSlots (sh sample_dialing) = 1 ∧ (count dialing sample_dialing ≤ dialSlots (sh sample_dialing))%nat ∧
   active_gauge (sh sample_dialing) = Some 1%Z) ∧
  (let s := advance sample_settings 60 sample_network 0 sample_system in
   connSlots (sh s) = 0 ∧ dialSlots (sh s) = 0).
Proof.
  split.
  - destruct (server_counters sample_settings sample_router (Some NewCollector) sample_dialing
      fresh_gauge sample_dialing_reach) as (Hslot & _ & Hdial & _ & _ & Hg & _).
    split_and!; [vm_compute; reflexivity|vm_compute; reflexivity| |exact (Hdial eq_refl)|].
    { rewrite Hslot. vm_compute. reflexivity. }
    destruct (active_gauge (sh sample_dialing)) as [n|] eqn:E; [|vm_compute in E; discriminate E].
    f_equal. rewrite (Hg n eq_refl). vm_compute. reflexivity.
  - destruct (server_counters sample_settings sample_router (Some NewCollector)
      (advance sample_settings 60 sample_network 0 sample_system)
      fresh_gauge sample_done_reach) as (_ & _ & _ & _ & _ & _ & _ & _ & Hd).
    apply Hd. vm_compute. reflexivity.
Defined.

Lemma server_safe_witness : installed (routers (sh sample_dialing)) "10.0.0.1:80".
Proof.
  destruct (next_effect_thread sample_dialing 0 _ sample_dialing_next) as (p & k & E).
  destruct (server_safe sample_settings sample_router (Some NewCollector) sample_dialing
    sample_wf sample_dialing_reach 0 p _ k sample_network E) as [Hs _].
  exact (Hs "10.0.0.1:80" 4%Z 30%Z eq_refl).
Defined.

Lemma server_metrics_witness :
  ∃ c, collector (sh sample_dialing) = Some c ∧ connectionsTotal c = 1%Z.
Proof.
  destruct (server_metrics sample_settings sample_router sample_dialing sample_dialing_reach)
    as (c & Hc & _ & Hn).
  exists c. split; [exact Hc|]. rewrite Hn. vm_compute. reflexivity.
Defined.

Lemma serveClient_terminates_witness :
  (length (run_alone sample_settings sample_network (newRouteDialer sample_router None) sample_client).1.2
     ≤ session_bound)%nat.
Proof.
  destruct (serveClient_terminates sample_settings) as [Hb Hr].
  exact (proj1 (proj2 (Hb _ _ (proj2 (Hr sample_network (newRouteDialer sample_router None) sample_client))))).
Defined.
