(* ===== verification/Reload.v ===== *)
(** * Configuration reload: [src/cmd/zerosock/reload.go]

    The runtime state behind a reload: the configuration in force, the router
    of the server and the health checkers started so far, of which at most one
    is meant to be running. *)
From S2P Require Import Prelude GoStrings Config.
From S2P Require Router Health Server.

(** ** State *)

(** The environment of one load: the resolver, and the order in which each map
    is ranged over. *)
Record env := mkEnv {
  e_dns : resolver;
  e_range : ∀ V, gmap string V → list (string * V);
}.

Definition env_ok (e : env) : Prop := ∀ V m, range_order m (e_range e V m).

(** [checkers] are the goroutines [startChecker] has launched, with whether
    they are still running; [checkerCancel] is the index of the one the cancel
    function in the state stops. *)
Record runtimeState := mkState {
  ctx_done : bool;
  server : Server.shared;
  rs_cfg : RuntimeConfig;
  checkers : list (Health.Checker * bool);
  checkerCancel : option nat;
}.

Definition set_server (st : runtimeState) (s : Server.shared) : runtimeState :=
  mkState (ctx_done st) s (rs_cfg st) (checkers st) (checkerCancel st).
Definition log (st : runtimeState) (line : string) : runtimeState :=
  set_server st (Server.add_log (server st) line).

(** ** The policy on changed settings *)

Definition with_ListenAddr (c : RuntimeConfig) (v : string) : RuntimeConfig :=
  mkRuntime v (rc_MetricsEnabled c) (rc_MetricsListenAddr c) (rc_AutoDiscoveryEnabled c)
    (rc_MaxConnections c) (rc_MaxInflightDials c) (rc_DialTimeout c) (rc_ReadTimeout c)
    (rc_WriteTimeout c) (rc_IdleTimeout c) (rc_TCPKeepAlive c) (rc_ShutdownGrace c)
    (rc_Routes c) (rc_BackendGroups c) (rc_HostToGroup c).
Definition with_MetricsEnabled (c : RuntimeConfig) (v : bool) : RuntimeConfig :=
  mkRuntime (rc_ListenAddr c) v (rc_MetricsListenAddr c) (rc_AutoDiscoveryEnabled c)
    (rc_MaxConnections c) (rc_MaxInflightDials c) (rc_DialTimeout c) (rc_ReadTimeout c)
    (rc_WriteTimeout c) (rc_IdleTimeout c) (rc_TCPKeepAlive c) (rc_ShutdownGrace c)
    (rc_Routes c) (rc_BackendGroups c) (rc_HostToGroup c).
Definition with_MetricsListenAddr (c : RuntimeConfig) (v : string) : RuntimeConfig :=
  mkRuntime (rc_ListenAddr c) (rc_MetricsEnabled c) v (rc_AutoDiscoveryEnabled c)
    (rc_MaxConnections c) (rc_MaxInflightDials c) (rc_DialTimeout c) (rc_ReadTimeout c)
    (rc_WriteTimeout c) (rc_IdleTimeout c) (rc_TCPKeepAlive c) (rc_ShutdownGrace c)
    (rc_Routes c) (rc_BackendGroups c) (rc_HostToGroup c).
Definition with_limits (c : RuntimeConfig) (maxConn maxDials : Z) : RuntimeConfig :=
  mkRuntime (rc_ListenAddr c) (rc_MetricsEnabled c) (rc_MetricsListenAddr c)
    (rc_AutoDiscoveryEnabled c) maxConn maxDials (rc_DialTimeout c) (rc_ReadTimeout c)
    (rc_WriteTimeout c) (rc_IdleTimeout c) (rc_TCPKeepAlive c) (rc_ShutdownGrace c)
    (rc_Routes c) (rc_BackendGroups c) (rc_HostToGroup c).
Definition with_timeouts (c : RuntimeConfig) (dial read write idle keepAlive : Z) : RuntimeConfig :=
  mkRuntime (rc_ListenAddr c) (rc_MetricsEnabled c) (rc_MetricsListenAddr c)
    (rc_AutoDiscoveryEnabled c) (rc_MaxConnections c) (rc_MaxInflightDials c)
    dial read write idle keepAlive (rc_ShutdownGrace c)
    (rc_Routes c) (rc_BackendGroups c) (rc_HostToGroup c).

(** One [if] of the policy: warn and keep the current value on a change. *)
Definition keep {A} `{EqDecision A} (field : RuntimeConfig → A) (set : RuntimeConfig → A → RuntimeConfig)
    (warning : string) (current next : RuntimeConfig) (acc : RuntimeConfig * list string)
    : RuntimeConfig * list string :=
  if bool_decide (field next ≠ field current)
  then (set acc.1 (field current), acc.2 ++ [warning]) else acc.

Definition applyReloadPolicy (currentCfg nextCfg : RuntimeConfig) : RuntimeConfig * list string :=
  let acc := (nextCfg, []) in
  let acc := keep rc_ListenAddr with_ListenAddr
    ("server.listen_addr changed (" +:+ rc_ListenAddr currentCfg +:+ " -> " +:+ rc_ListenAddr nextCfg
     +:+ "), keeping current listener until restart") currentCfg nextCfg acc in
  let acc := keep rc_MetricsListenAddr with_MetricsListenAddr
    ("metrics.listen_addr changed (" +:+ rc_MetricsListenAddr currentCfg +:+ " -> "
     +:+ rc_MetricsListenAddr nextCfg +:+ "), keeping current listener until restart")
    currentCfg nextCfg acc in
  let acc := keep rc_MetricsEnabled with_MetricsEnabled
    ("metrics.enabled changed (" +:+ btoa (rc_MetricsEnabled currentCfg) +:+ " -> "
     +:+ btoa (rc_MetricsEnabled nextCfg)
     +:+ "), keeping current metrics process state until restart") currentCfg nextCfg acc in
  let acc := keep rc_MaxConnections (λ c v, with_limits c v (rc_MaxInflightDials c))
    "server.max_connections changed, keeping current limit until restart" currentCfg nextCfg acc in
  let acc := keep rc_MaxInflightDials (λ c v, with_limits c (rc_MaxConnections c) v)
    "server.max_inflight_dials changed, keeping current limit until restart" currentCfg nextCfg acc in
  let acc := keep rc_DialTimeout
    (λ c v, with_timeouts c v (rc_ReadTimeout c) (rc_WriteTimeout c) (rc_IdleTimeout c) (rc_TCPKeepAlive c))
    "timeouts.dial_ms changed, keeping current dial timeout until restart" currentCfg nextCfg acc in
  let acc := keep rc_ReadTimeout
    (λ c v, with_timeouts c (rc_DialTimeout c) v (rc_WriteTimeout c) (rc_IdleTimeout c) (rc_TCPKeepAlive c))
    "timeouts.read_ms changed, keeping current read timeout until restart" currentCfg nextCfg acc in
  let acc := keep rc_WriteTimeout
    (λ c v, with_timeouts c (rc_DialTimeout c) (rc_ReadTimeout c) v (rc_IdleTimeout c) (rc_TCPKeepAlive c))
    "timeouts.write_ms changed, keeping current write timeout until restart" currentCfg nextCfg acc in
  let acc := keep rc_IdleTimeout
    (λ c v, with_timeouts c (rc_DialTimeout c) (rc_ReadTimeout c) (rc_WriteTimeout c) v (rc_TCPKeepAlive c))
    "timeouts.idle_ms changed, keeping current idle timeout until restart" currentCfg nextCfg acc in
  keep rc_TCPKeepAlive
    (λ c v, with_timeouts c (rc_DialTimeout c) (rc_ReadTimeout c) (rc_WriteTimeout c) (rc_IdleTimeout c) v)
    "tcp.keepalive_ms changed, keeping current TCP keepalive until restart" currentCfg nextCfg acc.

(** ** Reloading *)

Section reload.
Context `{UnicodeTables, Yaml}.

Definition prefix_err {A} (prefix : string) (r : result A) : result A :=
  match r with Err e => Err (wrap_err prefix e) | r => r end.

Definition load (e : env) (f : file) : result RuntimeConfig :=
  Load (e_dns e) (λ c, e_range e _ (Backends c)) (λ c, e_range e _ (Routes c)) f.

Definition buildReloadTarget (e : env) (f : file)
    : result (RuntimeConfig * Router.Router * Health.Checker) :=
  let! cfg := prefix_err "config error" (load e f) in
  let! rt := prefix_err "router init error" (Router.New (rc_Routes cfg) (e_range e _ (rc_Routes cfg))) in
  let checker := Health.New (rc_BackendGroups cfg) (e_range e _ (rc_HostToGroup cfg)) in
  Ok (cfg, rt, checker).

(** [startChecker]: the goroutine ends at once under a cancelled context. *)
Definition startChecker (c : Health.Checker) (st : runtimeState) : runtimeState * nat :=
  (mkState (ctx_done st) (server st) (rs_cfg st) (checkers st ++ [(c, negb (ctx_done st))])
     (checkerCancel st), length (checkers st)).

(** Calling the cancel function of checker [i]. *)
Definition cancel (i : nat) (st : runtimeState) : runtimeState :=
  mkState (ctx_done st) (server st) (rs_cfg st) (alter (λ c, (c.1, false)) i (checkers st))
    (checkerCancel st).

Definition cancel_opt (i : option nat) (st : runtimeState) : runtimeState :=
  match i with Some i => cancel i st | None => st end.

Definition newRuntimeState (e : env) (s : Server.shared) (cfg : RuntimeConfig) (c : Health.Checker)
    : runtimeState :=
  mkState false s cfg [(c, true)] (Some 0).

Definition stopChecker (st : runtimeState) : runtimeState :=
  let c := checkerCancel st in
  cancel_opt c (mkState (ctx_done st) (server st) (rs_cfg st) (checkers st) None).

Definition currentConfig (st : runtimeState) : RuntimeConfig := rs_cfg st.

Definition reload (e : env) (configPath : string) (f : file) (st : runtimeState)
    : runtimeState * result unit :=
  match buildReloadTarget e f with
  | Err err => (st, Err err)
  | Panic w => (st, Panic w)
  | Ok (nextCfg, nextRouter, nextChecker) =>
      let '(appliedCfg, warnings) := applyReloadPolicy (rs_cfg st) nextCfg in
      let '(st, nextCancel) := startChecker nextChecker st in
      let oldCancel := checkerCancel st in
      let st := mkState (ctx_done st) (Server.UpdateRouter nextRouter (server st)) appliedCfg
                  (checkers st) (Some nextCancel) in
      let st := foldl (λ st w, log st ("reload: " +:+ w)) st warnings in
      let st := cancel_opt oldCancel st in
      (log st ("reload: config applied from " +:+ configPath), Ok tt)
  end.

End reload.

(** ** What a reload may and may not change *)

(** The settings that stay as they are until a restart. *)
Definition pinned (c : RuntimeConfig) :=
  (rc_ListenAddr c, rc_MetricsListenAddr c, rc_MetricsEnabled c, rc_MaxConnections c,
   rc_MaxInflightDials c, rc_DialTimeout c, rc_ReadTimeout c, rc_WriteTimeout c,
   rc_IdleTimeout c, rc_TCPKeepAlive c).

(** The settings a reload takes from the file. *)
Definition reloadable (c : RuntimeConfig) :=
  (rc_AutoDiscoveryEnabled c, rc_ShutdownGrace c, rc_Routes c, rc_BackendGroups c, rc_HostToGroup c).

Section policy.
Context {A : Type} `{EqDecision A}.
Context (field : RuntimeConfig → A) (set : RuntimeConfig → A → RuntimeConfig).

Lemma keep_config w current next acc r r' :
  acc.1 = r → field r = field next → set r (field r) = r → set r (field current) = r' →
  (keep field set w current next acc).1 = r'.
Proof.
  intros <- E Hs <-. unfold keep. case_bool_decide as Hc; cbn; [done|].
  destruct (decide (field next = field current)) as [Heq|]; [|by destruct Hc].
  by rewrite <-Heq, <-E, Hs.
Qed.

Lemma keep_warnings w current next acc :
  (keep field set w current next acc).2 = [] ↔ acc.2 = [] ∧ field next = field current.
Proof.
  unfold keep. case_bool_decide as Hc; cbn.
  - split; [by intros [_ ?]%app_nil|tauto].
  - split; [|tauto]. intros ->. split; [done|]. by destruct (decide (field next = field current)).
Qed.

Lemma keep_length w current next acc :
  (length (keep field set w current next acc).2 ≤ S (length acc.2))%nat.
Proof. unfold keep. case_bool_decide; cbn; [rewrite length_app; cbn|]; lia. Qed.
End policy.

(** The configuration a reload applies. *)
Definition merged (current next : RuntimeConfig) : RuntimeConfig :=
  mkRuntime (rc_ListenAddr current) (rc_MetricsEnabled current) (rc_MetricsListenAddr current)
    (rc_AutoDiscoveryEnabled next) (rc_MaxConnections current) (rc_MaxInflightDials current)
    (rc_DialTimeout current) (rc_ReadTimeout current) (rc_WriteTimeout current)
    (rc_IdleTimeout current) (rc_TCPKeepAlive current) (rc_ShutdownGrace next)
    (rc_Routes next) (rc_BackendGroups next) (rc_HostToGroup next).

Ltac keeps_all :=
  first [eapply keep_config; [keeps_all|reflexivity|reflexivity|cbn; reflexivity]|reflexivity].

Lemma applyReloadPolicy_merged current next : (applyReloadPolicy current next).1 = merged current next.
Proof. unfold applyReloadPolicy, merged. cbv zeta. destruct current, next. keeps_all. Qed.

Lemma applyReloadPolicy_warnings current next :
  ((applyReloadPolicy current next).2 = [] ↔ pinned next = pinned current) ∧
  (length (applyReloadPolicy current next).2 ≤ 10)%nat.
Proof.
  unfold applyReloadPolicy. cbv zeta. split.
  - rewrite !keep_warnings. unfold pinned. split; [|intros [=]; by split_and!].
    intros Hall. repeat match goal with Hc : _ ∧ _ |- _ => destruct Hc end. congruence.
  - repeat (etrans; [apply keep_length|]; apply le_n_S). cbn. lia.
Qed.

(** ** Properties of reloading *)

(** The router new connections use. *)
Definition current_router (s : Server.shared) : option Router.Router :=
  Server.routers s !! Server.current s.

(** At most the checker whose cancel function the state holds is running, and
    it watches the groups of the configuration in force. *)
Definition state_ok (st : runtimeState) : Prop :=
  (∀ i c, checkers st !! i = Some (c, true) → checkerCancel st = Some i) ∧
  (∀ i, checkerCancel st = Some i →
     ∃ c, checkers st !! i = Some (c, negb (ctx_done st)) ∧
       Health.ck_groups c = rc_BackendGroups (rs_cfg st)).

Section properties.
Context `{UnicodeTables, Yaml}.

Lemma foldl_log ws st :
  let st' := foldl (λ st w, log st ("reload: " +:+ w)) st ws in
  ctx_done st' = ctx_done st ∧ rs_cfg st' = rs_cfg st ∧ checkers st' = checkers st ∧
  checkerCancel st' = checkerCancel st ∧ Server.routers (server st') = Server.routers (server st) ∧
  Server.current (server st') = Server.current (server st).
Proof.
  revert st. induction ws as [|w ws IH]; intros st; [done|]. cbn [foldl].
  destruct (IH (log st ("reload: " +:+ w))) as (-> & -> & -> & -> & -> & ->). done.
Qed.

Lemma buildReloadTarget_Ok e f cfg rt c :
  buildReloadTarget e f = Ok (cfg, rt, c) →
  load e f = Ok cfg ∧ Router.New (rc_Routes cfg) (e_range e _ (rc_Routes cfg)) = Ok rt ∧
  c = Health.New (rc_BackendGroups cfg) (e_range e _ (rc_HostToGroup cfg)).
Proof.
  unfold buildReloadTarget. intros (cfg' & Hl & (rt' & Hr & [= <- <- <-])%rbind_Ok)%rbind_Ok.
  destruct (load e f) as [cfg''| |]; [|done|done]. injection Hl as ->.
  split; [done|]. split; [|done]. by destruct (Router.New _ _).
Qed.

(** A load does not crash when the resolver answers it consistently. *)
Lemma buildReloadTarget_no_panic e f why :
  dns_stable (e_dns e) → env_ok e → buildReloadTarget e f ≠ Panic why.
Proof.
  intros Hst He. unfold buildReloadTarget, load, Load. destruct f as [|raw]; [done|].
  destruct (Unmarshal raw) as [|cf]; [done|].
  pose proof (λ w, validation_no_panic (e_dns e) (e_range e _ (Backends cf)) (e_range e _ (Routes cf)) cf w Hst (He _ _)) as Hv.
  destruct (normalizeAndValidate _ _ _ cf) as [next| |w]; cbn; [|done|by destruct (Hv w)].
  destruct (Router.New_succeeds_iff (rc_Routes next) _ (He _ _)) as [_ Hn].
  destruct (Router.New _ _) as [rt| |w]; [done|done|by destruct (Hn w)].
Qed.

(** A reload either fails and changes nothing, or installs what it read. *)
Lemma reload_cases e path f st :
  match reload e path f st with
  | (st', Ok _) =>
      ∃ next rt c, buildReloadTarget e f = Ok (next, rt, c) ∧ ctx_done st' = ctx_done st ∧
        rs_cfg st' = merged (rs_cfg st) next ∧ current_router (server st') = Some rt ∧
        checkerCancel st' = Some (length (checkers st)) ∧
        checkers st' =
          match checkerCancel st with
          | Some i => alter (λ x, (x.1, false)) i (checkers st ++ [(c, negb (ctx_done st))])
          | None => checkers st ++ [(c, negb (ctx_done st))]
          end
  | (st', Err err) => st' = st ∧ buildReloadTarget e f = Err err
  | (st', Panic w) => st' = st ∧ buildReloadTarget e f = Panic w
  end.
Proof.
  unfold reload. destruct (buildReloadTarget e f) as [[[next rt] c]|err|w]; [|done|done].
  pose proof (applyReloadPolicy_merged (rs_cfg st) next) as Hm.
  destruct (applyReloadPolicy (rs_cfg st) next) as [applied warnings]. cbn [fst] in Hm. subst applied.
  unfold startChecker. cbn [server checkers checkerCancel ctx_done].
  set (st1 := mkState _ _ _ _ _).
  destruct (foldl_log warnings st1) as (E1 & E2 & E3 & E4 & E5 & E6).
  set (st2 := foldl _ st1 warnings) in *. clearbody st2.
  exists next, rt, c. unfold current_router, log, set_server, cancel_opt, cancel.
  destruct (checkerCancel st); cbn [ctx_done rs_cfg server checkers checkerCancel];
    cbn [Server.add_log Server.routers Server.current]; rewrite ?E1, ?E2, ?E3, ?E4, ?E5, ?E6;
    (split_and!; [done|done|done| |done|done]);
    unfold st1; cbn; rewrite lookup_app_r by lia; by rewrite Nat.sub_diag.
Qed.

Lemma reload_effect e path f st :
  env_ok e → state_ok st → ctx_done st = false →
  match reload e path f st with
  | (st', Ok _) =>
      ∃ next rt, load e f = Ok next ∧ current_router (server st') = Some rt ∧
        Router.New (rc_Routes next) (e_range e _ (rc_Routes next)) = Ok rt ∧
        pinned (rs_cfg st') = pinned (rs_cfg st) ∧ reloadable (rs_cfg st') = reloadable next ∧
        (Router.distinct_keys (rc_Routes next) →
         ∀ host addrs addr, rc_Routes next !! host = Some addrs → addr ∈ addrs →
           Router.alive_flag rt host addr = Some 1%Z) ∧
        state_ok st' ∧ (∃ i c, checkers st' !! i = Some (c, true))
  | (st', Err err) => st' = st ∧ buildReloadTarget e f = Err err
  | (st', Panic w) => st' = st ∧ buildReloadTarget e f = Panic w
  end.
Proof.
  intros He [Hrun Hcur] Hctx. pose proof (reload_cases e path f st) as Hcases.
  destruct (reload e path f st) as [st' [[]|err|w]]; [|done|done].
  destruct Hcases as (next & rt & c & (Hl & Hr & Hc)%buildReloadTarget_Ok & Hctx' & Hcfg & Hrt & Hcan & Hch).
  assert (checkers st' !! length (checkers st) = Some (c, true)) as Hnew.
  { rewrite Hch, Hctx. destruct (checkerCancel st) as [i|] eqn:Ei.
    - destruct (Hcur i eq_refl) as (ci & Hi & _). apply lookup_lt_Some in Hi.
      rewrite list_lookup_alter_ne by lia. rewrite lookup_app_r by lia. by rewrite Nat.sub_diag.
    - rewrite lookup_app_r by lia. by rewrite Nat.sub_diag. }
  exists next, rt. split_and!; try done; try by rewrite Hcfg.
  - intros Hd host addrs addr Hh Ha. apply (Router.fresh_flag _ _ addrs); [|done].
    apply (Router.New_pools _ _ _ _ _ (He _ _) Hd Hr). eauto.
  - split.
    + intros i c' Hi. rewrite Hcan. f_equal. rewrite Hch, Hctx in Hi.
      destruct (decide (i = length (checkers st))) as [|Hne]; [done|]. exfalso.
      assert (∀ j, (checkers st ++ [(c, negb false)]) !! j = Some (c', true) →
        j = length (checkers st) ∨ checkers st !! j = Some (c', true)) as Hj.
      { intros j [|[Hle Hj]]%lookup_app_Some; [by right|left].
        apply list_lookup_singleton_Some in Hj as [Hj _]. lia. }
      destruct (checkerCancel st) as [i0|] eqn:Ei.
      * destruct (decide (i0 = i)) as [->|Hne'].
        -- rewrite list_lookup_alter_eq in Hi. by destruct ((_ ++ _) !! i).
        -- rewrite list_lookup_alter_ne in Hi by done. destruct (Hj i Hi) as [|Hold]; [done|].
           apply Hrun in Hold. congruence.
      * destruct (Hj i Hi) as [|Hold]; [done|]. apply Hrun in Hold. congruence.
    + intros i. rewrite Hcan. intros [= <-]. rewrite Hctx', Hctx. exists c. split; [done|].
      by rewrite Hc, Hcfg.
  - eauto.
Qed.

(** C10: a reload is all or nothing: when the file cannot be read, decoded, validated or turned into a router, nothing changes and the error is returned; otherwise the server routes by exactly the routes of the new configuration, every backend of which starts out alive whatever the health checks had found before, the settings that need a restart keep their values, and the previous health checker is stopped so that exactly one, for the groups now in force, keeps running. *)
Theorem reload_spec e path f st :
  env_ok e → state_ok st → ctx_done st = false →
  match reload e path f st with
  | (st', Ok _) =>
      ∃ next rt, load e f = Ok next ∧ current_router (server st') = Some rt ∧
        Router.New (rc_Routes next) (e_range e _ (rc_Routes next)) = Ok rt ∧
        pinned (rs_cfg st') = pinned (rs_cfg st) ∧ reloadable (rs_cfg st') = reloadable next ∧
        (Router.distinct_keys (rc_Routes next) →
         ∀ host addrs addr, rc_Routes next !! host = Some addrs → addr ∈ addrs →
           Router.alive_flag rt host addr = Some 1%Z) ∧
        state_ok st' ∧ (∃ i c, checkers st' !! i = Some (c, true))
  | (st', Err err) => st' = st ∧ buildReloadTarget e f = Err err
  | (st', Panic w) => st' = st ∧ buildReloadTarget e f = Panic w
  end.
Proof. exact (reload_effect e path f st). Qed.

(** C28: the policy for changed settings: the ten settings that need a restart keep their current values, everything else (routes, groups, health settings, grace period, the auto-discovery flag) is taken from the new configuration, and a warning is logged exactly when a pinned setting differs. *)
Theorem applyReloadPolicy_spec current next :
  let '(applied, warnings) := applyReloadPolicy current next in
  pinned applied = pinned current ∧ reloadable applied = reloadable next ∧
  (warnings = [] ↔ pinned next = pinned current) ∧ (length warnings ≤ 10)%nat.
Proof.
  pose proof (applyReloadPolicy_merged current next) as Hm.
  pose proof (applyReloadPolicy_warnings current next) as [Hw Hl].
  destruct (applyReloadPolicy current next) as [applied warnings]. cbn in *. by rewrite Hm.
Qed.

End properties.

(** ** Witnesses *)

#[local] Existing Instance ascii_tables.

(** A codec for a file that holds the sample configuration. *)
#[local] Instance sample_yaml : Yaml := {|
  Unmarshal := λ raw, if bool_decide (raw = "sample") then inr sample_config else inl (ErrMsg "yaml");
  Marshal := λ _, inl (ErrMsg "yaml")
|}.

Definition sample_env : env := mkEnv fixed_dns (λ V m, map_to_list m).

Definition sample_state : runtimeState :=
  newRuntimeState sample_env (Server.sh (Server.New Server.sample_router None)) sample_rc
    (Health.New (rc_BackendGroups sample_rc) []).

Lemma sample_state_ok : state_ok sample_state.
Proof.
  split.
  - intros i c Hi. apply list_lookup_singleton_Some in Hi as [-> _]. reflexivity.
  - intros i [= <-]. eexists. split; reflexivity.
Qed.

Lemma reload_spec_witness :
  (∃ st', reload sample_env "config.yaml" (inr "sample") sample_state = (st', Ok tt) ∧
     pinned (rs_cfg st') = pinned sample_rc) ∧
  (reload sample_env "config.yaml" (inr "broken") sample_state).1 = sample_state.
Proof.
  split.
  - pose proof (reload_spec sample_env "config.yaml" (inr "sample") sample_state
      (λ V m, range_order_self m) sample_state_ok eq_refl) as Hs.
    assert ((reload sample_env "config.yaml" (inr "sample") sample_state).2 = Ok tt) as Ho
      by (vm_compute; reflexivity).
    destruct (reload _ _ _ _) as [st' r]. cbn in Ho. rewrite Ho in Hs |- *.
    destruct Hs as (next & rt & _ & _ & _ & Hp & _). exists st'. split; [reflexivity|exact Hp].
  - pose proof (reload_spec sample_env "config.yaml" (inr "broken") sample_state
      (λ V m, range_order_self m) sample_state_ok eq_refl) as Hs.
    assert ((reload sample_env "config.yaml" (inr "broken") sample_state).2
      = Err (wrap_err "config error" (wrap_err "parse yaml" (ErrMsg "yaml")))) as Ho
      by (vm_compute; reflexivity).
    destruct (reload _ _ _ _) as [st' r]. cbn in Ho. rewrite Ho in Hs. exact (proj1 Hs).
Defined.
