(* ===== verification/Discovery.v ===== *)
(** * Auto-discovery: [src/cmd/zerosock/discovery.go]

    [Discover] as a function, and as the sequence of atomic steps that
    concurrent calls interleave: registering the key under the mutex, the DNS
    lookup, reading the file, writing it, the reload by the main loop, and
    removing the key. *)
From S2P Require Import Prelude GoStrings GoNet Config Reload.
From S2P Require Router Health Server.

(** [net.LookupHost] *)
Definition lookup_host : Type := string → goerror + list string.

(** What the calls share: the file, the runtime state, and the keys in
    [discovering]. *)
Record world := mkWorld {
  w_file : file;
  w_state : runtimeState;
  discovering : gset string;
  d_log : list string;
}.

Definition set_file (w : world) (f : file) : world :=
  mkWorld f (w_state w) (discovering w) (d_log w).
Definition set_state (w : world) (st : runtimeState) : world :=
  mkWorld (w_file w) st (discovering w) (d_log w).
Definition set_discovering (w : world) (k : gset string) : world :=
  mkWorld (w_file w) (w_state w) k (d_log w).
Definition add_log (w : world) (line : string) : world :=
  mkWorld (w_file w) (w_state w) (discovering w) (d_log w ++ [line]).

(** The environment of one call. *)
Record call_env := mkCallEnv {
  ce_lookup : lookup_host;
  ce_write : option (goerror * file);
  ce_reload : env;
}.

Section discovery.
Context `{UnicodeTables, Yaml}.
Context (configPath : string).

Definition key (host : string) (port : Z) : string := host +:+ ":" +:+ itoa port.

Definition ipv4_addr (port : Z) (ip : string) : option string :=
  parsed ← ParseIP ip;
  _ ← To4 parsed;
  Some (IP_String parsed +:+ ":" +:+ itoa port).

Definition resolve (lookup : lookup_host) (host : string) (port : Z) : result (list string) :=
  let host := TrimSpace host in
  if bool_decide (host = "") then Err (ErrMsg "empty host")
  else match ipv4_addr port host with
  | Some a => Ok [a]
  | None =>
      match lookup host with
      | inl e => Err (wrap_err ("resolve " +:+ Quote host) e)
      | inr ips => Ok (omap (ipv4_addr port) ips)
      end
  end.

Definition routeHost (host : string) (port : Z) : string :=
  match ParseIP (TrimSpace host) with
  | Some ip => IP_String ip +:+ ":" +:+ itoa port
  | None => host
  end.

(** Read the file and add the route: the configuration to write, if any. *)
Definition plan (host : string) (port : Z) (addresses : list string) (f : file)
    : result (option Config) :=
  let! cfg := prefix_err "load config" (LoadRaw f) in
  match AddAutoDiscoveredRoute cfg (routeHost host port) addresses with
  | (_, Err e) => Err e
  | (_, Panic w) => Panic w
  | (_, Ok false) => Ok None
  | (cfg, Ok true) => Ok (Some cfg)
  end.

Definition addresses_of (lookup : lookup_host) (host : string) (port : Z) : result (list string) :=
  let! addresses := resolve lookup host port in
  if bool_decide (length addresses = 0) then Err (ErrMsg ("no addresses for " +:+ host))
  else Ok addresses.

Definition added_log (host : string) (port : Z) (n : nat) : string :=
  "auto-discovery: added " +:+ Quote (routeHost host port) +:+ " -> " +:+ itoa (Z.of_nat n)
  +:+ " addresses".

(** The part of [Discover] between registering the key and removing it. *)
Definition discover_body (ce : call_env) (host : string) (port : Z) (w : world) : world * result bool :=
  match addresses_of (ce_lookup ce) host port with
  | Err e => (w, Err e)
  | Panic p => (w, Panic p)
  | Ok addresses =>
      match plan host port addresses (w_file w) with
      | Err e => (w, Err e)
      | Panic p => (w, Panic p)
      | Ok None => (w, Ok false)
      | Ok (Some cfg) =>
          match Save (ce_write ce) cfg (w_file w) with
          | (f, Err e) => (set_file w f, Err (wrap_err "save config" e))
          | (f, Panic p) => (set_file w f, Panic p)
          | (f, Ok _) =>
              let w := set_file w f in
              match reload (ce_reload ce) configPath (w_file w) (w_state w) with
              | (st, Err e) => (set_state w st, Err (wrap_err "reload after discovery" e))
              | (st, Panic p) => (set_state w st, Panic p)
              | (st, Ok _) =>
                  (add_log (set_state w st) (added_log host port (length addresses)), Ok true)
              end
          end
      end
  end.

Definition Discover (ce : call_env) (host : string) (port : Z) (w : world) : world * result bool :=
  let k := key host port in
  if bool_decide (k ∈ discovering w) then (w, Ok false)
  else
    let '(w, r) := discover_body ce host port (set_discovering w ({[k]} ∪ discovering w)) in
    (set_discovering w (discovering w ∖ {[k]}), r).

(** ** Concurrent calls *)

(** Where a call is. *)
Inductive stage :=
  | Entering
  | Resolving
  | Reading (addresses : list string)
  | Writing (addresses : list string) (cfg : Config)
  | Reloading (addresses : list string)
  | Leaving (r : result bool)
  | Returned (r : result bool).

(** The next atomic step of a call. *)
Definition advance (ce : call_env) (host : string) (port : Z) (s : stage) (w : world) : stage * world :=
  match s with
  | Entering =>
      if bool_decide (key host port ∈ discovering w) then (Returned (Ok false), w)
      else (Resolving, set_discovering w ({[key host port]} ∪ discovering w))
  | Resolving =>
      (match addresses_of (ce_lookup ce) host port with
       | Err e => Leaving (Err e)
       | Panic p => Leaving (Panic p)
       | Ok addresses => Reading addresses
       end, w)
  | Reading addresses =>
      (match plan host port addresses (w_file w) with
       | Err e => Leaving (Err e)
       | Panic p => Leaving (Panic p)
       | Ok None => Leaving (Ok false)
       | Ok (Some cfg) => Writing addresses cfg
       end, w)
  | Writing addresses cfg =>
      match Save (ce_write ce) cfg (w_file w) with
      | (f, Err e) => (Leaving (Err (wrap_err "save config" e)), set_file w f)
      | (f, Panic p) => (Leaving (Panic p), set_file w f)
      | (f, Ok _) => (Reloading addresses, set_file w f)
      end
  | Reloading addresses =>
      match reload (ce_reload ce) configPath (w_file w) (w_state w) with
      | (st, Err e) => (Leaving (Err (wrap_err "reload after discovery" e)), set_state w st)
      | (st, Panic p) => (Leaving (Panic p), set_state w st)
      | (st, Ok _) =>
          (Leaving (Ok true), add_log (set_state w st) (added_log host port (length addresses)))
      end
  | Leaving r => (Returned r, set_discovering w (discovering w ∖ {[key host port]}))
  | Returned r => (Returned r, w)
  end.

Record call := mkCall { c_host : string; c_port : Z; c_env : call_env; c_stage : stage }.

(** Some call takes its next step, a new call arrives, or something else
    touches the file or the runtime state. *)
Inductive calls_step : list call * world → list call * world → Prop :=
  | call_arrives cs w host port ce :
      calls_step (cs, w) (cs ++ [mkCall host port ce Entering], w)
  | call_advances cs w i c s w' :
      cs !! i = Some c →
      advance (c_env c) (c_host c) (c_port c) (c_stage c) w = (s, w') →
      calls_step (cs, w) (<[i := mkCall (c_host c) (c_port c) (c_env c) s]> cs, w')
  | call_other cs w f st :
      calls_step (cs, w) (cs, set_state (set_file w f) st).

(** The call has its key registered. *)
Definition in_progress (c : call) : bool :=
  match c_stage c with Entering | Returned _ => false | _ => true end.

End discovery.

(** ** Lemmas *)

Section lemmas.
Context `{UnicodeTables, Yaml}.
Context (configPath : string).

(** A step changes the set of keys only when a call enters or leaves. *)
Lemma advance_keys ce host port s w s' w' :
  advance configPath ce host port s w = (s', w') →
  let k := key host port in
  (s = Entering ∧ (k ∉ discovering w) ∧ s' = Resolving ∧ discovering w' = {[k]} ∪ discovering w) ∨
  (∃ r, s = Leaving r ∧ s' = Returned r ∧ discovering w' = discovering w ∖ {[k]}) ∨
  (discovering w' = discovering w ∧
   (∀ c e, in_progress (mkCall host port c s) = in_progress (mkCall host port e s'))).
Proof.
  cbn zeta. destruct s as [| |addrs|addrs cfg|addrs|r|r]; cbn [advance].
  - case_bool_decide; intros [= <- <-]; [by right; right|by left].
  - intros [= <- <-]. right; right. by destruct (addresses_of _ _ _).
  - intros [= <- <-]. right; right. by destruct (plan _ _ _ _) as [[]| |].
  - destruct (Save _ _ _) as [f [|e|p]]; intros [= <- <-]; by right; right.
  - destruct (reload _ _ _ _) as [st [|e|p]]; intros [= <- <-]; by right; right.
  - intros [= <- <-]. right; left. by exists r.
  - intros [= <- <-]. by right; right.
Qed.

Definition call_key (c : call) : string := key (c_host c) (c_port c).

(** Each key in progress belongs to exactly one call. *)
Definition calls_ok (x : list call * world) : Prop :=
  (∀ i j ci cj, x.1 !! i = Some ci → x.1 !! j = Some cj → in_progress ci = true →
     in_progress cj = true → call_key ci = call_key cj → i = j) ∧
  (∀ k, k ∈ discovering x.2 ↔ ∃ i c, x.1 !! i = Some c ∧ in_progress c = true ∧ call_key c = k).

Lemma calls_step_ok x y : calls_step configPath x y → calls_ok x → calls_ok y.
Proof.
  intros [cs w host port ce|cs w i c s w' Hi Hs|cs w f st] [Huniq Hkeys]; cbn [fst snd] in *.
  - split; cbn [fst snd].
    + intros a b ca cb [Ha|[_ Ha]]%lookup_app_Some [Hb|[_ Hb]]%lookup_app_Some Pa Pb;
        try (apply list_lookup_singleton_Some in Ha as [_ <-]; done);
        try (apply list_lookup_singleton_Some in Hb as [_ <-]; done). by eapply Huniq.
    + intros k. rewrite Hkeys. split.
      * intros (a & ca & Ha & ?). exists a, ca. by rewrite lookup_app_l by (by eapply lookup_lt_Some).
      * intros (a & ca & [Ha|[_ Ha]]%lookup_app_Some & Pa & ?); [by exists a, ca|].
        by apply list_lookup_singleton_Some in Ha as [_ <-].
  - pose proof (lookup_lt_Some _ _ _ Hi) as Hlt.
    set (c' := mkCall (c_host c) (c_port c) (c_env c) s).
    assert (∀ j cj, <[i := c']> cs !! j = Some cj → (j = i ∧ cj = c') ∨ (j ≠ i ∧ cs !! j = Some cj)) as Hins.
    { intros j cj Hj. destruct (decide (j = i)) as [->|Hne].
      - rewrite list_lookup_insert_eq in Hj by done. left. by injection Hj.
      - rewrite list_lookup_insert_ne in Hj by done. by right. }
    assert (call_key c' = call_key c) as Hk by done.
    destruct c as [host port ce s0]. cbn in Hs.
    destruct (advance_keys _ _ _ _ _ _ _ Hs) as [(-> & Hnew & -> & Hd)|[(r & -> & -> & Hd)|[Hd Hp]]].
    + (* entering *)
      split; cbn [fst snd].
      * intros a b ca cb [[-> ->]|[Hna Ha]]%Hins [[-> ->]|[Hnb Hb]]%Hins Pa Pb E; try done.
        -- destruct Hnew. apply Hkeys. exists b, cb. done.
        -- destruct Hnew. apply Hkeys. exists a, ca. done.
        -- by eapply Huniq.
      * intros k. rewrite Hd, elem_of_union, elem_of_singleton, Hkeys. split.
        -- intros [->|(a & ca & Ha & Pa & Ea)].
           ++ exists i, c'. by rewrite list_lookup_insert_eq.
           ++ exists a, ca. rewrite list_lookup_insert_ne; [done|]. intros ->. by assert (ca = mkCall host port ce Entering) as -> by congruence.
        -- intros (a & ca & [[-> ->]|[Hna Ha]]%Hins & Pa & Ea); [by left|]. right. by exists a, ca.
    + (* leaving *)
      split; cbn [fst snd].
      * intros a b ca cb [[-> ->]|[Hna Ha]]%Hins [[-> ->]|[Hnb Hb]]%Hins Pa Pb E; try done. by eapply Huniq.
      * intros k. rewrite Hd, elem_of_difference, elem_of_singleton, Hkeys. split.
        -- intros [(a & ca & Ha & Pa & Ea) Hne]. exists a, ca. rewrite list_lookup_insert_ne; [done|].
           intros ->. apply Hne. rewrite <-Ea. by assert (ca = mkCall host port ce (Leaving r)) as -> by congruence.
        -- intros (a & ca & [[-> ->]|[Hna Ha]]%Hins & Pa & Ea); [done|]. split; [by exists a, ca|].
           intros ->. apply Hna. eapply Huniq; [exact Ha|exact Hi|done|done|done].
    + (* in between *)
      assert (in_progress c' = in_progress (mkCall host port ce s0)) as HP by (symmetry; apply Hp).
      assert (∀ j cj, <[i := c']> cs !! j = Some cj → ∃ cj0, cs !! j = Some cj0 ∧
        in_progress cj0 = in_progress cj ∧ call_key cj0 = call_key cj) as Hback.
      { intros j cj [[-> ->]|[_ Hj]]%Hins; [|by eauto]. eauto. }
      split; cbn [fst snd].
      * intros a b ca cb (ca0 & Ha & <- & Ka)%Hback (cb0 & Hb & <- & Kb)%Hback Pa Pb E.
        eapply Huniq; [exact Ha|exact Hb|done|done|congruence].
      * intros k. rewrite Hd, Hkeys. split.
        -- intros (a & ca & Ha & Pa & Ea). destruct (decide (a = i)) as [->|Hne].
           ++ exists i, c'. rewrite list_lookup_insert_eq by done. rewrite HP, Hk.
              by assert (ca = mkCall host port ce s0) as <- by congruence.
           ++ exists a, ca. by rewrite list_lookup_insert_ne.
        -- intros (a & ca & (ca0 & Ha & Pa & Ka)%Hback & Pa' & Ea). exists a, ca0. split; [done|].
           split; congruence.
  - by split.
Qed.

End lemmas.

(** ** From a discovered host to a route *)

(** [net.ResolveTCPAddr] on a literal IPv4 address and port answers with that
    address and port, without asking anyone. *)
Definition numeric_dns (dns : resolver) : Prop :=
  ∀ n ip4 port, length ip4 = 4 → (0 ≤ port < 65536)%Z →
    ∃ ip, To4 ip = Some ip4 ∧ dns n (dotted ip4 +:+ ":" +:+ itoa port) = inr (mkTCPAddr ip port).

Section routing.
Context `{UnicodeTables, Yaml}.

(** The text of an IPv4 endpoint. *)
Definition endpoint (ip4 : IP) (port : Z) : string := dotted ip4 +:+ ":" +:+ itoa port.

Lemma plain_endpoint ip4 port : length ip4 = 4 → plain (endpoint ip4 port) = true.
Proof.
  intros Hl. destruct ip4 as [|a [|b [|c [|d [|]]]]]; try done.
  unfold endpoint. rewrite !plain_append, plain_itoa, !andb_true_r.
  unfold plain. rewrite dotted_bytes.
  assert (∀ x, forallb plain_byte (octet_text x) = true) as Ho by (intros x; byte_cases x).
  rewrite forallb_app, Ho. cbn [forallb]. rewrite forallb_app, Ho. cbn [forallb].
  rewrite forallb_app, Ho. cbn [forallb]. by rewrite Ho.
Qed.

(** What [resolve] returns are IPv4 endpoints with the requested port. *)
Lemma resolve_endpoints lookup host port addrs :
  resolve lookup host port = Ok addrs →
  Forall (λ a, ∃ ip4, length ip4 = 4 ∧ a = endpoint ip4 port) addrs.
Proof.
  assert (∀ s a, ipv4_addr port s = Some a → ∃ ip4, length ip4 = 4 ∧ a = endpoint ip4 port) as Hip.
  { intros s a. unfold ipv4_addr. destruct (ParseIP s) as [ip|]; [|done]. cbn.
    destruct (To4 ip) as [ip4|] eqn:E; [|done]. intros [= <-]. exists ip4.
    split; [by eapply To4_length|]. by rewrite (IP_String_v4 _ _ E). }
  unfold resolve. case_bool_decide; [done|]. destruct (ipv4_addr port _) as [a|] eqn:Ea.
  - intros [= <-]. apply Forall_singleton. by eapply Hip.
  - destruct (lookup _) as [e|ips]; [done|]. intros [= <-]. apply Forall_forall.
    intros a (s & _ & Hs)%list_elem_of_omap. by eapply Hip.
Qed.

Lemma formatAddr_endpoint ip ip4 port :
  To4 ip = Some ip4 → formatAddr (mkTCPAddr ip port) = endpoint ip4 port.
Proof.
  intros E. unfold formatAddr, endpoint. cbn [ta_IP ta_Port]. rewrite (IP_String_v4 _ _ E).
  apply To4_length in E. destruct ip4 as [|a [|b [|c [|d [|]]]]]; try done. apply JoinHostPort_v4.
Qed.

(** Addresses that are endpoints survive the resolution of the route loop. *)
Lemma route_addrs_endpoints dns port addrs l :
  numeric_dns dns → (0 ≤ port < 65536)%Z →
  Forall (λ a, ∃ ip4, length ip4 = 4 ∧ a = endpoint ip4 port) addrs →
  Forall2 (λ a s, ∃ k t, dns k (TrimSpace a) = inr t ∧ s = formatAddr t) addrs l → l = addrs.
Proof.
  intros Hdns Hp Hall H2. induction H2 as [|a s addrs l (k & t & Et & ->) _ IH]; [done|].
  apply Forall_cons in Hall as [(ip4 & Hl & ->) Hall]. rewrite IH by done. f_equal.
  rewrite TrimSpace_plain in Et by by apply plain_endpoint.
  destruct (Hdns k ip4 port Hl Hp) as (ip & Hip & E). unfold endpoint in Et.
  rewrite E in Et. injection Et as <-.
  by apply formatAddr_endpoint.
Qed.

Lemma plain_autoGroupName backends host : plain host = true → plain (autoGroupName backends host) = true.
Proof.
  intros Hp. unfold autoGroupName.
  assert (plain (ReplaceByte (ReplaceByte host Byte.x2e Byte.x2d) Byte.x3a Byte.x2d) = true) as Hr
    by (apply plain_ReplaceByte; [done|]; by apply plain_ReplaceByte).
  destruct (backends !! _); by rewrite !plain_append, ?Hr, ?plain_itoa.
Qed.

(** The route a successful validation gives to a plain host whose group has
    IPv4 endpoints, when the hosts of the file are in normal form. *)
Lemma validated_route dns ordB ordR cfg rc host name port addrs :
  range_order (Routes cfg) ordR → numeric_dns dns → (0 ≤ port < 65536)%Z →
  (∀ h, h ∈ dom (Routes cfg) → normalizeHost h = h) →
  Routes cfg !! host = Some name → plain name = true →
  (Addresses <$> Backends cfg !! name) = Some addrs →
  Forall (λ a, ∃ ip4, length ip4 = 4 ∧ a = endpoint ip4 port) addrs →
  normalizeAndValidate dns ordB ordR cfg = Ok rc →
  rc_Routes rc !! host = Some addrs ∧ Router.distinct_keys (rc_Routes rc).
Proof.
  intros HR Hdns Hp Hnorm Hroute Hname Hgroup Hall (dI & dT & dP & n & n1 & _ & Er)%normalizeAndValidate_Ok.
  assert (∀ h l, rc_Routes rc !! h = Some l → normalizeHost h = h) as Hkeys.
  { intros h l Hh. destruct (build_routes_Ok dns _ _ _ _ _ _ _ Er h) as [[E _]|HX].
    { by rewrite E, lookup_empty in Hh. }
    destruct HX as (host0 & g & group & l0 & k & k' & Hin & Hk & _).
    apply (range_order_elem _ _ _ _ HR), elem_of_dom_2, Hnorm in Hin. congruence. }
  split; [|intros h1 h2 [l1 H1]%elem_of_dom [l2 H2]%elem_of_dom E;
           apply Hkeys in H1; apply Hkeys in H2; unfold Router.normalizeHost in E;
           unfold normalizeHost in H1, H2; congruence].
  assert (normalizeHost host = host) as Hfix by (by apply Hnorm, elem_of_dom_2 in Hroute || eapply Hnorm, elem_of_dom_2).
  assert (is_Some (rc_Routes rc !! host)) as [l Hl].
  { rewrite <-Hfix. eapply build_routes_covers; [exact Er|]. left. by apply (range_order_elem _ _ _ _ HR). }
  destruct (build_routes_Ok dns _ _ _ _ _ _ _ Er host) as [[E _]|HX].
  { by rewrite E, lookup_empty in Hl. }
  destruct HX as (host0 & g & group & l0 & k & k' & Hin & Hk & _ & Hg & _ & Hra & Hl0).
  apply (range_order_elem _ _ _ _ HR) in Hin.
  assert (host0 = host) as -> by (rewrite <-Hk; symmetry; eapply Hnorm, elem_of_dom_2; exact Hin).
  assert (g = name) as -> by congruence. rewrite TrimSpace_plain in Hg by done.
  rewrite Hg in Hgroup. injection Hgroup as Haddrs.
  apply route_addrs_Ok in Hra. rewrite Haddrs in Hra.
  rewrite Hl0. f_equal. by eapply route_addrs_endpoints.
Qed.

(** What a call that added a route has done. *)
Lemma discover_added configPath ce host port w w' :
  yaml_roundtrip → Discover configPath ce host port w = (w', Ok true) →
  ∃ addrs cfg0 cfg raw,
    resolve (ce_lookup ce) host port = Ok addrs ∧ addrs ≠ [] ∧ LoadRaw (w_file w) = Ok cfg0 ∧
    AddAutoDiscoveredRoute cfg0 (routeHost host port) addrs = (cfg, Ok true) ∧
    Unmarshal raw = inr cfg ∧
    reload (ce_reload ce) configPath (inr raw) (w_state w) = (w_state w', Ok tt).
Proof.
  intros Hyaml. unfold Discover. case_bool_decide; [done|].
  assert (∀ x : world * result bool, (let '(w2, r) := x in
      (set_discovering w2 (discovering w2 ∖ {[key host port]}), r)) = (w', Ok true) →
    ∃ w2, x = (w2, Ok true) ∧ w_state w' = w_state w2) as Hsplit.
  { intros [w2 x] [= <- ->]. by exists w2. }
  intros (w2 & Hbody & ->)%Hsplit. revert Hbody. unfold discover_body, addresses_of, plan.
  cbn [w_file w_state set_discovering].
  destruct (resolve _ _ _) as [addrs|e|p]; cbn [rbind]; [|done|done].
  case_bool_decide as Hne; [done|]. destruct (LoadRaw (w_file w)) as [cfg0|e|p]; [|done|done].
  cbn [prefix_err rbind]. destruct (AddAutoDiscoveredRoute _ _ _) as [cfg [[]|e|p]] eqn:Eadd; try done.
  unfold Save. destruct (Marshal cfg) as [e|raw] eqn:Em; [done|].
  destruct (ce_write ce) as [[]|]; [done|]. cbn [w_file w_state set_file].
  destruct (reload _ _ _ _) as [st [[]|e|p]] eqn:Er; [|done|done]. intros [= <-].
  exists addrs, cfg0, cfg, raw. split_and!; try done; [by intros ->|by apply Hyaml].
Qed.

(** The call found endpoints for a host the file does not route yet; [cfg] is
    the configuration with the new route. *)
Definition found (ce : call_env) (host : string) (port : Z) (f : file) (addrs : list string)
    (cfg : Config) : Prop :=
  resolve (ce_lookup ce) host port = Ok addrs ∧ addrs ≠ [] ∧
  ∃ cfg0, LoadRaw f = Ok cfg0 ∧ AddAutoDiscoveredRoute cfg0 (routeHost host port) addrs = (cfg, Ok true).

(** What a call has done to the world when it ends with a result. *)
Definition outcome (configPath : string) (ce : call_env) (host : string) (port : Z) (w w' : world)
    (r : result bool) : Prop :=
  match r with
  | Ok true => ∃ addrs cfg raw,
      found ce host port (w_file w) addrs cfg ∧ Marshal cfg = inr raw ∧ w_file w' = inr raw ∧
      reload (ce_reload ce) configPath (inr raw) (w_state w) = (w_state w', Ok tt) ∧
      d_log w' = d_log w ++ [added_log host port (length addrs)]
  | Ok false => w' = w ∧ ∃ addrs cfg0,
      resolve (ce_lookup ce) host port = Ok addrs ∧ addrs ≠ [] ∧ LoadRaw (w_file w) = Ok cfg0 ∧
      is_Some (Routes cfg0 !! normalizeHost (routeHost host port))
  | _ =>
      w_state w' = w_state w ∧ d_log w' = d_log w ∧
      (w_file w' = w_file w ∨
       ∃ addrs cfg, found ce host port (w_file w) addrs cfg ∧
         w_file w' = (Save (ce_write ce) cfg (w_file w)).1)
  end.

Lemma discover_body_outcome configPath ce host port w :
  let '(w', r) := discover_body configPath ce host port w in
  discovering w' = discovering w ∧ outcome configPath ce host port w w' r.
Proof.
  unfold discover_body, addresses_of, plan, outcome.
  destruct (resolve _ _ _) as [addrs|e|p] eqn:Er; cbn [rbind]; [|by auto|by auto].
  case_bool_decide as Hne; [by auto|]. destruct (LoadRaw (w_file w)) as [cfg0|e|p] eqn:El; cbn [prefix_err rbind];
    [|by auto|by auto].
  assert (addrs ≠ []) as Ha by by intros ->.
  destruct (AddAutoDiscoveredRoute _ _ _) as [cfg [[]|e|p]] eqn:Eadd; [| |by auto|by auto].
  - assert (found ce host port (w_file w) addrs cfg) as Hf by (split_and!; [done|done|by eauto]).
    destruct (Save (ce_write ce) cfg (w_file w)) as [f [[]|e|p]] eqn:Es; cbn [w_file w_state set_file];
      [|by (split_and!; try done; right; exists addrs, cfg; rewrite Es)..].
    assert (∃ raw, Marshal cfg = inr raw ∧ f = inr raw) as (raw & Em & ->).
    { revert Es. unfold Save. destruct (Marshal cfg) as [|raw]; [done|]. destruct (ce_write ce) as [[]|]; [done|].
      intros [= <-]. eauto. }
    pose proof (reload_cases (ce_reload ce) configPath (inr raw) (w_state w)) as Hc.
    destruct (reload _ _ _ _) as [st [[]|e|p]] eqn:Ere; cbn.
    + split; [done|]. exists addrs, cfg, raw. by rewrite Ere.
    + destruct Hc as [-> _]. split_and!; try done. right. exists addrs, cfg. by rewrite Es.
    + destruct Hc as [-> _]. split_and!; try done. right. exists addrs, cfg. by rewrite Es.
  - split_and!; [done|done|]. exists addrs, cfg0. split_and!; try done. revert Eadd.
    unfold AddAutoDiscoveredRoute. do 2 (case_bool_decide; [done|]). destruct (Routes cfg0 !! _); [by eauto|done].
Qed.

Lemma add_effect cfg0 host addrs cfg :
  AddAutoDiscoveredRoute cfg0 host addrs = (cfg, Ok true) →
  let name := autoGroupName (Backends cfg0) (normalizeHost host) in
  Routes cfg = <[normalizeHost host := name]> (Routes cfg0) ∧
  Addresses <$> Backends cfg !! name = Some addrs.
Proof.
  unfold AddAutoDiscoveredRoute. do 2 (case_bool_decide; [done|]).
  destruct (Routes cfg0 !! _); [done|]. intros [= <-]. cbn. by rewrite lookup_insert_eq.
Qed.

End routing.

(** ** Properties of discovery *)

Section properties.
Context `{UnicodeTables, Yaml}.
Context (configPath : string).

(** C29: under any interleaving of calls with each other and with anything else that changes the file or the runtime state, at most one call per host and port is between registering and removing its key, the set in the discoverer is exactly the keys of the calls in progress, and once every call has returned it is empty. *)
Theorem discover_exclusive w0 cs w :
  discovering w0 = ∅ → rtc (calls_step configPath) ([], w0) (cs, w) →
  (∀ i j ci cj, cs !! i = Some ci → cs !! j = Some cj → in_progress ci = true →
     in_progress cj = true → call_key ci = call_key cj → i = j) ∧
  (∀ k, k ∈ discovering w ↔ ∃ i c, cs !! i = Some c ∧ in_progress c = true ∧ call_key c = k) ∧
  (Forall (λ c, in_progress c = false) cs → discovering w = ∅).
Proof.
  intros H0' Hr.
  assert (calls_ok (cs, w)) as [Hu Hk].
  { eapply rtc_preserve; [|exact Hr|]; [intros a b; by apply calls_step_ok|].
    split; cbn [fst snd]; [by intros i j ci cj Hi|]. intros k. rewrite H0'. split; [by intros ?%not_elem_of_empty|].
    by intros (i & c & Hi & _). }
  split_and!; [done|done|]. intros Hall. apply set_eq. intros k. rewrite Hk. split; [|by intros ?%not_elem_of_empty].
  intros (i & c & Hi & Hp & _). pose proof (Forall_lookup_1 _ _ _ _ Hall Hi). cbn in *. congruence.
Qed.

(** Running a call alone from where it stands. *)
Fixpoint finish (n : nat) (ce : call_env) (host : string) (port : Z) (s : stage) (w : world)
    : stage * world :=
  match n with
  | O => (s, w)
  | S n => let '(s, w) := advance configPath ce host port s w in finish n ce host port s w
  end.

Lemma finish_Discover ce host port w :
  finish 6 ce host port Entering w =
    (Returned (Discover configPath ce host port w).2, (Discover configPath ce host port w).1).
Proof.
  unfold Discover, discover_body. cbn [finish advance].
  case_bool_decide as Hk; [done|]. cbn [finish advance].
  destruct (addresses_of _ _ _) as [addrs|e|p]; cbn [finish advance]; [|done|done].
  cbn [w_file set_discovering].
  destruct (plan _ _ _ _) as [[cfg|]|e|p]; cbn [finish advance]; [|done|done|done].
  cbn [w_file set_discovering].
  destruct (Save _ _ _) as [f [[]|e|p]]; cbn [finish advance]; [|done|done].
  destruct (reload _ _ _ _) as [st [[]|e|p]]; done.
Qed.

(** C30: what a call of [Discover] does, on every branch: it returns within six of the atomic steps that concurrent calls interleave, its key is never left behind, also when it fails; when the key is taken, or the file already routes the host, it reports false and changes nothing; when it reports true the file holds the text of the configuration extended with the endpoints found, that file has been loaded and the outcome logged; and when it fails the runtime state and the log are as before, and the file is either as before or what writing the extended configuration left. *)
Theorem discover_alone ce host port w :
  let '(w', r) := Discover configPath ce host port w in
  finish 6 ce host port Entering w = (Returned r, w') ∧
  discovering w' = discovering w ∧
  (key host port ∈ discovering w → w' = w ∧ r = Ok false) ∧
  (key host port ∉ discovering w → outcome configPath ce host port w w' r).
Proof.
  pose proof (finish_Discover ce host port w) as Hfin. unfold Discover in *.
  case_bool_decide as Hk; [by split_and!|]. revert Hfin.
  pose proof (discover_body_outcome configPath ce host port
    (set_discovering w ({[key host port]} ∪ discovering w))) as Hb.
  destruct (discover_body _ _ _ _ _) as [w1 r] eqn:E. cbn [fst snd]. intros Hfin. destruct Hb as [Hd Ho].
  assert (discovering w1 ∖ {[key host port]} = discovering w) as Hset
    by (rewrite Hd; cbn [discovering set_discovering];
        rewrite difference_union_distr_l_L, difference_diag_L, union_empty_l_L;
        by apply difference_disjoint_L, disjoint_singleton_r).
  split_and!; [exact Hfin|exact Hset|done|]. intros _. unfold outcome in *.
  destruct r as [[]|e|p]; cbn [w_file w_state d_log set_discovering] in *; [exact Ho| |exact Ho|exact Ho].
  destruct Ho as [-> Ho]. split; [|exact Ho]. rewrite Hset. by destruct w.
Qed.

(** C9: discovery makes a host reachable: when [Discover] reports that it added a plain host in normal form (for an IPv4 request, its address and port), the router that new connections then use has a pool for it with exactly the IPv4 endpoints found, every one of them is on the whitelist, and the next selection for the host succeeds, so the second attempt of the request that triggered the discovery can be dialed. *)
Theorem discover_routes ce host port w w' :
  yaml_roundtrip → env_ok (ce_reload ce) → numeric_dns (e_dns (ce_reload ce)) →
  (0 ≤ port < 65536)%Z → plain (routeHost host port) = true →
  normalizeHost (routeHost host port) = routeHost host port →
  (∀ cfg, LoadRaw (w_file w) = Ok cfg → ∀ h, h ∈ dom (Routes cfg) → normalizeHost h = h) →
  Discover configPath ce host port w = (w', Ok true) →
  ∃ rt addrs a,
    current_router (server (w_state w')) = Some rt ∧
    resolve (ce_lookup ce) host port = Ok addrs ∧
    Router.pools rt !! routeHost host port = Some (Router.fresh_pool addrs) ∧
    (∀ a', a' ∈ addrs → is_Some (Router.HostForBackendAddr rt a')) ∧
    head addrs = Some a ∧ (Router.Pick rt (routeHost host port)).2 = Ok a.
Proof.
  intros Hyaml He Hdns Hp Hplain Hfix Hnorm Hd.
  destruct (discover_added _ _ _ _ _ _ Hyaml Hd) as (addrs & cfg0 & cfg & raw & Hres & Hne & Hraw & Hadd & Hdec & Hrel).
  pose proof (reload_cases (ce_reload ce) configPath (inr raw) (w_state w)) as Hc. rewrite Hrel in Hc.
  destruct Hc as (next & rt & c & (Hload & Hnew & _)%buildReloadTarget_Ok & _ & _ & Hcur & _).
  destruct (add_effect _ _ _ _ Hadd) as [Hroutes Hgroup]. rewrite Hfix in Hroutes, Hgroup.
  unfold load, Load in Hload. rewrite Hdec in Hload.
  assert (rc_Routes next !! routeHost host port = Some addrs ∧ Router.distinct_keys (rc_Routes next))
    as [Hr Hdist].
  { eapply (validated_route (e_dns (ce_reload ce)) _ _ cfg next (routeHost host port)
      (autoGroupName (Backends cfg0) (routeHost host port)) port addrs (He _ _) Hdns Hp);
      [| | | | |exact Hload].
    - intros h. rewrite Hroutes, dom_insert, elem_of_union, elem_of_singleton.
      intros [->|Hh]; [done|by apply (Hnorm cfg0)].
    - by rewrite Hroutes, lookup_insert_eq.
    - by apply plain_autoGroupName.
    - done.
    - by eapply resolve_endpoints. }
  destruct addrs as [|a addrs]; [done|].
  assert (Router.pools rt !! routeHost host port = Some (Router.fresh_pool (a :: addrs))) as Hpool.
  { apply (Router.New_pools _ _ _ _ _ (He _ _) Hdist Hnew). eauto. }
  exists rt, (a :: addrs), a. split_and!; try done.
  - intros a' Ha. by eapply Router.New_index.
  - apply (Router.Pick_fresh _ _ a addrs).
      by change (Router.normalizeHost (routeHost host port)) with (normalizeHost (routeHost host port)); rewrite Hfix.
Qed.

End properties.

(** ** Witnesses *)

#[local] Existing Instance ascii_tables.

(** The number below [q + fuel], from [q], whose decimal text this is. *)
Fixpoint decimal_from (fuel : nat) (q : Z) (text : string) : option Z :=
  match fuel with
  | O => None
  | S fuel => if bool_decide (itoa q = text) then Some q else decimal_from fuel (q + 1) text
  end.

Lemma decimal_from_itoa fuel q z :
  (q ≤ z < q + Z.of_nat fuel)%Z → decimal_from fuel q (itoa z) = Some z.
Proof.
  revert q. induction fuel as [|fuel IH]; intros q Hz; [lia|]. cbn [decimal_from].
  case_bool_decide as He; [by apply (inj pretty) in He as ->|]. apply IH.
  assert (q ≠ z) by (by intros ->). lia.
Qed.

(** A resolver for literal endpoints. *)
Definition literal_dns : resolver := λ _ s,
  match cut_byte Byte.x3a (s2b s) with
  | Some (h, p) =>
      match ParseIP (b2s h), decimal_from (Z.to_nat 65536) 0 (b2s p) with
      | Some ip, Some q => inr (mkTCPAddr ip q)
      | _, _ => inl (ErrMsg "no such host")
      end
  | None => inl (ErrMsg "missing port in address")
  end.

Lemma literal_dns_numeric : numeric_dns literal_dns.
Proof.
  intros n ip4 port Hl Hp. exists (v4_in_v6_prefix ++ ip4). split; [by apply To4_mapped|].
  destruct ip4 as [|a [|b [|c [|d [|]]]]]; try done. unfold literal_dns.
  rewrite !s2b_app. change (s2b ":") with [Byte.x3a]. cbn [app].
  rewrite cut_byte_app.
  2: { rewrite dotted_bytes. repeat (rewrite elem_of_app || rewrite elem_of_cons).
       intros [Hi|[Hi|[Hi|[Hi|[Hi|[Hi|Hi]]]]]]; try done; by apply octet_text_notin in Hi. }
  rewrite !b2s_s2b, ParseIP_dotted.
  by rewrite decimal_from_itoa by lia.
Qed.

#[local] Instance HealthcheckConfig_eq_dec : EqDecision HealthcheckConfig.
Proof. solve_decision. Defined.
#[local] Instance BackendGroup_eq_dec : EqDecision BackendGroup.
Proof. solve_decision. Defined.
#[local] Instance Config_eq_dec : EqDecision Config.
Proof. solve_decision. Defined.

(** A file with one static route, and the files two discoveries write. *)
Definition base_config : Config :=
  mkConfig "0.0.0.0:1080" 0 0 (Some false) "" (mkHealthcheck 5000 2000 "") 0 0 0 0 0 0 (Some true)
    {[ "api-pool" := mkBackendGroup ["10.0.0.1:80"] (mkHealthcheck 0 0 "") ]}
    {[ "api.internal" := "api-pool" ]}.

Definition with_a : Config := (AddAutoDiscoveredRoute base_config "a.internal" ["10.0.0.7:80"]).1.
Definition with_b : Config := (AddAutoDiscoveredRoute base_config "b.internal" ["10.0.0.8:80"]).1.

Definition texts : list (string * Config) :=
  [("base", base_config); ("with a", with_a); ("with b", with_b)].

#[local] Instance text_yaml : Yaml := {|
  Unmarshal := λ raw,
    match find (λ e, bool_decide (e.1 = raw)) texts with
    | Some e => inr e.2 | None => inl (ErrMsg "yaml") end;
  Marshal := λ cfg,
    match find (λ e, bool_decide (e.2 = cfg)) texts with
    | Some e => inr e.1 | None => inl (ErrMsg "yaml") end
|}.

Lemma text_yaml_roundtrip : yaml_roundtrip.
Proof.
  intros cfg raw. cbn [Marshal Unmarshal text_yaml].
  destruct (find _ texts) as [e|] eqn:Ee; [|done]. intros [= <-].
  apply find_some in Ee as [Hin Hc%bool_decide_eq_true]. subst cfg.
  cbn in Hin. destruct Hin as [<-|[<-|[<-|[]]]]; reflexivity.
Qed.

Definition sample_lookup : lookup_host := λ host,
  if bool_decide (host = "a.internal") then inr ["::1"; "10.0.0.7"]
  else if bool_decide (host = "b.internal") then inr ["10.0.0.8"]
  else inl (ErrMsg "no such host").

Definition sample_call_env : call_env :=
  mkCallEnv sample_lookup None (mkEnv literal_dns (λ V m, map_to_list m)).

Definition base_world : world :=
  mkWorld (inr "base") sample_state ∅ [].

Definition found_world : world :=
  (Discover "config.yaml" sample_call_env "a.internal" 80 base_world).1.

Lemma sample_discovery :
  Discover "config.yaml" sample_call_env "a.internal" 80 base_world = (found_world, Ok true).
Proof.
  unfold found_world.
  assert ((Discover "config.yaml" sample_call_env "a.internal" 80 base_world).2 = Ok true) as E
    by (vm_compute; reflexivity).
  destruct (Discover _ _ _ _ _) as [w r]. cbn in E. by rewrite E.
Qed.

Lemma sample_call_env_ok : env_ok (ce_reload sample_call_env).
Proof. unfold sample_call_env. cbn [ce_reload]. intros V m. apply range_order_self. Qed.

Lemma sample_call_env_numeric : numeric_dns (e_dns (ce_reload sample_call_env)).
Proof. unfold sample_call_env. cbn [ce_reload e_dns]. apply literal_dns_numeric. Qed.

Lemma base_hosts_normal cfg :
  LoadRaw (w_file base_world) = Ok cfg → ∀ h, h ∈ dom (Routes cfg) → normalizeHost h = h.
Proof.
  intros Hl. assert (cfg = base_config) as -> by (injection Hl as <-; reflexivity).
  intros h. unfold base_config. cbn [Routes]. rewrite dom_singleton, elem_of_singleton.
  intros ->. vm_compute. reflexivity.
Qed.

Lemma sample_resolves : resolve (ce_lookup sample_call_env) "a.internal" 80 = Ok ["10.0.0.7:80"].
Proof. vm_compute. reflexivity. Qed.

Lemma discover_routes_witness :
  ∃ rt, current_router (server (w_state found_world)) = Some rt ∧
    (Router.Pick rt "a.internal").2 = Ok "10.0.0.7:80".
Proof.
  assert (plain (routeHost "a.internal" 80) = true) as Hp by (vm_compute; reflexivity).
  assert (normalizeHost (routeHost "a.internal" 80) = routeHost "a.internal" 80) as Hn
    by (vm_compute; reflexivity).
  assert (routeHost "a.internal" 80 = "a.internal") as Hh by (vm_compute; reflexivity).
  pose proof (discover_routes "config.yaml" sample_call_env "a.internal" 80 base_world found_world
    text_yaml_roundtrip sample_call_env_ok sample_call_env_numeric ltac:(lia) Hp Hn
    base_hosts_normal sample_discovery) as (rt & addrs & a & Hcur & Hres & _ & _ & Hhd & Hpick).
  exists rt. split; [exact Hcur|]. rewrite sample_resolves in Hres. injection Hres as <-.
  injection Hhd as <-. rewrite Hh in Hpick. exact Hpick.
Defined.

(** Two calls that overlap: the second waits for DNS while the first has
    already registered. *)
Definition overlap : list call * world :=
  ([mkCall "a.internal" 80 sample_call_env Resolving; mkCall "a.internal" 80 sample_call_env (Returned (Ok false))],
   set_discovering base_world {[ "a.internal:80" ]}).

Lemma overlap_reach : rtc (calls_step "config.yaml") ([], base_world) overlap.
Proof.
  eapply rtc_l; [apply (call_arrives _ [] _ "a.internal" 80%Z sample_call_env)|].
  eapply rtc_l; [eapply (call_advances _ _ _ 0); [reflexivity|reflexivity]|].
  eapply rtc_l; [apply (call_arrives _ _ _ "a.internal" 80%Z sample_call_env)|].
  eapply rtc_l; [eapply (call_advances _ _ _ 1); [reflexivity|vm_compute; reflexivity]|].
  apply rtc_refl.
Qed.

Lemma discover_exclusive_witness :
  ∃ i c, overlap.1 !! i = Some c ∧ in_progress c = true ∧ call_key c = "a.internal:80".
Proof.
  destruct (discover_exclusive "config.yaml" base_world overlap.1 overlap.2 eq_refl overlap_reach)
    as (_ & Hk & _).
  apply (Hk "a.internal:80"). unfold overlap. cbn. apply elem_of_singleton. reflexivity.
Defined.

(** ** Overlapping discoveries of different hosts *)

(** The calls take their steps in the order of the schedule. *)
Fixpoint run_calls (sched : list nat) (x : list call * world) : list call * world :=
  match sched with
  | [] => x
  | i :: sched =>
      match x.1 !! i with
      | None => run_calls sched x
      | Some c =>
          let '(s, w) := advance "config.yaml" (c_env c) (c_host c) (c_port c) (c_stage c) x.2 in
          run_calls sched (<[i := mkCall (c_host c) (c_port c) (c_env c) s]> x.1, w)
      end
  end.

Lemma run_calls_reach sched x : rtc (calls_step "config.yaml") x (run_calls sched x).
Proof.
  revert x. induction sched as [|i sched IH]; intros [cs w]; cbn [run_calls fst snd]; [done|].
  destruct (cs !! i) as [c|] eqn:Hi; [|apply IH].
  destruct (advance _ _ _ _ _ _) as [s w'] eqn:Ea.
  eapply rtc_l; [by eapply call_advances|apply IH].
Qed.

Definition two_calls : list call * world :=
  ([mkCall "a.internal" 80 sample_call_env Entering; mkCall "b.internal" 80 sample_call_env Entering],
   base_world).

(** Both calls read the file before either writes it. *)
Definition raced : list call * world := run_calls [0; 0; 0; 1; 1; 1; 0; 0; 0; 1; 1; 1] two_calls.

Definition has_pool (w : world) (host : string) : option bool :=
  rt ← current_router (server (w_state w)); Some (bool_decide (is_Some (Router.pools rt !! host))).

(** Updates of the file are not serialised: two discoveries of different hosts that overlap can both report success although the second has overwritten the route of the first, whose host the running router no longer knows. *)
Theorem discoveries_lose_update :
  ∃ cs w, rtc (calls_step "config.yaml") ([], base_world) (cs, w) ∧
    c_stage <$> cs = [Returned (Ok true); Returned (Ok true)] ∧
    has_pool w "b.internal" = Some true ∧ has_pool w "a.internal" = Some false.
Proof.
  exists raced.1, raced.2. split.
  - eapply rtc_l; [apply (call_arrives _ [] _ "a.internal" 80%Z sample_call_env)|].
    eapply rtc_l; [apply (call_arrives _ _ _ "b.internal" 80%Z sample_call_env)|].
    rewrite <-surjective_pairing. exact (run_calls_reach _ two_calls).
  - split; [vm_compute; reflexivity|]. split; vm_compute; reflexivity.
Qed.
