(* ===== verification/Main.v ===== *)
(** * The process: [src/cmd/zerosock/main.go]

    [run]: start-up, the select loop over the servers, the signals and the
    reload requests of the discoverer, and the shutdown; and [main] around it.  The events arrive in
    any order; a reload reads the file and the resolver as they are then. *)
From S2P Require Import Prelude GoStrings Config Reload.
From S2P Require Router Health Server Handler Metrics.

(** What the loop's channels deliver; a termination signal comes with the error
    of closing the listener, if there is one. *)
Inductive event :=
  | ServeEnded (err : option goerror)
  | MetricsEnded (err : option goerror)
  | Hangup (e : env) (f : file)
  | Terminate (sig : string) (closing : option goerror)
  | ReloadRequest (id : nat) (e : env) (f : file)
  | WaitDone (drained : bool).

Inductive phase :=
  | Looping
  | Draining
  | Exited (err : option goerror)
  | Crashed (why : string).

(** [listener_closed]: [server.Shutdown] has been called; [replies]: what was
    sent on the channel of each reload request. *)
Record process := mkProcess {
  state : runtimeState;
  metrics_on : bool;
  listener_closed : bool;
  p_phase : phase;
  replies : list (nat * option goerror);
}.

(** [cancel()]: every goroutine started under the context ends. *)
Definition cancel_ctx (st : runtimeState) : runtimeState :=
  mkState true (server st) (rs_cfg st) ((λ c, (c.1, false)) <$> checkers st) (checkerCancel st).

Section main.
Context `{UnicodeTables, Yaml}.
Context (configPath : string).

(** [validateConfig], with the line it logs. *)
Definition validateConfig (e : env) (f : file) : result string :=
  let! cfg := prefix_err "config error" (load e f) in
  let! rt := prefix_err "router init error" (Router.New (rc_Routes cfg) (e_range e _ (rc_Routes cfg))) in
  Ok ("config OK: " +:+ configPath).

Definition settings_of (cfg : RuntimeConfig) : Handler.settings :=
  Handler.mkSettings (rc_DialTimeout cfg) (rc_TCPKeepAlive cfg) (rc_MaxConnections cfg)
    (rc_MaxInflightDials cfg) (rc_ReadTimeout cfg) (rc_WriteTimeout cfg) (rc_IdleTimeout cfg)
    (rc_AutoDiscoveryEnabled cfg).

(** [run] up to its loop. *)
Definition start (e : env) (f : file) : result process :=
  let! t := buildReloadTarget e f in
  let '(cfg, rt, checker) := t in
  let s := Server.sh (Server.New rt (Some Metrics.NewCollector)) in
  Ok (mkProcess (newRuntimeState e s cfg checker) (rc_MetricsEnabled cfg) false Looping []).

Definition with_state (p : process) (st : runtimeState) : process :=
  mkProcess st (metrics_on p) (listener_closed p) (p_phase p) (replies p).
Definition with_phase (p : process) (ph : phase) : process :=
  mkProcess (state p) (metrics_on p) (listener_closed p) ph (replies p).
Definition reply (p : process) (id : nat) (err : option goerror) : process :=
  mkProcess (state p) (metrics_on p) (listener_closed p) (p_phase p) (replies p ++ [(id, err)]).
Definition say (p : process) (line : string) : process := with_state p (log (state p) line).

(** [cancel(); state.stopChecker(); server.Shutdown()] *)
Definition halt (p : process) : process :=
  mkProcess (stopChecker (cancel_ctx (state p))) (metrics_on p) true (p_phase p) (replies p).

(** The error of [server.Shutdown] is logged unless it is [os.ErrClosed]. *)
Definition close_log (closing : option goerror) (p : process) : process :=
  match closing with
  | Some err =>
      if errors_Is err SOsClosed then p
      else say p ("shutdown: close listener error: " +:+ err_text err)
  | None => p
  end.

Definition fail_with (what : string) (err : option goerror) (p : process) : process :=
  match err with
  | Some err => with_phase (halt p) (Exited (Some (wrap_err what err)))
  | None => with_phase (with_state p (cancel_ctx (state p))) (Exited None)
  end.

(** One iteration of the loop. *)
Definition on_loop (ev : event) (p : process) : process :=
  match ev with
  | ServeEnded err => fail_with "serve failed" err p
  | MetricsEnded err => if metrics_on p then fail_with "metrics serve failed" err p else p
  | Hangup e f =>
      match reload e configPath f (state p) with
      | (st, Ok _) => with_state p st
      | (st, Err err) => say (with_state p st) ("reload: failed: " +:+ err_text err)
      | (st, Panic w) => with_phase (with_state p st) (Crashed w)
      end
  | Terminate sig closing =>
      let p := say p ("shutdown: received signal " +:+ sig) in
      let p := close_log closing (halt p) in
      with_phase
        (say p ("shutdown: allowing active tunnels to finish for "
                +:+ Duration_String (rc_ShutdownGrace (currentConfig (state p))))) Draining
  | ReloadRequest id e f =>
      match reload e configPath f (state p) with
      | (st, Ok _) => reply (with_state p st) id None
      | (st, Err err) =>
          reply (say (with_state p st) ("reload: auto-discovery failed: " +:+ err_text err)) id (Some err)
      | (st, Panic w) => with_phase (with_state p st) (Crashed w)
      end
  | WaitDone _ => p
  end.

(** The final select: any signal, also a hangup, ends the wait. *)
Definition on_drain (ev : event) (p : process) : process :=
  match ev with
  | WaitDone true => with_phase (say p "shutdown: all active tunnels finished") (Exited None)
  | WaitDone false =>
      with_phase (say p "shutdown: grace period elapsed with active tunnels") (Exited None)
  | Terminate sig _ =>
      with_phase (say p ("shutdown: second signal " +:+ sig +:+ ", exiting immediately")) (Exited None)
  | Hangup _ _ =>
      with_phase (say p "shutdown: second signal hangup, exiting immediately") (Exited None)
  | _ => p
  end.

Definition on_event (p : process) (ev : event) : process :=
  match p_phase p with
  | Looping => on_loop ev p
  | Draining => on_drain ev p
  | _ => p
  end.

Definition run (p : process) (evs : list event) : process := foldl on_event p evs.

End main.

(** How the process ends: normally, by [fatalf], or by a panic. *)
Inductive outcome :=
  | Success
  | Fatal (message : string)
  | Aborted (why : string).

Section entry.
Context `{UnicodeTables, Yaml}.

(** [main], on what the two flags hold: the first argument is [-config], the
    second [-c].  [None]: the process is still running. *)
Definition main (configPath checkConfigPath : string) (e : env) (open : string → file)
    (evs : list event) : option outcome :=
  if negb (bool_decide (checkConfigPath = "")) then
    match validateConfig checkConfigPath e (open checkConfigPath) with
    | Ok _ => Some Success
    | Err err => Some (Fatal (err_text err))
    | Panic w => Some (Aborted w)
    end
  else
    match start e (open configPath) with
    | Err err => Some (Fatal (err_text err))
    | Panic w => Some (Aborted w)
    | Ok p =>
        match p_phase (run configPath p evs) with
        | Looping | Draining => None
        | Exited None => Some Success
        | Exited (Some err) => Some (Fatal (err_text err))
        | Crashed w => Some (Aborted w)
        end
    end.

End entry.

(** ** Lemmas *)

Section lemmas.
Context `{UnicodeTables, Yaml}.
Context (configPath : string).

Definition event_ok (ev : event) : Prop :=
  match ev with Hangup e _ | ReloadRequest _ e _ => env_ok e | _ => True end.

Definition request_id (ev : event) : option nat :=
  match ev with ReloadRequest id _ _ => Some id | _ => None end.

(** No health checker is running. *)
Definition quiescent (st : runtimeState) : Prop := ∀ i c b, checkers st !! i = Some (c, b) → b = false.

(** Exactly one health checker is running, for the groups in force. *)
Definition one_checker (st : runtimeState) : Prop :=
  ∃ i c, checkers st !! i = Some (c, true) ∧ Health.ck_groups c = rc_BackendGroups (rs_cfg st) ∧
    ∀ j c', checkers st !! j = Some (c', true) → j = i.

Definition running_ok (st : runtimeState) : Prop :=
  state_ok st ∧ ctx_done st = false ∧ is_Some (checkerCancel st).

Lemma running_one_checker st : running_ok st → one_checker st.
Proof.
  intros ([Hrun Hcur] & Hctx & [i Hi]). destruct (Hcur i Hi) as (c & Hc & Hg). rewrite Hctx in Hc.
  exists i, c. split_and!; [done|done|]. intros j c' Hj%Hrun. congruence.
Qed.

Lemma log_ok st line : running_ok st → running_ok (log st line).
Proof. done. Qed.

Lemma reload_ok e f st :
  env_ok e → running_ok st →
  pinned (rs_cfg (reload e configPath f st).1) = pinned (rs_cfg st) ∧
  running_ok (reload e configPath f st).1.
Proof.
  intros He (Hok & Hctx & Hc). pose proof (reload_effect e configPath f st He Hok Hctx) as Hr.
  pose proof (reload_cases e configPath f st) as Hcases.
  destruct (reload e configPath f st) as [st' [[]|err|w]]; cbn [fst].
  - destruct Hr as (next & rt & _ & _ & _ & Hp & _ & _ & Hok' & _). split; [done|].
    destruct Hcases as (? & ? & ? & _ & Hctx' & _ & _ & Hcan & _).
    split; [done|]. split; [by rewrite Hctx'|]. rewrite Hcan. eauto.
  - by destruct Hr as [-> _].
  - by destruct Hr as [-> _].
Qed.

Lemma cancel_ctx_quiescent st : quiescent (cancel_ctx st).
Proof.
  intros i c b. cbn. rewrite list_lookup_fmap. by destruct (checkers st !! i); intros [= _ <-].
Qed.

Lemma stop_quiescent st : quiescent st → quiescent (stopChecker st).
Proof.
  intros Hq i c b. unfold stopChecker, cancel_opt. destruct (checkerCancel st) as [k|]; cbn; [|by apply Hq].
  destruct (decide (k = i)) as [->|Hne].
  - rewrite list_lookup_alter_eq. by destruct (checkers st !! i); intros [= _ <-].
  - rewrite list_lookup_alter_ne by done. by apply Hq.
Qed.

(** What holds in each phase. *)
Definition process_ok (c0 : RuntimeConfig) (p : process) : Prop :=
  pinned (rs_cfg (state p)) = pinned c0 ∧
  match p_phase p with
  | Looping => running_ok (state p)
  | Draining => quiescent (state p) ∧ listener_closed p = true
  | Exited _ => quiescent (state p)
  | Crashed _ => True
  end.

Lemma stop_cfg st : rs_cfg (stopChecker st) = rs_cfg st.
Proof. unfold stopChecker, cancel_opt. by destruct (checkerCancel st). Qed.

Lemma halt_ok p : quiescent (state (halt p)) ∧ rs_cfg (state (halt p)) = rs_cfg (state p).
Proof.
  split; [apply stop_quiescent, cancel_ctx_quiescent|]. cbn [halt state]. by rewrite stop_cfg.
Qed.

Lemma fail_with_ok c0 what err p :
  pinned (rs_cfg (state p)) = pinned c0 → process_ok c0 (fail_with what err p).
Proof.
  intros Hpin. destruct (halt_ok p) as [Hq Hc]. destruct err as [err|]; split; cbn [fail_with].
  - change (pinned (rs_cfg (state (halt p))) = pinned c0). by rewrite Hc.
  - exact Hq.
  - exact Hpin.
  - apply cancel_ctx_quiescent.
Qed.

(** Logging changes neither the checkers nor the configuration. *)
Lemma close_log_same closing p :
  checkers (state (close_log closing p)) = checkers (state p) ∧
  rs_cfg (state (close_log closing p)) = rs_cfg (state p) ∧
  listener_closed (close_log closing p) = listener_closed p ∧
  replies (close_log closing p) = replies p.
Proof. destruct closing as [err|]; [|done]. cbn [close_log]. by destruct (errors_Is err SOsClosed). Qed.

Lemma draining_ok c0 closing line line' p :
  pinned (rs_cfg (state p)) = pinned c0 →
  process_ok c0 (with_phase (say (close_log closing (halt (say p line))) line') Draining).
Proof.
  intros Hpin. destruct (halt_ok (say p line)) as [Hq Hc].
  destruct (close_log_same closing (halt (say p line))) as (Eck & Ec & El & _).
  split; cbn [p_phase with_phase]; [|split].
  - change (pinned (rs_cfg (state (close_log closing (halt (say p line))))) = pinned c0). by rewrite Ec, Hc.
  - intros i c b Hi. apply (Hq i c b). by rewrite <-Eck.
  - exact El.
Qed.

(** A reload in the loop, whatever is logged or answered afterwards. *)
Lemma reload_in_loop c0 p e f p' :
  process_ok c0 p → p_phase p = Looping → env_ok e →
  rs_cfg (state p') = rs_cfg (reload e configPath f (state p)).1 →
  (p_phase p' = Looping ∧ (∃ line, state p' = (reload e configPath f (state p)).1 ∨
     state p' = log (reload e configPath f (state p)).1 line) ∨ ∃ w, p_phase p' = Crashed w) →
  process_ok c0 p'.
Proof.
  intros [Hpin Hph] Ep He Hcfg Hcase. rewrite Ep in Hph. destruct (reload_ok e f _ He Hph) as [Hp Hok].
  split; [by rewrite Hcfg, Hp|].
  destruct Hcase as [[-> [line [-> | ->]]]|[w ->]]; [exact Hok|by apply log_ok|done].
Qed.

Lemma on_event_ok c0 p ev :
  event_ok ev → process_ok c0 p → process_ok c0 (on_event configPath p ev).
Proof.
  intros Hev Hok. pose proof Hok as [Hpin Hph]. unfold on_event.
  destruct (p_phase p) eqn:Ep; [| |done|done].
  - destruct ev as [err|err|e f|sig cl|id e f|b]; cbn [on_loop].
    + by apply fail_with_ok.
    + destruct (metrics_on p); [by apply fail_with_ok|done].
    + pose proof (reload_in_loop c0 p e f) as Hr. destruct (reload _ _ _ _) as [st [[]|err|w]]; apply Hr; try done.
      * left. split; [done|]. exists "". by left.
      * left. split; [done|]. eexists. by right.
      * right. by exists w.
    + apply draining_ok, Hpin.
    + pose proof (reload_in_loop c0 p e f) as Hr. destruct (reload _ _ _ _) as [st [[]|err|w]]; apply Hr; try done.
      * left. split; [done|]. exists "". by left.
      * left. split; [done|]. eexists. by right.
      * right. by exists w.
    + done.
  - destruct ev as [err|err|e f|sig cl|id e f|[]]; cbn [on_drain]; try done; split; try apply Hpin; apply Hph.
Qed.

Lemma run_ok c0 p evs :
  Forall event_ok evs → process_ok c0 p → process_ok c0 (run configPath p evs).
Proof.
  revert p. induction evs as [|ev evs IH]; intros p; [done|].
  intros [Hev Hevs]%Forall_cons Hp. cbn. apply IH; [done|]. by apply on_event_ok.
Qed.

(** Outside the loop nothing is answered, and the loop is not entered again. *)
Lemma on_event_after p ev :
  p_phase p ≠ Looping →
  p_phase (on_event configPath p ev) ≠ Looping ∧ replies (on_event configPath p ev) = replies p.
Proof.
  unfold on_event. destruct (p_phase p) eqn:Ep; [done| |by rewrite Ep..]. intros _.
  destruct ev as [| | | | |[]]; cbn; rewrite ?Ep; done.
Qed.

Lemma run_after p evs :
  p_phase p ≠ Looping →
  p_phase (run configPath p evs) ≠ Looping ∧ replies (run configPath p evs) = replies p.
Proof.
  revert p. induction evs as [|ev evs IH]; intros p Hp; [done|]. cbn.
  destruct (on_event_after p ev Hp) as [Hp' <-]. by apply IH.
Qed.

Lemma on_event_looping p ev :
  p_phase p = Looping → p_phase (on_event configPath p ev) = Looping →
  (replies (on_event configPath p ev)).*1 = (replies p).*1 ++ option_list (request_id ev).
Proof.
  unfold on_event. intros ->. destruct ev as [err|err|e f|sig cl|id e f|b]; cbn [on_loop request_id option_list].
  - by destruct err.
  - destruct (metrics_on p); [by destruct err|]. by rewrite app_nil_r.
  - destruct (reload _ _ _ _) as [st [[]|err|w]]; cbn; rewrite ?app_nil_r; done.
  - done.
  - destruct (reload _ _ _ _) as [st [[]|err|w]]; cbn; rewrite ?fmap_app; done.
  - by rewrite app_nil_r.
Qed.

Lemma run_looping p evs :
  p_phase (run configPath p evs) = Looping →
  (replies (run configPath p evs)).*1 = (replies p).*1 ++ omap request_id evs.
Proof.
  revert p. induction evs as [|ev evs IH]; intros p Hp; [by rewrite app_nil_r|].
  change (run configPath p (ev :: evs)) with (run configPath (on_event configPath p ev) evs) in *.
  destruct (p_phase p) eqn:Ep.
  2-4: destruct (run_after p (ev :: evs)) as [Hno _]; [by rewrite Ep|]; by destruct Hno.
  destruct (p_phase (on_event configPath p ev)) eqn:Ep'.
  2-4: destruct (run_after (on_event configPath p ev) evs) as [Hno _]; [by rewrite Ep'|]; by destruct Hno.
  rewrite IH by done. rewrite on_event_looping by done. rewrite <-app_assoc. f_equal.
  cbn [omap list_omap]. by destruct (request_id ev).
Qed.

Lemma start_ok e f p : start e f = Ok p → process_ok (rs_cfg (state p)) p ∧ p_phase p = Looping.
Proof.
  unfold start. intros ([[cfg rt] c] & Hb & [= <-])%rbind_Ok. split; [|done]. split; [done|].
  apply buildReloadTarget_Ok in Hb as (_ & _ & ->). split; [|by eauto]. split.
  - intros i c' Hi. by apply list_lookup_singleton_Some in Hi as [-> _].
  - intros i [= <-]. eexists. split; reflexivity.
Qed.

End lemmas.

(** ** Properties of the process *)

Section properties.
Context `{UnicodeTables, Yaml}.
Context (configPath : string).

(** C14: whatever sequence of signals, reload requests and server failures follows a successful start: while the loop runs exactly one health checker is running and it watches the groups in force, after it none is; the settings that need a restart still have their initial values; the server is shut down before the process waits for its tunnels; and every reload request that arrived while the loop was running has been answered exactly once and in order, while one that arrives later is never answered. *)
Theorem run_lifecycle e f p0 evs :
  start e f = Ok p0 → Forall event_ok evs →
  let p := run configPath p0 evs in
  pinned (rs_cfg (state p)) = pinned (rs_cfg (state p0)) ∧
  (p_phase p = Looping → one_checker (state p) ∧ (replies p).*1 = omap request_id evs) ∧
  (p_phase p = Draining → quiescent (state p) ∧ listener_closed p = true) ∧
  (∀ err, p_phase p = Exited err → quiescent (state p)) ∧
  (p_phase p ≠ Looping → ∀ evs', replies (run configPath p evs') = replies p).
Proof.
  intros Hs Hevs p. destruct (start_ok e f p0 Hs) as [Hok Hph].
  pose proof (run_ok configPath _ _ _ Hevs Hok) as [Hpin HP]. fold p in Hpin, HP.
  split_and!; [done| | | |].
  - intros Hl. rewrite Hl in HP. split; [by apply running_one_checker|].
    unfold p. rewrite run_looping by done.
    assert (replies p0 = []) as ->; [|done].
    revert Hs. unfold start. by intros ([[cfg rt] c] & _ & [= <-])%rbind_Ok.
  - intros Hd. by rewrite Hd in HP.
  - intros err Hx. by rewrite Hx in HP.
  - intros Hne evs'. by apply run_after.
Qed.

(** Checking a configuration and starting with it agree: [validateConfig] accepts exactly the files with which [run] reaches its loop, and they fail with the same error. *)
Theorem validateConfig_agrees e f :
  match start e f with
  | Ok p => validateConfig configPath e f = Ok ("config OK: " +:+ configPath) ∧ p_phase p = Looping
  | Err err => validateConfig configPath e f = Err err
  | Panic w => validateConfig configPath e f = Panic w
  end.
Proof.
  unfold start, validateConfig, buildReloadTarget. destruct (prefix_err _ (load e f)) as [cfg| |]; cbn; [|done|done].
  by destruct (prefix_err _ (Router.New _ _)).
Qed.

(** A channel that ends on its own, with the nil error. *)
Definition ended_quietly (ev : event) : Prop := ev = ServeEnded None ∨ ev = MetricsEnded None.
Definition termination (ev : event) : Prop := ∃ sig closing, ev = Terminate sig closing.

Lemma on_event_success p ev :
  p_phase p = Looping →
  (p_phase (on_event configPath p ev) = Exited None → ended_quietly ev) ∧
  (p_phase (on_event configPath p ev) = Draining → termination ev).
Proof.
  unfold on_event, ended_quietly, termination. intros Ep. rewrite Ep.
  destruct ev as [[]|[]|e f|sig cl|id e f|b]; cbn [on_loop]; try destruct (metrics_on p);
    try destruct (reload _ _ _ _) as [st [[]|err|w]]; cbn; rewrite ?Ep; split; intros ?; by eauto.
Qed.

(** After its end nothing happens to the process. *)
Definition over (p : process) : Prop := match p_phase p with Exited _ | Crashed _ => True | _ => False end.

Lemma run_over p evs : over p → run configPath p evs = p.
Proof.
  unfold over. intros Hp. induction evs as [|ev evs IH]; [done|]. cbn [run foldl].
  assert (on_event configPath p ev = p) as ->; [|exact IH]. unfold on_event. by destruct (p_phase p).
Qed.

(** A successful exit needs a termination signal. *)
Lemma run_success p evs :
  p_phase p = Looping → p_phase (run configPath p evs) = Exited None ∨ p_phase (run configPath p evs) = Draining →
  (∀ ev, ev ∈ evs → ¬ ended_quietly ev) → ∃ ev, ev ∈ evs ∧ termination ev.
Proof.
  revert p. induction evs as [|ev evs IH]; intros p Hp; cbn [run foldl]; [by rewrite Hp; intros []|].
  change (foldl (on_event configPath) (on_event configPath p ev) evs) with (run configPath (on_event configPath p ev) evs).
  intros Hend Hq. destruct (on_event_success p ev Hp) as [Hx Hd].
  assert (over (on_event configPath p ev) → p_phase (on_event configPath p ev) = Exited None) as Hov.
  { intros Hov. rewrite run_over in Hend by done. destruct Hend as [|He]; [done|]. unfold over in Hov. by rewrite He in Hov. }
  unfold over in Hov. destruct (p_phase (on_event configPath p ev)) as [| |err|w] eqn:E.
  - destruct (IH _ E Hend) as (ev' & ? & ?); [intros ? ?; apply Hq; by right|]. exists ev'. by split; [right|].
  - exists ev. split; [by left|by apply Hd].
  - by destruct (Hq ev ltac:(by left)); apply Hx, Hov.
  - by specialize (Hov I).
Qed.

(** C38: the exit status of the program: with [-c] it only checks the file and exits successfully exactly when the server would start with that file, printing the error with which starting would fail; without it, a start that fails is fatal with the same error, and once started the process exits successfully only after a termination signal, as long as no server ends by itself without an error. *)
Theorem main_outcome check e open evs :
  (check ≠ "" →
   main configPath check e open evs =
     match start e (open check) with
     | Ok _ => Some Success | Err err => Some (Fatal (err_text err)) | Panic w => Some (Aborted w)
     end) ∧
  (∀ err, start e (open configPath) = Err err → main configPath "" e open evs = Some (Fatal (err_text err))) ∧
  ((∀ ev, ev ∈ evs → ¬ ended_quietly ev) → main configPath "" e open evs = Some Success →
   ∃ ev, ev ∈ evs ∧ termination ev).
Proof.
  unfold main. split_and!.
  - intros Hc. rewrite bool_decide_eq_false_2 by done. cbn [negb].
    unfold start, validateConfig, buildReloadTarget.
    destruct (prefix_err _ (load e (open check))) as [cfg| |]; cbn; [|done|done].
    by destruct (prefix_err _ (Router.New _ _)).
  - intros err. rewrite bool_decide_eq_true_2 by done. cbn [negb]. by intros ->.
  - rewrite bool_decide_eq_true_2 by done. cbn [negb]. intros Hq.
    destruct (start e (open configPath)) as [p| |] eqn:Es; [|done|done].
    destruct (start_ok e _ p Es) as [_ Hp].
    destruct (p_phase (run configPath p evs)) as [| |[err|]|w] eqn:Er; try done.
    intros _. by apply (run_success p evs Hp); [left|].
Qed.

End properties.

(** ** Witnesses *)

#[local] Existing Instance ascii_tables.
#[local] Existing Instance sample_yaml.

Definition sample_process : process :=
  match start sample_env (inr "sample") with
  | Ok p => p
  | _ => mkProcess sample_state false false (Crashed "") []
  end.

Lemma sample_start : start sample_env (inr "sample") = Ok sample_process.
Proof.
  unfold sample_process.
  assert (match start sample_env (inr "sample") with Ok _ => True | _ => False end) as Hs
    by (vm_compute; exact I).
  by destruct (start sample_env (inr "sample")).
Qed.

(** A failed reload, a served request, a termination and a late request. *)
Definition sample_events : list event :=
  [Hangup sample_env (inr "broken"); ReloadRequest 7 sample_env (inr "sample");
   Terminate "terminated" (Some (ErrMsg "bad descriptor"));
   ReloadRequest 8 sample_env (inr "sample")].

Lemma run_lifecycle_witness :
  quiescent (state (run "config.yaml" sample_process sample_events)) ∧
  listener_closed (run "config.yaml" sample_process sample_events) = true.
Proof.
  destruct (run_lifecycle "config.yaml" sample_env (inr "sample") sample_process sample_events
    sample_start) as (_ & _ & Hd & _).
  - repeat constructor; intros V m; apply range_order_self.
  - apply Hd. vm_compute. reflexivity.
Defined.

Lemma main_outcome_witness :
  main "config.yaml" "config.yaml" sample_env (λ _, inr "broken") [] =
    Some (Fatal "config error: parse yaml: yaml") ∧
  ∃ ev, ev ∈ [Terminate "terminated" None; WaitDone true] ∧ termination ev.
Proof.
  split.
  - destruct (main_outcome "config.yaml" "config.yaml" sample_env (λ _, inr "broken") []) as (Hc & _).
    rewrite (Hc ltac:(discriminate)). vm_compute. reflexivity.
  - destruct (main_outcome "config.yaml" "" sample_env (λ _, inr "sample") [Terminate "terminated" None; WaitDone true])
      as (_ & _ & Hs). apply Hs.
    + intros ev. rewrite !elem_of_cons. intros [->|[->|[]%not_elem_of_nil]] [|]; discriminate.
    + vm_compute. reflexivity.
Defined.
