(* ===== verification/EndToEnd.v ===== *)
(** * A whole session, from the bytes of the client to the bytes it receives

    The components put together: the handler of [handler.go] running over the
    protocol of [protocol.go], the router of [pool.go] and the shared state of
    [server.go], with nothing running in between. *)
From S2P Require Import Prelude GoStrings GoNet Protocol Metrics Prog Handler Server.
From S2P Require Router.

Section session.
Context `{UnicodeTables}.
Context (cfg : settings) (net : network).

(** The addresses a trace dials. *)
Definition dialed_in (t : list (event answer)) : list string :=
  omap (λ ev, match ev with Event (Dial target _ _) _ => Some target | _ => None end) t.

Abbreviation answers := (λ e (w : shared * peer), respond cfg net w.1 w.2 e).

(** Running [p] alone from [w] ends in a state, with dials and with a result
    that satisfy [Q]. *)
Definition does {A} (p : go A) (w : shared * peer)
    (Q : shared * peer → list string → A → Prop) : Prop :=
  let '(w', t, a) := exec answers p w in Q w' (dialed_in t) a.

Lemma does_ret {A} (a : A) w (Q : _ → _ → _ → Prop) : Q w [] a → does (mret a) w Q.
Proof. done. Qed.

Lemma does_bind {A B} (p : go A) (f : A → go B) w (Q : _ → _ → _ → Prop) :
  does p w (λ w1 d1 a, does (f a) w1 (λ w2 d2 b, Q w2 (d1 ++ d2) b)) → does (p ≫= f) w Q.
Proof.
  assert (∀ (p : go A) (f : A → go B) w, exec answers (prog_bind f p) w =
    let '(w1, t1, a) := exec answers p w in
    let '(w2, t2, b) := exec answers (f a) w1 in (w2, t1 ++ t2, b)) as Hb.
  { clear. intros p f. induction p as [a|e k IH]; intros w; cbn [prog_bind exec].
    - by destruct (exec answers (f a) w) as [[w2 t2] b].
    - destruct (respond cfg net w.1 w.2 e) as [w1 r]. rewrite IH.
      destruct (exec answers (k r) w1) as [[w2 t2] a].
      by destruct (exec answers (f a) w2) as [[w3 t3] b]. }
  unfold does, mbind, prog_mbind. rewrite Hb. destruct (exec answers p w) as [[w1 t1] a].
  destruct (exec answers (f a) w1) as [[w2 t2] b]. unfold dialed_in. by rewrite omap_app.
Qed.

Lemma does_mono {A} (p : go A) w (Q Q' : _ → _ → _ → Prop) :
  does p w Q → (∀ w' d a, Q w' d a → Q' w' d a) → does p w Q'.
Proof. unfold does. destruct (exec answers p w) as [[w' t] a]. auto. Qed.

(** Everything shared but the metrics is as it was. *)
Definition same (s s' : shared) : Prop :=
  routers s' = routers s ∧ current s' = current s ∧ dialSlots s' = dialSlots s ∧
  connSlots s' = connSlots s ∧ wg s' = wg s ∧ s_log s' = s_log s.

Lemma same_refl s : same s s.
Proof. done. Qed.

Lemma same_trans s1 s2 s3 : same s1 s2 → same s2 s3 → same s1 s3.
Proof.
  intros (? & ? & ? & ? & ? & ?) (? & ? & ? & ? & ? & ?). split_and!; congruence.
Qed.

(** An effect that changes nothing but metrics and deadlines. *)
Definition mild (e : effect) : bool :=
  match e with
  | Now | SetReadDeadline _ | SetWriteDeadline _ | SetDeadline _ | BackendSetDeadline _
  | Metric _ | CloseBackend | BackendSetKeepAlive _ | FirstHalf | Copy _ | CloseWrite _ => true
  | _ => false
  end.

Definition unchanged {A} (w w' : shared * peer) (d : list string) (_ : A) : Prop :=
  same w.1 w'.1 ∧ p_conn w'.2 = p_conn w.2 ∧ d = [].

Lemma does_mild e w : mild e = true → does (perform e) w (unchanged w).
Proof. by destruct e, w. Qed.

Lemma unchanged_bind {A B} (p : go A) (f : A → go B) w :
  does p w (unchanged w) → (∀ a w', does (f a) w' (unchanged w')) → does (p ≫= f) w (unchanged w).
Proof.
  intros Hp Hf. apply does_bind. eapply does_mono; [exact Hp|]. intros w1 d1 a (S1 & C1 & ->).
  eapply does_mono; [apply Hf|]. intros w2 d2 b (S2 & C2 & ->).
  split; [by eapply same_trans|]. split; [congruence|done].
Qed.

Lemma unchanged_ret {A} (a : A) w : does (mret a) w (unchanged w).
Proof. by apply does_ret. Qed.

Ltac mildly :=
  match goal with |- does (perform ?e) ?w _ => exact (does_mild e w eq_refl) end.

(** Follow the structure of a program whose effects are all mild. *)
Ltac mild_steps :=
  repeat first
    [ progress intros
    | apply unchanged_ret
    | mildly
    | apply unchanged_bind
    | match goal with |- does (if ?b then _ else _) _ _ => destruct b end ].

Lemma unchanged_arm w : does (arm_read cfg) w (unchanged w).
Proof. unfold arm_read. mild_steps. Qed.

(** One quiet step and the rest of the program. *)
Lemma quietly {A B} (p : go A) (f : A → go B) w (Q : _ → _ → _ → Prop) :
  (∀ w, does p w (unchanged w)) →
  (∀ a w', same w.1 w'.1 → p_conn w'.2 = p_conn w.2 → does (f a) w' Q) →
  does (p ≫= f) w Q.
Proof.
  intros Hp Hf. apply does_bind. eapply does_mono; [apply Hp|]. intros w1 d1 a (S1 & C1 & ->).
  by apply Hf.
Qed.

(** The backend accepts the connection and both copies end without an error. *)
Context (target : string) (backend : dialed) (ip4 : IP) (lport : Z).
Hypothesis dial_ok : n_dial net target = inr backend.
Hypothesis backend_tcp : is_tcp backend = true.
Hypothesis copies_ok : ∀ d, (n_copy net d).2 = None.

Lemma dial_picked_does host w r :
  routers w.1 !! current w.1 = Some r → (Router.Pick r (normalizeHost host)).2 = Ok target →
  does (dial_picked cfg host) w (λ w' d res,
    same (set_routers w.1 (<[current w.1 := (Router.Pick r (normalizeHost host)).1]> (routers w.1))
            (current w.1)) w'.1 ∧
    p_conn w'.2 = p_conn w.2 ∧ d = [target] ∧ res = DialReturned target (inr backend)).
Proof.
  intros Hr Hp. destruct w as [s p]. cbn [fst snd] in *. unfold dial_picked, does.
  cbn [perform mbind prog_mbind prog_bind exec respond fst snd]. rewrite Hr.
  destruct (Router.Pick r (normalizeHost host)) as [r' res]. cbn in Hp. subst res.
  cbn [exec respond fst snd]. rewrite dial_ok, backend_tcp. cbn. done.
Qed.

Lemma DialRoute_does host w r :
  (0 < maxInflightDials cfg → Z.of_nat (dialSlots w.1) < maxInflightDials cfg)%Z →
  routers w.1 !! current w.1 = Some r → (Router.Pick r (normalizeHost host)).2 = Ok target →
  does (DialRoute cfg host) w (λ w' d res,
    same (set_routers w.1 (<[current w.1 := (Router.Pick r (normalizeHost host)).1]> (routers w.1))
            (current w.1)) w'.1 ∧
    p_conn w'.2 = p_conn w.2 ∧ d = [target] ∧ res = DialReturned target (inr backend)).
Proof.
  intros Hslot Hr Hp. unfold DialRoute. destruct (Z.ltb_spec 0 (maxInflightDials cfg)); [|by apply dial_picked_does].
  apply does_bind. unfold does at 1. destruct w as [s p]. cbn [fst snd] in *.
  cbn [perform exec respond fst snd].
  assert ((Z.of_nat (dialSlots s) <? maxInflightDials cfg)%Z = true) as -> by (apply Z.ltb_lt; lia).
  cbn [exec]. apply does_bind. eapply does_mono; [by apply (dial_picked_does host (_, p) r)|].
  intros w1 d1 res ((E1 & E2 & E3 & E4 & E5 & E6) & Hc & -> & ->). cbn in *.
  unfold does. cbn. split_and!; try done. unfold same. cbn. rewrite E1, E2, E3, E4, E5, E6. by split_and!.
Qed.

(** The routers after the selection. *)
Definition after_pick (s : shared) (r : Router.Router) (host : string) : shared :=
  set_routers s (<[current s := (Router.Pick r host).1]> (routers s)) (current s).

Lemma same_after_pick s s' r host : same s s' → same (after_pick s r host) (after_pick s' r host).
Proof. intros (E1 & E2 & E3 & E4 & E5 & E6). unfold same, after_pick. cbn. rewrite E1, E2. by split_and!. Qed.

Lemma route_loop_does req w r :
  atyp req = atypFQDN →
  (0 < maxInflightDials cfg → Z.of_nat (dialSlots w.1) < maxInflightDials cfg)%Z →
  routers w.1 !! current w.1 = Some r →
  (Router.Pick r (normalizeHost (RouteKey req))).2 = Ok target →
  does (route_loop cfg req loop_fuel 0) w (λ w' d res,
    same (after_pick w.1 r (normalizeHost (RouteKey req))) w'.1 ∧
    p_conn w'.2 = p_conn w.2 ∧ d = [target] ∧ res = Some (Connected (RouteKey req) target backend)).
Proof.
  intros Hat Hslot Hr Hp. cbn [route_loop loop_fuel]. apply does_bind.
  unfold route_attempt. rewrite Hat, bool_decide_eq_false_2 by done. unfold dial_attempt.
  unfold metric. apply quietly; [by mild_steps|]. intros _ w1 S1 C1.
  apply quietly; [by mild_steps|]. intros t0 w2 S2 C2. pose proof (same_trans _ _ _ S1 S2) as S.
  pose proof S as (E1 & E2 & E3 & _).
  apply does_bind. eapply does_mono.
  { apply (DialRoute_does (RouteKey req) w2 r); rewrite ?E1, ?E2, ?E3; done. }
  intros w3 d3 res (S3 & C3 & -> & ->).
  apply quietly; [by mild_steps|]. intros t1 w4 S4 C4.
  apply quietly; [by mild_steps|]. intros _ w5 S5 C5. apply does_ret. apply does_ret.
  split_and!; [|congruence|done|done].
  eapply same_trans; [by apply same_after_pick|]. eapply same_trans; [exact S3|].
  by eapply same_trans.
Qed.

Lemma relay_does w : does relay w (λ w' d r, unchanged w w' d r ∧ r.1 = None).
Proof.
  assert (∀ h w, does (copyHalf h) w (λ w' d r, unchanged w w' d r ∧ r = None)) as Hc.
  { intros h w0. unfold copyHalf, does. cbn. rewrite copies_ok. done. }
  unfold relay. apply quietly; [by mild_steps|]. intros first w1 S1 C1.
  apply does_bind. eapply does_mono; [apply Hc|]. intros w2 d2 e1 [(S2 & C2 & ->) ->].
  apply does_bind. eapply does_mono; [apply Hc|]. intros w3 d3 e2 [(S3 & C3 & ->) ->].
  apply does_ret. split; [|done]. split_and!; [|congruence|done].
  eapply same_trans; [exact S1|]. by eapply same_trans.
Qed.

(** The effects that run a program of the protocol. *)
Definition ran {A} (w : shared * peer) (c : conn) (r : A) (w' : shared * peer) (d : list string)
    (res : A) : Prop :=
  w'.1 = w.1 ∧ p_conn w'.2 = c ∧ d = [] ∧ res = r.

Lemma does_Handshake w c r :
  handleHandshake (p_conn w.2) = (c, r) → does (perform Handshake) w (ran w c r).
Proof. intros E. unfold does. cbn. unfold on_conn. by rewrite E. Qed.

Lemma does_ReadRequest w c r :
  readRequest (p_conn w.2) = (c, r) → does (perform ReadRequest) w (ran w c r).
Proof. intros E. unfold does. cbn. unfold on_conn. by rewrite E. Qed.

Lemma does_SendSuccess a w c r :
  writeSuccessReply a (p_conn w.2) = (c, r) → does (perform (SendSuccess a)) w (ran w c r).
Proof. intros E. unfold does. cbn. unfold on_conn. by rewrite E. Qed.

Lemma tunnel_does start host w c' :
  writeSuccessReply (LocalAddr backend) (p_conn w.2) = (c', Ok tt) →
  does (tunnel cfg start host target backend) w (λ w' d res,
    same w.1 w'.1 ∧ p_conn w'.2 = c' ∧ d = [] ∧ res = Ok tt).
Proof.
  intros Hw. unfold tunnel, metric. apply quietly; [by mild_steps|]. intros _ w1 S1 C1.
  rewrite <-C1 in Hw. apply does_bind. eapply does_mono; [exact (does_SendSuccess _ _ _ _ Hw)|].
  intros w2 d2 res (S2 & C2 & -> & ->).
  apply quietly; [by mild_steps|]. intros _ w3 S3 C3.
  apply quietly; [by mild_steps|]. intros _ w4 S4 C4.
  apply quietly; [by mild_steps|]. intros _ w5 S5 C5.
  apply does_bind. eapply does_mono; [apply relay_does|]. intros w6 d6 rel [(S6 & C6 & ->) Hrel].
  apply quietly; [by mild_steps|]. intros _ w7 S7 C7. rewrite Hrel.
  apply quietly; [by mild_steps|]. intros _ w8 S8 C8.
  apply quietly; [by mild_steps|]. intros now w9 S9 C9.
  apply quietly; [by mild_steps|]. intros _ w10 S10 C10. apply does_ret.
  split_and!; [|congruence|done|done]. rewrite S2 in S3.
  repeat (eapply same_trans; [eassumption|]). apply same_refl.
Qed.

Lemma handleConnection_does w r name methods port rest e c' :
  p_conn w.2 = mkConn (greeting_bytes methods ++
    ([socksVersion5; cmdConnect; Byte.x00; atypFQDN] ++ (dest_bytes (DName name) ++ (put_be16 port ++ rest)))) e [] [] →
  (1 ≤ length methods ≤ 255)%nat → authNoAuth ∈ methods →
  (1 ≤ length name ≤ 255)%nat → (1 ≤ port < 65536)%Z →
  (0 < maxInflightDials cfg → Z.of_nat (dialSlots w.1) < maxInflightDials cfg)%Z →
  routers w.1 !! current w.1 = Some r →
  let host := normalizeHost (normalizeHost (b2s name)) in
  (Router.Pick r host).2 = Ok target →
  writeSuccessReply (LocalAddr backend) (mkConn rest e [socksVersion5; authNoAuth] []) = (c', Ok tt) →
  does (handleConnection cfg) w (λ w' d res,
    same (after_pick w.1 r host) w'.1 ∧ p_conn w'.2 = c' ∧ d = [target] ∧ res = Some (Ok tt)).
Proof.
  intros Hc Hm Hauth Hn Hport Hslot Hr host Hp Hw. unfold handleConnection, metric.
  apply quietly; [by mild_steps|]. intros t0 w1 S1 C1.
  apply quietly; [by mild_steps|]. intros t1 w2 S2 C2.
  apply quietly; [apply unchanged_arm|]. intros _ w3 S3 C3.
  assert (p_conn w3.2 = p_conn w.2) as C by congruence. rewrite Hc in C.
  apply does_bind. eapply does_mono.
  { apply (does_Handshake w3). rewrite C. by apply handshake_run. }
  rewrite !decide_True by done. intros w4 d4 res (S4 & C4 & -> & ->).
  apply quietly; [apply unchanged_arm|]. intros _ w5 S5 C5.
  apply does_bind. eapply does_mono.
  { apply (does_ReadRequest w5). rewrite C5, C4. by apply (read_request_run (DName name) port rest). }
  intros w6 d6 res (S6 & C6 & -> & ->).
  apply quietly; [by mild_steps|]. intros t2 w7 S7 C7.
  apply quietly; [by mild_steps|]. intros _ w8 S8 C8.
  apply quietly; [by mild_steps|]. intros _ w9 S9 C9.
  assert (same w.1 w9.1) as S.
  { rewrite S4 in S5. rewrite S6 in S7. repeat (eapply same_trans; [eassumption|]). apply same_refl. }
  pose proof S as (E1 & E2 & E3 & _).
  apply does_bind. eapply does_mono.
  { apply (route_loop_does _ w9 r); rewrite ?E1, ?E2, ?E3; done. }
  intros w10 d10 res (S10 & C10 & -> & ->).
  apply does_bind. eapply does_mono.
  { apply (tunnel_does t0 _ w10 c'). rewrite C10, C9, C8, C7, C6. done. }
  intros w11 d11 res (S11 & C11 & -> & ->).
  apply quietly; [by mild_steps|]. intros _ w12 S12 C12. apply does_ret.
  split_and!; [|congruence|done|done].
  eapply same_trans; [by apply same_after_pick|]. eapply same_trans; [exact S10|].
  by eapply same_trans.
Qed.

(** C2: from bytes to bytes: a client that offers NO AUTH and sends a CONNECT request for a name is answered with exactly the method selection and the success reply carrying the IPv4 address and port of the backend connection, provided the router selects a backend for the normalised name, a dial slot is free, the dial succeeds over TCP and the copies end without an error; then exactly that backend has been dialed, once, the bytes after the request are left for the relay, the selection is the only change to the router, every slot taken has been returned and nothing has been logged. *)
Theorem session_end_to_end s r name methods port rest e ip :
  (1 ≤ length methods ≤ 255)%nat → authNoAuth ∈ methods →
  (1 ≤ length name ≤ 255)%nat → (1 ≤ port < 65536)%Z →
  (0 < maxInflightDials cfg → Z.of_nat (dialSlots s) < maxInflightDials cfg)%Z →
  routers s !! current s = Some r →
  let host := normalizeHost (normalizeHost (b2s name)) in
  (Router.Pick r host).2 = Ok target →
  LocalAddr backend = TCPAddr ip lport → To4 ip = Some ip4 → (0 ≤ lport < 65536)%Z →
  let c := mkConn (greeting_bytes methods ++ connect_bytes (DName name) port ++ rest) e [] [] in
  let '((s', p'), t, _) := run_alone cfg net s c in
  c_out (p_conn p') =
    [socksVersion5; authNoAuth] ++
    [socksVersion5; replySuccess; Byte.x00; atypIPv4] ++ ip4 ++ put_be16 lport ∧
  c_in (p_conn p') = rest ∧ p_closed p' = true ∧ dialed_in t = [target] ∧
  routers s' = <[current s := (Router.Pick r host).1]> (routers s) ∧
  dialSlots s' = dialSlots s ∧
  connSlots s' = (if (0 <? maxConnections cfg)%Z then pred (connSlots s) else connSlots s) ∧
  wg s' = pred (wg s) ∧ s_log s' = s_log s.
Proof.
  intros Hm Hauth Hn Hport Hslot Hr host Hp Hlocal H4 Hl c.
  set (reply := [socksVersion5; replySuccess; Byte.x00; atypIPv4] ++ ip4 ++ put_be16 lport).
  assert (does (serveClient cfg) (s, new_peer c) (λ w' d _,
    c_out (p_conn w'.2) = [socksVersion5; authNoAuth] ++ reply ∧ c_in (p_conn w'.2) = rest ∧
    p_closed w'.2 = true ∧ d = [target] ∧
    routers w'.1 = <[current s := (Router.Pick r host).1]> (routers s) ∧
    dialSlots w'.1 = dialSlots s ∧
    connSlots w'.1 = (if (0 <? maxConnections cfg)%Z then pred (connSlots s) else connSlots s) ∧
    wg w'.1 = pred (wg s) ∧ s_log w'.1 = s_log s)) as Hd;
    [|revert Hd; unfold does, run_alone;
      by destruct (exec _ (serveClient cfg) (s, new_peer c)) as [[[s1 p1] t] []]].
  unfold serveClient. apply does_bind. eapply does_mono.
  { apply (handleConnection_does (s, new_peer c) r name methods port rest e
      (mkConn rest e ([socksVersion5; authNoAuth] ++ reply) [])); try done.
    - cbn. unfold c, connect_bytes. do 2 f_equal. by rewrite <-!app_assoc.
    - rewrite Hlocal. unfold writeSuccessReply. rewrite H4. cbn [default].
      unfold wrap16. rewrite Z.mod_small by lia. done. }
  intros [s1 p1] d1 res ((E1 & E2 & E3 & E4 & E5 & E6) & C & -> & ->). cbn [fst snd] in *.
  unfold does. destruct (0 <? maxConnections cfg)%Z; cbn; rewrite C, E1, E3, E4, E5, E6; by split_and!.
Qed.

End session.

(** ** Witnesses *)

#[local] Existing Instance ascii_tables.

Lemma sample_pick :
  (Router.Pick sample_router (normalizeHost (normalizeHost (b2s (s2b "API.internal"))))).2 = Ok "10.0.0.1:80".
Proof. vm_compute. reflexivity. Qed.

Lemma sample_slot :
  (0 < maxInflightDials sample_settings →
   Z.of_nat (dialSlots (sh sample_system)) < maxInflightDials sample_settings)%Z.
Proof. intros _. vm_compute. reflexivity. Qed.

Definition sample_name : bytes := s2b "API.internal".
Definition sample_ip : IP := [Byte.x0a; Byte.x00; Byte.x00; Byte.x02].

Lemma session_end_to_end_witness :
  let host := normalizeHost (normalizeHost (b2s sample_name)) in
  let s := sh sample_system in
  let c := mkConn (greeting_bytes [Byte.x00] ++ connect_bytes (DName sample_name) 80 ++ [Byte.x48])
             (ErrSentinel SEOF) [] [] in
  let '((s', p'), t, _) := run_alone sample_settings sample_network s c in
  c_out (p_conn p') =
    [socksVersion5; authNoAuth] ++
    [socksVersion5; replySuccess; Byte.x00; atypIPv4] ++ sample_ip ++ put_be16 4000 ∧
  c_in (p_conn p') = [Byte.x48] ∧ p_closed p' = true ∧ dialed_in t = ["10.0.0.1:80"] ∧
  routers s' = <[current s := (Router.Pick sample_router host).1]> (routers s) ∧
  dialSlots s' = dialSlots s ∧
  connSlots s' = (if (0 <? maxConnections sample_settings)%Z then pred (connSlots s) else connSlots s) ∧
  wg s' = pred (wg s) ∧ s_log s' = s_log s.
Proof.
  apply (session_end_to_end sample_settings sample_network "10.0.0.1:80"
    (mkDialed true (TCPAddr sample_ip 4000)) sample_ip 4000 eq_refl eq_refl (λ _, eq_refl)
    (sh sample_system) sample_router sample_name [Byte.x00] 80 [Byte.x48]
    (ErrSentinel SEOF) sample_ip).
  - cbn. lia.
  - by apply list_elem_of_singleton.
  - cbn. lia.
  - lia.
  - exact sample_slot.
  - reflexivity.
  - exact sample_pick.
  - reflexivity.
  - reflexivity.
  - lia.
Defined.
