(* ===== verification/System.v ===== *)
(** * The whole process

    The main goroutine of [main.go], the accept loop and the connection
    goroutines of [server.go] and [handler.go], the discoverer of
    [discovery.go], the health workers and the metrics endpoint, running
    together.  A connection that meets an unknown host enters the discoverer,
    which sends a reload request to the main goroutine and waits for its
    answer; the main goroutine installs the new router that the connection then
    uses.  Every step is one atomic action of one goroutine, or a change of the
    environment (a connection, the file, the network's answers). *)
From S2P Require Import Prelude GoStrings GoNet Config Prog Handler Reload.
From S2P Require Router Health Server Discovery Exporter Main Metrics.

(** ** State *)

(** A connection goroutine runs its handler; or it is inside [Discover], at one
    of its stages; or it has sent the reload request [id] and waits. *)
Inductive task :=
  | Running (q : go (option unit))
  | Discovering (host : string) (port : Z) (st : Discovery.stage)
      (k : bool * option goerror → go (option unit))
  | Awaiting (host : string) (port : Z) (addresses : list string) (id : nat)
      (k : bool * option goerror → go (option unit)).

(** [requests] is the buffer of [reloadRequestCh]; [loads] records the
    environment and the text of every load the main goroutine has done. *)
Record system := mkSystem {
  main : Main.process;
  tasks : list (Server.peer * task);
  serving : Server.serve_state;
  closed : bool;
  exporter : option Exporter.exporter;
  disk : file;
  keys : gset string;
  d_log : list string;
  requests : list nat;
  next_id : nat;
  loads : list (env * file);
}.

(** [make(chan chan error, 4)] *)
Definition requests_capacity : nat := 4.

Definition set_main (s : system) (p : Main.process) : system :=
  mkSystem p (tasks s) (serving s) (closed s) (exporter s) (disk s) (keys s) (d_log s) (requests s)
    (next_id s) (loads s).
Definition set_tasks (s : system) (ts : list (Server.peer * task)) : system :=
  mkSystem (main s) ts (serving s) (closed s) (exporter s) (disk s) (keys s) (d_log s) (requests s)
    (next_id s) (loads s).
Definition set_serving (s : system) (sv : Server.serve_state) : system :=
  mkSystem (main s) (tasks s) sv (closed s) (exporter s) (disk s) (keys s) (d_log s) (requests s)
    (next_id s) (loads s).
Definition set_closed (s : system) (b : bool) : system :=
  mkSystem (main s) (tasks s) (serving s) b (exporter s) (disk s) (keys s) (d_log s) (requests s)
    (next_id s) (loads s).
Definition set_exporter (s : system) (x : Exporter.exporter) : system :=
  mkSystem (main s) (tasks s) (serving s) (closed s) (Some x) (disk s) (keys s) (d_log s) (requests s)
    (next_id s) (loads s).
Definition set_disk (s : system) (f : file) : system :=
  mkSystem (main s) (tasks s) (serving s) (closed s) (exporter s) f (keys s) (d_log s) (requests s)
    (next_id s) (loads s).
Definition set_requests (s : system) (ids : list nat) (next : nat) : system :=
  mkSystem (main s) (tasks s) (serving s) (closed s) (exporter s) (disk s) (keys s) (d_log s) ids
    next (loads s).
Definition note_load (s : system) (e : env) : system :=
  mkSystem (main s) (tasks s) (serving s) (closed s) (exporter s) (disk s) (keys s) (d_log s)
    (requests s) (next_id s) (loads s ++ [(e, disk s)]).

(** What the connection goroutines share. *)
Definition srv (s : system) : Server.shared := server (Main.state (main s)).
Definition set_srv (s : system) (sh : Server.shared) : system :=
  set_main s (Main.with_state (main s) (set_server (Main.state (main s)) sh)).
Definition log (s : system) (line : string) : system := set_srv s (Server.add_log (srv s) line).

(** What the discoverer works on. *)
Definition world_of (s : system) : Discovery.world :=
  Discovery.mkWorld (disk s) (Main.state (main s)) (keys s) (d_log s).
Definition set_world (s : system) (w : Discovery.world) : system :=
  mkSystem (Main.with_state (main s) (Discovery.w_state w)) (tasks s) (serving s) (closed s)
    (exporter s) (Discovery.w_file w) (Discovery.discovering w) (Discovery.d_log w) (requests s)
    (next_id s) (loads s).

(** Task [i] goes on as [t]. *)
Definition go_on (s : system) (i : nat) (p : Server.peer) (t : task) : system :=
  set_tasks s (<[i := (p, t)]> (tasks s)).

Definition looping (s : system) : Prop := Main.p_phase (main s) = Main.Looping.
Definition draining (s : system) : Prop := Main.p_phase (main s) = Main.Draining.

(** The process has not exited. *)
Definition alive (s : system) : Prop := looping s ∨ draining s.

(** ** Steps *)

(** [reloadFn] returns what the main goroutine sent back. *)
Definition reload_result (err : option goerror) : result bool :=
  match err with
  | None => Ok true
  | Some e => Err (wrap_err "reload after discovery" e)
  end.

(** The two results of [Discover]. *)
Definition results (r : result bool) : option (bool * option goerror) :=
  match r with
  | Ok added => Some (added, None)
  | Err e => Some (false, Some e)
  | Panic _ => None
  end.

(** The steps of a call that are its own: all but the reload and the return. *)
Definition own_step (st : Discovery.stage) : bool :=
  match st with Discovery.Reloading _ | Discovery.Returned _ => false | _ => true end.

Definition is_discover (e : effect) : bool := match e with Discover _ _ => true | _ => false end.

Inductive label :=
  | Task (i : nat)
  | Loop (ev : Main.event)
  | Environment
  | Crash.

(** The steps that change the state of the main goroutine. *)
Definition main_label (l : label) : bool :=
  match l with Loop _ | Crash => true | _ => false end.

Lemma label_cases l : (∃ ev, l = Loop ev) ∨ l = Crash ∨ main_label l = false.
Proof. destruct l; eauto. Qed.

Section system.
Context `{UnicodeTables, Yaml}.
Context (configPath : string).

(** The settings of the server, fixed at start-up. *)
Context (cfg : settings).

(** What the select statement of [run] receives, and what is left then. *)
Inductive delivers (s : system) : Main.event → system → Prop :=
  | d_serve err :
      looping s → serving s = Server.Returned err → delivers s (Main.ServeEnded err) s
  | d_metrics x v x' :
      looping s → exporter s = Some x → Exporter.receive x = Some (v, x') →
      delivers s (Main.MetricsEnded v) (set_exporter s x')
  | d_hangup e :
      looping s → env_ok e → delivers s (Main.Hangup e (disk s)) (note_load s e)
  | d_late_hangup e : draining s → env_ok e → delivers s (Main.Hangup e (disk s)) s
  | d_terminate sig closing : delivers s (Main.Terminate sig closing) s
  | d_request id rest e :
      looping s → requests s = id :: rest → env_ok e →
      delivers s (Main.ReloadRequest id e (disk s)) (note_load (set_requests s rest (next_id s)) e)
  | d_wait b :
      draining s → (b = true → Server.wg (srv s) = 0) → delivers s (Main.WaitDone b) s.

(** [server.Shutdown] closes the listener if there is one. *)
Definition main_goes_on (s : system) (p : Main.process) : system :=
  let shut := Main.listener_closed p && negb (Main.listener_closed (main s)) in
  set_closed (set_main s p)
    (closed s || (shut && match serving s with Server.NotListening => false | _ => true end)).

(** A health worker that has got its ticker writes its outcome for one host into
    the router it was created with, which is the one installed by the same
    load. *)
Definition health_probe (s : system) (w : Health.worker) (up : bool) (host : string) (j : nat)
    (r : Router.Router) : system :=
  let sh := srv s in
  let h := Health.probe_host w up (Health.mkShared r (Server.collector sh) (Server.s_log sh)) host in
  set_srv s (Server.mkShared (<[j := Health.s_router h]> (Server.routers sh)) (Server.current sh)
               (Server.dialSlots sh) (Server.connSlots sh) (Server.wg sh) (Health.s_metrics h)
               (Health.s_log h)).

(** A panic in any goroutine ends the process. *)
Definition crashed (s : system) (why : string) : system :=
  set_main s (Main.with_phase (main s) (Main.Crashed why)).

Inductive step : label → system → system → Prop :=
  (* the connection goroutines *)
  | s_effect s i p e k net sh p' a :
      alive s → tasks s !! i = Some (p, Running (Do e k)) → is_discover e = false →
      Server.blocked (srv s) e = false →
      Server.respond cfg net (srv s) p e = ((sh, p'), a) → Server.crashes e a = false →
      step (Task i) s (go_on (set_srv s sh) i p' (Running (k a)))
  | s_enter s i p host port k :
      alive s → tasks s !! i = Some (p, Running (Do (Discover host port) k)) →
      step (Task i) s (go_on s i p (Discovering host port Discovery.Entering k))
  | s_discover s i p host port st k ce st' w :
      alive s → tasks s !! i = Some (p, Discovering host port st k) → own_step st = true →
      Discovery.advance configPath ce host port st (world_of s) = (st', w) →
      step (Task i) s (go_on (set_world s w) i p (Discovering host port st' k))
  | s_request s i p host port addrs k :
      alive s → tasks s !! i = Some (p, Discovering host port (Discovery.Reloading addrs) k) →
      (length (requests s) < requests_capacity)%nat →
      step (Task i) s
        (go_on (set_requests s (requests s ++ [next_id s]) (S (next_id s))) i p
           (Awaiting host port addrs (next_id s) k))
  | s_answer s i p host port addrs id k err :
      alive s → tasks s !! i = Some (p, Awaiting host port addrs id k) →
      (id, err) ∈ Main.replies (main s) →
      step (Task i) s
        (go_on
           match err with
           | None => set_world s (Discovery.add_log (world_of s)
                                    (Discovery.added_log host port (length addrs)))
           | Some _ => s
           end i p (Discovering host port (Discovery.Leaving (reload_result err)) k))
  | s_return s i p host port r k a :
      alive s → tasks s !! i = Some (p, Discovering host port (Discovery.Returned r) k) →
      results r = Some a →
      step (Task i) s (go_on s i p (Running (k a)))
  (* the main goroutine *)
  | s_main s ev s1 :
      alive s → delivers s ev s1 →
      step (Loop ev) s (main_goes_on s1 (Main.on_event configPath (main s1) ev))
  (* the accept loop *)
  | s_listen s addr :
      alive s → serving s = Server.NotListening →
      step Environment s (set_serving (log s ("socks5: listening on " +:+ addr)) Server.Accepting)
  | s_listen_error s addr e :
      alive s → serving s = Server.NotListening →
      step Environment s
        (set_serving s (Server.Returned (Some (wrap_err ("listen " +:+ addr) e))))
  | s_accept s c :
      alive s → serving s = Server.Accepting → closed s = false →
      step Environment s
        (set_tasks (set_srv s (Server.accept cfg c (srv s)).1)
           (tasks s ++ ((λ t, (t.1, Running t.2)) <$> (Server.accept cfg c (srv s)).2)))
  | s_accept_other s type :
      alive s → serving s = Server.Accepting → closed s = false →
      step Environment s (log s ("socks5: rejecting non-tcp connection type=" +:+ type))
  | s_accept_error s e :
      alive s → serving s = Server.Accepting → (errors_Is e SNetClosed = true ↔ closed s = true) →
      step Environment s (set_serving s (Server.Returned (Server.accept_error e)))
  (* the health workers and the metrics endpoint *)
  | s_health s j c b w up host r :
      alive s → checkers (Main.state (main s)) !! j = Some (c, b) → w ∈ Health.Start c →
      Health.NewTicker w = Ok tt → host ∈ Health.w_hosts w → Server.routers (srv s) !! j = Some r →
      step Environment s (health_probe s w up host j r)
  | s_exporter s x lines x' :
      alive s → exporter s = Some x →
      Exporter.exporter_step (ctx_done (Main.state (main s))) x lines x' →
      step Environment s (set_exporter (foldl log s lines) x')
  (* somebody edits the file *)
  | s_edit s f : alive s → step Environment s (set_disk s f)
  (* a panic in a health worker, in a connection goroutine, in the discoverer *)
  | s_ticker_panic s j c b w why :
      alive s → checkers (Main.state (main s)) !! j = Some (c, b) → w ∈ Health.Start c →
      Health.NewTicker w = Panic why →
      step Crash s (crashed s why)
  | s_effect_panic s i p e k net sh p' a why :
      alive s → tasks s !! i = Some (p, Running (Do e k)) → is_discover e = false →
      Server.respond cfg net (srv s) p e = ((sh, p'), a) → Server.crashes e a = true →
      step Crash s (crashed s why)
  | s_discover_panic s i p host port k why :
      alive s → tasks s !! i = Some (p, Discovering host port (Discovery.Returned (Panic why)) k) →
      step Crash s (crashed s why).

Definition any_step (s s' : system) : Prop := ∃ l, step l s s'.

(** The steps that need neither a new connection nor a signal: those of the
    connection goroutines, and the main goroutine serving a reload request. *)
Definition internal (l : label) : bool :=
  match l with Task _ | Loop (Main.ReloadRequest _ _ _) => true | _ => false end.

Definition internal_step (s s' : system) : Prop := ∃ l, internal l = true ∧ step l s s'.

(** [run] has started on the file. *)
Definition init (e : env) (f : file) (p : Main.process) : system :=
  mkSystem p [] Server.NotListening false
    (if Main.metrics_on p then Some Exporter.StartHTTP else None) f ∅ [] [] 0 [(e, f)].

End system.

(** ** The server inside the process

    Seen from the server of [Server.v], a goroutine inside the discoverer has
    performed the effect [Discover] but not got its answer yet, and the main
    goroutine changes nothing but the router and the log. *)
Definition as_thread (t : task) : go (option unit) :=
  match t with
  | Running q => q
  | Discovering host port _ k | Awaiting host port _ _ k => Do (Discover host port) k
  end.

Definition view (s : system) : Server.system :=
  Server.mkSystem (srv s) (prod_map id as_thread <$> tasks s) (serving s) (closed s).

(** What the main goroutine does to the state of the server. *)
Inductive tweak : Server.shared → Server.shared → Prop :=
  | tw_log s line : tweak s (Server.add_log s line)
  | tw_update s r : Router.router_wf r → tweak s (Server.UpdateRouter r s).

Section refinement.
Context `{UnicodeTables, Yaml}.
Context (configPath : string).
Context (cfg : settings).

Lemma tweaks_steps s s' t sv b :
  rtc tweak s s' →
  rtc (Server.step cfg) (Server.mkSystem s t sv b) (Server.mkSystem s' t sv b).
Proof.
  induction 1 as [|s1 s2 s3 Ht _ IH]; [done|]. eapply rtc_l; [|exact IH].
  destruct Ht; by constructor.
Qed.

Lemma logs_tweak lines s : rtc tweak s (foldl Server.add_log s lines).
Proof.
  revert s. induction lines as [|l lines IH]; intros s; cbn; [done|].
  eapply rtc_l; [apply tw_log|apply IH].
Qed.

Lemma cancel_opt_server i st : server (cancel_opt i st) = server st.
Proof. by destruct i. Qed.

(** A reload installs a well-formed router and writes to the log. *)
Lemma reload_tweak e path f st : rtc tweak (server st) (server (reload e path f st).1).
Proof.
  unfold reload. destruct (buildReloadTarget e f) as [[[next rt] c]|err|w] eqn:Eb; [|done|done].
  apply buildReloadTarget_Ok in Eb as (_ & Hrt & _).
  destruct (applyReloadPolicy _ _) as [applied warnings]. unfold startChecker. cbn [fst].
  cbn [Reload.log set_server server]. eapply rtc_r; [|apply tw_log]. rewrite cancel_opt_server.
  cbn [server]. eapply rtc_l; [by eapply tw_update, Router.New_wf|].
  set (st1 := mkState _ _ _ _ _).
  change (Server.UpdateRouter rt (server st)) with (server st1). clearbody st1. revert st1.
  induction warnings as [|w ws IH]; intros st1; cbn [foldl]; [done|].
  exact (rtc_l _ _ _ _ (tw_log _ _) (IH (Reload.log st1 ("reload: " +:+ w)))).
Qed.

Lemma say_tweak p line : tweak (server (Main.state p)) (server (Main.state (Main.say p line))).
Proof. apply tw_log. Qed.

Lemma halt_server p : server (Main.state (Main.halt p)) = server (Main.state p).
Proof. cbn [Main.halt Main.state]. unfold stopChecker. by rewrite cancel_opt_server. Qed.

Lemma fail_with_tweak what err p :
  rtc tweak (server (Main.state p)) (server (Main.state (Main.fail_with what err p))).
Proof.
  destruct err as [err|]; cbn [Main.fail_with Main.with_phase Main.state]; [|apply rtc_refl].
  rewrite halt_server. apply rtc_refl.
Qed.

Lemma on_event_tweak p ev :
  rtc tweak (server (Main.state p)) (server (Main.state (Main.on_event configPath p ev))).
Proof.
  unfold Main.on_event. destruct (Main.p_phase p); [| |done|done].
  - destruct ev as [err|err|e f|sig closing|id e f|b]; cbn [Main.on_loop].
    + by apply fail_with_tweak.
    + destruct (Main.metrics_on p); [by apply fail_with_tweak|done].
    + pose proof (reload_tweak e configPath f (Main.state p)) as Ht.
      destruct (reload _ _ _ _) as [st [[]|err|w]]; cbn [fst] in Ht; [done| |done].
      eapply rtc_r; [exact Ht|apply tw_log].
    + cbn [Main.with_phase Main.state]. eapply rtc_r; [|apply tw_log].
      eapply rtc_l; [apply (say_tweak p)|]. rewrite <-halt_server.
      destruct closing as [err|]; cbn [Main.close_log]; [|done].
      destruct (errors_Is err SOsClosed); [done|]. apply rtc_once, say_tweak.
    + pose proof (reload_tweak e configPath f (Main.state p)) as Ht.
      destruct (reload _ _ _ _) as [st [[]|err|w]]; cbn [fst] in Ht; [done| |done].
      eapply rtc_r; [exact Ht|apply tw_log].
    + done.
  - destruct ev as [err|err|e f|sig closing|id e f|[]]; cbn [Main.on_drain]; try done;
      cbn [Main.with_phase Main.state]; apply rtc_once, say_tweak.
Qed.

(** The stages of a call other than the reload leave the runtime state alone. *)
Lemma own_step_state path ce host port st w st' w' :
  own_step st = true → Discovery.advance path ce host port st w = (st', w') →
  Discovery.w_state w' = Discovery.w_state w.
Proof.
  destruct st; try done; cbn [Discovery.advance]; intros _.
  - by case_bool_decide; intros [= _ <-].
  - by intros [= _ <-].
  - by intros [= _ <-].
  - destruct (Save _ _ _) as [f [[]|e|p]]; by intros [= _ <-].
  - by intros [= _ <-].
Qed.

Lemma view_lookup s i p t :
  tasks s !! i = Some (p, t) → Server.threads (view s) !! i = Some (p, as_thread t).
Proof. intros Hi. cbn. by rewrite list_lookup_fmap, Hi. Qed.

Lemma view_go_on s i p t :
  view (go_on s i p t) =
    Server.mkSystem (srv s) (<[i := (p, as_thread t)]> (Server.threads (view s))) (serving s) (closed s).
Proof. unfold view. cbn. by rewrite list_fmap_insert. Qed.

(** Steps inside the discoverer are not seen by the server. *)
Lemma view_inside s s1 i p t t' :
  tasks s !! i = Some (p, t) → as_thread t = as_thread t' →
  srv s1 = srv s → tasks s1 = tasks s → serving s1 = serving s → closed s1 = closed s →
  view (go_on s1 i p t') = view s.
Proof.
  intros Hi Ht E1 E2 E3 E4. rewrite view_go_on, E1, E3, E4. unfold view. cbn. rewrite E2.
  f_equal. apply list_insert_id. by rewrite list_lookup_fmap, Hi, <-Ht.
Qed.

Lemma delivers_same s ev s1 :
  delivers s ev s1 →
  main s1 = main s ∧ tasks s1 = tasks s ∧ serving s1 = serving s ∧ closed s1 = closed s.
Proof. by destruct 1. Qed.

Lemma view_main s p :
  rtc tweak (srv s) (server (Main.state p)) →
  rtc (Server.step cfg) (view s) (view (main_goes_on s p)).
Proof.
  intros Ht. etrans; [apply tweaks_steps, Ht|]. unfold view, main_goes_on.
  destruct (_ && negb _); cbn [andb]; [|rewrite orb_false_r; apply rtc_refl].
  destruct (serving s) eqn:E; cbn; rewrite E, ?orb_false_r, ?orb_true_r; [apply rtc_refl| |];
    apply rtc_once, Server.step_shutdown.
Qed.

Lemma view_health s j w up host r :
  Server.routers (srv s) !! j = Some r →
  rtc (Server.step cfg) (view s) (view (health_probe s w up host j r)).
Proof.
  intros Hj. unfold view, health_probe, set_srv. cbn [srv main set_main tasks serving closed].
  generalize (prod_map id as_thread <$> tasks s). intros t. revert Hj. unfold srv.
  destruct (server (Main.state (main s))) as [rs cur ds cs wg co lg]. cbn. intros Hj.
  eapply rtc_l; [apply (Server.step_observe _ _ _ _ _ host (Health.w_address w) up)|].
  eapply rtc_l; [by apply (Server.step_health _ _ _ _ _ j r host (Health.w_address w) up)|].
  unfold Health.probe_host, Server.set_routers. cbn.
  destruct (Router.SetBackendAlive r host _ up) as [r' [[]|e|x]]; cbn;
    first [apply rtc_refl|apply rtc_once, Server.step_log].
Qed.

Lemma view_logs s lines : view (foldl log s lines) =
  Server.mkSystem (foldl Server.add_log (srv s) lines) (Server.threads (view s)) (serving s) (closed s).
Proof. revert s. induction lines as [|l lines IH]; intros s; cbn [foldl]; [done|]. by rewrite IH. Qed.

Lemma crash_inv s s' :
  step configPath cfg Crash s s' →
  ∃ why, s' = crashed s why ∧ alive s ∧
    ((∃ j c b w, checkers (Main.state (main s)) !! j = Some (c, b) ∧ w ∈ Health.Start c ∧
        Health.NewTicker w = Panic why) ∨
     (∃ i p e k net, tasks s !! i = Some (p, Running (Do e k)) ∧
        Server.crashes e (Server.respond cfg net (srv s) p e).2 = true) ∨
     (∃ i p host port k, tasks s !! i = Some (p, Discovering host port (Discovery.Returned (Panic why)) k))).
Proof.
  intros Hs. inversion Hs as
    [| | | | | | | | | | | | | | |s0 j c b w why Ha Hj Hw Hn|s0 i p e k net sh p' a why Ha Hi Hd Hr Hp
    |s0 i p host port k why Ha Hi]; subst; exists why; (split; [done|]); (split; [done|]).
  - left. by exists j, c, b, w.
  - right. left. exists i, p, e, k, net. by rewrite Hr.
  - right. right. by exists i, p, host, port, k.
Qed.

(** Every step of the process is, for the server, no step or a few of its own. *)
Lemma step_view l s s' :
  step configPath cfg l s s' → rtc (Server.step cfg) (view s) (view s').
Proof.
  intros Hs. destruct Hs as
    [s i p e k net sh p' a _ Hi Hd Hb Hr Hp|s i p host port k _ Hi|s i p host port st k ce st' w _ Hi Ho Ha
    |s i p host port addrs k _ Hi _|s i p host port addrs id k err _ Hi _|s i p host port r k a _ Hi Hres
    |s ev s1 _ Hdel|s addr _ Hsv|s addr e _ Hsv|s c _ Hsv Hcl|s ty _ Hsv Hcl|s e _ Hsv He
    |s j c b w up host r _ Hj Hw Hn Hh Hr|s x lines x' _ Hx Hst|s f _|s j c b w why _ Hj Hw Hn|s i p e k net sh p' a why _ Hi Hd Hr Hp|s i p host port k why _ Hi].
  - rewrite view_go_on. apply rtc_once.
    exact (Server.step_thread cfg (srv s) _ (serving s) (closed s) i p e k net sh p' a
      (view_lookup _ _ _ _ Hi) Hb Hr).
  - by rewrite (view_inside s s i p _ _ Hi).
  - rewrite (view_inside s (set_world s w) i p _ _ Hi); try done.
    unfold srv. cbn. by rewrite (own_step_state _ _ _ _ _ _ _ _ Ho Ha).
  - by rewrite (view_inside s _ i p _ _ Hi).
  - by rewrite (view_inside s _ i p _ _ Hi) by (by destruct err).
  - rewrite view_go_on. apply rtc_once.
    exact (Server.step_thread cfg (srv s) _ (serving s) (closed s) i p (Discover host port) k
      (Server.mkNetwork 0 "" (λ _, inl (ErrMsg "")) (λ _ _, a) ClientToBackend (λ _, (0%Z, None)))
      (srv s) p a (view_lookup _ _ _ _ Hi) eq_refl eq_refl).
  - destruct (delivers_same _ _ _ Hdel) as (E1 & E2 & E3 & E4).
    assert (view s = view s1) as -> by (unfold view, srv; by rewrite E1, E2, E3, E4).
    apply view_main, on_event_tweak.
  - unfold view. cbn. rewrite Hsv. apply rtc_once, Server.step_listen.
  - unfold view. cbn. rewrite Hsv. apply rtc_once, Server.step_listen_error.
  - unfold view. cbn. rewrite Hsv, Hcl, fmap_app, <-list_fmap_compose.
    assert (prod_map id as_thread ∘ (λ t : Server.peer * go (option unit), (t.1, Running t.2)) <$> (Server.accept cfg c (srv s)).2
      = (Server.accept cfg c (srv s)).2) as ->.
    { rewrite <-(list_fmap_id (Server.accept cfg c (srv s)).2) at 2. apply list_fmap_ext. by intros _ [] _. }
    apply rtc_once, Server.step_accept.
  - unfold view. cbn. rewrite Hsv, Hcl. apply rtc_once, Server.step_accept_other.
  - unfold view. cbn. rewrite Hsv. apply rtc_once. by apply Server.step_accept_error.
  - by apply view_health.
  - change (view (set_exporter (foldl log s lines) x')) with (view (foldl log s lines)).
    rewrite view_logs. apply tweaks_steps, logs_tweak.
  - done.
  - done.
  - done.
  - done.
Qed.

End refinement.
