(* ===== verification/Scheduler.v ===== *)
(** * Running the process

    An executable scheduler for [System.v]: a list of moves picks the step to
    take, and a run of the scheduler is a run of the process.  The sample runs
    are a session to a configured host, and a session to a host that is
    discovered while the process runs. *)
From S2P Require Import Prelude GoStrings GoNet Protocol Config Prog Handler Reload System.
From S2P Require Router Health Server Discovery Exporter Main Metrics.

(** ** The scheduler *)

(** What happens next; a goroutine moves in the given environment. *)
Inductive move :=
  | MTask (i : nat)
  | MListen (addr : string)
  | MListenError (addr : string) (err : goerror)
  | MAccept (c : conn)
  | MServe (e : env)
  | MServeEnded
  | MTerminate (sig : string).

Definition is_alive (s : system) : bool :=
  match Main.p_phase (main s) with Main.Looping | Main.Draining => true | _ => false end.

Definition is_looping (s : system) : bool :=
  match Main.p_phase (main s) with Main.Looping => true | _ => false end.

Section scheduler.
Context `{UnicodeTables, Yaml}.
Context (configPath : string) (cfg : settings) (ce : Discovery.call_env) (net : Server.network).

(** The next effect of a connection goroutine. *)
Definition task_effect (s : system) (i : nat) (p : Server.peer) (e : effect) : (answer e → go (option unit)) → option system :=
  match e with
  | Discover host port => λ k, Some (go_on s i p (Discovering host port Discovery.Entering k))
  | e => λ k,
      if Server.blocked (srv s) e then None
      else
        let '((sh, p'), a) := Server.respond cfg net (srv s) p e in
        if Server.crashes e a then None else Some (go_on (set_srv s sh) i p' (Running (k a)))
  end.

Definition task_next (s : system) (i : nat) : option system :=
  match tasks s !! i with
  | Some (p, Running (Do e k)) => task_effect s i p e k
  | Some (p, Discovering host port (Discovery.Reloading addrs) k) =>
      if (length (requests s) <? requests_capacity)%nat
      then Some (go_on (set_requests s (requests s ++ [next_id s]) (S (next_id s))) i p
                   (Awaiting host port addrs (next_id s) k))
      else None
  | Some (p, Discovering host port (Discovery.Returned r) k) =>
      a ← results r; Some (go_on s i p (Running (k a)))
  | Some (p, Discovering host port st k) =>
      let '(st', w) := Discovery.advance configPath ce host port st (world_of s) in
      Some (go_on (set_world s w) i p (Discovering host port st' k))
  | Some (p, Awaiting host port addrs id k) =>
      match find (λ r, bool_decide (r.1 = id)) (Main.replies (main s)) with
      | Some (_, None) =>
          Some (go_on (set_world s (Discovery.add_log (world_of s)
                                      (Discovery.added_log host port (length addrs)))) i p
                  (Discovering host port (Discovery.Leaving (reload_result None)) k))
      | Some (_, err) => Some (go_on s i p (Discovering host port (Discovery.Leaving (reload_result err)) k))
      | None => None
      end
  | _ => None
  end.

Definition play1 (m : move) (s : system) : option system :=
  if negb (is_alive s) then None else
  match m with
  | MTask i => task_next s i
  | MListen addr =>
      match serving s with
      | Server.NotListening => Some (set_serving (log s ("socks5: listening on " +:+ addr)) Server.Accepting)
      | _ => None
      end
  | MListenError addr e =>
      match serving s with
      | Server.NotListening => Some (set_serving s (Server.Returned (Some (wrap_err ("listen " +:+ addr) e))))
      | _ => None
      end
  | MAccept c =>
      match serving s, closed s with
      | Server.Accepting, false =>
          Some (set_tasks (set_srv s (Server.accept cfg c (srv s)).1)
                  (tasks s ++ ((λ t, (t.1, Running t.2)) <$> (Server.accept cfg c (srv s)).2)))
      | _, _ => None
      end
  | MServe e =>
      match is_looping s, requests s with
      | true, id :: rest =>
          let s1 := note_load (set_requests s rest (next_id s)) e in
          Some (main_goes_on s1 (Main.on_event configPath (main s1) (Main.ReloadRequest id e (disk s))))
      | _, _ => None
      end
  | MServeEnded =>
      match is_looping s, serving s with
      | true, Server.Returned err =>
          Some (main_goes_on s (Main.on_event configPath (main s) (Main.ServeEnded err)))
      | _, _ => None
      end
  | MTerminate sig =>
      Some (main_goes_on s (Main.on_event configPath (main s) (Main.Terminate sig None)))
  end.

(** The moves in order, as long as they are possible. *)
Fixpoint play (ms : list move) (s : system) : option system :=
  match ms with
  | [] => Some s
  | m :: ms => s' ← play1 m s; play ms s'
  end.

Lemma is_alive_spec s : is_alive s = true → alive s.
Proof. unfold is_alive, alive, looping, draining. destruct (Main.p_phase (main s)); auto; done. Qed.

Lemma is_looping_spec s : is_looping s = true → looping s.
Proof. unfold is_looping, looping. by destruct (Main.p_phase (main s)). Qed.

Lemma task_effect_sound s i p e k s' :
  alive s → tasks s !! i = Some (p, Running (Do e k)) → task_effect s i p e k = Some s' →
  step configPath cfg (Task i) s s'.
Proof.
  intros Ha Hi. destruct (is_discover e) eqn:Ed.
  - destruct e; try done. cbn [task_effect]. intros [= <-]. by apply s_enter.
  - assert (task_effect s i p e k =
      if Server.blocked (srv s) e then None
      else let '((sh, p'), a) := Server.respond cfg net (srv s) p e in
           if Server.crashes e a then None
           else Some (go_on (set_srv s sh) i p' (Running (k a)))) as -> by (by destruct e).
    destruct (Server.blocked (srv s) e) eqn:Eb; [done|].
    destruct (Server.respond cfg net (srv s) p e) as [[sh p'] a] eqn:Er.
    destruct (Server.crashes e a) eqn:Ec; [done|]. intros [= <-]. by eapply s_effect.
Qed.

Lemma task_next_sound s i s' : alive s → task_next s i = Some s' → step configPath cfg (Task i) s s'.
Proof.
  intros Ha. unfold task_next.
  destruct (tasks s !! i) as [[p [[a|e k]|host port st k|host port addrs id k]]|] eqn:Hi; [done| | | |done].
  - by apply task_effect_sound.
  - assert (own_step st = true → ∀ st' w, Discovery.advance configPath ce host port st (world_of s) = (st', w) →
      step configPath cfg (Task i) s (go_on (set_world s w) i p (Discovering host port st' k))) as Hown.
    { intros. by eapply s_discover. }
    destruct st as [| |addrs|addrs c|addrs|r|r];
      try by (destruct (Discovery.advance _ _ _ _ _ _) as [st' w] eqn:Ea; intros [= <-]; by apply (Hown eq_refl)).
    + destruct (Nat.ltb_spec (length (requests s)) requests_capacity); [|done]. intros [= <-]. by apply s_request.
    + destruct (results r) as [a|] eqn:Er; [|done]. intros [= <-]. by eapply s_return.
  - destruct (find _ _) as [[id' err]|] eqn:Ef; [|done]. apply find_some in Ef as [Hin Hid%bool_decide_eq_true].
    cbn in Hid. subst id'. apply list_elem_of_In in Hin.
    pose proof (s_answer configPath cfg s i p host port addrs id k err Ha Hi Hin) as Hs.
    by destruct err; intros [= <-].
Qed.

(** The environments of the loads are consistent in their iteration order. *)
Definition move_ok (m : move) : Prop := match m with MServe e => env_ok e | _ => True end.

Lemma play1_sound m s s' : move_ok m → play1 m s = Some s' → any_step configPath cfg s s'.
Proof.
  intros Hok. unfold play1. destruct (is_alive s) eqn:Ea; [cbn [negb]|done]. apply is_alive_spec in Ea.
  destruct m as [i|addr|addr e|c|e| |sig].
  - intros Hs. exists (Task i). by apply task_next_sound.
  - destruct (serving s) eqn:Es; try done. intros [= <-]. exists Environment. by apply s_listen.
  - destruct (serving s) eqn:Es; try done. intros [= <-]. exists Environment. by apply s_listen_error.
  - destruct (serving s) eqn:Es, (closed s) eqn:Ec; try done. intros [= <-]. exists Environment. by apply s_accept.
  - destruct (is_looping s) eqn:El, (requests s) as [|id rest] eqn:Eq; try done. apply is_looping_spec in El.
    intros [= <-]. exists (Loop (Main.ReloadRequest id e (disk s))).
    apply (s_main configPath cfg s _ (note_load (set_requests s rest (next_id s)) e)); [done|]. by apply d_request.
  - destruct (is_looping s) eqn:El, (serving s) as [| |err] eqn:Es; try done. apply is_looping_spec in El.
    intros [= <-]. exists (Loop (Main.ServeEnded err)). apply s_main; [done|]. by apply d_serve.
  - intros [= <-]. exists (Loop (Main.Terminate sig None)). apply s_main; [done|]. apply d_terminate.
Qed.

Lemma play_sound ms s s' : Forall move_ok ms → play ms s = Some s' → rtc (any_step configPath cfg) s s'.
Proof.
  intros Hok. revert s. induction Hok as [|m ms Hm _ IH]; intros s; cbn [play]; [intros [= ->]; apply rtc_refl|].
  unfold mbind. cbn [option_bind]. destruct (play1 m s) as [s1|] eqn:E1; [|done].
  intros Hp. eapply rtc_l; [by eapply play1_sound|by apply IH].
Qed.

End scheduler.

(** ** Sample runs *)

#[local] Existing Instance ascii_tables.
#[local] Existing Instance Discovery.text_yaml.

Definition start_env : env := mkEnv Discovery.literal_dns (λ V m, map_to_list m).

(** The process as it starts on the base configuration. *)
Definition started_process : Main.process :=
  match Main.start start_env (inr "base") with
  | Ok p => p
  | _ => Main.mkProcess sample_state false false (Main.Crashed "") []
  end.

Lemma started_Ok : Main.start start_env (inr "base") = Ok started_process.
Proof.
  unfold started_process.
  assert (match Main.start start_env (inr "base") with Ok _ => True | _ => False end) as Hs
    by (vm_compute; exact I).
  by destruct (Main.start start_env (inr "base")).
Qed.

Lemma start_env_ok : env_ok start_env.
Proof. intros V m. apply range_order_self. Qed.

Definition started_settings : settings := Main.settings_of (rs_cfg (Main.state started_process)).
Definition started_system : system := init start_env (inr "base") started_process.

Definition run_moves (ms : list move) : option system :=
  play "config.yaml" started_settings Discovery.sample_call_env Server.sample_network ms started_system.

(** A client that asks for a host the configuration does not list. *)
Definition stranger : conn :=
  mkConn (greeting_bytes [Byte.x00] ++ connect_bytes (DName (s2b "a.internal")) 80)
    (ErrSentinel SEOF) [] [].

(** It asks the discoverer, which sends its reload request. *)
Definition asking : list move := [MListen ":1080"; MAccept stranger] ++ replicate 23 (MTask 0).

(** The main goroutine serves the request, and the session dials. *)
Definition dialing : list move := asking ++ MServe start_env :: replicate 7 (MTask 0).

(** The main goroutine leaves its loop instead. *)
Definition abandoned : list move := asking ++ [MTerminate "terminated"].

(** The listener cannot be opened. *)
Definition refused : list move := [MListenError ":1080" (ErrMsg "address already in use")].

Definition after (ms : list move) : system := default started_system (run_moves ms).

Lemma after_rtc ms :
  Forall move_ok ms → bool_decide (is_Some (run_moves ms)) = true →
  rtc (any_step "config.yaml" started_settings) started_system (after ms).
Proof.
  intros Hok [s Er]%bool_decide_eq_true. unfold after. rewrite Er.
  exact (play_sound "config.yaml" _ _ _ ms _ _ Hok Er).
Qed.

Definition next_effect (s : system) (i : nat) : option effect :=
  match tasks s !! i with Some (_, Running (Do e _)) => Some e | _ => None end.

Lemma next_effect_task s i e :
  next_effect s i = Some e → ∃ p k, tasks s !! i = Some (p, Running (Do e k)).
Proof.
  unfold next_effect. destruct (tasks s !! i) as [[p [[a|e' k]| |]]|]; try done. intros [= ->]. eauto.
Qed.

Definition awaited (s : system) (i : nat) : option nat :=
  match tasks s !! i with Some (_, Awaiting _ _ _ id _) => Some id | _ => None end.

Lemma awaited_task s i id :
  awaited s i = Some id → ∃ p host port addrs k, tasks s !! i = Some (p, Awaiting host port addrs id k).
Proof.
  unfold awaited. destruct (tasks s !! i) as [[p [[]| |]]|]; try done. intros [= ->]. eauto 10.
Qed.
