(* ===== verification/Process.v ===== *)
(** * What holds of the whole process

    The invariants of [System.v]: the server's, by the view of the process as a
    server; the main goroutine's; the correspondence between the routers that
    were installed, the checkers that were started and the loads that made
    them; and how the process ends.  From them: which addresses it dials, what
    each of its steps does to the server, that no goroutine panics, how it comes
    to its exit status, and that what it routes to is probed. *)
From S2P Require Import Prelude GoStrings GoNet Config Prog Handler Reload System Scheduler.
From S2P Require Router Health Server Discovery Exporter Main Metrics.

(** ** The frame of a step *)

(** The addresses each installed router lists. *)
Definition tables (sh : Server.shared) : list (gmap string (list string)) :=
  Router.addresses <$> Server.routers sh.

(** The main goroutine differs at most in the state of the server, whose
    routers list the same addresses. *)
Definition same_main (s s' : system) : Prop :=
  ∃ sh, main s' = Main.with_state (main s) (set_server (Main.state (main s)) sh) ∧
    tables sh = tables (srv s) ∧ Server.current sh = Server.current (srv s).

Section frame.
Context `{UnicodeTables, Yaml}.
Context (configPath : string) (cfg : settings).

Lemma same_main_refl s : same_main s s.
Proof.
  exists (srv s). split_and!; [|done|done]. unfold srv, Main.with_state, set_server. by destruct (main s) as [[]].
Qed.

Lemma same_main_eq s s1 s' : main s1 = main s → same_main s1 s' → same_main s s'.
Proof. intros E (sh & Hm & Ht & Hc). exists sh. unfold srv in *. by rewrite <-E. Qed.

Lemma same_main_srv s sh :
  tables sh = tables (srv s) → Server.current sh = Server.current (srv s) → same_main s (set_srv s sh).
Proof. intros Ht Hc. by exists sh. Qed.

Lemma tables_insert (rs : list Router.Router) i r r' :
  rs !! i = Some r → Router.addresses r' = Router.addresses r →
  Router.addresses <$> <[i := r']> rs = Router.addresses <$> rs.
Proof. intros Hi E. rewrite list_fmap_insert, E. apply list_insert_id. by rewrite list_lookup_fmap, Hi. Qed.

Lemma foldl_log_srv s lines :
  main (foldl log s lines) =
    Main.with_state (main s) (set_server (Main.state (main s)) (foldl Server.add_log (srv s) lines)).
Proof.
  revert s. induction lines as [|l lines IH]; intros s; cbn [foldl].
  - by destruct (same_main_refl s) as (sh & Hm & _); unfold srv, Main.with_state, set_server; destruct (main s) as [[]].
  - by rewrite IH.
Qed.

Lemma foldl_log_loads s lines : loads (foldl log s lines) = loads s.
Proof. revert s. induction lines as [|l lines IH]; intros s; cbn [foldl]; [done|exact (IH (log s l))]. Qed.

Lemma tables_logs lines sh :
  tables (foldl Server.add_log sh lines) = tables sh ∧
  Server.current (foldl Server.add_log sh lines) = Server.current sh.
Proof. revert sh. induction lines as [|l lines IH]; intros sh; cbn [foldl]; [done|]. exact (IH (Server.add_log sh l)). Qed.

(** Only the main goroutine changes its own state. *)
Lemma frame l s s' :
  step configPath cfg l s s' → main_label l = false → same_main s s' ∧ loads s' = loads s.
Proof.
  intros Hs Hl. destruct Hs as
    [s i p e k net sh p' a _ Hi Hd Hb Hr Hp|s i p host port k _ Hi|s i p host port st k ce st' w _ Hi Ho Ha
    |s i p host port addrs k _ Hi _|s i p host port addrs id k err _ Hi _|s i p host port r k a _ Hi Hres
    |s ev s1 _ Hdel|s addr _ Hsv|s addr e _ Hsv|s c _ Hsv Hcl|s ty _ Hsv Hcl|s e _ Hsv He
    |s j c b w up host r _ Hj Hw Hn Hh Hr|s x lines x' _ Hx Hst|s f _| | |]; try done; (split; [|try done]);
    try exact (same_main_refl s).
  - apply Server.respond_selects in Hr as [Hc Hr]. apply same_main_srv; [|done].
    unfold tables. destruct Hr as [->|(rt & h & r & Hrt & ->)]; [done|].
    by apply (tables_insert _ _ r), Router.Pick_addresses.
  - apply (own_step_state _ _ _ _ _ _ _ _ Ho) in Ha. exists (srv s). split; [|done]. cbn. rewrite Ha. cbn.
    unfold srv, Main.with_state, set_server. by destruct (main s) as [[]].
  - destruct err; [exact (same_main_refl s)|]. exists (srv s). split; [|done]. cbn.
    unfold srv, Main.with_state, set_server. by destruct (main s) as [[]].
  - by destruct err.
  - by apply same_main_srv.
  - apply same_main_srv; unfold Server.accept; destruct (0 <? maxConnections cfg)%Z; cbn [andb]; try destruct (negb _); done.
  - by apply same_main_srv.
  - apply same_main_srv; [|done]. unfold tables. cbn. rewrite Health.probe_host_router. cbn.
    by apply (tables_insert _ _ r), Router.SetBackendAlive_addresses.
  - exists (foldl Server.add_log (srv s) lines). cbn. rewrite foldl_log_srv.
    destruct (tables_logs lines (srv s)). done.
  - exact (foldl_log_loads s lines).
Qed.

End frame.

(** ** Installed routers, started checkers and loads *)

(** The load an event asks for. *)
Definition event_load (ev : Main.event) : option (env * file) :=
  match ev with Main.Hangup e f | Main.ReloadRequest _ e f => Some (e, f) | _ => None end.

Definition started (st : runtimeState) : list Health.Checker := (checkers st).*1.

Section installs.
Context `{UnicodeTables, Yaml}.
Context (configPath : string) (cfg : settings).

(** Nothing is installed or started. *)
Definition unchanged (st st' : runtimeState) : Prop :=
  tables (server st') = tables (server st) ∧ Server.current (server st') = Server.current (server st) ∧
  started st' = started st.

(** One router is installed and the checker that goes with it started. *)
Definition installs (e : env) (f : file) (st st' : runtimeState) : Prop :=
  ∃ next rt c, buildReloadTarget e f = Ok (next, rt, c) ∧
    tables (server st') = tables (server st) ++ [Router.addresses rt] ∧
    Server.current (server st') = length (Server.routers (server st)) ∧
    started st' = started st ++ [c] ∧ checkerCancel st' = Some (length (checkers st)).

Lemma unchanged_refl st : unchanged st st.
Proof. done. Qed.

Lemma unchanged_log st st' line : unchanged st st' → unchanged st (Reload.log st' line).
Proof. done. Qed.

Lemma installs_log e f st st' line : installs e f st st' → installs e f st (Reload.log st' line).
Proof. done. Qed.

Lemma started_cancel i st : started (cancel_opt i st) = started st.
Proof.
  destruct i as [i|]; [|done]. unfold started, cancel_opt, cancel. cbn [checkers].
  apply list_eq. intros j. rewrite !list_lookup_fmap. destruct (decide (i = j)) as [->|Hne].
  - rewrite list_lookup_alter_eq. by destruct (checkers st !! j) as [[]|].
  - by rewrite list_lookup_alter_ne.
Qed.

Lemma reload_installs e path f st :
  match reload e path f st with
  | (st', Ok _) => installs e f st st'
  | (st', _) => st' = st
  end.
Proof.
  pose proof (reload_cases e path f st) as Hc. unfold reload in *.
  destruct (buildReloadTarget e f) as [[[next rt] c]|err|w] eqn:Eb; [|done|done].
  destruct (applyReloadPolicy _ _) as [applied warnings]. unfold startChecker in *.
  cbn [fst server checkers checkerCancel ctx_done] in *.
  set (st1 := mkState _ _ _ _ _) in *.
  pose proof (foldl_log warnings st1) as (_ & _ & E3 & E4 & E5 & E6).
  set (st2 := foldl _ st1 warnings) in *. clearbody st2.
  exists next, rt, c. split; [done|]. unfold Reload.log, set_server. cbn [server checkerCancel].
  rewrite !cancel_opt_server. unfold tables. cbn [Server.add_log Server.routers Server.current].
  rewrite E5, E6. unfold st1. cbn. rewrite fmap_app. split_and!; try done.
  - unfold started at 1. cbn [checkers]. change ((checkers (cancel_opt (checkerCancel st) st2)).*1)
      with (started (cancel_opt (checkerCancel st) st2)). rewrite started_cancel.
    unfold started. rewrite E3. unfold st1. cbn. by rewrite fmap_app.
  - destruct Hc as (_ & _ & _ & _ & _ & _ & _ & Hcan & _). exact Hcan.
Qed.

Lemma halt_unchanged p : unchanged (Main.state p) (Main.state (Main.halt p)).
Proof.
  cbn [Main.halt Main.state]. unfold stopChecker, unchanged. rewrite cancel_opt_server, started_cancel.
  split_and!; [done|done|]. unfold started, Main.cancel_ctx. cbn. by rewrite <-list_fmap_compose.
Qed.

Lemma fail_with_unchanged what err p :
  unchanged (Main.state p) (Main.state (Main.fail_with what err p)) ∧
  Main.p_phase (Main.fail_with what err p) ≠ Main.Looping.
Proof.
  destruct err; cbn [Main.fail_with Main.with_phase Main.state]; (split; [|done]).
  - apply halt_unchanged.
  - split_and!; [done|done|]. unfold started, Main.cancel_ctx. cbn. by rewrite <-list_fmap_compose.
Qed.

(** An event either installs what it asks to load, or nothing; and the
    loop goes on only under the same cancel function then. *)
Lemma on_event_installs p ev :
  let p' := Main.on_event configPath p ev in
  (∃ e f, event_load ev = Some (e, f) ∧ Main.p_phase p = Main.Looping ∧ Main.p_phase p' = Main.Looping ∧
     installs e f (Main.state p) (Main.state p')) ∨
  unchanged (Main.state p) (Main.state p') ∧
  (Main.p_phase p' = Main.Looping → checkerCancel (Main.state p') = checkerCancel (Main.state p)).
Proof.
  cbn zeta. unfold Main.on_event. destruct (Main.p_phase p) eqn:Ep; [| |right; done..].
  - destruct ev as [err|err|e f|sig closing|id e f|b]; cbn [Main.on_loop].
    + right. by destruct (fail_with_unchanged "serve failed" err p).
    + right. destruct (Main.metrics_on p); [|done].
      by destruct (fail_with_unchanged "metrics serve failed" err p).
    + pose proof (reload_installs e configPath f (Main.state p)) as Hi.
      destruct (reload _ _ _ _) as [st [[]|err|w]]; [left; by exists e, f|right..]; by subst.
    + right. split; [|done]. cbn [Main.with_phase Main.say Main.with_state Main.state].
      apply unchanged_log. pose proof (halt_unchanged (Main.say p ("shutdown: received signal " +:+ sig))) as Hh.
      destruct closing as [err|]; [|exact Hh]. cbn [Main.close_log]. by destruct (errors_Is err SOsClosed).
    + pose proof (reload_installs e configPath f (Main.state p)) as Hi.
      destruct (reload _ _ _ _) as [st [[]|err|w]]; [left; by exists e, f|right..]; by subst.
    + by right.
  - right. destruct ev as [err|err|e f|sig closing|id e f|[]]; cbn [Main.on_drain]; done.
Qed.

End installs.

(** ** The invariants *)

Section invariants.
Context `{UnicodeTables, Yaml}.
Context (configPath : string).

(** A table of addresses and a checker come from one of the loads. *)
Definition built (ls : list (env * file)) (t : gmap string (list string)) (c : Health.Checker) : Prop :=
  ∃ e f next rt, (e, f) ∈ ls ∧ env_ok e ∧ buildReloadTarget e f = Ok (next, rt, c) ∧
    t = Router.addresses rt.

(** Each load that succeeded installed one router and started one checker, and
    in the loop the checker that can be cancelled is that of the router in
    use. *)
Definition aligned (s : system) : Prop :=
  Forall2 (built (loads s)) (tables (srv s)) (started (Main.state (main s))) ∧
  (looping s → checkerCancel (Main.state (main s)) = Some (Server.current (srv s))).

Lemma built_mono ls ls' t c : ls ⊆ ls' → built ls t c → built ls' t c.
Proof. intros Hs (e & f & next & rt & Hin & ?). exists e, f, next, rt. split; [by apply Hs|done]. Qed.

Lemma delivers_loads s ev s1 :
  delivers s ev s1 →
  loads s ⊆ loads s1 ∧
  (∀ e f, event_load ev = Some (e, f) → looping s → (e, f) ∈ loads s1 ∧ env_ok e).
Proof.
  assert (∀ s0 : system, draining s0 → looping s0 → False) as Hno by (unfold looping, draining; congruence).
  destruct 1; split; cbn; try done; try set_solver.
  all: intros ? ? [= <- <-] ?; first [by edestruct Hno|split; [set_solver|done]].
Qed.

Lemma main_goes_on_state s p : srv (main_goes_on s p) = server (Main.state p) ∧ main (main_goes_on s p) = p.
Proof. done. Qed.

Lemma step_aligned cfg l s s' : step configPath cfg l s s' → aligned s → aligned s'.
Proof.
  intros Hs [HF Hc]. destruct (label_cases l) as [[ev ->]|[->|Hl]].
  - inversion Hs as [| | | | | |s0 ev0 s1 Ha Hdel E1 E2 E3| | | | | | | | | | |]; subst.
    destruct (delivers_same _ _ _ Hdel) as (Em & _). destruct (delivers_loads _ _ _ Hdel) as [Hsub Hload].
    rewrite Em. set (p' := Main.on_event configPath (main s) ev).
    assert (loads (main_goes_on s1 p') = loads s1) as El by done.
    assert (Forall2 (built (loads s1)) (tables (srv s)) (started (Main.state (main s)))) as HF'.
    { eapply Forall2_impl; [exact HF|]. intros t c. by apply built_mono. }
    unfold aligned, looping. rewrite El. change (main (main_goes_on s1 p')) with p'.
    change (srv (main_goes_on s1 p')) with (server (Main.state p')).
    destruct (on_event_installs configPath (main s) ev)
      as [(e & f & Hev & Hph & Hph' & next & rt & c & Hb & Ht & Hcur & Hst & Hcan)|[(Ht & Hcur & Hst) Hcan]];
      fold p' in Ht, Hcur, Hst, Hcan.
    + rewrite Ht, Hst. split.
      * apply Forall2_app; [done|]. apply Forall2_cons. split; [|by apply Forall2_nil].
        destruct (Hload e f Hev Hph). exists e, f, next, rt. done.
      * intros _. rewrite Hcan, Hcur. f_equal. apply Forall2_length in HF. revert HF.
        unfold tables, started, srv. by rewrite !length_fmap.
    + rewrite Ht, Hst, Hcur. split; [done|]. intros Hp. rewrite Hcan by done. apply Hc.
      unfold looping. destruct (Main.p_phase (main s)) eqn:Ep; [done|exfalso..].
      all: destruct (Main.on_event_after configPath (main s) ev) as [Hno _]; [by rewrite Ep|by apply Hno].
  - apply crash_inv in Hs as (why & -> & _). by split.
  - destruct (frame configPath cfg l s s' Hs Hl) as [(sh & Em & Ht & Hcur) El].
    unfold aligned, looping, srv. rewrite Em, El. cbn. rewrite Ht, Hcur. by split.
Qed.

Lemma step_process_ok cfg c0 l s s' :
  step configPath cfg l s s' → Main.process_ok c0 (main s) → Main.process_ok c0 (main s').
Proof.
  intros Hs Hok. destruct (label_cases l) as [[ev ->]|[->|Hl]].
  - inversion Hs as [| | | | | |s0 ev0 s1 Ha Hdel E1 E2 E3| | | | | | | | | | |]; subst.
    destruct (delivers_same _ _ _ Hdel) as (Em & _). change (main (main_goes_on _ _))
      with (Main.on_event configPath (main s1) ev). rewrite Em.
    apply Main.on_event_ok; [by destruct Hdel|done].
  - apply crash_inv in Hs as (why & -> & _). destruct Hok as [Hp _]. by split.
  - destruct (frame configPath cfg l s s' Hs Hl) as [(sh & Em & Ht & Hcur) El]. by rewrite Em.
Qed.

End invariants.

(** ** How the process ends *)

Section ending.
Context `{UnicodeTables, Yaml}.
Context (configPath : string).

Lemma reload_ctx e path f st : ctx_done (reload e path f st).1 = ctx_done st.
Proof.
  pose proof (reload_cases e path f st) as Hc. destruct (reload e path f st) as [st' [[]|err|w]].
  - by destruct Hc as (? & ? & ? & _ & Hctx & _).
  - by destruct Hc as [-> _].
  - by destruct Hc as [-> _].
Qed.

(** What an event does to the parts of the main goroutine that the end of the
    process depends on. *)
Lemma on_event_flags p ev :
  let p' := Main.on_event configPath p ev in
  Main.metrics_on p' = Main.metrics_on p ∧
  (Main.p_phase p' = Main.Looping →
   Main.p_phase p = Main.Looping ∧ Main.listener_closed p' = Main.listener_closed p ∧
   ctx_done (Main.state p') = ctx_done (Main.state p) ∧
   (Main.metrics_on p = true → ∀ v, ev ≠ Main.MetricsEnded v)).
Proof.
  cbn zeta. unfold Main.on_event. destruct (Main.p_phase p) eqn:Ep; cbn [Main.p_phase];
    [|destruct ev as [| | | | |[]]; cbn; rewrite ?Ep; done|rewrite ?Ep; done..].
  destruct ev as [err|err|e f|sig closing|id e f|b]; cbn [Main.on_loop].
  - by destruct err.
  - destruct (Main.metrics_on p) eqn:Em; [by destruct err|by rewrite Ep].
  - pose proof (reload_ctx e configPath f (Main.state p)) as Hc.
    destruct (reload _ _ _ _) as [st [[]|err|w]]; cbn in *; rewrite ?Ep; done.
  - destruct closing as [err|]; cbn [Main.close_log]; [destruct (errors_Is err SOsClosed)|]; done.
  - pose proof (reload_ctx e configPath f (Main.state p)) as Hc.
    destruct (reload _ _ _ _) as [st [[]|err|w]]; cbn in *; rewrite ?Ep; done.
  - by rewrite Ep.
Qed.

(** How an event ends the loop, or the draining after it. *)
Lemma on_event_ends p ev :
  let p' := Main.on_event configPath p ev in
  (Main.p_phase p = Main.Looping →
   (Main.p_phase p' = Main.Draining → ∃ sig closing, ev = Main.Terminate sig closing) ∧
   (∀ err, Main.p_phase p' = Main.Exited err →
      ∃ v, ev = Main.ServeEnded v ∧ err = wrap_err "serve failed" <$> v ∨
           ev = Main.MetricsEnded v ∧ err = wrap_err "metrics serve failed" <$> v)) ∧
  (Main.p_phase p = Main.Draining → ∀ err, Main.p_phase p' = Main.Exited err →
   err = None ∧ match ev with
                | Main.WaitDone _ | Main.Terminate _ _ | Main.Hangup _ _ => True
                | _ => False
                end).
Proof.
  cbn zeta. unfold Main.on_event. split; intros Ep; rewrite Ep.
  - destruct ev as [[]|[]|e f|sig closing|id e f|b]; cbn [Main.on_loop];
      try destruct (Main.metrics_on p); try destruct (reload _ _ _ _) as [st [[]|err|w]];
      cbn; rewrite ?Ep; (split; [try done; by eauto|]); intros ? [= <-]; eauto.
  - destruct ev as [| | | | |[]]; cbn; rewrite ?Ep; by intros ? [= <-].
Qed.

(** In the loop the listener is open and nothing has been read from the
    metrics endpoint. *)
Definition ends_ok (s : system) : Prop :=
  (serving s = Server.Returned None → closed s = true) ∧
  (is_Some (exporter s) → Main.metrics_on (main s) = true) ∧
  (looping s →
   closed s = false ∧ Main.listener_closed (main s) = false ∧
   ∀ x, exporter s = Some x → Exporter.exporter_ok (ctx_done (Main.state (main s))) x []).

Lemma foldl_log_rest s lines :
  closed (foldl log s lines) = closed s ∧ serving (foldl log s lines) = serving s.
Proof. revert s. induction lines as [|l lines IH]; intros s; cbn [foldl]; [done|exact (IH (log s l))]. Qed.

Lemma step_ends cfg l s s' : step configPath cfg l s s' → ends_ok s → ends_ok s'.
Proof.
  intros Hs Hok. destruct (label_cases l) as [[ev ->]|[->|Hl]].
  - inversion Hs as [| | | | | |s0 ev0 s1 Ha Hdel E1 E2 E3| | | | | | | | | | |]; subst.
    destruct Hok as (Hret & Hmet & Hloop). destruct (delivers_same _ _ _ Hdel) as (Em & _ & Esv & Ecl).
    destruct (on_event_flags (main s1) ev) as (Hm & Hlo). rewrite Em in *.
    assert (is_Some (exporter s1) → is_Some (exporter s)) as Hex by (destruct Hdel; cbn; eauto).
    split_and!.
    + unfold main_goes_on. cbn. rewrite Esv, Ecl. intros Hv. by rewrite (Hret Hv).
    + unfold main_goes_on. cbn. rewrite Hm. auto.
    + unfold looping, main_goes_on. cbn. intros Hp. destruct (Hlo Hp) as (Hp0 & Hcl & Hctx & Hno).
      destruct (Hloop Hp0) as (Hc0 & Hl0 & Hx0). rewrite Hcl, Hl0, Ecl, Hc0. split_and!; [done|done|].
      intros x Hx. rewrite <-Ecl in Hc0.
      assert (exporter s = Some x) as Hxs.
      { destruct Hdel; try done. exfalso. eapply Hno; [|reflexivity]. apply Hmet. eauto. }
      rewrite Hctx. by apply Hx0.
  - apply crash_inv in Hs as (why & -> & _). destruct Hok as (Hret & Hmet & _). by split_and!.
  - destruct (frame configPath cfg l s s' Hs Hl) as [(sh & Em & _) _].
    destruct Hok as (Hret & Hmet & Hloop). unfold ends_ok, looping. rewrite Em.
    destruct Hs as [| | | |s i p host port addrs id k err Ha Hi He|
      |s ev s1 Ha Hdel|s addr Ha Hsv|s addr e Ha Hsv| | |s e Ha Hsv He| |s x lines x' Ha Hx Hst| | | |];
      try done; try (by split_and!); cbn.
    + destruct err; by split_and!.
    + split_and!; [|done|done]. unfold Server.accept_error.
      destruct (errors_Is e SNetClosed) eqn:Ee; [intros _; by apply He|done].
    + destruct (foldl_log_rest s lines) as [-> ->]. split_and!; [done|by eauto|].
      intros Hp. destruct (Hloop Hp) as (? & ? & Hx0). split_and!; [done|done|]. intros ? [= <-].
      exact (Exporter.endpoint_step_ok
        (Exporter.mkEndpoint _ x []) (Exporter.mkEndpoint _ x' []) (Exporter.ep_step _ x lines x' [] Hst) (Hx0 x Hx)).
Qed.

Lemma init_ends e f p : Main.start e f = Ok p → ends_ok (init e f p).
Proof.
  intros ([[next rt] c] & _ & [= <-])%rbind_Ok. split_and!; [done| |].
  - cbn. destruct (rc_MetricsEnabled next); [done|]. by intros [? ?].
  - intros _. split_and!; [done|done|]. cbn. intros x. destruct (rc_MetricsEnabled next); [|done].
    intros [= <-]. split; [done|]. by split.
Qed.

End ending.

(** ** The server inside the process, step by step *)

Definition no_log (sh : Server.shared) : Server.shared :=
  Server.mkShared (Server.routers sh) (Server.current sh) (Server.dialSlots sh) (Server.connSlots sh)
    (Server.wg sh) (Server.collector sh) [].

(** A server up to what it has logged. *)
Definition sans_log (v : Server.system) : Server.system :=
  Server.mkSystem (no_log (Server.sh v)) (Server.threads v) (Server.serve v) (Server.listener_closed v).

(** Goroutine [i] performs one effect and nothing else happens. *)
Definition goroutine_step `{UnicodeTables} (cfg : settings) (i : nat) (v v' : Server.system) : Prop :=
  ∃ p e (k : answer e → go (option unit)) net sh p' a,
    Server.threads v !! i = Some (p, Do e k) ∧ Server.blocked (Server.sh v) e = false ∧
    Server.respond cfg net (Server.sh v) p e = ((sh, p'), a) ∧
    v' = Server.mkSystem sh (<[i := (p', k a)]> (Server.threads v)) (Server.serve v) (Server.listener_closed v).

Section asked.
Context `{UnicodeTables, Yaml}.
Context (configPath : string).

(** The router an event makes the main goroutine install. *)
Definition asks_update (p : Main.process) (ev : Main.event) : option Router.Router :=
  match Main.p_phase p, event_load ev with
  | Main.Looping, Some (e, f) =>
      match buildReloadTarget e f with Ok (_, rt, _) => Some rt | _ => None end
  | _, _ => None
  end.

(** The events on which it shuts the server down. *)
Definition asks_shutdown (p : Main.process) (ev : Main.event) : bool :=
  match Main.p_phase p, ev with
  | Main.Looping, (Main.Terminate _ _ | Main.ServeEnded (Some _)) => true
  | Main.Looping, Main.MetricsEnded (Some _) => Main.metrics_on p
  | _, _ => false
  end.

(** What the server does then. *)
Definition asked (p : Main.process) (ev : Main.event) (v : Server.system) : Server.system :=
  if asks_shutdown p ev then Server.Shutdown v
  else match asks_update p ev with
  | Some rt =>
      Server.mkSystem (Server.UpdateRouter rt (Server.sh v)) (Server.threads v) (Server.serve v)
        (Server.listener_closed v)
  | None => v
  end.

Lemma no_log_warnings ws st :
  no_log (server (foldl (λ st w, Reload.log st ("reload: " +:+ w)) st ws)) = no_log (server st).
Proof.
  revert st. induction ws as [|w ws IH]; intros st; cbn [foldl]; [done|].
  exact (IH (Reload.log st ("reload: " +:+ w))).
Qed.

(** A reload installs the router it has built, and else leaves the server
    alone. *)
Lemma reload_server e f st :
  no_log (server (reload e configPath f st).1) =
    no_log (match buildReloadTarget e f with
            | Ok (_, rt, _) => Server.UpdateRouter rt (server st)
            | _ => server st
            end).
Proof.
  unfold reload. destruct (buildReloadTarget e f) as [[[next rt] c]|err|w]; [|done|done].
  destruct (applyReloadPolicy _ _) as [applied warnings]. unfold startChecker. cbn [fst].
  set (st1 := mkState _ _ applied _ _).
  change (no_log (Server.UpdateRouter rt (server st))) with (no_log (server st1)).
  rewrite <-(no_log_warnings warnings st1). clearbody st1.
  unfold Reload.log at 1, set_server. cbn [server]. rewrite cancel_opt_server. done.
Qed.

Lemma halt_no_log p : no_log (server (Main.state (Main.halt p))) = no_log (server (Main.state p)).
Proof. by rewrite halt_server. Qed.

(** What an event does to the server, and whether it shuts it down. *)
Lemma on_event_server p ev :
  let p' := Main.on_event configPath p ev in
  no_log (server (Main.state p')) =
    no_log (match asks_update p ev with
            | Some rt => Server.UpdateRouter rt (server (Main.state p))
            | None => server (Main.state p)
            end) ∧
  (Main.p_phase p = Main.Looping → Main.listener_closed p = false →
   Main.listener_closed p' = asks_shutdown p ev) ∧
  (Main.p_phase p ≠ Main.Looping → Main.listener_closed p' = Main.listener_closed p).
Proof.
  cbn zeta. unfold Main.on_event, asks_update, asks_shutdown.
  destruct (Main.p_phase p) eqn:Ep; [|destruct ev as [| | | | |[]]; by split_and!|by split_and!..].
  destruct ev as [[err|]|[err|]|e f|sig closing|id e f|b]; cbn [Main.on_loop event_load];
    try by (split_and!; try done; cbn [Main.fail_with Main.with_phase Main.state]; rewrite ?halt_no_log).
  - destruct (Main.metrics_on p) eqn:Em; split_and!; try done. cbn [Main.fail_with Main.with_phase Main.state].
    by rewrite halt_no_log.
  - by destruct (Main.metrics_on p).
  - pose proof (reload_server e f (Main.state p)) as Hr.
    destruct (reload _ _ _ _) as [st [[]|err|w]]; cbn [fst] in Hr; (split_and!; [|done..]);
      cbn; unfold no_log in *; cbn in *; rewrite Hr; by destruct (buildReloadTarget e f) as [[[]]| |].
  - split_and!; [|by destruct (Main.close_log_same closing (Main.halt (Main.say p ("shutdown: received signal " +:+ sig)))) as (_ & _ & E & _); cbn; rewrite E|done].
    assert (∀ q, no_log (server (Main.state (Main.close_log closing q))) = no_log (server (Main.state q))) as Hcl.
    { intros q. destruct closing as [err|]; cbn [Main.close_log]; [|done]. by destruct (errors_Is err SOsClosed). }
    cbn [Main.with_phase Main.state]. etrans; [exact (Hcl (Main.halt (Main.say p ("shutdown: received signal " +:+ sig))))|].
    by rewrite halt_no_log.
  - pose proof (reload_server e f (Main.state p)) as Hr.
    destruct (reload _ _ _ _) as [st [[]|err|w]]; cbn [fst] in Hr; (split_and!; [|done..]);
      cbn; unfold no_log in *; cbn in *; rewrite Hr; by destruct (buildReloadTarget e f) as [[[]]| |].
Qed.

(** A step of the main goroutine, as the server sees it. *)
Lemma loop_asked cfg ev s s' :
  step configPath cfg (Loop ev) s s' → ends_ok s →
  sans_log (view s') = sans_log (asked (main s) ev (view s)).
Proof.
  intros Hs (_ & _ & Hloop).
  inversion Hs as [| | | | | |s0 ev0 s1 Ha Hdel E1 E2 E3| | | | | | | | | | |]; subst.
  destruct (delivers_same _ _ _ Hdel) as (Em & Et & Esv & Ecl).
  destruct (on_event_server (main s) ev) as (Hsrv & Hshut & Hout).
  unfold sans_log, asked, view, main_goes_on, srv, set_main, set_closed.
  cbn [Server.sh Server.threads Server.serve Server.listener_closed tasks main serving closed].
  rewrite Em, Et, Esv, Ecl, Hsrv. clear Hsrv.
  destruct (Main.p_phase (main s)) eqn:Ep.
  - destruct (Hloop Ep) as (Hc & Hl & _). rewrite (Hshut eq_refl Hl), Hl, Hc. cbn [negb orb]. rewrite andb_true_r.
    destruct (asks_shutdown (main s) ev) eqn:Eas; cbn [andb].
    + assert (asks_update (main s) ev = None) as ->.
      { revert Eas. unfold asks_shutdown, asks_update. rewrite Ep. by destruct ev. }
      unfold Server.Shutdown. cbn [Server.serve]. by destruct (serving s).
    + by destruct (asks_update (main s) ev).
  - rewrite (Hout ltac:(done)). unfold asks_shutdown, asks_update. rewrite Ep.
    rewrite andb_negb_r. cbn [andb]. by rewrite orb_false_r.
  - rewrite (Hout ltac:(done)). unfold asks_shutdown, asks_update. rewrite Ep.
    rewrite andb_negb_r. cbn [andb]. by rewrite orb_false_r.
  - rewrite (Hout ltac:(done)). unfold asks_shutdown, asks_update. rewrite Ep.
    rewrite andb_negb_r. cbn [andb]. by rewrite orb_false_r.
Qed.

(** A step of a connection goroutine is one of the server's, or inside the
    discoverer. *)
Lemma task_asked cfg i s s' :
  step configPath cfg (Task i) s s' → view s' = view s ∨ goroutine_step cfg i (view s) (view s').
Proof.
  intros Hs. inversion Hs as
    [s0 i0 p e k net sh p' a _ Hi Hd Hb Hr Hp|s0 i0 p host port k _ Hi|s0 i0 p host port st k ce st' w _ Hi Ho Ha
    |s0 i0 p host port addrs k _ Hi _|s0 i0 p host port addrs id k err _ Hi _|s0 i0 p host port r k a _ Hi Hres
    | | | | | | | | | | | |]; subst.
  - right. exists p, e, k, net, sh, p', a. split_and!; [exact (view_lookup _ _ _ _ Hi)|done|done|by rewrite view_go_on].
  - left. by rewrite (view_inside s s i p _ _ Hi).
  - left. rewrite (view_inside s (set_world s w) i p _ _ Hi); try done.
    unfold srv. cbn. by rewrite (own_step_state _ _ _ _ _ _ _ _ Ho Ha).
  - left. by rewrite (view_inside s _ i p _ _ Hi).
  - left. by rewrite (view_inside s _ i p _ _ Hi) by (by destruct err).
  - right. exists p, (Discover host port), k,
      (Server.mkNetwork 0 "" (λ _, inl (ErrMsg "")) (λ _ _, a) ClientToBackend (λ _, (0%Z, None))), (srv s), p, a.
    split_and!; [exact (view_lookup _ _ _ _ Hi)|done|done|by rewrite view_go_on].
Qed.

(** No goroutine moves in a step of the environment. *)
Lemma environment_threads cfg s s' :
  step configPath cfg Environment s s' → Server.threads (view s) `prefix_of` Server.threads (view s').
Proof.
  intros Hs. inversion Hs as [| | | | | | | | |s0 c Ha Hsv Hcl| | |s0 j c b w up host r|s0 x lines x'| | | |];
    subst; try done.
  - unfold view. cbn. rewrite fmap_app. by apply prefix_app_r.
  - change (view (set_exporter (foldl log s lines) x')) with (view (foldl log s lines)). by rewrite view_logs.
Qed.

End asked.

(** ** Calls of the discoverer do not panic *)

Definition stage_ok (st : Discovery.stage) : Prop :=
  match st with
  | Discovery.Leaving (Panic _) | Discovery.Returned (Panic _) => False
  | _ => True
  end.

Definition task_ok (t : task) : Prop := match t with Discovering _ _ st _ => stage_ok st | _ => True end.

Definition calls_ok (s : system) : Prop := Forall (λ t, task_ok t.2) (tasks s).

Section calls.
Context `{UnicodeTables, Yaml}.
Context (configPath : string).

Lemma own_step_ok ce host port st w st' w' :
  own_step st = true → Discovery.advance configPath ce host port st w = (st', w') → stage_ok st → stage_ok st'.
Proof.
  destruct st as [| |addrs|addrs c|addrs|r|r]; try done; cbn [Discovery.advance stage_ok]; intros _.
  - by case_bool_decide; intros [= <- _] _.
  - assert (∀ p, Discovery.addresses_of (Discovery.ce_lookup ce) host port ≠ Panic p) as Hno.
    { intros p. unfold Discovery.addresses_of, Discovery.resolve, rbind.
      by repeat (case_match; simplify_eq/=). }
    destruct (Discovery.addresses_of _ _ _) as [a|e|p]; intros [= <- _] _; cbn; [done|done|by destruct (Hno p)].
  - assert (∀ p, Discovery.plan host port addrs (Discovery.w_file w) ≠ Panic p) as Hno.
    { intros p. unfold Discovery.plan, LoadRaw, AddAutoDiscoveredRoute. destruct (Discovery.w_file w) as [|raw]; [done|].
      destruct (Unmarshal raw); [done|]. cbn. repeat (case_bool_decide; [done|]). by destruct (Routes _ !! _). }
    destruct (Discovery.plan _ _ _ _) as [[c|]|e|p]; intros [= <- _] _; cbn; try done. by destruct (Hno p).
  - assert (∀ p, (Save (Discovery.ce_write ce) c (Discovery.w_file w)).2 ≠ Panic p) as Hno.
    { intros p. unfold Save. destruct (Marshal c); [done|]. by destruct (Discovery.ce_write ce) as [[]|]. }
    destruct (Save _ _ _) as [f [[]|e|p]]; cbn in Hno; intros [= <- _] _; cbn; try done. by destruct (Hno p).
  - intros [= <- _]. by destruct r.
Qed.

Lemma step_calls cfg l s s' : step configPath cfg l s s' → calls_ok s → calls_ok s'.
Proof.
  intros Hs Hok. unfold calls_ok in *. destruct Hs as
    [s i p e k net sh p' a _ Hi|s i p host port k _ Hi|s i p host port st k ce st' w _ Hi Ho Ha
    |s i p host port addrs k _ Hi|s i p host port addrs id k err _ Hi|s i p host port r k a _ Hi
    |s ev s1 _ Hdel| | |s c| | | |s x lines x'| | | |]; try done;
    try (cbn; apply Forall_insert; [exact Hok|]; done).
  - cbn. apply Forall_insert; [exact Hok|]. cbn. eapply own_step_ok; [exact Ho|exact Ha|].
    exact (Forall_lookup_1 _ _ _ _ Hok Hi).
  - cbn. by destruct err; cbn; apply Forall_insert.
  - destruct (delivers_same _ _ _ Hdel) as (_ & Et & _). cbn. by rewrite Et.
  - cbn. apply Forall_app. split; [done|]. apply Forall_fmap, Forall_true. by intros [].
  - assert (∀ ls (s0 : system), tasks (foldl log s0 ls) = tasks s0) as Hl.
    { clear. intros ls. induction ls as [|l ls IH]; intros s0; [done|exact (IH (log s0 l))]. }
    cbn. by rewrite Hl.
Qed.

End calls.

(** ** Properties of the process *)

Section properties.
Context `{UnicodeTables, Yaml}.
Context (configPath : string).

(** The states a process can be in after it has started on a file. *)
Definition reachable (p0 : Main.process) (s : system) : Prop :=
  ∃ e f, Main.start e f = Ok p0 ∧ env_ok e ∧
    rtc (any_step configPath (Main.settings_of (rs_cfg (Main.state p0)))) (init e f p0) s.

Lemma start_Ok e f p :
  Main.start e f = Ok p →
  ∃ next rt c, buildReloadTarget e f = Ok (next, rt, c) ∧
    p = Main.mkProcess
          (newRuntimeState e (Server.sh (Server.New rt (Some Metrics.NewCollector))) next c)
          (rc_MetricsEnabled next) false Main.Looping [].
Proof. intros ([[next rt] c] & Hb & [= <-])%rbind_Ok. by exists next, rt, c. Qed.

(** The process keeps the invariants of the server and of the main goroutine. *)
Lemma reachable_server p0 s :
  reachable p0 s →
  ∃ rt, Router.router_wf rt ∧
    rtc (Server.step (Main.settings_of (rs_cfg (Main.state p0))))
      (Server.New rt (Some Metrics.NewCollector)) (view s).
Proof.
  intros (e & f & Hst & He & Hr). destruct (start_Ok e f p0 Hst) as (next & rt & c & Hb & ->).
  pose proof (buildReloadTarget_Ok _ _ _ _ _ Hb) as (_ & Hrt & _).
  exists rt. split; [by eapply Router.New_wf|]. cbn [Main.state newRuntimeState rs_cfg] in *.
  match type of Hr with rtc _ ?s0 _ =>
    change (Server.New rt (Some Metrics.NewCollector)) with (view s0) end.
  induction Hr as [x|x y z [l Hl] _ IH]; [apply rtc_refl|]. etrans; [by eapply step_view|exact IH].
Qed.

Lemma reachable_main p0 s :
  reachable p0 s → aligned s ∧ Main.process_ok (rs_cfg (Main.state p0)) (main s).
Proof.
  intros (e & f & Hst & He & Hr). pose proof (Main.start_ok e f p0 Hst) as [Hok _].
  apply (rtc_preserve _ (λ s, aligned s ∧ Main.process_ok (rs_cfg (Main.state p0)) (main s)) _ _) in Hr; [done| |].
  - intros a b [l Hl] [Ha Hp]. split; [by eapply step_aligned|by eapply step_process_ok].
  - split; [|done]. destruct (start_Ok e f p0 Hst) as (next & rt & c & Hb & ->). split; [|done].
    apply Forall2_cons. split; [|by apply Forall2_nil]. exists e, f, next, rt. set_solver.
Qed.

(** Some load that was done lists the address among its routes. *)
Definition configured (s : system) (target : string) : Prop :=
  ∃ e f next host addrs, (e, f) ∈ loads s ∧ load e f = Ok next ∧
    rc_Routes next !! host = Some addrs ∧ target ∈ addrs.

Lemma built_configured s t c h l a :
  built (loads s) t c → t !! h = Some l → a ∈ l → configured s a.
Proof.
  intros (e & f & next & rt & Hin & He & (Hl & Hrt & _)%buildReloadTarget_Ok & ->) Ht Ha.
  destruct (Router.New_listed _ _ _ a (He _ _) Hrt) as (host & addrs & ? & ?).
  { apply Router.listed_addresses. eauto. }
  exists e, f, next, host, addrs. done.
Qed.

Lemma installed_configured s target :
  aligned s → Server.installed (Server.routers (srv s)) target → configured s target.
Proof.
  intros [HF _] (r & Hr & (h & l & Hl & Ha)%Router.listed_addresses).
  apply list_elem_of_lookup in Hr as [j Hj].
  assert (tables (srv s) !! j = Some (Router.addresses r)) as Ht by (unfold tables; by rewrite list_lookup_fmap, Hj).
  destruct (Forall2_lookup_l _ _ _ _ _ HF Ht) as (c & _ & Hb). by eapply built_configured.
Qed.

Lemma reachable_ends p0 s : reachable p0 s → ends_ok s.
Proof.
  intros (e & f & Hst & He & Hr). apply (rtc_preserve _ ends_ok _ _) in Hr; [done| |by eapply init_ends].
  intros a b [l Hl]. by eapply step_ends.
Qed.

Lemma reachable_step p0 l s s' :
  step configPath (Main.settings_of (rs_cfg (Main.state p0))) l s s' → reachable p0 s → reachable p0 s'.
Proof.
  intros Hs (e & f & ? & ? & ?). exists e, f. split_and!; [done|done|]. eapply rtc_r; [done|by exists l].
Qed.

(** C11: the process as a server, step by step: a step of a connection goroutine is exactly one effect of that goroutine on the server, or inside the discoverer and unseen by it; the main goroutine changes nothing of the server but its log, except that a reload that builds a router installs that router, and that a termination signal, or a listener or metrics endpoint that has failed, shuts the server down; the environment installs no router and moves no goroutine; a crash changes nothing. The states so reached are states the server alone can reach, so whatever holds of all of those holds of the process. *)
Theorem process_refines_server p0 s l s' :
  let cfg := Main.settings_of (rs_cfg (Main.state p0)) in
  step configPath cfg l s s' → reachable p0 s →
  (∃ rt, Router.router_wf rt ∧
     rtc (Server.step cfg) (Server.New rt (Some Metrics.NewCollector)) (view s')) ∧
  match l with
  | Task i => view s' = view s ∨ goroutine_step cfg i (view s) (view s')
  | Loop ev => sans_log (view s') = sans_log (asked (main s) ev (view s))
  | Environment =>
      rtc (Server.step cfg) (view s) (view s') ∧ tables (srv s') = tables (srv s) ∧
      Server.current (srv s') = Server.current (srv s) ∧
      Server.threads (view s) `prefix_of` Server.threads (view s')
  | Crash => view s' = view s
  end.
Proof.
  cbn zeta. intros Hs Hr. split; [by eapply reachable_server, reachable_step|]. destruct l as [i|ev| |].
  - by apply task_asked in Hs.
  - eapply loop_asked; [exact Hs|by eapply reachable_ends].
  - split_and!; [by eapply step_view| | |by eapply environment_threads].
    all: by destruct (frame configPath _ _ _ _ Hs eq_refl) as [(sh & Em & Ht & Hcur) _]; unfold srv; rewrite Em.
  - by apply crash_inv in Hs as (why & -> & _).
Qed.

(** What a goroutine is answered does not make it crash, and what it dials has
    been installed. *)
Lemma effect_safe p0 s i p e k net :
  reachable p0 s → tasks s !! i = Some (p, Running (Do e k)) →
  (∀ target d ka, e = Dial target d ka → Server.installed (Server.routers (srv s)) target) ∧
  Server.crashes e
    (Server.respond (Main.settings_of (rs_cfg (Main.state p0))) net (srv s) p e).2 = false.
Proof.
  intros Hr Hi. destruct (reachable_server p0 s Hr) as (rt & Hwf & Hv).
  destruct (Server.reach_safe _ _ _ _ Hwf Hv) as [Hok HF].
  pose proof (Forall_lookup_1 _ _ _ _ HF (view_lookup _ _ _ _ Hi)) as Ht. cbn [snd as_thread] in Ht.
  destruct (Server.respond _ net (srv s) p e) as [[sh p'] a] eqn:Er.
  by destruct (Server.thread_safe_next _ _ _ _ _ _ _ _ _ Hok Ht Er) as (Hc & Hd & _).
Qed.

Lemma effect_answered p0 s i p e k net :
  reachable p0 s → tasks s !! i = Some (p, Running (Do e k)) →
  Server.crashes e
    (Server.respond (Main.settings_of (rs_cfg (Main.state p0))) net (srv s) p e).2 = false.
Proof. apply effect_safe. Qed.

Lemma reachable_calls p0 s : reachable p0 s → calls_ok s.
Proof.
  intros (e & f & _ & _ & Hr). apply (rtc_preserve _ calls_ok _ _) in Hr; [done| |by apply Forall_nil].
  intros a b [l Hl]. by eapply step_calls.
Qed.

(** C1: from the file to the network: at any time, a connection goroutine only dials an address that a load of the configuration file by this process listed in its routes, start-up, reloads and discoveries included, and nothing that any goroutine is answered makes it crash. *)
Theorem process_safe p0 s i p e k net :
  reachable p0 s → tasks s !! i = Some (p, Running (Do e k)) →
  (∀ target d ka, e = Dial target d ka → configured s target) ∧
  Server.crashes e
    (Server.respond (Main.settings_of (rs_cfg (Main.state p0))) net (srv s) p e).2 = false.
Proof.
  intros Hr Hi. destruct (effect_safe p0 s i p e k net Hr Hi) as [Hd Hc]. split; [|done].
  intros target d ka He. destruct (reachable_main p0 s Hr) as [Hal _].
  apply installed_configured; [done|]. by eapply Hd.
Qed.

(** A termination signal ended the loop, and the process has drained since. *)
Definition signalled (p0 : Main.process) (s : system) : Prop :=
  ∃ s1 s2 sig closing,
    reachable p0 s1 ∧ looping s1 ∧
    step configPath (Main.settings_of (rs_cfg (Main.state p0))) (Loop (Main.Terminate sig closing)) s1 s2 ∧
    draining s2 ∧ rtc (any_step configPath (Main.settings_of (rs_cfg (Main.state p0)))) s2 s.

(** Only the main goroutine moves from one phase to another, short of a
    crash. *)
Lemma phase_step cfg l s s' :
  step configPath cfg l s s' →
  (∃ ev, l = Loop ev ∧ alive s ∧ Main.p_phase (main s') = Main.p_phase (Main.on_event configPath (main s) ev)) ∨
  (l = Crash ∧ ∃ why, Main.p_phase (main s') = Main.Crashed why) ∨
  (main_label l = false ∧ Main.p_phase (main s') = Main.p_phase (main s)).
Proof.
  intros Hs. destruct (label_cases l) as [[ev ->]|[->|Hl]].
  - left. inversion Hs as [| | | | | |s0 ev0 s1 Ha Hdel E1 E2 E3| | | | | | | | | | |]; subst.
    destruct (delivers_same _ _ _ Hdel) as (Em & _). exists ev. split_and!; [done|done|].
    change (main (main_goes_on s1 ?p)) with p. by rewrite Em.
  - right. left. apply crash_inv in Hs as (why & -> & _). split; [done|]. by exists why.
  - right. right. split; [done|]. destruct (frame configPath _ l s s' Hs Hl) as [(sh & Em & _) _]. by rewrite Em.
Qed.

(** The loop itself exits with an error only: neither the listener nor the
    metrics endpoint ends without one before the server is shut down. *)
Lemma loop_exit p0 s l s' err :
  reachable p0 s → step configPath (Main.settings_of (rs_cfg (Main.state p0))) l s s' → looping s →
  Main.p_phase (main s') = Main.Exited err →
  ∃ e, l = Loop (Main.ServeEnded (Some e)) ∧ err = Some (wrap_err "serve failed" e) ∨
       l = Loop (Main.MetricsEnded (Some e)) ∧ err = Some (wrap_err "metrics serve failed" e).
Proof.
  intros Hr Hs Hp Hx. destruct (phase_step _ _ _ _ Hs) as [(ev & -> & _ & Eph)|[(? & why & E)|[? E]]];
    [|congruence|unfold looping in Hp; congruence].
  rewrite Eph in Hx. destruct (on_event_ends configPath (main s) ev) as [Hends _].
  destruct (Hends Hp) as [_ He]. destruct (He err Hx) as (v & Hv). clear Hends He Eph Hx.
  pose proof (reachable_ends p0 s Hr) as (Hret & _ & Hloop). destruct (Hloop Hp) as (Hc & _ & Hxp).
  destruct (reachable_main p0 s Hr) as [_ [_ Hok]]. unfold looping in Hp. rewrite Hp in Hok.
  destruct Hok as (_ & Hctx & _).
  inversion Hs as [| | | | | |s0 ev0 s1 Ha Hdel E1 E2 E3| | | | | | | | | | |]; subst.
  destruct Hdel as [v' _ Hsv|x v' x' _ Hexp Hrec| | | | |];
    destruct Hv as [[[= <-] ->]|[[= <-] ->]].
  - destruct v' as [e|]; [exists e; by left|]. rewrite Hret in Hc; done.
  - destruct (Exporter.receive_cases _ _ _ Hrec) as (_ & _ & _ & e & [[-> _]|(-> & Hcl & He' & _)]);
      [exists e; by right|].
    exfalso. destruct (Hxp x Hexp) as (Hsh & Hfin & Hpc). apply Hfin in Hcl. rewrite Hcl in Hpc.
    destruct Hpc as (n & [(_ & _ & Hshut)|[e0 Hd]]).
    + apply Hsh in Hshut. congruence.
    + unfold Exporter.delivered in Hd. by rewrite He' in Hd.
Qed.

Lemma reachable_signalled p0 s :
  reachable p0 s → draining s ∨ Main.p_phase (main s) = Main.Exited None → signalled p0 s.
Proof.
  intros (e & f & Hst & He & Hr).
  set (P := λ s, reachable p0 s ∧ (draining s ∨ Main.p_phase (main s) = Main.Exited None → signalled p0 s)).
  enough (P s) by by apply H1. apply (rtc_preserve _ P _ _) in Hr; [done| |].
  - intros a b [l Hl] [Ha IH]. split; [by eapply reachable_step|]. intros Hb.
    assert (draining a ∨ Main.p_phase (main a) = Main.Exited None → signalled p0 b) as Hlater.
    { intros (s1 & s2 & sig & closing & ? & ? & ? & ? & ?)%IH. exists s1, s2, sig, closing.
      split_and!; try done. eapply rtc_r; [done|by exists l]. }
    destruct (phase_step _ _ _ _ Hl) as [(ev & -> & [Hp|Hp] & Eph)|[(? & why & E)|[? E]]].
    + destruct Hb as [Hb|Hb].
      * destruct (on_event_ends configPath (main a) ev) as [Hends _]. destruct (Hends Hp) as [Hdr _].
        rewrite <-Eph in Hdr. destruct (Hdr Hb) as (sig & closing & ->).
        exists a, b, sig, closing. split_and!; [done|done|done|done|apply rtc_refl].
      * by destruct (loop_exit _ _ _ _ _ Ha Hl Hp Hb) as (? & [[_ ?]|[_ ?]]).
    + by apply Hlater; left.
    + unfold draining in Hb. destruct Hb; congruence.
    + apply Hlater. unfold draining in *. by rewrite <-E.
  - split; [exists e, f; split_and!; [done|done|apply rtc_refl]|]. cbn.
    destruct (Main.start_ok e f p0 Hst) as [_ Hp]. unfold draining. cbn. rewrite Hp. by intros [|].
Qed.

(** C20: how the process ends: the loop gives way to draining on a termination signal and on nothing else, and by then the server has been shut down; it exits by itself only with the error that the listener or the metrics endpoint has ended with; draining ends with status zero, when the connections have ended, the grace period has passed or a second signal has arrived. So a process that has exited with status zero had received a termination signal in its loop and drained. *)
Theorem exit_status p0 s l s' :
  reachable p0 s → step configPath (Main.settings_of (rs_cfg (Main.state p0))) l s s' →
  (looping s → draining s' ↔ ∃ sig closing, l = Loop (Main.Terminate sig closing)) ∧
  (draining s' → Main.listener_closed (main s') = true) ∧
  (looping s → ∀ err, Main.p_phase (main s') = Main.Exited err →
   ∃ e, l = Loop (Main.ServeEnded (Some e)) ∧ err = Some (wrap_err "serve failed" e) ∨
        l = Loop (Main.MetricsEnded (Some e)) ∧ err = Some (wrap_err "metrics serve failed" e)) ∧
  (draining s → ∀ err, Main.p_phase (main s') = Main.Exited err →
   err = None ∧ match l with
                | Loop (Main.WaitDone _) | Loop (Main.Terminate _ _) | Loop (Main.Hangup _ _) => True
                | _ => False
                end) ∧
  (Main.p_phase (main s') = Main.Exited None → signalled p0 s').
Proof.
  intros Hr Hs. pose proof (reachable_step p0 l s s' Hs Hr) as Hr'. split_and!.
  - intros Hp. split.
    + intros Hd. destruct (phase_step _ _ _ _ Hs) as [(ev & -> & _ & E)|[(? & why & E)|[? E]]];
        [|unfold draining in Hd; congruence|unfold looping, draining in *; congruence].
      destruct (on_event_ends configPath (main s) ev) as [Hends _]. destruct (Hends Hp) as [Hdr _].
      rewrite <-E in Hdr. destruct (Hdr Hd) as (sig & closing & ->). by exists sig, closing.
    + intros (sig & closing & ->). destruct (phase_step _ _ _ _ Hs) as [(ev & [= <-] & _ & E)|[(? & why & E)|[? E]]].
      * unfold draining. rewrite E. unfold Main.on_event. by rewrite Hp.
      * done.
      * done.
  - intros Hd. destruct (reachable_main p0 s' Hr') as [_ [_ Hok]]. unfold draining in Hd. rewrite Hd in Hok.
    apply Hok.
  - intros Hp err Hx. exact (loop_exit p0 s l s' err Hr Hs Hp Hx).
  - intros Hd err Hx. destruct (phase_step _ _ _ _ Hs) as [(ev & -> & _ & E)|[(? & why & E)|[? E]]];
      [|congruence|unfold draining in *; congruence].
    destruct (on_event_ends configPath (main s) ev) as [_ Hends]. rewrite <-E in Hends.
    destruct (Hends Hd err Hx) as [-> Hev]. split; [done|]. by destruct ev.
  - intros Hx. apply reachable_signalled; [done|by right].
Qed.

(** Nothing the loop receives crashes the process but a load that does. *)
Lemma on_event_crash p ev why :
  Main.p_phase (Main.on_event configPath p ev) = Main.Crashed why → (∀ w, Main.p_phase p ≠ Main.Crashed w) →
  Main.p_phase p = Main.Looping ∧ ∃ e f, event_load ev = Some (e, f) ∧ buildReloadTarget e f = Panic why.
Proof.
  unfold Main.on_event. destruct (Main.p_phase p) eqn:Ep; cbn [Main.p_phase]; rewrite ?Ep;
    [|by destruct ev as [| | | | |[]]; cbn; rewrite ?Ep|done|by intros _ Hno; destruct (Hno why0)].
  destruct ev as [err|err|e f|sig closing|id e f|b]; cbn [Main.on_loop].
  - by destruct err.
  - destruct (Main.metrics_on p); [by destruct err|by rewrite Ep].
  - pose proof (reload_cases e configPath f (Main.state p)) as Hc.
    destruct (reload _ _ _ _) as [st [[]|err|w]]; cbn; rewrite ?Ep; try done.
    intros [= ->] _. split; [done|]. exists e, f. by destruct Hc.
  - done.
  - pose proof (reload_cases e configPath f (Main.state p)) as Hc.
    destruct (reload _ _ _ _) as [st [[]|err|w]]; cbn; rewrite ?Ep; try done.
    intros [= ->] _. split; [done|]. exists e, f. by destruct Hc.
  - by rewrite Ep.
Qed.

(** A file whose health-check intervals do not wrap when they are multiplied
    into nanoseconds. *)
Definition sane_file (f : file) : Prop :=
  ∀ raw cfg, f = inr raw → Unmarshal raw = inr cfg →
    Health.ms_ok (IntervalMS (Default_Healthcheck cfg)) ∧
    ∀ name g, Backends cfg !! name = Some g → Health.ms_ok (IntervalMS (Healthcheck g)).

Definition sane_loads (s : system) : Prop :=
  ∀ e f, (e, f) ∈ loads s → dns_stable (e_dns e) ∧ sane_file f.

(** The workers of a checker that such a load has built get their tickers. *)
Lemma built_tickers s t c w :
  sane_loads s → built (loads s) t c → w ∈ Health.Start c → Health.NewTicker w = Ok tt.
Proof.
  intros Hsane (e & f & next & rt & Hin & He & (Hl & _ & ->)%buildReloadTarget_Ok & _) Hw.
  destruct (Hsane _ _ Hin) as [_ Hf]. unfold load, Load in Hl. destruct f as [|raw]; [done|].
  destruct (Unmarshal raw) as [|cfg] eqn:Eu; [done|]. destruct (Hf raw cfg eq_refl Eu) as [Hd Hg].
  eapply Health.NewTicker_ok; [exact (He _ _)|exact Hl|exact Hd|exact Hg|exact Hw].
Qed.

(** No goroutine panics: not a health worker, not a connection, not a
    discovery. *)
Lemma no_crash p0 s s' :
  reachable p0 s → sane_loads s →
  ¬ step configPath (Main.settings_of (rs_cfg (Main.state p0))) Crash s s'.
Proof.
  intros Hr Hsane Hs. apply crash_inv in Hs as (why & _ & _ & [Hc|[Hc|Hc]]).
  - destruct Hc as (j & c & b & w & Hj & Hw & Hn). destruct (reachable_main p0 s Hr) as [[HF _] _].
    assert (started (Main.state (main s)) !! j = Some c) as Hst by (unfold started; by rewrite list_lookup_fmap, Hj).
    destruct (Forall2_lookup_r _ _ _ _ _ HF Hst) as (t & _ & Hb).
    by rewrite (built_tickers s t c w Hsane Hb Hw) in Hn.
  - destruct Hc as (i & p & e & k & net & Hi & Hc). by rewrite (effect_answered p0 s i p e k net Hr Hi) in Hc.
  - destruct Hc as (i & p & host & port & k & Hi).
    by pose proof (Forall_lookup_1 _ _ _ _ (reachable_calls p0 s Hr) Hi) as Hok.
Qed.

Lemma step_no_crash p0 l s s' :
  reachable p0 s → step configPath (Main.settings_of (rs_cfg (Main.state p0))) l s s' → sane_loads s' →
  sane_loads s ∧ ((∀ w, Main.p_phase (main s) ≠ Main.Crashed w) → ∀ w, Main.p_phase (main s') ≠ Main.Crashed w).
Proof.
  intros Hr Hs Hst. assert (loads s ⊆ loads s' ∧ ∀ ev e f, l = Loop ev → looping s → event_load ev = Some (e, f) →
    (e, f) ∈ loads s' ∧ env_ok e) as [Hsub Hload].
  { destruct (label_cases l) as [[ev ->]|[->|Hl]].
    - inversion Hs as [| | | | | |s0 ev0 s1 Ha Hdel E1 E2 E3| | | | | | | | | | |]; subst.
      destruct (delivers_loads _ _ _ Hdel) as [Hsub Hload]. split; [done|]. intros ? e f [= <-] Hp He. by apply Hload.
    - apply crash_inv in Hs as (why & -> & _). by split.
    - destruct (frame configPath _ l s s' Hs Hl) as [_ El]. rewrite El. split; [done|]. intros ev ? ? ->. done. }
  assert (sane_loads s) as Hsane by (intros e f Hin; by apply Hst, Hsub). split; [done|]. intros Hno w Hw.
  destruct (phase_step _ _ _ _ Hs) as [(ev & -> & _ & E)|[(-> & _)|[_ E]]].
  - rewrite E in Hw. destruct (on_event_crash _ _ _ Hw Hno) as (Hp & e & f & Hev & Hb).
    destruct (Hload ev e f eq_refl Hp Hev) as [Hin He].
    by destruct (buildReloadTarget_no_panic e f w (proj1 (Hst _ _ Hin)) He).
  - by apply (no_crash p0 s s').
  - rewrite E in Hw. by destruct (Hno w).
Qed.

(** C16: the process does not crash: as long as the resolver answers each load consistently, the process starts or refuses to start with an error; and if besides no file it has loaded asks for a health-check interval of more than 9223372036854 ms, no step it can take from a state it has reached ends it with a run-time panic, neither one of the main goroutine nor one of a connection goroutine, a discovery or a health worker, whatever text the file holds by then and however it is ordered. *)
Theorem never_crashes e f p0 s :
  env_ok e → dns_stable (e_dns e) →
  (∀ why, Main.start e f ≠ Panic why) ∧
  (reachable p0 s → sane_loads s →
   (∀ why, Main.p_phase (main s) ≠ Main.Crashed why) ∧
   ∀ s', ¬ step configPath (Main.settings_of (rs_cfg (Main.state p0))) Crash s s').
Proof.
  intros He Hst. split.
  - intros why. unfold Main.start. pose proof (buildReloadTarget_no_panic e f why Hst He) as Hno.
    by destruct (buildReloadTarget e f) as [[[]]| |w]; cbn; [| |intros [= ->]].
  - intros Hreach Hsane. split; [|intros s'; by apply no_crash]. revert Hsane.
    destruct Hreach as (e0 & f0 & Hs0 & He0 & Hr).
    set (P := λ s, reachable p0 s ∧ (sane_loads s → ∀ why, Main.p_phase (main s) ≠ Main.Crashed why)).
    enough (P s) as [_ HP] by exact HP. refine (rtc_preserve _ P _ _ _ Hr _).
    + intros a b [l Hs] [Ha IH]. split; [by eapply reachable_step|]. intros Hb.
      destruct (step_no_crash _ _ _ _ Ha Hs Hb) as [Hsa Hno]. auto.
    + split; [exists e0, f0; split_and!; [done|done|apply rtc_refl]|].
      intros _ why. destruct (Main.start_ok e0 f0 p0 Hs0) as [_ Hp]. cbn. by rewrite Hp.
Qed.

(** C17: the process keeps watching what it routes to: as long as the main loop runs, and the resolver answers each load consistently, every backend address of the router that new connections use is probed by a worker of a health checker that is running. *)
Theorem backends_watched p0 s r a :
  reachable p0 s → looping s → (∀ e f, (e, f) ∈ loads s → dns_stable (e_dns e)) →
  current_router (srv s) = Some r → Router.listed r a →
  ∃ j c w host, checkers (Main.state (main s)) !! j = Some (c, true) ∧ w ∈ Health.Start c ∧
    Health.w_address w = a ∧ host ∈ Health.w_hosts w.
Proof.
  intros Hr Hp Hdns Hcur (h & l & Hl & Ha)%Router.listed_addresses.
  destruct (reachable_main p0 s Hr) as [[HF Hcan] [_ Hok]]. unfold looping in Hp. rewrite Hp in Hok.
  destruct Hok as ([_ Hcur'] & Hctx & _). specialize (Hcan Hp). destruct (Hcur' _ Hcan) as (c & Hc & _).
  rewrite Hctx in Hc. exists (Server.current (srv s)), c.
  assert (tables (srv s) !! Server.current (srv s) = Some (Router.addresses r)) as Ht.
  { unfold tables, current_router in *. by rewrite list_lookup_fmap, Hcur. }
  destruct (Forall2_lookup_l _ _ _ _ _ HF Ht) as (c' & Hc' & e & f & next & rt & Hin & He & Hb & Et).
  unfold started in Hc'. rewrite list_lookup_fmap, Hc in Hc'. injection Hc' as <-.
  apply buildReloadTarget_Ok in Hb as (Hload & Hrt & ->).
  destruct (Router.New_listed _ _ _ a (He _ _) Hrt) as (host & addrs & Hroute & Hia).
  { apply Router.listed_addresses. rewrite <-Et. eauto. }
  unfold load, Load in Hload. destruct f as [|raw]; [done|]. destruct (Unmarshal raw) as [|cf]; [done|].
  destruct (route_group _ _ _ _ _ _ _ (Hdns _ _ Hin) (He _ _) Hload Hroute) as (g & Hg & Hhg & <-).
  set (ck := Health.New _ _).
  exists (if bool_decide (g_Path g = "")
          then Health.L4Worker g a (default [] (Health.groupToHosts ck !! g_Name g))
          else Health.L7Worker g a (default [] (Health.groupToHosts ck !! g_Name g))), host.
  split; [done|]. split; [|split; [by case_bool_decide|]].
  - apply Health.Start_worker. exists g. by case_bool_decide.
  - assert (host ∈ default [] (Health.groupToHosts ck !! g_Name g)); [|by case_bool_decide].
    by apply Health.New_hosts, (range_order_elem _ _ _ _ (He _ _)).
Qed.

End properties.

(** *** Runs of the scheduler *)

Section runs.
Context `{UnicodeTables, Yaml}.
Context (configPath : string) (cfg : settings) (ce : Discovery.call_env) (net : Server.network).

(** The loads of a run are those of its start and those its moves ask for. *)
Definition move_stable (m : move) : Prop := match m with MServe e => dns_stable (e_dns e) | _ => True end.

Definition sane_texts : Prop := ∀ f, sane_file f.

Lemma play1_stable m s s' :
  sane_texts → play1 configPath cfg ce net m s = Some s' → move_stable m → sane_loads s → sane_loads s'.
Proof.
  intros Ht. unfold play1. destruct (is_alive s) eqn:Ea; [cbn [negb]|done]. apply is_alive_spec in Ea.
  destruct m as [i|addr|addr e|c|e| |sig]; cbn [move_stable]; intros Hs Hm Hst.
  - apply task_next_sound in Hs; [|done].
    destruct (frame configPath _ _ _ _ Hs) as [_ El]; [done|]. unfold sane_loads. by rewrite El.
  - destruct (serving s); try done. by injection Hs as <-.
  - destruct (serving s); try done. by injection Hs as <-.
  - destruct (serving s), (closed s); try done. by injection Hs as <-.
  - destruct (is_looping s), (requests s); try done. injection Hs as <-.
    intros e' f' [Hin|Hin]%elem_of_app; [by eapply Hst|]. apply list_elem_of_singleton in Hin. injection Hin as -> _.
    split; [exact Hm|apply Ht].
  - destruct (is_looping s), (serving s); try done. by injection Hs as <-.
  - by injection Hs as <-.
Qed.

Lemma play_stable ms s s' :
  sane_texts → play configPath cfg ce net ms s = Some s' → Forall move_stable ms → sane_loads s → sane_loads s'.
Proof.
  intros Ht Hp Hm. revert s Hp. induction Hm as [|m ms Hm _ IH]; intros s; cbn [play]; [by intros [= ->]|].
  unfold mbind. cbn [option_bind]. destruct (play1 _ _ _ _ m s) as [s1|] eqn:E; [|done].
  intros Hp Hs. by eapply IH, play1_stable.
Qed.

End runs.

(** ** Witnesses *)

#[local] Existing Instance ascii_tables.
#[local] Existing Instance Discovery.text_yaml.

Lemma sample_reachable ms :
  Forall move_ok ms → bool_decide (is_Some (run_moves ms)) = true →
  reachable "config.yaml" started_process (after ms).
Proof.
  intros Hok Hr. exists start_env, (inr "base"). split_and!; [exact started_Ok|exact start_env_ok|].
  by apply after_rtc.
Qed.

Lemma asking_ok : Forall move_ok asking.
Proof. unfold asking. apply Forall_app. split; [by repeat constructor|by apply Forall_replicate]. Qed.

Lemma dialing_reachable : reachable "config.yaml" started_process (after dialing).
Proof.
  apply sample_reachable; [|vm_compute; reflexivity]. apply Forall_app. split; [exact asking_ok|].
  constructor; [exact start_env_ok|by apply Forall_replicate].
Qed.

Lemma refused_reachable : reachable "config.yaml" started_process (after refused).
Proof. apply sample_reachable; [by repeat constructor|vm_compute; reflexivity]. Qed.

Lemma dialing_next : next_effect (after dialing) 0 = Some (Dial "10.0.0.7:80" 4000000000 30000000000).
Proof. vm_compute. reflexivity. Qed.

Lemma start_env_stable : dns_stable (e_dns start_env).
Proof. intros n m a. reflexivity. Qed.

(** The intervals in the sample texts are far from wrapping. *)
Lemma texts_sane : sane_texts.
Proof.
  intros f raw cfg _. cbn [Unmarshal Discovery.text_yaml].
  destruct (find _ Discovery.texts) as [[r c]|] eqn:Ef; [|done]. intros [= <-]. cbn [snd].
  apply find_some in Ef as [Hin _]. apply list_elem_of_In in Hin.
  assert (Forall (λ e : string * Config, Health.ms_ok (IntervalMS (Default_Healthcheck e.2)) ∧
    map_Forall (λ _ g, Health.ms_ok (IntervalMS (Healthcheck g))) (Backends e.2)) Discovery.texts) as Hall.
  { unfold Health.ms_ok. apply (bool_decide_eq_true _). vm_compute. reflexivity. }
  exact (proj1 (Forall_forall _ _) Hall _ Hin).
Qed.

Lemma started_sane : sane_loads started_system.
Proof.
  intros e f Hin. change (loads started_system) with [(start_env, inr "base" : file)] in Hin.
  apply list_elem_of_singleton in Hin as [= -> ->]. split; [exact start_env_stable|apply texts_sane].
Qed.

Lemma after_stable ms : Forall move_stable ms → sane_loads (after ms).
Proof.
  unfold after, run_moves. generalize started_sane. generalize started_system, started_settings.
  intros s0 cfg Hs0 Hm. destruct (play _ _ _ _ ms s0) as [s|] eqn:E; [|exact Hs0].
  eapply play_stable; [exact texts_sane|exact E|exact Hm|exact Hs0].
Qed.

Lemma dialing_sane : sane_loads (after dialing).
Proof.
  apply after_stable. unfold dialing, asking.
  apply Forall_app_2; [apply Forall_app_2; [repeat constructor|by apply Forall_replicate]|].
  apply Forall_cons. split; [exact start_env_stable|by apply Forall_replicate].
Qed.

Lemma process_safe_witness : configured (after dialing) "10.0.0.7:80".
Proof.
  destruct (next_effect_task _ _ _ dialing_next) as (p & k & E).
  destruct (process_safe "config.yaml" started_process (after dialing) 0 p _ k Server.sample_network
    dialing_reachable E) as [Hd _].
  exact (Hd "10.0.0.7:80" 4000000000%Z 30000000000%Z eq_refl).
Defined.

Lemma asking_reachable : reachable "config.yaml" started_process (after asking).
Proof. apply sample_reachable; [exact asking_ok|vm_compute; reflexivity]. Qed.

(** The main goroutine serves the first request. *)
Definition serve_event (s : system) : Main.event := Main.ReloadRequest 0 start_env (disk s).

Definition serve_request (s : system) : system :=
  main_goes_on (note_load (set_requests s [] (next_id s)) start_env)
    (Main.on_event "config.yaml" (main s) (serve_event s)).

Lemma serve_step cfg s :
  looping s → requests s = [0%nat] → step "config.yaml" cfg (Loop (serve_event s)) s (serve_request s).
Proof.
  intros Hl Hq. apply (s_main _ _ s (serve_event s) (note_load (set_requests s [] (next_id s)) start_env)); [by left|].
  apply d_request; [exact Hl|exact Hq|exact start_env_ok].
Qed.

Definition request_served : Main.event := serve_event (after asking).
Definition after_served : system := serve_request (after asking).

Lemma request_step : step "config.yaml" started_settings (Loop request_served) (after asking) after_served.
Proof.
  apply serve_step; [apply is_looping_spec|]; vm_compute; reflexivity.
Qed.

Lemma sans_log_routers s v :
  sans_log (view s) = sans_log v →
  Server.current (srv s) = Server.current (Server.sh v) ∧ Server.routers (srv s) = Server.routers (Server.sh v).
Proof.
  intros E. split; [exact (f_equal (λ v, Server.current (Server.sh v)) E)|].
  exact (f_equal (λ v, Server.routers (Server.sh v)) E).
Qed.

(** The router that it has built is the one in use then. *)
Lemma process_refines_server_witness :
  Server.current (srv after_served) = 1 ∧ length (Server.routers (srv after_served)) = 2.
Proof.
  destruct (process_refines_server "config.yaml" started_process (after asking) (Loop request_served) after_served
    request_step asking_reachable) as [_ Hs].
  assert (Server.current (Server.sh (asked (main (after asking)) request_served (view (after asking)))) = 1 ∧
    length (Server.routers (Server.sh (asked (main (after asking)) request_served (view (after asking))))) = 2)
    as [E1 E2] by (split; vm_compute; reflexivity).
  apply sans_log_routers in Hs as [Hc Hl]. rewrite Hc, Hl. exact (conj E1 E2).
Defined.

(** Two termination signals: the process exits, and the path to it starts with
    the first. *)
Definition second_signal : Main.event := Main.Terminate "interrupt" None.

Definition after_signal : list move := [MListen ":1080"; MTerminate "terminated"].

Definition after_exit : system :=
  main_goes_on (after after_signal) (Main.on_event "config.yaml" (main (after after_signal)) second_signal).

Lemma exit_status_witness : signalled "config.yaml" started_process after_exit.
Proof.
  assert (reachable "config.yaml" started_process (after after_signal)) as Hr.
  { apply sample_reachable; [by repeat constructor|vm_compute; reflexivity]. }
  assert (step "config.yaml" started_settings (Loop second_signal) (after after_signal) after_exit) as Hs.
  { apply s_main; [apply is_alive_spec; vm_compute; reflexivity|apply d_terminate]. }
  destruct (exit_status "config.yaml" started_process (after after_signal) (Loop second_signal) after_exit Hr Hs)
    as (_ & _ & _ & _ & Hp).
  apply Hp. vm_compute. reflexivity.
Defined.

Lemma dialing_stable e f : (e, f) ∈ loads (after dialing) → dns_stable (e_dns e).
Proof. apply dialing_sane. Qed.

Lemma never_crashes_witness :
  ¬ step "config.yaml" started_settings Crash (after dialing) (crashed (after dialing) "nil pointer dereference").
Proof.
  destruct (proj2 (never_crashes "config.yaml" start_env (inr "base") started_process (after dialing)
    start_env_ok start_env_stable) dialing_reachable dialing_sane) as [_ Hno].
  exact (Hno _).
Defined.

Lemma backends_watched_witness :
  ∃ j c w host, checkers (Main.state (main (after dialing))) !! j = Some (c, true) ∧ w ∈ Health.Start c ∧
    Health.w_address w = "10.0.0.7:80" ∧ host ∈ Health.w_hosts w.
Proof.
  destruct (current_router (srv (after dialing))) as [r|] eqn:E; [|vm_compute in E; discriminate E].
  refine (backends_watched "config.yaml" started_process (after dialing) r "10.0.0.7:80" dialing_reachable
    _ dialing_stable E _).
  - apply is_looping_spec. vm_compute. reflexivity.
  - apply Router.listed_addresses. exists "a.internal", ["10.0.0.7:80"]. split; [|by left].
    assert ((λ r, Router.addresses r !! "a.internal") <$> current_router (srv (after dialing)) =
      Some (Some ["10.0.0.7:80"])) as Ha by (vm_compute; reflexivity).
    rewrite E in Ha. by injection Ha.
Defined.

(** ** A race at start-up

    [Shutdown] does nothing while there is no listener: a termination signal
    that arrives before [Serve] has opened it leaves a process that drains and
    accepts new connections, which keep it from ending before the grace
    period. *)
Definition early_signal : list move := [MTerminate "terminated"; MListen ":1080"; MAccept stranger].

Theorem shutdown_before_listen :
  ∃ s, reachable "config.yaml" started_process s ∧ draining s ∧
    serving s = Server.Accepting ∧ closed s = false ∧ Server.wg (srv s) = 1.
Proof.
  exists (after early_signal). split.
  - apply sample_reachable; [by repeat constructor|vm_compute; reflexivity].
  - unfold draining. split_and!; vm_compute; reflexivity.
Qed.
