(* ===== verification/Liveness.v ===== *)
(** * Sessions end

    Every goroutine of [System.v] has a bounded amount of work left; so between
    two events from outside the process comes to rest, and as long as its main
    loop runs it comes to rest only when every session has ended.  After the
    loop a call of the discoverer can be left without an answer. *)
From S2P Require Import Prelude GoStrings GoNet Config Prog Handler Reload System Scheduler Process.
From S2P Require Router Health Server Discovery Exporter Main Metrics.

(** ** The work left *)

(** The steps a call of the discoverer has left, the main goroutine's reload
    included. *)
Definition stage_weight (st : Discovery.stage) : nat :=
  match st with
  | Discovery.Entering => 9
  | Discovery.Resolving => 8
  | Discovery.Reading _ => 7
  | Discovery.Writing _ _ => 6
  | Discovery.Reloading _ => 5
  | Discovery.Leaving _ => 2
  | Discovery.Returned _ => 1
  end.

Definition awaiting_weight : nat := 3.

(** One effect may be a whole call of the discoverer. *)
Definition effect_weight : nat := 10.

(** The task does at most [n] more steps. *)
Definition fits (n : nat) (t : task) : Prop :=
  match t with
  | Running q => ∃ m, bounded m q ∧ (effect_weight * m ≤ n)%nat
  | Discovering _ _ st k =>
      stage_ok st ∧ ∃ m, (∀ a, bounded m (k a)) ∧ (effect_weight * m + stage_weight st ≤ n)%nat
  | Awaiting _ _ _ _ k => ∃ m, (∀ a, bounded m (k a)) ∧ (effect_weight * m + awaiting_weight ≤ n)%nat
  end.

Definition ended (t : task) : Prop := match t with Running (Ret (Some _)) => True | _ => False end.

Lemma ended_thread t : ended t ↔ Server.ended (as_thread t).
Proof. by destruct t as [[[]|]| |]. Qed.

Lemma sum_insert ns i n n' :
  ns !! i = Some n → (sum_list (<[i := n']> ns) + n = sum_list ns + n')%nat.
Proof.
  revert i. induction ns as [|n0 ns IH]; intros [|i]; cbn [lookup list_lookup insert list_insert sum_list];
    [done|done| |].
  - intros [= ->]. cbn. lia.
  - intros Hi. specialize (IH i Hi). unfold insert in IH |- *. cbn [sum_list]. lia.
Qed.

Section work.
Context `{UnicodeTables, Yaml}.
Context (configPath : string) (cfg : settings).

(** A stage of its own brings a call closer to its end. *)
Lemma own_step_weight ce host port st w st' w' :
  own_step st = true → Discovery.advance configPath ce host port st w = (st', w') →
  (stage_weight st' < stage_weight st)%nat.
Proof.
  destruct st as [| |addrs|addrs c|addrs|r|r]; try done; cbn [Discovery.advance]; intros _.
  - case_bool_decide; intros [= <- _]; cbn; lia.
  - destruct (Discovery.addresses_of _ _ _); intros [= <- _]; cbn; lia.
  - destruct (Discovery.plan _ _ _ _) as [[c|]| |]; intros [= <- _]; cbn; lia.
  - destruct (Save _ _ _) as [f [[]| |]]; intros [= <- _]; cbn; lia.
  - intros [= <- _]. cbn. lia.
Qed.

#[local] Ltac weigh :=
  unfold effect_weight, awaiting_weight in *;
  cbn [requests go_on set_tasks set_srv set_main set_world set_requests stage_weight] in *;
  rewrite ?length_app; cbn [length]; lia.

(** What a goroutine has left after its step. *)
Lemma task_step s i s' :
  step configPath cfg (Task i) s s' →
  ∃ p t p' t', tasks s !! i = Some (p, t) ∧ tasks s' = <[i := (p', t')]> (tasks s) ∧
    ∀ n, fits n t → ∃ n', fits n' t' ∧ (n' + length (requests s') < n + length (requests s))%nat.
Proof.
  intros Hs. inversion Hs as
    [s0 i0 p e k net sh p' a _ Hi Hd Hb Hr|s0 i0 p host port k _ Hi|s0 i0 p host port st k ce st' w _ Hi Ho Ha
    |s0 i0 p host port addrs k _ Hi _|s0 i0 p host port addrs id k err _ Hi _|s0 i0 p host port r k a _ Hi Hres
    | | | | | | | | | | | |]; subst.
  - eexists _, _, _, _. split; [exact Hi|]. split; [done|]. intros n ([|m] & Hm & Hn); [done|].
    exists (effect_weight * m)%nat. split; [by exists m|]. weigh.
  - eexists _, _, _, _. split; [exact Hi|]. split; [done|]. intros n ([|m] & Hm & Hn); [done|].
    exists (effect_weight * m + 9)%nat. split; [split; [done|]; by exists m|]. weigh.
  - eexists _, _, _, _. split; [exact Hi|]. split; [done|]. intros n (Hst & m & Hm & Hn).
    pose proof (own_step_weight _ _ _ _ _ _ _ Ho Ha) as Hlt.
    pose proof (own_step_ok _ _ _ _ _ _ _ _ Ho Ha Hst) as Hst'.
    exists (effect_weight * m + stage_weight st')%nat. split; [split; [done|]; by exists m|]. weigh.
  - eexists _, _, _, _. split; [exact Hi|]. split; [done|]. intros n (_ & m & Hm & Hn).
    exists (effect_weight * m + awaiting_weight)%nat. split; [by exists m|]. weigh.
  - eexists _, _, _, _. split; [exact Hi|]. split; [by destruct err|]. intros n (m & Hm & Hn).
    exists (effect_weight * m + 2)%nat. split; [split; [by destruct err|]; by exists m|].
    destruct err; weigh.
  - eexists _, _, _, _. split; [exact Hi|]. split; [done|]. intros n (_ & m & Hm & Hn).
    exists (effect_weight * m)%nat. split; [by exists m|]. weigh.
Qed.

(** Every goroutine has a bounded amount of work left. *)
Definition fueled (s : system) : Prop := Forall (λ t, ∃ n, fits n t.2) (tasks s).

Lemma internal_terminates s : fueled s → sn (internal_step configPath cfg) s.
Proof.
  intros Hf. assert (∃ ns, Forall2 (λ t n, fits n t.2) (tasks s) ns) as [ns Hns].
  { induction Hf as [|t ts [n Hn] _ [ns IH]]; [by exists []|]. exists (n :: ns). by constructor. }
  clear Hf. remember (sum_list ns + length (requests s))%nat as work eqn:Ew.
  revert s ns Hns Ew. induction work as [work IH] using lt_wf_ind. intros s ns Hns ->.
  constructor. intros s' (l & Hl & Hs). destruct l as [i|[| | | |id e f|]| |]; [|discriminate Hl..| |discriminate Hl|discriminate Hl|discriminate Hl].
  - destruct (task_step _ _ _ Hs) as (p & t & p' & t' & Hi & Et & Hfit).
    destruct (Forall2_lookup_l _ _ _ _ _ Hns Hi) as (n & Hni & Hn). destruct (Hfit n Hn) as (n' & Hn' & Hlt).
    pose proof (sum_insert ns i n n' Hni).
    apply (IH (sum_list (<[i := n']> ns) + length (requests s'))%nat) with (ns := <[i := n']> ns); [lia| |done].
    rewrite Et. by apply Forall2_insert.
  - inversion Hs as [| | | | | |s0 ev0 s1 Ha Hdel E1 E2 E3| | | | | | | | | | |]; subst.
    inversion Hdel as [| | | | |id0 rest e0 Hp Hq He E1 E2|]; subst.
    apply (IH (sum_list ns + length rest)%nat) with (ns := ns); [rewrite Hq; cbn [length]; lia|exact Hns|reflexivity].
Qed.

Lemma session_fits : fits (effect_weight * session_bound) (Running (serveClient cfg)).
Proof. exists session_bound. split; [apply serveClient_bounded|apply Nat.le_refl]. Qed.

Lemma step_fueled l s s' : step configPath cfg l s s' → fueled s → fueled s'.
Proof.
  intros Hs Hf. destruct l as [i|ev| |].
  - destruct (task_step _ _ _ Hs) as (p & t & p' & t' & Hi & Et & Hfit). unfold fueled. rewrite Et.
    apply Forall_insert; [done|]. destruct (Forall_lookup_1 _ _ _ _ Hf Hi) as [n Hn].
    destruct (Hfit n Hn) as (n' & Hn' & _). by exists n'.
  - inversion Hs as [| | | | | |s0 ev0 s1 Ha Hdel E1 E2 E3| | | | | | | | | | |]; subst.
    destruct (delivers_same _ _ _ Hdel) as (_ & Et & _). unfold fueled, main_goes_on. cbn. by rewrite Et.
  - inversion Hs as [| | | | | | | | |s0 c Ha Hsv Hcl| | | |s0 x lines x' Ha Hx Hst| | | |]; subst; try done.
    + unfold fueled. cbn. apply Forall_app. split; [done|]. apply Forall_fmap, Forall_forall. intros [p q] Hin.
      assert (q = serveClient cfg) as ->.
      { unfold Server.accept in Hin. destruct (_ && _); cbn in Hin; [by apply not_elem_of_nil in Hin|].
        apply list_elem_of_singleton in Hin. by injection Hin. }
      exists (effect_weight * session_bound)%nat. apply session_fits.
    + unfold fueled. assert (tasks (set_exporter (foldl log s lines) x') = tasks s) as ->; [|done].
      clear. cbn. revert s. induction lines as [|l lines IH]; intros s; cbn [foldl]; [done|exact (IH (log s l))].
  - by apply crash_inv in Hs as (why & -> & _).
Qed.

End work.

(** ** The reload requests *)

(** The request whose answer a task waits for. *)
Definition waits (t : task) : option nat :=
  match t with Awaiting _ _ _ id _ => Some id | _ => None end.

(** The requests that were ever sent and have left their sender. *)
Definition sent (s : system) : list nat := (Main.replies (main s)).*1 ++ requests s.

(** The requests have distinct identities, each has at most one sender that
    waits, and in the loop a request that is waited for is in the queue or has
    been answered. *)
Definition queued (s : system) : Prop :=
  (length (requests s) ≤ requests_capacity)%nat ∧
  (NoDup (sent s) ∧ ∀ id, id ∈ sent s → (id < next_id s)%nat) ∧
  (∀ i p t id, tasks s !! i = Some (p, t) → waits t = Some id →
     (id < next_id s)%nat ∧ (looping s → id ∈ sent s)) ∧
  (∀ i j p q t u id, tasks s !! i = Some (p, t) → tasks s !! j = Some (q, u) →
     waits t = Some id → waits u = Some id → i = j).

Section queue.
Context `{UnicodeTables, Yaml}.
Context (configPath : string) (cfg : settings).

(** What a goroutine does to the queue. *)
Lemma task_queue s i s' :
  step configPath cfg (Task i) s s' →
  ∃ p t p' t', tasks s !! i = Some (p, t) ∧ tasks s' = <[i := (p', t')]> (tasks s) ∧
    (waits t' = None ∧ requests s' = requests s ∧ next_id s' = next_id s ∨
     waits t' = Some (next_id s) ∧ requests s' = requests s ++ [next_id s] ∧
     next_id s' = S (next_id s) ∧ (length (requests s) < requests_capacity)%nat).
Proof.
  intros Hs. inversion Hs as
    [s0 i0 p e k net sh p' a _ Hi Hd Hb Hr|s0 i0 p host port k _ Hi|s0 i0 p host port st k ce st' w _ Hi Ho Ha
    |s0 i0 p host port addrs k _ Hi Hlt|s0 i0 p host port addrs id k err _ Hi _|s0 i0 p host port r k a _ Hi Hres
    | | | | | | | | | | | |]; subst; eexists _, _, _, _; (split; [exact Hi|]);
    (split; [by try destruct err|]); [left..|right|left|left]; try done.
  by destruct err.
Qed.

(** What the environment does to the queue: nothing. *)
Lemma environment_queue s s' :
  step configPath cfg Environment s s' →
  requests s' = requests s ∧ next_id s' = next_id s ∧
  ∃ new, tasks s' = tasks s ++ new ∧ Forall (λ t, waits t.2 = None) new.
Proof.
  assert (∀ lines s0, requests (foldl log s0 lines) = requests s0 ∧
    next_id (foldl log s0 lines) = next_id s0 ∧ tasks (foldl log s0 lines) = tasks s0) as Hlog.
  { intros lines. induction lines as [|l lines IH]; intros s0; cbn [foldl]; [done|exact (IH (log s0 l))]. }
  intros Hs. inversion Hs as [| | | | | | | | |s0 c Ha Hsv Hcl| | | |s0 x lines x' Ha Hx Hst| | | |]; subst;
    try by (split_and!; [done|done|]; exists []; rewrite app_nil_r).
  - split_and!; [done|done|]. eexists. split; [reflexivity|]. by apply Forall_fmap, Forall_forall.
  - destruct (Hlog lines s) as (E1 & E2 & E3). cbn. rewrite E1, E2, E3.
    split_and!; [done|done|]. exists []. by rewrite app_nil_r.
Qed.

(** The main goroutine answers at most the request it was given. *)
Lemma on_event_replies p ev :
  let p' := Main.on_event configPath p ev in
  Main.replies p' = Main.replies p ∧ (Main.p_phase p' = Main.Looping → Main.request_id ev = None) ∨
  ∃ id err, Main.request_id ev = Some id ∧ Main.replies p' = Main.replies p ++ [(id, err)].
Proof.
  cbn zeta. unfold Main.on_event. destruct (Main.p_phase p) eqn:Ep; [| |left; by rewrite Ep..].
  - destruct ev as [err|err|e f|sig closing|id e f|b]; cbn [Main.on_loop].
    + left. by destruct err.
    + left. destruct (Main.metrics_on p); [by destruct err|done].
    + left. by destruct (reload _ _ _ _) as [st [[]|err|w]].
    + left. destruct closing as [err|]; cbn [Main.close_log]; [|done]. by destruct (errors_Is err SOsClosed).
    + destruct (reload _ _ _ _) as [st [[]|err|w]]; [right..|left]; [| |done].
      * by exists id, None.
      * by exists id, (Some err).
    + by left.
  - left. destruct ev as [| | | | |[]]; cbn; by rewrite ?Ep.
Qed.

Lemma delivers_queue s ev s1 :
  delivers s ev s1 →
  next_id s1 = next_id s ∧
  ((∃ id, Main.request_id ev = Some id ∧ requests s = id :: requests s1) ∨
   Main.request_id ev = None ∧ requests s1 = requests s).
Proof. destruct 1; (split; [done|]); cbn; first [by right|left; by eauto]. Qed.

(** What an event does to the queue: the request it serves moves from the queue
    to the answers, unless the process crashes. *)
Lemma loop_queue ev s s' :
  step configPath cfg (Loop ev) s s' →
  tasks s' = tasks s ∧ next_id s' = next_id s ∧ (length (requests s') ≤ length (requests s))%nat ∧
  (looping s' → looping s) ∧
  (sent s' = sent s ∨ sublist (sent s') (sent s) ∧ ¬ looping s').
Proof.
  intros Hs. inversion Hs as [| | | | | |s0 ev0 s1 Ha Hdel E1 E2 E3| | | | | | | | | | |]; subst.
  destruct (delivers_same _ _ _ Hdel) as (Em & Et & _). destruct (delivers_queue _ _ _ Hdel) as [En Hq].
  destruct (on_event_flags configPath (main s1) ev) as (_ & Hlo).
  pose proof (on_event_replies (main s1) ev) as Hr. cbn zeta in Hlo, Hr. rewrite Em in Hlo, Hr.
  unfold looping, sent, main_goes_on. cbn [tasks main set_main set_closed requests next_id]. rewrite Em.
  split; [done|]. split; [done|]. destruct Hq as [(id & Hid & ->)|[Hid ->]]; (split; [cbn; lia|]);
    (split; [by intros (? & _)%Hlo|]).
  - destruct Hr as [[-> Hno]|(id' & err & Hid' & ->)]; rewrite Hid in *.
    + right. split; [apply sublist_app; [done|by apply sublist_cons]|]. by intros ?%Hno.
    + injection Hid' as <-. left. rewrite fmap_app. by rewrite <-app_assoc.
  - destruct Hr as [[-> _]|(id' & err & Hid' & _)]; [by left|]. by rewrite Hid in Hid'.
Qed.

(** Sending a request keeps the identities distinct. *)
Lemma sent_grows s s' :
  Main.replies (main s') = Main.replies (main s) →
  (requests s' = requests s ∧ next_id s' = next_id s ∨
   requests s' = requests s ++ [next_id s] ∧ next_id s' = S (next_id s) ∧
   (length (requests s) < requests_capacity)%nat) →
  (length (requests s) ≤ requests_capacity)%nat →
  NoDup (sent s) → (∀ id, id ∈ sent s → (id < next_id s)%nat) →
  (length (requests s') ≤ requests_capacity)%nat ∧
  (NoDup (sent s') ∧ ∀ id, id ∈ sent s' → (id < next_id s')%nat) ∧
  sent s ⊆ sent s' ∧ (next_id s ≤ next_id s')%nat.
Proof.
  unfold sent. intros -> [(-> & ->)|(-> & -> & Hl)] Hcap Hnd Hlt; [done|].
  rewrite length_app, app_assoc. split_and!; [cbn; lia| | |intros id Hid; apply elem_of_app; by left|lia].
  - apply NoDup_app. split; [done|]. split; [|apply NoDup_singleton].
    intros id Hid%Hlt ->%list_elem_of_singleton. lia.
  - intros id [Hid%Hlt| ->%list_elem_of_singleton]%elem_of_app; lia.
Qed.

Lemma step_queued l s s' : step configPath cfg l s s' → queued s → queued s'.
Proof.
  intros Hs (Hcap & (Hnd & Hlt) & Hw & Hinj).
  destruct l as [i|ev| |].
  - destruct (frame configPath cfg _ s s' Hs) as [(sh & Em & _) _]; [done|].
    destruct (task_queue s i s' Hs) as (p & t & p' & t' & Hi & Et & Hq).
    assert (Main.replies (main s') = Main.replies (main s)) as Er by by rewrite Em.
    assert (looping s' → looping s) as Hlo by (unfold looping; by rewrite Em).
    destruct (sent_grows s s' Er) as (Hc' & Hs' & Hsub & Hn); [destruct Hq as [(_ & ? & ?)|(_ & ? & ? & ?)]; auto|done..|].
    split; [done|]. split; [done|]. rewrite Et. split.
    + intros j q u id Hj Hid. destruct (decide (i = j)) as [<-|Hne].
      * rewrite list_lookup_insert_eq in Hj by (by eapply lookup_lt_Some). injection Hj as <- <-.
        destruct Hq as [(Hno & _)|(Hid' & Erq & En & _)]; [congruence|].
        rewrite Hid in Hid'. injection Hid' as ->. rewrite En. split; [lia|]. intros _.
        unfold sent. rewrite Erq, !elem_of_app, list_elem_of_singleton. auto.
      * rewrite list_lookup_insert_ne in Hj by done. destruct (Hw _ _ _ _ Hj Hid) as [? Hin].
        split; [lia|]. auto.
    + assert (∀ j q u id, i ≠ j → tasks s !! j = Some (q, u) → waits t' = Some id → waits u = Some id → False) as Hno.
      { intros j q u id Hne Hj Ht' Hu. destruct (Hw _ _ _ _ Hj Hu) as [Hid _].
        destruct Hq as [(Hno & _)|(Hid' & _)]; [congruence|]. rewrite Ht' in Hid'. injection Hid' as ->. lia. }
      intros j1 j2 q1 q2 u1 u2 id. rewrite !list_lookup_insert_Some.
      intros [(<- & [= <- <-] & _)|[Hn1 H1]] [(<- & [= <- <-] & _)|[Hn2 H2]] Hu1 Hu2; [done| | |by eauto];
        exfalso; eauto.
  - destruct (loop_queue ev s s' Hs) as (Et & En & Hlen & Hlo & Hsent). unfold queued. rewrite Et, En.
    split; [lia|]. split; [|split; [|done]].
    + destruct Hsent as [->|[Hsub _]]; [done|]. split; [by eapply sublist_NoDup|].
      intros id Hid. apply Hlt. by eapply elem_of_sublist.
    + intros j q u id Hj Hid. destruct (Hw _ _ _ _ Hj Hid) as [? Hin]. split; [done|].
      intros Hp. destruct Hsent as [->|[_ Hno]]; [by auto|done].
  - destruct (frame configPath cfg _ s s' Hs) as [(sh & Em & _) _]; [done|].
    destruct (environment_queue s s' Hs) as (Er & En & new & Et & Hnew).
    assert (sent s' = sent s) as Es by (unfold sent; by rewrite Er, Em).
    assert (∀ j q u id, tasks s' !! j = Some (q, u) → waits u = Some id → tasks s !! j = Some (q, u)) as Hold.
    { intros j q u id Hj Hid. rewrite Et in Hj. apply lookup_app_Some in Hj as [Hj|[_ Hj]]; [done|].
      pose proof (Forall_lookup_1 _ _ _ _ Hnew Hj) as Hno. cbn in Hno. congruence. }
    unfold queued. rewrite Es, Er, En. split; [done|]. split; [done|]. split.
    + intros j q u id Hj Hid. unfold looping. rewrite Em. eapply Hw; eauto.
    + intros j1 j2 q1 q2 u1 u2 id H1 H2 Hu1 Hu2. eapply Hinj; eauto.
  - apply crash_inv in Hs as (why & -> & _). split; [exact Hcap|]. split; [by split|]. split; [|exact Hinj].
    intros i p t id Hi Hid. destruct (Hw i p t id Hi Hid) as [Hlt' _]. by split.
Qed.

End queue.

(** ** Coming to rest *)

(** Nobody will serve the task any more: its request has no answer, or it
    cannot even be sent. *)
Definition stuck (s : system) (t : task) : Prop :=
  match t with
  | Awaiting _ _ _ id _ => id ∉ (Main.replies (main s)).*1
  | Discovering _ _ (Discovery.Reloading _) _ => length (requests s) = requests_capacity
  | _ => False
  end.

Section rest.
Context `{UnicodeTables, Yaml}.
Context (configPath : string) (cfg : settings).

Definition some_env : env := mkEnv (λ _ _, inl (ErrMsg "")) (λ V m, map_to_list m).
Definition some_call : Discovery.call_env := Discovery.mkCallEnv (λ _, inl (ErrMsg "")) None some_env.
Definition some_network : Server.network :=
  Server.mkNetwork 0 "" (λ _, inl (ErrMsg "")) (λ _ _, (false, None)) ClientToBackend (λ _, (0%Z, None)).

(** The main goroutine serves a request if there is one. *)
Lemma serves s id rest :
  looping s → requests s = id :: rest → ∃ s', internal_step configPath cfg s s'.
Proof.
  intros Hp Hq. eexists. exists (Loop (Main.ReloadRequest id some_env (disk s))). split; [done|].
  apply s_main; [by left|]. apply d_request; [done|done|]. intros V m. apply range_order_self.
Qed.

(** A goroutine of a process that has not exited has ended, or is stuck after
    the loop, or something can move. *)
Lemma progress s i p t :
  fueled s → queued s → Server.system_ok cfg (view s) → Server.system_safe (view s) → alive s → tasks s !! i = Some (p, t) →
  ended t ∨ (draining s ∧ stuck s t) ∨ ∃ s', internal_step configPath cfg s s'.
Proof.
  intros Hf (Hcap & _ & Hw & _) Hok [Hrt Hsafe] Ha Hi.
  assert (∀ s', step configPath cfg (Task i) s s' → ∃ s', internal_step configPath cfg s s') as Hstep.
  { intros s' Hs. exists s'. by exists (Task i). }
  destruct (Forall_lookup_1 _ _ _ _ Hf Hi) as [n Hn]. cbn [snd] in Hn.
  destruct t as [[a|e k]|host port st k|host port addrs id k]; [left|right..].
  { pose proof (Server.ok_ret cfg (view s) i p a Hok (view_lookup _ _ _ _ Hi)) as ->. exact I. }
  - right. destruct (is_discover e) eqn:Ed.
    + destruct e; try done. by eapply Hstep, s_enter.
    + destruct (Server.respond cfg some_network (srv s) p e) as [[sh p'] a] eqn:Er.
      pose proof (Forall_lookup_1 _ _ _ _ Hsafe (view_lookup _ _ _ _ Hi)) as Ht.
      destruct (Server.thread_safe_next _ _ _ _ _ _ _ _ _ Hrt Ht Er) as (Hc & _).
      eapply Hstep, s_effect; [done|exact Hi|done| |exact Er|exact Hc].
      exact (Server.ok_never_blocked cfg (view s) i p e k Hok (view_lookup _ _ _ _ Hi)).
  - destruct (own_step st) eqn:Eo.
    + right. destruct (Discovery.advance configPath some_call host port st (world_of s)) as [st' w] eqn:Ea.
      by eapply Hstep, s_discover.
    + destruct st as [| | | |addrs|r|r]; try done.
      * destruct (decide (length (requests s) < requests_capacity)%nat) as [Hlt|Hge].
        { right. by eapply Hstep, s_request. }
        destruct Ha as [Hp|Hp]; [right|left; split; [done|]; cbn; lia].
        destruct (requests s) as [|id rest] eqn:Eq; [cbn in Hge; unfold requests_capacity in Hge; lia|].
        by eapply serves.
      * right. destruct Hn as [Hst _]. destruct r as [added|err|w]; [| |done];
          (eapply Hstep, s_return; [done|exact Hi|reflexivity]).
  - destruct (decide (id ∈ (Main.replies (main s)).*1)) as [Hin|Hno].
    + right. apply list_elem_of_fmap in Hin as ([id' err] & -> & Hin). by eapply Hstep, s_answer.
    + destruct Ha as [Hp|Hp]; [right|by left].
      destruct (Hw i p _ id Hi eq_refl) as [_ Hs]. specialize (Hs Hp).
      apply elem_of_app in Hs as [Hs|Hs]; [done|].
      destruct (requests s) as [|id' rest] eqn:Eq; [by apply not_elem_of_nil in Hs|]. by eapply serves.
Qed.

(** When every goroutine has ended, nothing is held. *)
Lemma all_ended s :
  Server.system_ok cfg (view s) → Forall (λ t, ended t.2) (tasks s) →
  Server.wg (srv s) = 0 ∧ Server.connSlots (srv s) = 0 ∧ Server.dialSlots (srv s) = 0.
Proof.
  intros Hok Hend. assert (Server.drained (view s)) as Hd.
  { apply (Server.ok_drained cfg); [done|]. apply Forall_fmap. eapply Forall_impl; [exact Hend|].
    intros [p t]. by rewrite ended_thread. }
  split; [exact Hd|]. exact (Server.ok_drained_slots cfg _ Hok Hd).
Qed.

(** A task that waits for an answer that was not sent before the loop ended
    waits for ever. *)
Definition stranded (rs : list (nat * option goerror)) (i : nat) (x : Server.peer * task) (s : system) : Prop :=
  ¬ looping s ∧ Main.replies (main s) = rs ∧ tasks s !! i = Some x.

Lemma step_stranded rs i p host port addrs id k l s s' :
  step configPath cfg l s s' → id ∉ rs.*1 →
  stranded rs i (p, Awaiting host port addrs id k) s → stranded rs i (p, Awaiting host port addrs id k) s'.
Proof.
  intros Hs Hid (Hp & Hr & Hi). destruct l as [j|ev| |].
  - destruct (frame configPath cfg _ s s' Hs) as [(sh & Em & _) _]; [done|].
    destruct (task_queue configPath cfg s j s' Hs) as (q & t & q' & t' & Hj & Et & _).
    split; [by unfold looping; rewrite Em|]. split; [by rewrite Em|]. rewrite Et.
    destruct (decide (j = i)) as [->|Hne]; [|by rewrite list_lookup_insert_ne].
    exfalso. rewrite Hi in Hj. injection Hj as <- <-.
    inversion Hs as [s0 i0 p0 e k0 net sh0 p'' a _ Hi0|s0 i0 p0 host0 port0 k0 _ Hi0
      |s0 i0 p0 host0 port0 st k0 ce st' w _ Hi0|s0 i0 p0 host0 port0 addrs0 k0 _ Hi0
      |s0 i0 p0 host0 port0 addrs0 id0 k0 err _ Hi0 He|s0 i0 p0 host0 port0 r k0 a _ Hi0
      | | | | | | | | | | | |]; subst; rewrite Hi in Hi0; try done.
    injection Hi0 as <- <- <- <- <- <-. apply Hid, list_elem_of_fmap. by eexists (_, err).
  - destruct (loop_queue configPath cfg ev s s' Hs) as (Et & _ & _ & Hlo & _).
    split; [auto|]. rewrite Et. split; [|done].
    inversion Hs as [| | | | | |s0 ev0 s1 Ha Hdel E1 E2 E3| | | | | | | | | | |]; subst.
    destruct (delivers_same _ _ _ Hdel) as (Em & _). unfold main_goes_on. cbn. rewrite Em.
    by apply Main.on_event_after.
  - destruct (frame configPath cfg _ s s' Hs) as [(sh & Em & _) _]; [done|].
    destruct (environment_queue configPath cfg s s' Hs) as (_ & _ & new & Et & _).
    split; [by unfold looping; rewrite Em|]. split; [by rewrite Em|]. rewrite Et. by apply lookup_app_l_Some.
  - apply crash_inv in Hs as (why & -> & _). by split_and!.
Qed.

End rest.

(** ** Properties of the process *)

Section properties.
Context `{UnicodeTables, Yaml}.
Context (configPath : string).

Lemma reachable_rtc p0 s s' :
  reachable configPath p0 s →
  rtc (any_step configPath (Main.settings_of (rs_cfg (Main.state p0)))) s s' → reachable configPath p0 s'.
Proof. intros (e & f & ? & ? & ?) Hr. exists e, f. split_and!; [done|done|by etrans]. Qed.

Lemma internal_any cfg s s' : rtc (internal_step configPath cfg) s s' → rtc (any_step configPath cfg) s s'.
Proof. apply rtc_subrel. intros a b (l & _ & Hs). by exists l. Qed.

Lemma reachable_lively p0 s :
  reachable configPath p0 s →
  fueled s ∧ queued s ∧ Server.system_ok (Main.settings_of (rs_cfg (Main.state p0))) (view s).
Proof.
  intros Hr. destruct (reachable_server configPath p0 s Hr) as (rt & _ & Hv).
  assert (fueled s ∧ queued s) as [Hf Hq]; [|split_and!; [done|done|]; eapply Server.reach_ok, Hv; by intros n [= <-]].
  destruct Hr as (e & f & Hst & _ & Hr).
  apply (rtc_preserve _ (λ s, fueled s ∧ queued s) _ _) in Hr; [done| |].
  - intros a b [l Hl] [? ?]. split; [by eapply step_fueled|by eapply step_queued].
  - destruct (start_Ok e f p0 Hst) as (next & rt' & c & _ & ->). split; [by constructor|].
    split; [cbn; lia|]. split; [|split; by intros].
    unfold sent. cbn. split; [constructor|]. by intros id ?%not_elem_of_nil.
Qed.

(** C4: sessions end: between two events from outside, the goroutines and the reload requests they send to the main goroutine come to rest after finitely many steps, in whatever order they are scheduled and whatever the network answers; the main loop and the discoverer do not deadlock, for when the process is at rest in its loop every session has ended and no slot and no place in the wait group is held; and while the process drains, only sessions that wait for a reload which nobody serves any more have not ended. *)
Theorem sessions_finish p0 s :
  reachable configPath p0 s →
  let internal := internal_step configPath (Main.settings_of (rs_cfg (Main.state p0))) in
  sn internal s ∧
  ∀ s', rtc internal s s' → nf internal s' →
    (looping s' →
     Forall (λ t, ended t.2) (tasks s') ∧
     Server.wg (srv s') = 0 ∧ Server.connSlots (srv s') = 0 ∧ Server.dialSlots (srv s') = 0) ∧
    (draining s' → Forall (λ t, ended t.2 ∨ stuck s' t.2) (tasks s')).
Proof.
  intros Hr internal. split; [by apply internal_terminates, (reachable_lively p0)|].
  intros s' Hr' Hnf. assert (reachable configPath p0 s') as Hs' by (by eapply reachable_rtc, internal_any).
  destruct (reachable_lively p0 s' Hs') as (Hf & Hq & Hok).
  destruct (reachable_server configPath p0 s' Hs') as (rt & Hwf & Hv).
  pose proof (Server.reach_safe _ _ _ _ Hwf Hv) as Hsafe.
  assert (alive s' → ∀ i p t, tasks s' !! i = Some (p, t) → ended t ∨ draining s' ∧ stuck s' t) as Hrest.
  { intros Ha i p t Hi. destruct (progress configPath _ s' i p t Hf Hq Hok Hsafe Ha Hi) as [?|[?|Hs]]; [by left|by right|].
    by destruct Hnf. }
  split.
  - intros Hp. assert (Forall (λ t, ended t.2) (tasks s')) as Hend.
    { apply Forall_lookup. intros i [p t] Hi. destruct (Hrest (or_introl Hp) i p t Hi) as [|[Hd _]]; [done|].
      unfold looping, draining in *. congruence. }
    split; [done|]. by eapply all_ended.
  - intros Hp. apply Forall_lookup. intros i [p t] Hi.
    destruct (Hrest (or_intror Hp) i p t Hi) as [|[_ ?]]; [by left|by right].
Qed.

(** C33: a session can be stranded: a connection whose reload request has not been answered when the main loop ends waits for ever, so the wait group does not reach zero and [server.Wait] can only time out. *)
Theorem stranded_discovery p0 s i p host port addrs id k s' :
  reachable configPath p0 s → draining s →
  tasks s !! i = Some (p, Awaiting host port addrs id k) → id ∉ (Main.replies (main s)).*1 →
  rtc (any_step configPath (Main.settings_of (rs_cfg (Main.state p0)))) s s' →
  tasks s' !! i = Some (p, Awaiting host port addrs id k) ∧ Server.wg (srv s') ≠ 0 ∧
  (draining s' → ∀ s'', ¬ delivers s' (Main.WaitDone true) s'').
Proof.
  intros Hr Hp Hi Hid Hs'.
  assert (stranded (Main.replies (main s)) i (p, Awaiting host port addrs id k) s') as (_ & _ & Hi').
  { apply (rtc_preserve _ (λ s', stranded (Main.replies (main s)) i (p, Awaiting host port addrs id k) s') _ _) in Hs';
      [done| |].
    - intros a b [l Hl]. by eapply step_stranded.
    - split; [|done]. unfold draining, looping in *. congruence. }
  destruct (reachable_lively p0 s') as (_ & _ & Hok); [by eapply reachable_rtc|].
  assert (Server.wg (srv s') ≠ 0) as Hwg.
  { intros Hd. apply (Server.ok_drained _ (view s') Hok) in Hd.
    apply (Forall_lookup_1 _ _ _ _ Hd (view_lookup _ _ _ _ Hi')). }
  split_and!; [done|done|]. intros _ s'' Hdel. by inversion Hdel as [| | | | | |b _ Hb]; subst; apply Hwg, Hb.
Qed.

(** C22: the reload requests of the discoverer: at any time the channel holds at most four of them, each has its own identity, and each is answered at most once; while the main loop runs the request of every waiting call is in the queue or has been answered, and no two calls wait for the same answer. *)
Theorem requests_served p0 s :
  reachable configPath p0 s →
  (length (requests s) ≤ requests_capacity)%nat ∧ NoDup ((Main.replies (main s)).*1 ++ requests s) ∧
  (∀ i p host port addrs id k, looping s → tasks s !! i = Some (p, Awaiting host port addrs id k) →
     (id ∈ (Main.replies (main s)).*1 ∨ id ∈ requests s) ∧
     ∀ j q host' port' addrs' k', tasks s !! j = Some (q, Awaiting host' port' addrs' id k') → j = i).
Proof.
  intros Hr. destruct (reachable_lively p0 s Hr) as (_ & (Hcap & (Hnd & _) & Hw & Hinj) & _).
  split_and!; [done|done|]. intros i p host port addrs id k Hp Hi. split.
  - apply elem_of_app. by eapply Hw.
  - intros j q host' port' addrs' k' Hj. by eapply (Hinj j i).
Qed.

End properties.

(** ** Witnesses *)

#[local] Existing Instance ascii_tables.
#[local] Existing Instance Discovery.text_yaml.

Lemma abandoned_reachable : reachable "config.yaml" started_process (after abandoned).
Proof.
  apply sample_reachable; [|vm_compute; reflexivity]. apply Forall_app. split; [exact asking_ok|by repeat constructor].
Qed.

Lemma sessions_finish_witness :
  sn (internal_step "config.yaml" started_settings) (after asking).
Proof. exact (proj1 (sessions_finish "config.yaml" started_process (after asking) asking_reachable)). Defined.

Lemma requests_served_witness :
  0 ∈ (Main.replies (main (after asking))).*1 ∨ 0 ∈ requests (after asking).
Proof.
  assert (awaited (after asking) 0 = Some 0) as Hw by (vm_compute; reflexivity).
  destruct (awaited_task _ _ _ Hw) as (p & host & port & addrs & k & Hi).
  destruct (requests_served "config.yaml" started_process (after asking) asking_reachable) as (_ & _ & Hq).
  exact (proj1 (Hq 0 p host port addrs 0 k ltac:(apply is_looping_spec; vm_compute; reflexivity) Hi)).
Defined.

(** The session of the discovered host when the process is terminated before it
    serves the reload request. *)
Lemma stranded_discovery_witness : Server.wg (srv (after abandoned)) ≠ 0.
Proof.
  assert (awaited (after abandoned) 0 = Some 0) as Hw by (vm_compute; reflexivity).
  destruct (awaited_task _ _ _ Hw) as (p & host & port & addrs & k & Hi).
  refine (proj1 (proj2 (stranded_discovery "config.yaml" started_process (after abandoned) 0 p host port addrs 0 k
    (after abandoned) abandoned_reachable _ Hi _ (rtc_refl _ _)))).
  - unfold draining. vm_compute. reflexivity.
  - assert (Main.replies (main (after abandoned)) = []) as -> by (vm_compute; reflexivity). apply not_elem_of_nil.
Defined.
